(* ===== verification/_CoqProject ===== *)
-Q . S2P
Overview.v
Prelude.v
JsObject.v
JsString.v
Poll.v
VmStates.v
JobPanel.v
TableFilter.v
IsoUpload.v
Words.v
Keysyms.v
ConsoleTyping.v
ConsoleKeys.v
Websock.v
Requests.v
CreateForm.v
CreateLists.v
XmlEditor.v
Charts.v
FindAddress.v
Gestures.v
KeyTables.v
Keyboard.v
NewVmDialog.v
Confirm.v
Dialogs.v
PageScripts.v
InstancePage.v
Base64.v
Decoders.v
Display.v
Messages.v
BootOrder.v
Migrate.v
Connection.v
Utf8.v
Inflator.v
ServerMessages.v
ServerRuns.v
ServerTypes.v
ServerCases.v
Des.v
DiffieHellman.v
Handshake.v
HandshakeRuns.v
Login.v
Mouse.v
Resumable.v
Tight.v
Zrle.v
Jpeg.v
AllDecoders.v
View.v
H264.v
Aes.v
Rsa.v
Ra2.v
