(* ===== verification/Overview.v ===== *)
(** * WebVirtCloud: the scripts of its pages and of its VNC console

    WebVirtCloud is a web panel for libvirt.  Its pages are rendered by a Django
    server; what moves in them is JavaScript under src/static/js and
    src/operations/static, and the VNC console is a copy of noVNC under
    src/static/js/novnc.  This library models that JavaScript.  Every
    definition is translated from the source and executable; names are the
    source's where Rocq allows it.

    ** How the parts interact

    - The pages poll the server ([Poll.v]).  The follower of the VM list
      ([VmStates.v]), the job panel ([JobPanel.v], proved on the poller's own
      machine), the charts ([Charts.v]) and the VM page's status
      ([PageScripts.v], [Status]) are clients of that poller.
    - The forms and dialogs are machines over the events the browser delivers:
      clicks, inputs, timers, the answers of the requests they made
      ([Requests.v]: a newer load aborts the older one).
    - The console reads the server's bytes from a queue ([Websock.v]) on which
      the decoders read rectangles ([Decoders.v], through the interface
      [Buffer]) and draw them on the screen ([Display.v]).  What it sends are
      the messages of [Messages.v], written to the send queue of [Websock.v]:
      keys ([Keyboard.v], with the tables of [KeyTables.v] and [Keysyms.v]),
      text ([ConsoleTyping.v]), combinations ([ConsoleKeys.v]), the mouse.
    - The connection of the console is [Connection.v]; the handshake
      ([Handshake.v], with [Des.v] and [DiffieHellman.v] for its passwords) fills
      in the state on which [ServerMessages.v] then handles the server's messages.
      These call the decoders through the interface [RectDecoders], which
      [AllDecoders.v] gives its instance, and have effects that [Display.v],
      [View.v] ([desktop_message]) and the page take.  The table leaves H.264
      out: [H264.v] draws a rectangle later, when its frame has come.
      [Mouse.v] turns the events of the mouse and of [Gestures.v] into the
      messages of [Messages.v].
    - The RSA-AES login ([Ra2.v], over [Aes.v] and [Rsa.v]) reads the queue on its
      own: to the handshake it is an environment.

    ** Conventions

    A script is a machine: a state record with the variables of its closure, an
    event type, a [step] that is the body of the event's handler and returns the
    new state and the effects it had in order, and a predicate [enabled] for the
    events the browser can deliver in a state ([Prelude.v]: [reachable], [run],
    [trace]; handlers with [seq], [emit], [for_each]).  Objects used as maps are
    association lists in insertion order ([JsObject.v]), strings are lists of
    8-bit code units ([JsString.v]; [toLowerCase] is that of these,
    [toUpperCase] and [trim] are those of ASCII, and no replacement text has a
    [$] pattern), typed text is a list of UTF-16 units, integers are [Z] with the
    width written where the source truncates ([Words.v]); a number the source
    computes in floating point is an exact integer or rational.

    ** The files and the code they model

    Pages (src/static/js unless another directory is named):
    - [Poll.v]: poll.js, [pollWhileVisible] and [pageInUse].
    - [VmStates.v]: vm_states.js, the key of an answer and its handler.
    - [JobPanel.v]: operations/static/operations/job_panel.js and the flag of
      please_wait.js.
    - [TableFilter.v]: table_filter.js.  [IsoUpload.v]: storage_page.js, the
      upload in chunks ([IsoUpload]) and the Clone dialog.
    - [Requests.v], [CreateForm.v] ([Rows]), [CreateLists.v] ([Presets],
      [Templates]): create_instance.js.
    - [XmlEditor.v]: xml_editor.js.  [Charts.v]: charts.js, host_graphs.js,
      instance_stats.js.  [FindAddress.v]: find_address.js.
    - [NewVmDialog.v]: new_vm_dialog.js.  [Confirm.v]: confirm_dialog.js.
      [Dialogs.v]: choice_dialog.js, pool_dialog.js, network_dialog.js,
      interface_dialog.js.
    - [PageScripts.v]: create_machine.js, console_serial.js, host_groups.js,
      instance_status.js, error_focus.js, secrets_page.js, network_page.js,
      user_form.js, login_form.js, a module each.
    - [InstancePage.v] ([CloneDisks], [Quiesce], [Tabs]), [BootOrder.v],
      [Migrate.v]: instance_page.js and instance_tabs.js.
    - [ConsoleTyping.v], [ConsoleKeys.v]: console_layouts.js, console_vnc.js,
      console_keys.js.

    noVNC (src/static/js/novnc/core):
    - [Websock.v]: websock.js.  [Messages.v]: encodings.js and [RFB.messages],
      keys, mouse, power, clipboard and encodings of rfb.js.
    - [Keysyms.v], [KeyTables.v], [Keyboard.v], [Gestures.v]: the directory input.
    - [Decoders.v]: raw, copyrect, rre and hextile of decoders and the call of a
      decoder in rfb.js.  [Display.v]: display.js.  [Base64.v]: base64.js.
    - [Resumable.v], [Tight.v] (tight.js, tightpng.js), [Zrle.v] (zlib.js and
      zrle.js: [Zlib], [Zrle]), [Jpeg.v], [AllDecoders.v]: the other decoders and
      the table of all of them but [H264.v] (h264.js).
      [Inflator.v]: inflator.js, deflator.js.  [Utf8.v]: util/strings.js.
    - rfb.js: [Connection.v], the states of the connection; [Handshake.v],
      [_initMsg] and its handlers, [HandshakeRuns.v] its runs, [Login.v] a login
      with a password from end to end; [ServerMessages.v], [_normalMsg] and its
      handlers, [ServerRuns.v] its runs, [ServerTypes.v] the types of its state,
      [ServerCases.v] single messages; [Mouse.v], mouse, wheel and gestures;
      [View.v], clipping, scaling, remote resizing and the console's properties,
      with [applyView] of console_vnc.js.
    - [Des.v]: crypto/des.js.  [DiffieHellman.v]: crypto/bigint.js and dh.js.
      [Aes.v]: crypto/aes.js.  [Rsa.v]: crypto/rsa.js.  [Ra2.v]: ra2.js.

    ** What the theorems show

    - Polling: one request at a time, only while the page is visible, the next
      one an interval after the answer, never stalled while answers come.
    - The job panel: no job started by the page is lost, the awaited ones are
      asked for until they end, the page is held meanwhile and moves on only when
      no outcome is lost by it, text of the server is never markup.
    - The VM list: its key tells answers apart whatever their order, and the page
      reloads exactly on a change.
    - Forms and dialogs: what is sent is what is shown or what was asked about
      (rows, boot order, XML, migration, erasing a disk, the confirm dialog),
      whatever the order of answers; an ISO upload sends the file's bytes in
      order, one chunk at a time, and tries a failed chunk again; a search
      shows exactly the rows that hold it in any case, and stays applied.
    - Console input: a typed text is what the VM reads on its layout, no key
      stays down, gestures end, characters have their keysym.
    - Console data: the receive queue is a FIFO and the send queue keeps order;
      rectangles do not depend on how their bytes are cut into messages; drawings
      are done in order behind images that load, and a flip shows the screen.
    - The connection's transitions end it once, whatever its socket and timer do.
      A console is connected only when the bytes of the server's security result
      said so, or it asked for none; a login with a password
      gets through in any chunks; the answer to a challenge is DES as FIPS 46-3
      has it; EAX is what it is defined to be and decrypts only its own; what is
      encrypted to an RSA key is decrypted by it.
    - The RSA-AES login sends nothing to a server that was not approved, the
      password only to one that has proved it knows both keys and randoms, and
      such a server, if its random comes in one piece, then reads the UTF-8 of the
      password, cut to 255 bytes.
    - Server messages: chunks and pauses do not matter (but for an update without
      rectangles that waits for the screen), the state keeps the
      widths of its fields, and the loops over messages and handshake end.
    - Decoders: a rectangle of any of the nine encodings is drawn the same however
      its bytes come; a picture in the tight encoding is drawn as it was.
      As long as no video decoder fails every frame finds its place.
    - Mouse and touch, while the screen is not dragged: the server always knows
      the buttons, fingers that are gone leave none down, moves are spaced and the
      last one is not lost.
    - The screen: requests of another size come one at a time and 100 ms apart,
      the remote screen follows the window, and the canvas fits it.

    Liveness is proved as such: a run of the machine in which the answers come,
    with the effect in a later state.  Loops are structural or have fuel with a
    theorem that it is enough: the send queue's loop ends on an open channel, the
    decoders' loops count down what is left of the rectangle.

    ** Parameters and hypotheses

    What is not under src/ or is the browser's is a parameter with its
    documented behaviour: [Math.hypot] and [Math.atan2] of [Gestures.v], the
    compositing of a 2D context ([Compositing] in [Display.v]), jQuery's
    requests (an answer or an error, none after [abort]), Bootstrap's modals
    (their transitions), Tom Select's items, the clock (time does not go
    back).  Of noVNC: pako
    (class [Pako] of [Inflator.v]: what a call of it takes and gives; the laws
    the decoders need are those of a stream that goes on where it stopped, and
    [Capacity] of [Zrle.v]: it gives no more than it holds), AES, AES-CBC and
    AES-CTR (class [WebCrypto] of [Aes.v]), SHA-1, the RSA key the browser draws
    ([drawn] of [Rsa.v], a key as RFC 8017 defines one), whether it can decode a
    video ([configurable] of [H264.v]), the MD5 and AES-ECB of the Apple login
    ([ard_encrypt]), random bytes as what they turn out to be, the drag
    threshold of util/browser.js, and what the browser measures of a box
    ([client_size] of [View.v]).

    Fuel: the loop over messages has two turns more than bytes, since a message
    takes at least one; the handshake has three per byte and four more, since
    between two of its bytes it changes its state at most three times; a scroll
    has as many turns as steps in its distance; a run's length in ZRLE one more
    than the stream can give; a ZRLE tile one per pixel; a JPEG file one per byte
    of the queue; the RSA-AES login two, since one wait for bytes may follow
    another but no third does.


    ** Not modelled

    - The Django server and its services (Python): the scripts meet it as answers.
    - Vendored libraries: socket.io, jQuery, Bootstrap, Chart.js, Tom Select,
      tablesort, xterm, ace, pako.
    - Scripts of a few lines that only call the browser: links, windows,
      sorting, network filter pages, requests that copy an answer to a field.
    - noVNC: MD5 and the table of algorithms (crypto.js), the cursor's canvas and
      its dot, logging and the event helpers.

*)
