(* ===== verification/Prelude.v ===== *)
(** * What the models share: machines over events, their runs and invariants,
    handlers as state-and-effects functions *)
From stdpp Require Export base list strings numbers gmap.
From Stdlib Require Export ZArith Lia.

(** ** Machines

    The scripts of the panel are event handlers over the variables of a
    closure.  A handler is a function from the state to the new state and the
    effects it has on the page (requests, reloads, sent keys ...), in order. *)
Section machine.
Context {S E O : Type}.
(** [enabled s e]: the browser can deliver the event [e] in the state [s]. *)
Variable enabled : S → E → Prop.
Variable step : S → E → S * list O.

Inductive reachable (s0 : S) : S → Prop :=
  | reachable_init : reachable s0 s0
  | reachable_step s e : reachable s0 s → enabled s e → reachable s0 (step s e).1.

(** A finite run: the states follow the events, the effects are collected. *)
Fixpoint run (s : S) (es : list E) : S * list O :=
  match es with
  | [] => (s, [])
  | e :: es => let '(s1, o1) := step s e in
               let '(s2, o2) := run s1 es in (s2, o1 ++ o2)
  end.

(** Rule induction for invariants, the form every component uses. *)
Lemma reachable_invariant (I : S → Prop) s0 :
  I s0 → (∀ s e, I s → enabled s e → I (step s e).1) →
  ∀ s, reachable s0 s → I s.
Proof. intros H0 Hstep s Hr. induction Hr; eauto. Qed.

(** The runs the browser can produce: every event enabled where it comes. *)
Inductive trace : S → list E → S → list O → Prop :=
  | trace_nil s : trace s [] s []
  | trace_cons s e es s' os :
     enabled s e → trace (step s e).1 es s' os →
     trace s (e :: es) s' ((step s e).2 ++ os).

Lemma trace_run s es s' os : trace s es s' os → run s es = (s', os).
Proof.
  induction 1 as [|s e es s' os He Ht IH]; [done|]. simpl.
  destruct (step s e) as [s1 o1]; simpl in *. by rewrite IH.
Qed.

(** A concrete run is such a run when each event is enabled where it comes. *)
Fixpoint admissible (s : S) (es : list E) : Prop :=
  match es with [] => True | e :: es => enabled s e ∧ admissible (step s e).1 es end.
Lemma run_trace s es : admissible s es → trace s es (run s es).1 (run s es).2.
Proof.
  revert s. induction es as [|e es IH]; intros s; [constructor|]. intros [He Ha]. simpl.
  specialize (IH _ Ha). destruct (step s e) as [s1 o1] eqn:E1. simpl in *. destruct (run s1 es) as [s2 o2] eqn:E2. simpl in *.
  pose proof (trace_cons s e es s2 o2 He) as H. rewrite E1 in H. by apply H.
Qed.

Lemma trace_reachable s0 s es s' os : reachable s0 s → trace s es s' os → reachable s0 s'.
Proof. intros Hr Ht. induction Ht; eauto using reachable_step. Qed.

(** Induction on a run from its end. *)
Lemma trace_snoc s es s' os e :
  trace s es s' os → enabled s' e → trace s (es ++ [e]) (step s' e).1 (os ++ (step s' e).2).
Proof.
  intros Ht He. induction Ht as [s|s e' es s' os He' Ht IH]; simpl.
  - rewrite <- (app_nil_r (step s e).2). constructor; [done|constructor].
  - rewrite <- app_assoc. constructor; auto.
Qed.
Lemma trace_snoc_ind s0 (P : list E → S → list O → Prop) :
  P [] s0 [] →
  (∀ es s os e, trace s0 es s os → P es s os → enabled s e → P (es ++ [e]) (step s e).1 (os ++ (step s e).2)) →
  ∀ es s os, trace s0 es s os → P es s os.
Proof.
  intros H0 Hs es s os Ht.
  assert (∀ s1 es s os, trace s1 es s os → ∀ es0 os0, trace s0 es0 s1 os0 → P es0 s1 os0 → P (es0 ++ es) s (os0 ++ os)) as Hg.
  { clear es s os Ht. induction 1 as [s1|s1 e es s os He Ht IH]; intros es0 os0 Ht0 HP; [by rewrite !app_nil_r|].
    specialize (IH (es0 ++ [e]) (os0 ++ (step s1 e).2)). rewrite <- !app_assoc in IH. apply IH.
    - by apply trace_snoc.
    - by apply Hs. }
  exact (Hg s0 es s os Ht [] [] (trace_nil s0) H0).
Qed.

Lemma run_invariant (I : S → Prop) s es :
  I s → (∀ s e, I s → I (step s e).1) → I (run s es).1.
Proof.
  intros HI Hstep. revert s HI. induction es as [|e es IH]; intros s HI; [done|].
  simpl. specialize (Hstep s e HI). destruct (step s e) as [s1 o1]; simpl in *.
  specialize (IH s1 Hstep). by destruct (run s1 es).
Qed.

Lemma run_app s es1 es2 :
  run s (es1 ++ es2) =
    ((run (run s es1).1 es2).1, (run s es1).2 ++ (run (run s es1).1 es2).2).
Proof.
  revert s. induction es1 as [|e es1 IH]; intros s; simpl.
  - by destruct (run s es2).
  - destruct (step s e) as [s1 o1]. rewrite IH.
    destruct (run s1 es1) as [s2 o2]; simpl.
    by rewrite app_assoc.
Qed.
End machine.
Arguments reachable {_ _ _} _ _ _ _.
Arguments trace {_ _ _} _ _ _ _ _ _.
Arguments run {_ _ _} _ _ _.
Arguments admissible {_ _ _} _ _ _ _.

(** A component without effects the model names: its handlers as a step. *)
Definition silent {S E : Type} (f : S → E → S) (s : S) (e : E) : S * list Empty_set := (f s e, []).
Lemma reachable_silent {S E} (enabled : S → E → Prop) (f : S → E → S) s0 s e s' :
  reachable enabled (silent f) s0 s → enabled s e → f s e = s' → reachable enabled (silent f) s0 s'.
Proof. intros Hr He <-. exact (reachable_step enabled (silent f) s0 s e Hr He). Qed.

(** A concrete run of it: each event enabled where it comes. *)
Fixpoint allowed {S E} (enabled : S → E → Prop) (f : S → E → S) (s : S) (es : list E) : Prop :=
  match es with [] => True | e :: es => enabled s e ∧ allowed enabled f (f s e) es end.
Lemma reachable_allowed {S E} (enabled : S → E → Prop) (f : S → E → S) s0 es :
  allowed enabled f s0 es → reachable enabled (silent f) s0 (foldl f s0 es).
Proof.
  assert (∀ es s, reachable enabled (silent f) s0 s → allowed enabled f s es →
    reachable enabled (silent f) s0 (foldl f s es)) as H; [|intros Ha; apply H; [constructor|done]].
  clear es. induction es as [|e es IH]; intros s Hr; [done|]. intros [He Ha]. simpl. apply IH; [|done].
  by eapply reachable_silent.
Qed.

(** ** Handlers

    The body of an event handler: it updates the state and has effects, in
    the order of its statements. *)
Definition handler (S O : Type) : Type := S → S * list O.

Declare Scope handler_scope.
Delimit Scope handler_scope with handler.
Bind Scope handler_scope with handler.

Section handlers.
Context {S O : Type}.
Definition skip : handler S O := λ s, (s, []).
Definition modify (f : S → S) : handler S O := λ s, (f s, []).
Definition emit (o : O) : handler S O := λ s, (s, [o]).
Definition seq (f g : handler S O) : handler S O :=
  λ s, let '(s1, o1) := f s in let '(s2, o2) := g s1 in (s2, o1 ++ o2).
(** a statement that reads the state *)
Definition with_state (f : S → handler S O) : handler S O := λ s, f s s.
(** [l.forEach(f)] *)
Fixpoint for_each {A} (l : list A) (f : A → handler S O) : handler S O :=
  match l with [] => skip | x :: l => seq (f x) (for_each l f) end.

(** What a handler keeps. *)
Definition preserves (I : S → Prop) (h : handler S O) : Prop := ∀ s, I s → I (h s).1.

Lemma preserves_skip I : preserves I skip.
Proof. by intros s. Qed.
Lemma preserves_emit I o : preserves I (emit o).
Proof. by intros s. Qed.
Lemma preserves_modify (I : S → Prop) f : (∀ s, I s → I (f s)) → preserves I (modify f).
Proof. intros H s. apply H. Qed.
Lemma seq_fst f g s : (seq f g s).1 = (g (f s).1).1.
Proof. unfold seq. destruct (f s) as [s1 o1]; simpl. by destruct (g s1). Qed.
Lemma seq_snd f g s : (seq f g s).2 = (f s).2 ++ (g (f s).1).2.
Proof. unfold seq. destruct (f s) as [s1 o1]; simpl. by destruct (g s1). Qed.
Lemma seq_assoc f g h s : seq (seq f g) h s = seq f (seq g h) s.
Proof.
  unfold seq. destruct (f s) as [s1 o1]. destruct (g s1) as [s2 o2]. destruct (h s2) as [s3 o3].
  by rewrite app_assoc.
Qed.
Lemma preserves_seq I f g : preserves I f → preserves I g → preserves I (seq f g).
Proof. intros Hf Hg s Hs. rewrite seq_fst. by apply Hg, Hf. Qed.
Lemma preserves_for_each {A} I (l : list A) f :
  (∀ x, preserves I (f x)) → preserves I (for_each l f).
Proof. intros Hf. induction l; [by intros s|]. by apply preserves_seq. Qed.
Lemma preserves_with_state I f : (∀ s, preserves I (f s)) → preserves I (with_state f).
Proof. intros Hf s. apply Hf. Qed.

(** What the effects of a handler are. *)
Definition emits (Q : O → Prop) (h : handler S O) : Prop := ∀ s, Forall Q (h s).2.

Lemma emits_skip Q : emits Q skip.
Proof. intros s. constructor. Qed.
Lemma emits_modify Q f : emits Q (modify f).
Proof. intros s. constructor. Qed.
Lemma emits_emit (Q : O → Prop) o : Q o → emits Q (emit o).
Proof. intros H s. by repeat constructor. Qed.
Lemma emits_seq Q f g : emits Q f → emits Q g → emits Q (seq f g).
Proof. intros Hf Hg s. rewrite seq_snd. by apply Forall_app. Qed.
Lemma emits_for_each {A} Q (l : list A) f : (∀ x, emits Q (f x)) → emits Q (for_each l f).
Proof. intros Hf. induction l; [apply emits_skip|by apply emits_seq]. Qed.
Lemma emits_with_state Q f : (∀ s, emits Q (f s)) → emits Q (with_state f).
Proof. intros Hf s. apply Hf. Qed.
Lemma emits_if Q (b : bool) f g : emits Q f → emits Q g → emits Q (if b then f else g).
Proof. by destruct b. Qed.
Lemma emits_decide Q P `{Decision P} f g : emits Q f → emits Q g → emits Q (if decide P then f else g).
Proof. by case_decide. Qed.

Lemma for_each_app {A} (l1 l2 : list A) f s :
  for_each (l1 ++ l2) f s = seq (for_each l1 f) (for_each l2 f) s.
Proof.
  revert s. induction l1 as [|x l1 IH]; intros s; simpl.
  - unfold seq; simpl. by destruct (for_each l2 f s).
  - unfold seq in *. destruct (f x s) as [s1 o1]. rewrite IH.
    destruct (for_each l1 f s1) as [s2 o2]. destruct (for_each l2 f s2) as [s3 o3].
    by rewrite app_assoc.
Qed.
End handlers.
Infix "▸" := seq (at level 61, left associativity) : handler_scope.

Create HintDb handler.
#[export] Hint Resolve preserves_skip preserves_emit preserves_seq preserves_for_each
  preserves_with_state : handler.
#[export] Hint Resolve emits_skip emits_modify emits_emit emits_seq emits_for_each emits_with_state
  emits_if emits_decide : handler.

(** [preserves] and [emits] goals, statement by statement: [tac] is for the
    updates, the case analysis is the handler's own. *)
Ltac solve_preserves tac :=
  repeat match goal with
    | |- preserves _ (seq _ _) => apply preserves_seq
    | |- preserves _ (with_state _) => apply preserves_with_state; intros ?
    | |- preserves _ (for_each _ _) => apply preserves_for_each; intros ?
    | |- preserves _ skip => apply preserves_skip
    | |- preserves _ (emit _) => apply preserves_emit
    | |- preserves _ (if ?b then _ else _) => destruct b
    | |- preserves _ (match ?x with _ => _ end) => destruct x
    | |- preserves _ (modify _) => apply preserves_modify; intros ?? ; tac
    | |- preserves _ _ => solve [eauto with handler]
    end.
Ltac solve_emits tac :=
  repeat match goal with
    | |- emits _ (seq _ _) => apply emits_seq
    | |- emits _ (with_state _) => apply emits_with_state; intros ?
    | |- emits _ (for_each _ _) => apply emits_for_each; intros ?
    | |- emits _ skip => apply emits_skip
    | |- emits _ (modify _) => apply emits_modify
    | |- emits _ (if ?b then _ else _) => destruct b
    | |- emits _ (match ?x with _ => _ end) => destruct x
    | |- emits _ (emit _) => apply emits_emit; tac
    | |- emits _ _ => solve [eauto with handler]
    end.
