(* ===== verification/JsObject.v ===== *)
(** * JavaScript values the scripts share: objects used as maps, 32-bit
    integers, strings.

    A JavaScript object used as a map keeps its string keys in insertion order
    (the keys here are UUIDs, characters and names, never array indices, which
    the language would list first); assigning to an existing key keeps its
    place, [delete] removes it. *)
From S2P Require Import Prelude.

(** ** Objects used as maps *)
Abbreviation obj A := (list (string * A)).

Module JsObj.
Section obj.
Context {A : Type}.

(** [o\[k\]] *)
Fixpoint get (k : string) (o : obj A) : option A :=
  match o with
  | [] => None
  | (k', v) :: o => if decide (k = k') then Some v else get k o
  end.

(** [k in o], [o\[k\]] read as a condition when the values are truthy *)
Definition has (k : string) (o : obj A) : bool := bool_decide (is_Some (get k o)).

(** [o\[k\] = v] *)
Fixpoint set (k : string) (v : A) (o : obj A) : obj A :=
  match o with
  | [] => [(k, v)]
  | (k', v') :: o => if decide (k = k') then (k, v) :: o else (k', v') :: set k v o
  end.

(** [delete o\[k\]] *)
Definition del (k : string) (o : obj A) : obj A := filter (λ kv, kv.1 ≠ k) o.

(** [Object.keys(o)], [Object.entries(o)] *)
Definition keys (o : obj A) : list string := o.*1.

Lemma elem_of_keys k o : k ∈ keys o ↔ is_Some (get k o).
Proof.
  induction o as [|[k' v] o IH]; simpl.
  - split; [intros H; inversion H | intros [? [=]]].
  - unfold keys in *. rewrite elem_of_cons, IH. clear IH.
    case_decide; subst; [split; [by eauto|by left]|]. split; [by intros [?|?]|by right].
Qed.

Lemma get_elem_of k v o : get k o = Some v → (k, v) ∈ o.
Proof.
  induction o as [|[k' v'] o IH]; simpl; [done|].
  case_decide; intros; simplify_eq; [by left|right; by apply IH].
Qed.

Lemma get_set k k' v o : get k' (set k v o) = if decide (k' = k) then Some v else get k' o.
Proof.
  induction o as [|[k1 v1] o IH]; simpl; [done|].
  repeat (case_decide; simplify_eq/=; try congruence).
Qed.
Lemma get_set_eq k v o : get k (set k v o) = Some v.
Proof. rewrite get_set. by case_decide. Qed.
Lemma get_set_ne k k' v o : k' ≠ k → get k' (set k v o) = get k' o.
Proof. intros. rewrite get_set. by case_decide. Qed.

Lemma get_del k k' o : get k' (del k o) = if decide (k' = k) then None else get k' o.
Proof.
  unfold del. induction o as [|[k1 v1] o IH]; [by case_decide|].
  rewrite filter_cons; simpl.
  repeat (case_decide; simplify_eq/=; try congruence).
Qed.
Lemma get_del_eq k o : get k (del k o) = None.
Proof. rewrite get_del. by case_decide. Qed.
Lemma get_del_ne k k' o : k' ≠ k → get k' (del k o) = get k' o.
Proof. intros. rewrite get_del. by case_decide. Qed.

Lemma has_true k o : has k o = true ↔ is_Some (get k o).
Proof. apply bool_decide_eq_true. Qed.
Lemma has_false k o : has k o = false ↔ get k o = None.
Proof. unfold has. rewrite bool_decide_eq_false. symmetry. apply eq_None_not_Some. Qed.
Lemma has_set k k' v o : has k' (set k v o) = bool_decide (k' = k) || has k' o.
Proof.
  unfold has. rewrite get_set. case_decide as E.
  - rewrite (bool_decide_eq_true_2 (k' = k)) by done. apply bool_decide_eq_true_2. by eauto.
  - by rewrite (bool_decide_eq_false_2 (k' = k)).
Qed.
Lemma has_del k k' o : has k' (del k o) = bool_decide (k' ≠ k) && has k' o.
Proof.
  unfold has. rewrite get_del. case_decide as E.
  - rewrite (bool_decide_eq_false_2 (k' ≠ k)) by naive_solver. by apply bool_decide_eq_false_2, is_Some_None.
  - by rewrite (bool_decide_eq_true_2 (k' ≠ k)).
Qed.
Lemma keys_nil_no_key o : keys o = [] ↔ ∀ k, get k o = None.
Proof.
  split.
  - intros H k. apply eq_None_not_Some. rewrite <- elem_of_keys, H. inversion 1.
  - intros H. destruct o as [|[k v] o]; [done|]. specialize (H k). simpl in H.
    by case_decide.
Qed.

(** Each key is listed once: what assignment and [delete] keep. *)
Lemma keys_set_present k v o : is_Some (get k o) → keys (set k v o) = keys o.
Proof.
  induction o as [|[k1 v1] o IH]; simpl; [by intros [? [=]]|].
  case_decide; subst; [done|]. intros. change (k1 :: keys (set k v o) = k1 :: keys o). by rewrite IH.
Qed.
Lemma keys_set_absent k v o : get k o = None → keys (set k v o) = keys o ++ [k].
Proof.
  induction o as [|[k1 v1] o IH]; simpl; [done|].
  case_decide; [done|]. intros. change (k1 :: keys (set k v o) = k1 :: keys o ++ [k]). by rewrite IH.
Qed.
Lemma NoDup_keys_set k v o : NoDup (keys o) → NoDup (keys (set k v o)).
Proof.
  intros Hnd. destruct (get k o) eqn:E.
  - by rewrite keys_set_present.
  - rewrite keys_set_absent by done. apply NoDup_app. split_and!; [done| |by apply NoDup_singleton].
    intros x Hx Hk%list_elem_of_singleton. subst. apply elem_of_keys in Hx. rewrite E in Hx.
    by destruct Hx.
Qed.
Lemma NoDup_keys_del k o : NoDup (keys o) → NoDup (keys (del k o)).
Proof.
  unfold del, keys. induction o as [|[k1 v1] o IH]; [done|].
  rewrite filter_cons. simpl. inversion 1 as [|?? Hni Hnd]; subst. case_decide; [|by apply IH].
  simpl. constructor; [|by apply IH]. intros Hin. apply Hni.
  apply list_elem_of_fmap in Hin as ([??] & ? & Hin). apply list_elem_of_fmap.
  exists (s, a). split; [done|]. by apply list_elem_of_filter in Hin as [_ ?].
Qed.
End obj.
End JsObj.

Create HintDb jsobj.
Create Rewrite HintDb jsobj.
#[export] Hint Rewrite @JsObj.has_set @JsObj.has_del @JsObj.get_set_eq @JsObj.get_del_eq : jsobj.
#[export] Hint Resolve JsObj.NoDup_keys_set JsObj.NoDup_keys_del : jsobj.
