(* ===== verification/JsString.v ===== *)
(** * JavaScript strings

    Strings are lists of 8-bit characters (the code units of the ASCII and
    Latin-1 text the scripts take apart); the functions of the language the
    scripts use on them, and when a text made of parts can be taken apart again. *)
From S2P Require Import Prelude JsObject.
From Stdlib Require Import Ascii.
From stdpp Require Import sorting.

#[local] Open Scope string_scope.

Abbreviation chars := String.list_ascii_of_string.

Module JsString.

(** ** The language's functions *)

(** [l.join(sep)] *)
Definition join (sep : string) (l : list string) : string := String.concat sep l.

(** [l.sort()] of strings *)
Definition sort (l : list string) : list string := merge_sort String.le l.

(** [s.replace(/c/g, t)] of one character *)
Fixpoint replace_char (c : ascii) (t : string) (s : string) : string :=
  match s with
  | EmptyString => EmptyString
  | String a s => (if decide (a = c) then t else String a EmptyString) +:+ replace_char c t s
  end.

(** [s.startsWith(p)] *)
Definition startsWith (p s : string) : bool := String.prefix p s.

(** [s.includes(t)] *)
Fixpoint includes (t s : string) : bool :=
  startsWith t s || match s with EmptyString => false | String _ s => includes t s end.

(** [s.toLowerCase()], of the characters below 256: A to Z, and U+00C0 to
    U+00DE but the multiplication sign, have their small letters 32 further *)
Definition capital (n : nat) : Prop := (65 <= n <= 90 ∨ 192 <= n <= 222 ∧ n ≠ 215)%nat.
#[global] Instance capital_dec n : Decision (capital n) := _.
Definition lower_char (a : ascii) : ascii :=
  let n := nat_of_ascii a in
  if bool_decide (capital n) then ascii_of_nat (n + 32) else a.
Fixpoint toLowerCase (s : string) : string :=
  match s with
  | EmptyString => EmptyString
  | String a s => String (lower_char a) (toLowerCase s)
  end.

(** the white space [String.trim] takes away, of ASCII *)
Definition blank (a : ascii) : bool := let n := nat_of_ascii a in (n =? 32)%nat || (9 <=? n)%nat && (n <=? 13)%nat.
Fixpoint trim_start (s : string) : string :=
  match s with String a r => if blank a then trim_start r else s | EmptyString => s end.
Definition trim_end (s : string) : string := String.rev (trim_start (String.rev s)).
Definition trim (s : string) : string := trim_end (trim_start s).

(** [s.replace(p, t)]: the first occurrence of the text [p]. *)
Fixpoint replace_first (p t s : string) : string :=
  if startsWith p s then t +:+ String.substring (String.length p) (String.length s) s
  else match s with EmptyString => EmptyString | String a s => String a (replace_first p t s) end.

(** [s.split(c)] of one character *)
Fixpoint split (c : ascii) (s : string) : list string :=
  match s with
  | EmptyString => [EmptyString]
  | String a s => match split c s with
                  | p :: ps => if decide (a = c) then EmptyString :: p :: ps else String a p :: ps
                  | [] => []   (* no text splits into nothing *)
                  end
  end.

(** A number as text *)
Fixpoint digits (fuel : nat) (n : Z) (acc : string) : string :=
  match fuel with
  | 0 => acc
  | S fuel => let acc := String (ascii_of_nat (48 + Z.to_nat (n mod 10))) acc in
              if decide (n < 10)%Z then acc else digits fuel (n / 10) acc
  end.
Definition of_int (n : Z) : string :=
  if decide (n < 0)%Z then String "-" (digits (S (Z.to_nat (Z.log2 (- n)))) (- n) "")
  else digits (S (Z.to_nat (Z.log2 n))) n "".

(** ** Texts in any case *)
(** the same character, or a letter's capital and small forms *)
Definition same_letter (a b : ascii) : Prop :=
  a = b ∨ (capital (nat_of_ascii a) ∧ nat_of_ascii b = nat_of_ascii a + 32)%nat
  ∨ (capital (nat_of_ascii b) ∧ nat_of_ascii a = nat_of_ascii b + 32)%nat.
(** a text holds another, in any case *)
Definition occurs (needle hay : string) : Prop :=
  ∃ x y z, chars hay = (x ++ y ++ z)%list ∧ Forall2 same_letter (chars needle) y.

Lemma nat_of_ascii_bound a : (nat_of_ascii a < 256)%nat.
Proof. apply nat_ascii_bounded. Qed.
Lemma nat_of_ascii_inj a b : nat_of_ascii a = nat_of_ascii b → a = b.
Proof. intros H. by rewrite <- (ascii_nat_embedding a), <- (ascii_nat_embedding b), H. Qed.
Lemma lower_char_nat a :
  nat_of_ascii (lower_char a) = (nat_of_ascii a + if bool_decide (capital (nat_of_ascii a)) then 32 else 0)%nat.
Proof.
  unfold lower_char. case_bool_decide as Hc; [|lia].
  rewrite nat_ascii_embedding; [done|]. unfold capital in Hc. lia.
Qed.
Lemma same_letter_lower a b : same_letter a b ↔ lower_char a = lower_char b.
Proof.
  pose proof (lower_char_nat a) as Ha. pose proof (lower_char_nat b) as Hb. unfold same_letter. split.
  - intros [->|H]; [done|]. apply nat_of_ascii_inj. rewrite Ha, Hb. unfold capital in *.
    repeat case_bool_decide; lia.
  - intros H. rewrite H in Ha. assert (a = b ↔ nat_of_ascii a = nat_of_ascii b) as ->.
    { split; [by intros ->|apply nat_of_ascii_inj]. }
    unfold capital in *. repeat case_bool_decide; lia.
Qed.

Lemma toLowerCase_chars s : chars (toLowerCase s) = lower_char <$> chars s.
Proof. induction s as [|a s IH]; [done|]. simpl. by rewrite IH. Qed.
Lemma lower_same (l k : list ascii) : lower_char <$> l = lower_char <$> k ↔ Forall2 same_letter l k.
Proof.
  revert k. induction l as [|a l IH]; intros [|b k]; simpl.
  - by split.
  - by split; [|intros H; inversion H].
  - by split; [|intros H; inversion H].
  - rewrite Forall2_cons, same_letter_lower, <- IH. split; [intros H; by injection H|intros [H1 H2]; by f_equal].
Qed.

Lemma startsWith_chars t s : startsWith t s = true ↔ ∃ z, chars s = (chars t ++ z)%list.
Proof.
  unfold startsWith. revert s. induction t as [|a t IH]; intros s.
  - split; [by exists (chars s)|by destruct s].
  - destruct s as [|b s]; simpl; [split; [done|by intros [z Hz]]|].
    destruct (Ascii.ascii_dec a b) as [->|Hab].
    + rewrite IH. split; intros [z Hz]; exists z; [by rewrite Hz|by injection Hz].
    + split; [done|]. intros [z Hz]. by injection Hz as ->.
Qed.
#[local] Arguments startsWith : simpl never.
Lemma includes_chars t s : includes t s = true ↔ ∃ x z, chars s = (x ++ chars t ++ z)%list.
Proof.
  induction s as [|a s IH]; simpl; rewrite orb_true_iff, startsWith_chars; simpl.
  - split; [intros [[z Hz]|Hf]; [by exists [], z|done]|].
    intros (x & z & Hz). destruct x; [|done]. left. by exists z.
  - rewrite IH. split.
    + intros [[z Hz]|(x & z & Hz)]; [by exists [], z|]. exists (a :: x), z. by rewrite Hz.
    + intros ([|b x] & z & Hz); [left; by exists z|right]. injection Hz as -> Hz. by exists x, z.
Qed.
(** the search in lower case finds what the text holds in any case *)
Lemma includes_lower t s : includes (toLowerCase t) (toLowerCase s) = true ↔ occurs t s.
Proof.
  rewrite includes_chars. setoid_rewrite toLowerCase_chars. unfold occurs. split.
  - intros (x & z & H). apply fmap_app_inv in H as (x' & k & -> & H & ->).
    symmetry in H. apply fmap_app_inv in H as (y & z' & Hy & -> & ->).
    exists x', y, z'. split; [done|]. by apply lower_same.
  - intros (x & y & z & -> & Hy). apply lower_same in Hy. exists (lower_char <$> x), (lower_char <$> z).
    by rewrite !fmap_app, Hy.
Qed.

(** ** Texts made of parts *)
Lemma chars_app s t : chars (s +:+ t) = (chars s ++ chars t)%list.
Proof. induction s as [|a s IH]; [done|]. simpl. by rewrite <- IH. Qed.

Lemma chars_inj s t : chars s = chars t → s = t.
Proof.
  intros H. rewrite <- (String.string_of_list_ascii_of_string s), <- (String.string_of_list_ascii_of_string t).
  by rewrite H.
Qed.

(** A part that does not hold the separator ends where the separator is. *)
Lemma split_at {A} (c : A) a b x y :
  c ∉ a → c ∉ b → (a ++ c :: x = b ++ c :: y)%list → a = b ∧ x = y.
Proof.
  revert b. induction a as [|d a IH]; intros [|e b] Ha Hb; simpl; intros Heq; simplify_eq; [done|..].
  - destruct Hb. by left.
  - destruct Ha. by left.
  - edestruct (IH b); [..|done|]; [by intros ?; apply Ha; right|by intros ?; apply Hb; right|].
    by subst.
Qed.

(** ... and a part without any of the stops ends at the first of them. *)
Definition stops_at {A} (P : A → Prop) (r : list A) : Prop :=
  match r with [] => True | c :: _ => P c end.
Lemma split_stop {A} (P : A → Prop) a b x y :
  Forall (λ c, ¬ P c) a → Forall (λ c, ¬ P c) b → stops_at P x → stops_at P y →
  (a ++ x = b ++ y)%list → a = b ∧ x = y.
Proof.
  revert b. induction a as [|d a IH]; intros [|e b] Ha Hb Hx Hy; simpl; intros Heq; simplify_eq; [done|..].
  - inversion Hb; by subst.
  - inversion Ha; by subst.
  - inversion Ha; inversion Hb; subst. edestruct (IH b); by subst.
Qed.

(** A joined text followed by [r]: its first item, then the others, each after
    the separator. *)
Fixpoint more (sep : string) (l : list string) (r : list ascii) : list ascii :=
  match l with [] => r | s :: l => chars sep ++ chars s ++ more sep l r end%list.
Lemma join_more sep s l r : (chars (join sep (s :: l)) ++ r = chars s ++ more sep l r)%list.
Proof.
  revert s. induction l as [|s' l IH]; intros s; [done|].
  change (join sep (s :: s' :: l)) with (s +:+ sep +:+ join sep (s' :: l)).
  rewrite !chars_app, <- !(assoc_L app), IH. done.
Qed.

(** The characters of a replaced text, of a joined text and of a number *)
Lemma chars_replace_char c t s :
  chars (replace_char c t s) = mbind (λ a, if decide (a = c) then chars t else [a]) (chars s).
Proof.
  induction s as [|a s IH]; [done|]. simpl. rewrite chars_app, IH. by case_decide.
Qed.
Lemma replace_char_app c t s1 s2 : replace_char c t (s1 +:+ s2) = replace_char c t s1 +:+ replace_char c t s2.
Proof.
  apply chars_inj. rewrite chars_app, !chars_replace_char, chars_app. apply bind_app.
Qed.
Lemma join_empty_cons s l : join "" (s :: l) = s +:+ join "" l.
Proof.
  destruct l as [|s' l]; [|done]. simpl. by induction s as [|a s IH]; [done|]; rewrite IH at 1.
Qed.
Definition decimal (c : ascii) : bool := let n := nat_of_ascii c in (48 <=? n)%nat && (n <=? 57)%nat.
Lemma digits_decimal fuel n acc : Forall decimal (chars acc) → (0 <= n)%Z → Forall decimal (chars (digits fuel n acc)).
Proof.
  revert n acc. induction fuel as [|fuel IH]; intros n acc Ha Hn; simpl; [done|].
  assert (Forall decimal (chars (String (ascii_of_nat (48 + Z.to_nat (n mod 10))) acc))) as Hacc.
  { constructor; [|done]. pose proof (Z.mod_pos_bound n 10 eq_refl).
    unfold decimal. rewrite nat_ascii_embedding by lia. apply Is_true_true, andb_true_intro.
    split; apply Nat.leb_le; lia. }
  case_decide; [done|]. apply IH; [done|]. by apply Z.div_pos.
Qed.
Lemma of_int_chars n : Forall (λ c, decimal c ∨ c = "-"%char) (chars (of_int n)).
Proof.
  unfold of_int. case_decide.
  - constructor; [by right|]. eapply Forall_impl; [apply digits_decimal; [done|lia]|]. auto.
  - eapply Forall_impl; [apply digits_decimal; [done|lia]|]. auto.
Qed.

Lemma split_cons c s : ∃ p ps, split c s = p :: ps.
Proof.
  induction s as [|a s IH]; simpl; [by eexists _, _|]. destruct IH as (p & ps & ->). case_decide; by eexists _, _.
Qed.
Lemma join_cons2 sep s1 s2 l : join sep (s1 :: s2 :: l) = s1 +:+ sep +:+ join sep (s2 :: l).
Proof. done. Qed.
Lemma join_split c s : join (String c EmptyString) (split c s) = s.
Proof.
  induction s as [|a s IH]; [done|]. simpl split. destruct (split_cons c s) as (p & ps & E). rewrite E in *.
  case_decide as Ha; [rewrite Ha|].
  - by rewrite join_cons2, IH.
  - destruct ps as [|p' ps]; [simpl in *; by rewrite IH|]. rewrite join_cons2 in *. simpl. by rewrite <- IH.
Qed.

(** Parts without the separator are what the joined text splits into. *)
Lemma split_app c s t :
  c ∉ chars s → split c (s +:+ t) = match split c t with p :: ps => (s +:+ p) :: ps | [] => [] end.
Proof.
  induction s as [|a s IH]; intros Hc.
  - change ("" +:+ t) with t. by destruct (split_cons c t) as (p & ps & ->).
  - change (split c (String a (s +:+ t)) = match split c t with p :: ps => String a (s +:+ p) :: ps | [] => [] end).
    cbn [split]. apply not_elem_of_cons in Hc as [Ha Hs]. rewrite IH by done.
    destruct (split_cons c t) as (p & ps & ->). by rewrite decide_False by congruence.
Qed.
Lemma split_join c l :
  l ≠ [] → Forall (λ s, c ∉ chars s) l → split c (join (String c EmptyString) l) = l.
Proof.
  induction l as [|s l IH]; [done|]. intros _ [Hs Hl]%Forall_cons. destruct l as [|s' l].
  - change (join _ [s]) with s. clear IH Hl. induction s as [|a s IHs]; [done|]. simpl in *.
    apply not_elem_of_cons in Hs as [Ha Hs]. rewrite IHs by done. by rewrite decide_False by congruence.
  - rewrite join_cons2, split_app by done.
    change (String c EmptyString +:+ ?t) with (String c t). cbn [split].
    rewrite IH by done. rewrite decide_True by done. f_equal.
    clear. induction s as [|a s IH]; [done|]. change (String a (s +:+ "") = String a s). by rewrite IH.
Qed.

(** A number's text reads back as the number. *)
Fixpoint parse_digits (s : string) (v : Z) : Z :=
  match s with
  | EmptyString => v
  | String a s => parse_digits s (10 * v + (Z.of_nat (nat_of_ascii a) - 48))%Z
  end.
Definition parse_int (s : string) : Z :=
  match s with String "-" r => (- parse_digits r 0)%Z | _ => parse_digits s 0 end.

Lemma parse_digits_digits fuel n acc :
  (0 <= n < 2 ^ Z.of_nat fuel)%Z → parse_digits (digits fuel n acc) 0 = parse_digits acc n.
Proof.
  revert n acc. induction fuel as [|fuel IH]; intros n acc Hn; simpl.
  { by replace n with 0%Z by (simpl in Hn; lia). }
  pose proof (Z.mod_pos_bound n 10 eq_refl) as Hm. pose proof (Z.div_mod n 10 ltac:(lia)) as Hd.
  assert (∀ v, parse_digits (String (ascii_of_nat (48 + Z.to_nat (n mod 10))) acc) v
    = parse_digits acc (10 * v + n mod 10)%Z) as Hone.
  { intros v. cbn [parse_digits]. rewrite nat_ascii_embedding by lia. f_equal. lia. }
  case_decide.
  - rewrite Hone. f_equal. rewrite Z.mod_small by lia. lia.
  - rewrite IH, Hone; [f_equal; lia|].
    rewrite Nat2Z.inj_succ, Z.pow_succ_r in Hn by lia. split; [by apply Z.div_pos; lia|].
    apply Z.div_lt_upper_bound; lia.
Qed.

Lemma parse_of_int n : parse_int (of_int n) = n.
Proof.
  assert (∀ m, (0 <= m)%Z → (0 <= m < 2 ^ Z.of_nat (S (Z.to_nat (Z.log2 m))))%Z) as Hb.
  { intros m Hm. split; [done|]. rewrite Nat2Z.inj_succ, Z2Nat.id by apply Z.log2_nonneg.
    destruct (decide (m = 0)%Z) as [->|]; [done|]. apply Z.log2_spec. lia. }
  unfold of_int. case_decide.
  - unfold parse_int. rewrite parse_digits_digits by (apply Hb; lia). simpl. lia.
  - assert (∀ s, Forall decimal (chars s) → parse_int s = parse_digits s 0) as ->.
    + intros [|a s]; [done|]. intros Hf. inversion Hf as [|?? Ha]; subst. unfold parse_int.
      destruct a as [[] [] [] [] [] [] [] []]; try done; by destruct Ha.
    + rewrite parse_digits_digits by (apply Hb; lia). done.
    + apply digits_decimal; [done|lia].
Qed.
Lemma of_int_inj n m : of_int n = of_int m → n = m.
Proof. intros H. by rewrite <- (parse_of_int n), H, parse_of_int. Qed.
Lemma of_int_free c n : decimal c = false → c ≠ "-"%char → c ∉ chars (of_int n).
Proof.
  intros Hc Hm Hin. pose proof (of_int_chars n) as H. rewrite Forall_forall in H.
  destruct (H c Hin) as [Hd|]; [|done]. by rewrite Hc in Hd.
Qed.

(** ** Sorted keys *)
Lemma sort_perm l : sort l ≡ₚ l.
Proof. apply merge_sort_Permutation. Qed.

(** Two duplicate-free lists of the same strings sort to the same list. *)
Lemma sort_unique l1 l2 : NoDup l1 → NoDup l2 → (∀ x, x ∈ l1 ↔ x ∈ l2) → sort l1 = sort l2.
Proof.
  intros H1 H2 Hx. apply (Sorted_unique String.le); [apply (Sorted_merge_sort String.le)..|].
  rewrite !sort_perm. by apply NoDup_Permutation.
Qed.

(** The entries of an object in the order of its keys *)
Definition sorted_entries {A} (o : obj A) : list (string * option A) :=
  (λ k, (k, JsObj.get k o)) <$> sort (JsObj.keys o).

Lemma sorted_entries_eq {A} (o1 o2 : obj A) :
  NoDup (JsObj.keys o1) → NoDup (JsObj.keys o2) →
  (∀ k, JsObj.get k o1 = JsObj.get k o2) → sorted_entries o1 = sorted_entries o2.
Proof.
  intros H1 H2 Hg. unfold sorted_entries.
  rewrite (sort_unique (JsObj.keys o1) (JsObj.keys o2)); [|done..|].
  - apply list_fmap_ext. intros i k _. by rewrite Hg.
  - intros k. by rewrite !JsObj.elem_of_keys, Hg.
Qed.

Lemma sorted_entries_get {A} (o : obj A) k v : (k, v) ∈ sorted_entries o → v = JsObj.get k o.
Proof. intros (k' & [=] & _)%list_elem_of_fmap. by subst. Qed.

Lemma elem_of_sorted_entries {A} (o : obj A) k v : JsObj.get k o = Some v → (k, Some v) ∈ sorted_entries o.
Proof.
  intros Hv. rewrite <- Hv. apply list_elem_of_fmap. exists k. split; [done|].
  rewrite sort_perm. apply JsObj.elem_of_keys. by eauto.
Qed.

(** a property of every item of the object is one of its sorted entries *)
Lemma sorted_entries_Forall {A} (P : string * A → Prop) (o : obj A) :
  Forall P o → Forall (λ e, ∃ v, e.2 = Some v ∧ P (e.1, v)) (sorted_entries o).
Proof.
  intros HP. apply Forall_forall. intros [k v] Hin. rewrite Forall_forall in HP.
  apply list_elem_of_fmap in Hin as (k' & [=-> ->] & Hk). rewrite sort_perm in Hk.
  apply JsObj.elem_of_keys in Hk as [v Hv]. exists v. split; [done|]. by apply HP, JsObj.get_elem_of.
Qed.

Lemma sorted_entries_inj {A} (o1 o2 : obj A) :
  sorted_entries o1 = sorted_entries o2 → ∀ k, JsObj.get k o1 = JsObj.get k o2.
Proof.
  intros Heq k.
  assert (∀ o o' : obj A, sorted_entries o = sorted_entries o' →
    ∀ v, JsObj.get k o = Some v → JsObj.get k o' = Some v) as Hone.
  { intros o o' He v Hv. symmetry. apply sorted_entries_get. rewrite <- He.
    by apply elem_of_sorted_entries. }
  destruct (JsObj.get k o1) eqn:E1, (JsObj.get k o2) eqn:E2; auto;
    [..|by rewrite (Hone _ _ (eq_sym Heq) _ E2) in E1].
  - symmetry. by rewrite <- E2, (Hone _ _ Heq _ E1).
  - by rewrite (Hone _ _ Heq _ E1) in E2.
Qed.
End JsString.
