(* ===== verification/Poll.v ===== *)
(** * Polling a visible page: static/js/poll.js

    [pollWhileVisible] as a machine over the closure's three variables and the
    part of the browser it uses: the clock, the page's visibility, the pending
    timers of [run] and the requests not settled yet. *)
From S2P Require Import Prelude.

Module Poll.

(** ** State *)
Record browser := Browser {
  hidden : bool;            (* document.hidden *)
  now : Z;                  (* milliseconds *)
  timers : list (nat * Z);  (* pending timers of [run]: handle, due time *)
  next_id : nat;            (* the handle the next setTimeout returns *)
  requests : nat;           (* requests sent and not settled *)
}.

Record poller := Poller {
  timer : option nat;
  running : bool;
  stopped : bool;
  page : browser;
}.

Definition with_page (f : browser → browser) (p : poller) : poller :=
  Poller (timer p) (running p) (stopped p) (f (page p)).
Definition set_timer (t : option nat) (p : poller) : poller :=
  Poller t (running p) (stopped p) (page p).
Definition set_running (b : bool) (p : poller) : poller :=
  Poller (timer p) b (stopped p) (page p).
Definition set_stopped (b : bool) (p : poller) : poller :=
  Poller (timer p) (running p) b (page p).

(** The browser's [setTimeout(run, delay)] and [clearTimeout(handle)]. *)
Definition setTimeout (delay : Z) (b : browser) : nat * browser :=
  (next_id b, Browser (hidden b) (now b) (timers b ++ [(next_id b, (now b + delay)%Z)])
                      (S (next_id b)) (requests b)).
Definition clearTimeout (h : option nat) (b : browser) : browser :=
  Browser (hidden b) (now b) (filter (λ t, Some t.1 ≠ h) (timers b)) (next_id b) (requests b).

(** time passing, the page hidden or shown, a request sent and settled *)
Definition advance (dt : Z) (b : browser) : browser :=
  Browser (hidden b) (now b + dt)%Z (timers b) (next_id b) (requests b).
Definition set_hidden (h : bool) (b : browser) : browser :=
  Browser h (now b) (timers b) (next_id b) (requests b).
Definition send_request (b : browser) : browser :=
  Browser (hidden b) (now b) (timers b) (next_id b) (S (requests b)).
Definition end_request (b : browser) : browser :=
  Browser (hidden b) (now b) (timers b) (next_id b) (pred (requests b)).

Section poll.
Context {D : Type}. (* the answers of a request *)
Variables (interval : Z) (firstDelay : option Z).

Inductive effect := Request | OnData (d : D).
Inductive event :=
  | Tick (dt : Z)             (* time passes *)
  | Fire (h : nat)            (* the timer h runs [run] *)
  | Settle (a : option D)     (* the request is answered, or fails (None) *)
  | Visibility (h : bool)     (* the page is hidden or shown *)
  | Stop | Start.             (* the returned object's methods *)

(** ** Operations *)
Definition run_poll (p : poller) : poller * list effect :=
  let p := set_timer None p in
  if stopped p || hidden (page p) then (p, [])
  else (set_running true (with_page send_request p), [Request]).

(** the request's [.always] handler, then its [.done(onData)] *)
Definition settle (a : option D) (p : poller) : poller * list effect :=
  let p := with_page end_request p in
  let p := set_running false p in
  let p := if negb (stopped p) && negb (hidden (page p))
           then let '(h, b) := setTimeout interval (page p) in
                set_timer (Some h) (with_page (λ _, b) p)
           else p in
  (p, match a with Some d => [OnData d] | None => [] end).

Definition resume (p : poller) : poller * list effect :=
  if negb (stopped p) && negb (hidden (page p)) && negb (running p) && bool_decide (timer p = None)
  then run_poll p else (p, []).

Definition stop (p : poller) : poller :=
  let p := set_stopped true p in
  let p := with_page (clearTimeout (timer p)) p in
  set_timer None p.

Definition start (p : poller) : poller * list effect := resume (set_stopped false p).

Definition pollWhileVisible (b : browser) : poller :=
  let '(h, b) := setTimeout (default interval firstDelay) b in
  Poller (Some h) false false b.

Definition step (p : poller) (e : event) : poller * list effect :=
  match e with
  | Tick dt => (with_page (advance dt) p, [])
  | Fire h => run_poll (with_page (clearTimeout (Some h)) p)
  | Settle a => settle a p
  | Visibility h => resume (with_page (set_hidden h) p)
  | Stop => (stop p, [])
  | Start => start p
  end.

(** What the browser can deliver: a timer when it is due, an answer to a
    request that was sent, time going forward. *)
Definition enabled (p : poller) (e : event) : Prop :=
  match e with
  | Tick dt => (0 <= dt)%Z
  | Fire h => ∃ due, (h, due) ∈ timers (page p) ∧ (due <= now (page p))%Z
  | Settle _ => 0 < requests (page p)
  | Visibility _ | Stop | Start => True
  end.

End poll.
Arguments effect : clear implicits.
Arguments event : clear implicits.

(** ** [pageInUse] *)
Record focus := Focus {
  modal_shown : bool;                 (* document.querySelector(".modal.show") *)
  active_field : bool;                (* document.activeElement is a field *)
  xmlEditUnsaved : option bool;       (* window.xmlEditUnsaved(), if the page defines it *)
}.
Definition pageInUse (f : focus) : bool :=
  modal_shown f || active_field f || default false (xmlEditUnsaved f).

(** ** Invariant *)
Section invariant.
Context {D : Type}.
Variables (interval : Z) (firstDelay : option Z).

(** the longest a timer can be away *)
Definition max_delay : Z := Z.max interval (default interval firstDelay).

(** One timer, the closure's own, or one request, or neither; a visible poller
    that was not stopped has one of the two. *)
Record Inv (p : poller) : Prop := {
  inv_timers : match timer p with
               | Some h => ∃ due, timers (page p) = [(h, due)]
                            ∧ (due <= now (page p) + max_delay)%Z
               | None => timers (page p) = []
               end;
  inv_requests : requests (page p) = if running p then 1 else 0;
  inv_exclusive : running p = true → timer p = None;
  inv_live : stopped p = false → hidden (page p) = false → running p = true ∨ is_Some (timer p);
}.

Lemma run_poll_inv p :
  timers (page p) = [] → requests (page p) = 0 → running p = false →
  Inv (run_poll (D:=D) p).1.
Proof.
  intros Ht Hr Hrun. unfold run_poll; simpl.
  destruct (stopped p) eqn:?; simpl; [|destruct (hidden (page p)) eqn:?; simpl];
    constructor; simpl; rewrite ?Hrun, ?Hr; auto; congruence.
Qed.

Lemma resume_inv p :
  match timer p with
  | Some h => ∃ due, timers (page p) = [(h, due)] ∧ (due <= now (page p) + max_delay)%Z
  | None => timers (page p) = []
  end →
  requests (page p) = (if running p then 1 else 0) →
  (running p = true → timer p = None) →
  Inv (resume (D:=D) p).1.
Proof.
  intros Ht Hr Hex. unfold resume. destruct (_ && _) eqn:E.
  - apply andb_prop in E as [E Htm%bool_decide_eq_true]. apply andb_prop in E as [_ E].
    apply negb_true_iff in E. rewrite Htm in Ht. rewrite E in Hr. by apply run_poll_inv.
  - constructor; simpl; auto. intros Hs Hh. rewrite Hs, Hh in E.
    destruct (running p); [by left|]. destruct (timer p); [by eauto|done].
Qed.

Lemma step_inv p e : Inv p → enabled (D:=D) p e → Inv (step interval p e).1.
Proof.
  intros HI He. destruct HI as [Ht Hr Hex Hlive]. destruct e as [dt|h|a|h| |]; simpl in *.
  - constructor; simpl; auto.
    destruct (timer p); [|done]. destruct Ht as (due & ? & ?). exists due. split; [done|lia].
  - destruct He as (due & Hin & _). destruct (timer p) as [h'|] eqn:Htm.
    + destruct Ht as (due' & Ht & _). rewrite Ht in Hin. apply list_elem_of_singleton in Hin.
      simplify_eq. apply run_poll_inv; simpl.
      * rewrite Ht. by rewrite filter_cons_False by naive_solver.
      * rewrite Hr. destruct (running p); [|done]. by specialize (Hex eq_refl).
      * destruct (running p); [|done]. by specialize (Hex eq_refl).
    + rewrite Ht in Hin. by inversion Hin.
  - assert (running p = true) as Hrun by (destruct (running p); [done|lia]).
    rewrite Hrun in *. rewrite (Hex eq_refl) in *. unfold settle; simpl.
    destruct (stopped p) eqn:?, (hidden (page p)) eqn:?; simpl;
      constructor; simpl; rewrite ?Hr, ?Ht; auto; try congruence; try (by rewrite (Hex eq_refl)).
    + exists (now (page p) + interval)%Z. split; [done|]. unfold max_delay. lia.
  - apply resume_inv; simpl; auto.
  - constructor; simpl; try done.
    unfold clearTimeout; simpl. destruct (timer p) as [h|].
    + destruct Ht as (due & -> & _). by rewrite filter_cons_False by naive_solver.
    + by rewrite Ht.
  - apply resume_inv; simpl; auto.
Qed.

Definition initial (b : browser) : poller := pollWhileVisible interval firstDelay b.

Lemma initial_inv b : timers b = [] → requests b = 0 → Inv (initial b).
Proof.
  intros Ht Hr. unfold initial, pollWhileVisible; constructor; simpl; rewrite ?Ht; auto.
  - exists (now b + default interval firstDelay)%Z. split; [done|]. unfold max_delay; lia.
  - done.
Qed.

Lemma reachable_inv b p :
  timers b = [] → requests b = 0 →
  reachable (enabled (D:=D)) (step interval) (initial b) p → Inv p.
Proof.
  intros Ht Hr. apply reachable_invariant; [by apply initial_inv|]. intros. by apply step_inv.
Qed.
End invariant.

(** ** Properties *)
Section properties.
Context {D : Type}.
Variables (interval : Z) (firstDelay : option Z).
Local Abbreviation reach b := (reachable (enabled (D:=D)) (step interval) (initial interval firstDelay b)).

(** C5: One request at a time: whatever the page and the server do, the poller
    never has two requests in flight, two timers pending, or a timer pending
    beside a request; [running] and [timer] say exactly which. *)
Theorem one_request_at_a_time b p :
  timers b = [] → requests b = 0 →
  reachable (enabled (D:=D)) (step interval) (pollWhileVisible interval firstDelay b) p →
  requests (page p) + length (timers (page p)) ≤ 1
  ∧ (requests (page p) = 1 ↔ running p = true)
  ∧ (timers (page p) = [] ↔ timer p = None).
Proof.
  intros Hb Hb' Hr. destruct (reachable_inv _ _ b p Hb Hb' Hr) as [Ht Hq Hex _].
  rewrite Hq. destruct (running p).
  - rewrite Hex in * by done. rewrite Ht; simpl. by split_and!.
  - destruct (timer p); [destruct Ht as (? & -> & _)|rewrite Ht]; simpl; split_and!; auto; naive_solver lia.
Qed.

(** C6: Polling never stalls: while the page is visible and the poller not
    stopped, either a request is in flight, and its end, answered or failed,
    leaves a timer due exactly [interval] later, or one timer is pending, at
    most the longest delay away, and firing it sends a request.  Showing the
    page or starting the poller when neither holds sends one at once. *)
Theorem polling_never_stalls b p :
  timers b = [] → requests b = 0 → reach b p →
  stopped p = false → hidden (page p) = false →
  (requests (page p) = 1
   ∧ ∀ a, ∃ h, timers (page (step (D:=D) interval p (Settle a)).1) = [(h, now (page p) + interval)%Z])
  ∨ (∃ h due, timers (page p) = [(h, due)]
     ∧ (due <= now (page p) + max_delay interval firstDelay)%Z
     ∧ (step (D:=D) interval p (Fire h)).2 = [Request]).
Proof.
  intros Hb Hb' Hr Hs Hh. destruct (reachable_inv _ _ b p Hb Hb' Hr) as [Ht Hq Hex Hl].
  destruct (Hl Hs Hh) as [Hrun|[h Hh']].
  - left. rewrite Hrun in Hq. split; [done|]. intros a. rewrite (Hex Hrun) in Ht.
    unfold step, settle; simpl. rewrite Hs, Hh, Ht; simpl. by eauto.
  - right. rewrite Hh' in Ht. destruct Ht as (due & Ht & Hle). exists h, due.
    split_and!; [done|done|]. unfold step, run_poll; simpl. by rewrite Hs, Hh.
Qed.

(** An event that does not ask for an answer at once: everything but showing
    the page and [start]. *)
Definition calm (e : event D) : Prop :=
  match e with Visibility false | Start => False | _ => True end.

(** [t] has come, or nothing runs before it does. *)
Definition not_before (t : Z) (p : poller) : Prop :=
  (t <= now (page p))%Z
  ∨ (running p = false ∧ requests (page p) = 0 ∧ Forall (λ hd, (t <= hd.2)%Z) (timers (page p))).

Lemma step_now p e : enabled (D:=D) p e → (now (page p) <= now (page (step interval p e).1))%Z.
Proof.
  destruct e as [dt|h|a|h| |]; simpl; unfold start, resume, run_poll, settle; simpl; intros;
    repeat (case_match; simpl); simpl in *; lia.
Qed.

Lemma not_before_step t p e :
  calm e → enabled p e → not_before t p →
  not_before t (step interval p e).1
  ∧ (Request ∈ (step interval p e).2 → (t <= now (page (step interval p e).1))%Z).
Proof.
  intros Hc He [Hn|(Hr & Hq & Ht)].
  { pose proof (step_now p e He). split; [left|]; lia. }
  destruct e as [dt|h|a|[]| |]; simpl in *; try done.
  - split; [by right|inversion 1].
  - destruct He as (due & Hin & Hdue).
    assert (t <= now (page p))%Z by (rewrite Forall_forall in Ht; specialize (Ht _ Hin); simpl in Ht; lia).
    unfold run_poll, not_before; simpl. destruct (stopped p || _); simpl; (split; [by left|by intros _]).
  - rewrite Hq in He. lia.
  - unfold resume; simpl. rewrite andb_false_r; simpl. split; [by right|inversion 1].
  - split; [right|inversion 1]. split_and!; [done|done|]. simpl.
    apply Forall_forall. intros hd [_ Hin]%list_elem_of_filter. rewrite Forall_forall in Ht. by apply Ht.
Qed.

Lemma trace_now p es p' os :
  trace (enabled (D:=D)) (step interval) p es p' os → (now (page p) <= now (page p'))%Z.
Proof. induction 1 as [|p e es p' os He Ht IH]; [done|]. pose proof (step_now p e He). lia. Qed.

Lemma no_request_before t p es p' os :
  trace enabled (step interval) p es p' os → Forall calm es →
  not_before t p → Request ∈ os → (t <= now (page p'))%Z.
Proof.
  intros Htr. induction Htr as [|p e es p' os He Ht IH]; [by inversion 3|].
  intros [Hc Hcs]%Forall_cons Hk Hin. destruct (not_before_step t p e Hc He Hk) as [Hk' Hreq].
  apply elem_of_app in Hin as [Hin|Hin].
  - specialize (Hreq Hin). pose proof (trace_now _ _ _ _ Ht). lia.
  - by apply IH.
Qed.

(** A slow host is not asked faster: after a request has ended, the next
    one goes out no sooner than [interval] milliseconds later, whatever timers,
    hiding of the page and [stop] happen between, unless the page is shown
    again or the poller started, which ask at once. *)
Theorem next_request_after_interval b p (a : option D) es p' os :
  timers b = [] → requests b = 0 → (0 <= interval)%Z →
  reach b p → enabled (D:=D) p (Settle a) → Forall calm es →
  trace (enabled (D:=D)) (step interval) (step interval p (Settle a)).1 es p' os →
  Request ∈ os → (now (page p) + interval <= now (page p'))%Z.
Proof.
  intros Hb Hb' Hi Hr He Hc Htr Hin. destruct (reachable_inv _ _ b p Hb Hb' Hr) as [Ht Hq Hex _].
  refine (no_request_before _ _ _ _ _ Htr Hc _ Hin). right. simpl in He.
  destruct (running p) eqn:Hrun; [|lia]. rewrite (Hex eq_refl) in Ht.
  unfold step, settle; simpl. destruct (_ && _); simpl; rewrite Hq, Ht; simpl; split_and!; auto.
  constructor; [simpl; lia|done].
Qed.

(** A hidden or stopped page asks nothing: a request goes out only while
    the page is visible, the poller not stopped and no other request runs; and
    every answer is passed to [onData] after the poller's own bookkeeping. *)
Theorem asks_only_while_visible b p (e : event D) :
  timers b = [] → requests b = 0 → reach b p → enabled p e →
  Request ∈ (step interval p e).2 →
  stopped (step interval p e).1 = false ∧ hidden (page (step interval p e).1) = false
  ∧ requests (page p) = 0.
Proof.
  intros Hb Hb' Hr He. destruct (reachable_inv _ _ b p Hb Hb' Hr) as [Ht Hq Hex _].
  assert (∀ h, timer p = Some h → requests (page p) = 0) as Hidle.
  { intros h Hh. rewrite Hq. destruct (running p); [|done]. by rewrite Hex in Hh. }
  assert (∀ q, requests (page q) = (if running q then 1 else 0) → Request ∈ (resume (D:=D) q).2 →
    stopped (resume (D:=D) q).1 = false ∧ hidden (page (resume (D:=D) q).1) = false ∧ requests (page q) = 0) as Hres.
  { intros q Hqq. unfold resume, run_poll. simpl.
    destruct (stopped q) eqn:?, (hidden (page q)) eqn:?, (running q), (bool_decide _); simpl;
      try (by inversion 1); done. }
  destruct e as [dt|h|a|h| |]; simpl in *.
  - inversion 1.
  - destruct He as (due & Hd & _). destruct (timer p) eqn:Htm; [|rewrite Ht in Hd; inversion Hd].
    unfold run_poll; simpl. destruct (stopped p) eqn:?, (hidden (page p)) eqn:?; simpl;
      try (by inversion 1). eauto.
  - destruct a; [|by inversion 1]. intros Hin%list_elem_of_singleton. done.
  - exact (Hres (with_page (set_hidden h) p) Hq).
  - inversion 1.
  - exact (Hres (set_stopped false p) Hq).
Qed.
End properties.

(** ** The properties at a concrete poller: every 5 s, the first request at once *)
Section witnesses.
Definition page0 : browser := Browser false 0 [] 0 0.
(** its first request is out *)
Definition asking : poller := Poller None true false (Browser false 0 [] 1 1).

Lemma reach_asking : reachable (enabled (D:=nat)) (step 5000) (initial 5000 (Some 0%Z) page0) asking.
Proof.
  refine (reachable_step _ _ _ (initial 5000 (Some 0%Z) page0) (Fire 0) (reachable_init _ _ _) _).
  exists 0%Z. split; [by left|done].
Qed.

Lemma one_request_at_a_time_witness :
  requests (page asking) + length (timers (page asking)) ≤ 1
  ∧ (requests (page asking) = 1 ↔ running asking = true)
  ∧ (timers (page asking) = [] ↔ timer asking = None).
Proof. apply (one_request_at_a_time 5000 (Some 0%Z) page0 asking eq_refl eq_refl reach_asking). Defined.

Lemma polling_never_stalls_witness :
  (requests (page asking) = 1
   ∧ ∀ a, ∃ h, timers (page (step (D:=nat) 5000 asking (Settle a)).1) = [(h, 5000%Z)])
  ∨ (∃ h due, timers (page asking) = [(h, due)] ∧ (due <= 5000)%Z
     ∧ (step (D:=nat) 5000 asking (Fire h)).2 = [Request]).
Proof.
  exact (polling_never_stalls 5000 (Some 0%Z) page0 asking eq_refl eq_refl reach_asking eq_refl eq_refl).
Defined.

(** the answer comes, the page waits 5 s and asks again *)
Lemma next_request_after_interval_witness :
  let p := (step 5000 asking (Settle (Some 7))).1 in
  let es := [Tick 5000; Fire 1] in
  (0 + 5000 <= now (page (run (step (D:=nat) 5000) p es).1))%Z ∧ Request ∈ (run (step (D:=nat) 5000) p es).2.
Proof.
  split; [|by left].
  refine (next_request_after_interval 5000 (Some 0%Z) page0 asking (Some 7) [Tick 5000; Fire 1] _ [Request]
    eq_refl eq_refl _ reach_asking _ _ _ _); [lia|simpl; lia|by repeat constructor| |by left].
  refine (trace_cons _ _ _ (Tick 5000) [Fire 1] _ [Request] _ _); [simpl; lia|].
  refine (trace_cons _ _ _ (Fire 1) [] _ [] _ _); [exists 5000%Z; split; [by left|simpl; lia]|]. apply trace_nil.
Defined.

Lemma asks_only_while_visible_witness :
  let p := initial 5000 (Some 0%Z) page0 in
  Request ∈ (step (D:=nat) 5000 p (Fire 0)).2 ∧ stopped (step (D:=nat) 5000 p (Fire 0)).1 = false
  ∧ hidden (page (step (D:=nat) 5000 p (Fire 0)).1) = false ∧ requests (page p) = 0.
Proof.
  split; [by left|].
  apply (asks_only_while_visible 5000 (Some 0%Z) page0 (initial 5000 (Some 0%Z) page0) (Fire 0) eq_refl eq_refl);
    [apply reachable_init|exists 0%Z; split; [by left|done]|by left].
Defined.
End witnesses.
End Poll.
