(* ===== verification/VmStates.v ===== *)
(** * A VM list follows libvirt: static/js/vm_states.js

    The key of an answer ([vmStatesKey]) and the handler of the answers
    ([followVmStates]).  The key is compared with the first answer's, so what
    matters is that it tells two different answers apart and does not depend on
    the order the server lists hosts and VMs in. *)
From S2P Require Import Prelude JsObject JsString Poll.
From Stdlib Require Import Ascii.

#[local] Open Scope string_scope.

Module VmStates.

(** ** Data: one host's answer, [{ok: true, vms: {uuid: \[name, state\]}}] or [{ok: false}] *)
Record host := Host { ok : bool; vms : obj (list string) }.

(** ** [vmStatesKey] *)
Definition vm_text (uv : string * option (list string)) : string :=
  uv.1 +:+ "=" +:+ JsString.join "/" (default [] uv.2).
Definition vms_text (l : list (string * option (list string))) : string :=
  JsString.join "," (vm_text <$> l).
Definition host_text (h : option host) : string :=
  match h with
  | Some h => if ok h then vms_text (JsString.sorted_entries (vms h)) else "unreadable"
  | None => ""
  end.
Definition vmStatesKey (states : obj host) : string :=
  JsString.join ";" ((λ ih, ih.1 +:+ ":" +:+ host_text ih.2) <$> JsString.sorted_entries states).

(** ** [followVmStates]: the handler of the answers; [last] is the closure's variable. *)
Inductive effect := Reload.
Definition onData (in_use backgroundJobRunning : bool) (data : obj host) (last : option string)
    : option string * list effect :=
  let key := vmStatesKey data in
  if bool_decide (last ≠ None ∧ Some key ≠ last) then
    (last, if negb in_use && negb backgroundJobRunning then [Reload] else [])
  else (Some key, []).

(** an answer and whether the page may reload when it comes *)
Record answer := Answer { in_use : bool; job_running : bool; computes : obj host }.
Definition step (last : option string) (a : answer) : option string * list effect :=
  onData (in_use a) (job_running a) (computes a) last.

(** ** Which answers tell the same *)
Definition same_host (h1 h2 : host) : Prop :=
  ok h1 = ok h2 ∧ (ok h1 = true → ∀ u, JsObj.get u (vms h1) = JsObj.get u (vms h2)).
Definition same_states (s1 s2 : obj host) : Prop :=
  ∀ id, match JsObj.get id s1, JsObj.get id s2 with
        | Some h1, Some h2 => same_host h1 h2
        | None, None => True
        | _, _ => False
        end.

(** What the server sends: hosts by their numeric key, VMs by UUID, each with
    its name (libvirt refuses a '/' in one) and its numeric state. *)
Definition digit (c : ascii) : bool := let n := nat_of_ascii c in (48 <=? n)%nat && (n <=? 57)%nat.
Definition uuid_char (c : ascii) : bool :=
  let n := nat_of_ascii c in digit c || (97 <=? n)%nat && (n <=? 102)%nat || (n =? 45)%nat.
Definition wf_vm (uv : string * list string) : Prop :=
  uv.1 ≠ "" ∧ Forall uuid_char (chars uv.1) ∧
  ∃ name state, uv.2 = [name; state] ∧ ("/"%char ∉ chars name) ∧ Forall digit (chars state).
Definition wf_host (ih : string * host) : Prop :=
  Forall digit (chars ih.1) ∧ NoDup (JsObj.keys (vms ih.2)) ∧ Forall wf_vm (vms ih.2).
Definition wf_states (s : obj host) : Prop := NoDup (JsObj.keys s) ∧ Forall wf_host s.

(** ** The key of an answer can be read back *)
Section reading.
#[local] Open Scope list_scope.

Definition entry := (string * option (list string))%type.
Definition wf_entry (e : entry) : Prop := ∃ v, e.2 = Some v ∧ wf_vm (e.1, v).
Definition semicolon (c : ascii) : Prop := c = ";"%char.
Definition comma_or_semicolon (c : ascii) : Prop := c = ","%char ∨ c = ";"%char.

Lemma not_in_class (P : ascii → Prop) (c : ascii) l :
  Forall P l → (∀ a, P a → a ≠ c) → c ∉ l.
Proof. intros Hl Hp Hin. rewrite Forall_forall in Hl. by apply (Hp c (Hl c Hin)). Qed.

(** what the characters of numbers and UUIDs are not *)
Lemma digit_ne c : digit c → c ∉ [":"; "="; ","; ";"; "u"]%char.
Proof. intros H Hin. by repeat (apply elem_of_cons in Hin as [->|Hin]; [done|]); inversion Hin. Qed.
Lemma uuid_char_ne c : uuid_char c → c ∉ ["="; ","; ";"; "u"]%char.
Proof. intros H Hin. by repeat (apply elem_of_cons in Hin as [->|Hin]; [done|]); inversion Hin. Qed.

(** One VM's text ends where the next separator is. *)
Lemma vm_text_split e1 e2 x y :
  wf_entry e1 → wf_entry e2 → JsString.stops_at comma_or_semicolon x → JsString.stops_at comma_or_semicolon y →
  chars (vm_text e1) ++ x = chars (vm_text e2) ++ y → e1 = e2 ∧ x = y.
Proof.
  destruct e1 as [u1 o1], e2 as [u2 o2].
  intros (v1 & E1 & _ & Hu1 & n1 & s1 & Hv1 & Hs1 & Hd1) (v2 & E2 & _ & Hu2 & n2 & s2 & Hv2 & Hs2 & Hd2) Hx Hy.
  simpl in *. subst. unfold vm_text; simpl. rewrite !JsString.chars_app, <- !(assoc_L app). simpl.
  assert (∀ u, Forall uuid_char (chars u) → "="%char ∉ chars u) as Hneq.
  { intros u Hu. apply (not_in_class _ _ _ Hu). intros a Ha%uuid_char_ne ->. set_solver. }
  intros [Hu Heq]%JsString.split_at; [|by apply Hneq..].
  apply JsString.split_at in Heq as [Hn Heq]; [|done..].
  apply (JsString.split_stop comma_or_semicolon) in Heq as [Hs Heq]; [|..|done|done].
  - apply JsString.chars_inj in Hu, Hn, Hs. by subst.
  - eapply Forall_impl; [exact Hd1|]. intros c Hc%digit_ne [-> | ->]; set_solver.
  - eapply Forall_impl; [exact Hd2|]. intros c Hc%digit_ne [-> | ->]; set_solver.
Qed.

(** The VMs of a host: the text ends at the end or at the next host. *)
Lemma vms_text_split l1 l2 x y :
  Forall wf_entry l1 → Forall wf_entry l2 → JsString.stops_at semicolon x → JsString.stops_at semicolon y →
  chars (vms_text l1) ++ x = chars (vms_text l2) ++ y → l1 = l2 ∧ x = y.
Proof.
  intros H1 H2 Hx Hy.
  assert (∀ l r, JsString.stops_at semicolon r →
    JsString.stops_at comma_or_semicolon (JsString.more "," (vm_text <$> l) r)) as Hstop.
  { intros [|e l] [|c r]; simpl; unfold semicolon, comma_or_semicolon; naive_solver. }
  assert (∀ e r, wf_entry e → ¬ JsString.stops_at semicolon (chars (vm_text e) ++ r)) as Hne.
  { intros [u o] r (v & _ & Hn & Hu & _). unfold vm_text; simpl. rewrite JsString.chars_app.
    destruct u as [|a u]; [done|]. simpl. inversion Hu as [|?? Ha]; subst.
    intros ->. apply uuid_char_ne in Ha. set_solver. }
  assert (∀ l1 l2, Forall wf_entry l1 → Forall wf_entry l2 →
    JsString.more "," (vm_text <$> l1) x = JsString.more "," (vm_text <$> l2) y → l1 = l2 ∧ x = y) as Hmore.
  { clear l1 l2 H1 H2. intros l1. induction l1 as [|e1 l1 IH]; intros [|e2 l2] H1 H2; simpl; intros Heq; subst.
    - done.
    - by inversion Hx.
    - by inversion Hy.
    - inversion H1; inversion H2; simplify_eq/=. apply vm_text_split in Heq as [-> Heq]; [|by auto..].
      edestruct (IH l2); by subst. }
  unfold vms_text. destruct l1 as [|e1 l1], l2 as [|e2 l2]; rewrite ?fmap_cons, ?JsString.join_more; simpl; intros Heq.
  - done.
  - inversion H2; subst. by apply Hne in Hx.
  - inversion H1; subst. by apply Hne in Hy.
  - inversion H1; inversion H2; simplify_eq/=. apply vm_text_split in Heq as [-> Heq]; [|by auto..].
    edestruct (Hmore l1 l2) as [-> ->]; done.
Qed.

(** One host's text, and the list of hosts. *)
Lemma host_text_split h1 h2 x y :
  NoDup (JsObj.keys (vms h1)) → Forall wf_vm (vms h1) → NoDup (JsObj.keys (vms h2)) → Forall wf_vm (vms h2) →
  JsString.stops_at semicolon x → JsString.stops_at semicolon y →
  chars (host_text (Some h1)) ++ x = chars (host_text (Some h2)) ++ y → same_host h1 h2 ∧ x = y.
Proof.
  intros _ H1%JsString.sorted_entries_Forall _ H2%JsString.sorted_entries_Forall Hx Hy.
  assert (∀ l r r', Forall wf_entry l → JsString.stops_at semicolon r →
    chars (vms_text l) ++ r ≠ chars "unreadable" ++ r') as Hun.
  { intros [|[u o] l] r r' Hl Hr; unfold vms_text.
    - simpl. destruct r; simpl; [done|]. intros [= -> _]. by inversion Hr.
    - inversion Hl as [|?? (v & _ & Hn & Hu & _)]; subst. rewrite fmap_cons, JsString.join_more.
      unfold vm_text; simpl. rewrite JsString.chars_app. simpl in *. destruct u as [|a u]; [done|].
      simpl. inversion Hu as [|?? Ha%uuid_char_ne]; subst. intros [= -> _]. set_solver. }
  unfold same_host. simpl. destruct (ok h1), (ok h2); simpl; intros Heq.
  - apply vms_text_split in Heq as [Heq ->]; [|done..]. split; [|done]. split; [done|].
    intros _. by apply JsString.sorted_entries_inj.
  - by apply Hun in Heq.
  - symmetry in Heq. by apply Hun in Heq.
  - by simplify_eq.
Qed.

Definition hentry := (string * option host)%type.
Definition wf_hentry (e : hentry) : Prop := ∃ h, e.2 = Some h ∧ wf_host (e.1, h).
Definition same_entry (e1 e2 : hentry) : Prop :=
  e1.1 = e2.1 ∧ ∃ h1 h2, e1.2 = Some h1 ∧ e2.2 = Some h2 ∧ same_host h1 h2.
Definition hentry_text (e : hentry) : string := e.1 +:+ ":" +:+ host_text e.2.

Lemma hentry_text_split e1 e2 x y :
  wf_hentry e1 → wf_hentry e2 → JsString.stops_at semicolon x → JsString.stops_at semicolon y →
  chars (hentry_text e1) ++ x = chars (hentry_text e2) ++ y → same_entry e1 e2 ∧ x = y.
Proof.
  destruct e1 as [i1 o1], e2 as [i2 o2].
  intros (h1 & E1 & Hi1 & Hd1 & Hv1) (h2 & E2 & Hi2 & Hd2 & Hv2) Hx Hy. simpl in *. subst.
  unfold hentry_text, same_entry. simpl. rewrite !JsString.chars_app, <- !(assoc_L app). simpl.
  assert (∀ i, Forall digit (chars i) → ":"%char ∉ chars i) as Hcol.
  { intros i Hi. apply (not_in_class _ _ _ Hi). intros a Ha%digit_ne ->. set_solver. }
  intros [Hi Heq]%JsString.split_at; [|by apply Hcol..]. apply JsString.chars_inj in Hi as ->.
  apply (host_text_split h1 h2) in Heq as [Hh ->]; [|done..]. by eauto 10.
Qed.

Lemma hosts_text_split l1 l2 :
  Forall wf_hentry l1 → Forall wf_hentry l2 →
  JsString.join ";" (hentry_text <$> l1) = JsString.join ";" (hentry_text <$> l2) →
  Forall2 same_entry l1 l2.
Proof.
  intros H1 H2.
  assert (∀ l, JsString.stops_at semicolon (JsString.more ";" (hentry_text <$> l) [])) as Hstop by (by intros []).
  assert (∀ l1 l2, Forall wf_hentry l1 → Forall wf_hentry l2 →
    JsString.more ";" (hentry_text <$> l1) [] = JsString.more ";" (hentry_text <$> l2) [] →
    Forall2 same_entry l1 l2) as Hmore.
  { clear l1 l2 H1 H2. intros l1. induction l1 as [|e1 l1 IH]; intros [|e2 l2] H1 H2; simpl; intros Heq;
      simplify_eq; [done|]. inversion H1; inversion H2; subst.
    apply hentry_text_split in Heq as [He Heq]; [|by auto..]. constructor; auto. }
  assert (∀ e r, chars (hentry_text e) ++ r ≠ []) as Hne.
  { intros [[|] o] r; unfold hentry_text; simpl; by rewrite JsString.chars_app. }
  intros Heq%(f_equal (λ s, chars s ++ [])).
  destruct l1 as [|e1 l1], l2 as [|e2 l2]; rewrite ?fmap_cons, ?JsString.join_more in Heq; simpl in Heq.
  - done.
  - by symmetry in Heq; apply Hne in Heq.
  - by apply Hne in Heq.
  - inversion H1; inversion H2; subst.
    apply hentry_text_split in Heq as [He Heq]; [|by auto..]. constructor; auto.
Qed.
End reading.

(** ** Properties *)
Lemma key_of_same s1 s2 : wf_states s1 → wf_states s2 → same_states s1 s2 → vmStatesKey s1 = vmStatesKey s2.
Proof.
  intros [Hn1 Hw1] [Hn2 Hw2] Hs. unfold vmStatesKey. f_equal. unfold JsString.sorted_entries.
  rewrite (JsString.sort_unique (JsObj.keys s1) (JsObj.keys s2)); [|done..|].
  - rewrite <- !list_fmap_compose. apply list_fmap_ext. intros i id _. simpl.
    f_equal. f_equal. specialize (Hs id).
    destruct (JsObj.get id s1) as [h1|] eqn:E1, (JsObj.get id s2) as [h2|] eqn:E2; try done.
    destruct Hs as [Hok Hvms]. simpl. rewrite <- Hok. destruct (ok h1); [|done].
    rewrite Forall_forall in Hw1, Hw2.
    apply JsObj.get_elem_of, Hw1 in E1 as (_ & ? & _). apply JsObj.get_elem_of, Hw2 in E2 as (_ & ? & _).
    unfold vms_text. f_equal. f_equal. apply JsString.sorted_entries_eq; auto.
  - intros id. rewrite !JsObj.elem_of_keys. specialize (Hs id).
    destruct (JsObj.get id s1), (JsObj.get id s2); try done; split; eauto.
Qed.

Lemma same_of_entries s1 s2 id h1 :
  Forall2 same_entry (JsString.sorted_entries s1) (JsString.sorted_entries s2) →
  JsObj.get id s1 = Some h1 → ∃ h2, JsObj.get id s2 = Some h2 ∧ same_host h1 h2.
Proof.
  intros Hf Hg%JsString.elem_of_sorted_entries.
  apply list_elem_of_lookup in Hg as [i Hi]. destruct (Forall2_lookup_l _ _ _ _ _ Hf Hi) as ([id' o] & Hi' & He).
  destruct He as (Hid & h1' & h2 & Ho1 & Ho2 & Hh). simpl in *. simplify_eq. exists h2. split; [|done].
  symmetry. apply JsString.sorted_entries_get. by apply list_elem_of_lookup_2 in Hi'.
Qed.

Lemma same_host_sym h1 h2 : same_host h1 h2 → same_host h2 h1.
Proof. intros [E H]. split; [done|]. intros Ho u. symmetry. apply H. by rewrite E. Qed.

Lemma vmStatesKey_same s1 s2 :
  wf_states s1 → wf_states s2 → vmStatesKey s1 = vmStatesKey s2 ↔ same_states s1 s2.
Proof.
  intros Hw1 Hw2. split; [|by apply key_of_same].
  intros Heq. apply hosts_text_split in Heq; [|by apply JsString.sorted_entries_Forall, Hw1|
    by apply JsString.sorted_entries_Forall, Hw2].
  assert (Forall2 same_entry (JsString.sorted_entries s2) (JsString.sorted_entries s1)) as Heq'.
  { apply Forall2_flip. eapply Forall2_impl; [exact Heq|]. unfold same_entry.
    intros e1 e2 (? & h1 & h2 & ? & ? & ?%same_host_sym). split; [done|]. by eauto. }
  intros id. destruct (JsObj.get id s1) as [h1|] eqn:E1.
  - by destruct (same_of_entries _ _ _ _ Heq E1) as (h2 & -> & ?).
  - destruct (JsObj.get id s2) as [h2|] eqn:E2; [|done].
    destruct (same_of_entries _ _ _ _ Heq' E2) as (? & ? & _). by rewrite E1 in *.
Qed.

(** The key tells exactly what the answers tell: two answers the server can
    send have the same key if and only if they list the same hosts, the same
    ones readable, with the same VMs, names and states, in whatever order the
    hosts and VMs come. *)
Theorem vmStatesKey_tells s1 s2 :
  wf_states s1 → wf_states s2 → vmStatesKey s1 = vmStatesKey s2 ↔ same_states s1 s2.
Proof. apply vmStatesKey_same. Qed.

(** the first answer's key is the one every later answer is compared with *)
Lemma last_is_first a0 l : (run step None (a0 :: l)).1 = Some (vmStatesKey (computes a0)).
Proof.
  simpl. assert (∀ k l, (run step (Some k) l).1 = Some k) as Hrun.
  { intros k l'. apply (run_invariant step (λ s, s = Some k)); [done|].
    intros s a ->. unfold step, onData. case_bool_decide as E; [done|]. simpl.
    destruct (decide (Some (vmStatesKey (computes a)) = Some k)); naive_solver. }
  specialize (Hrun (vmStatesKey (computes a0)) l). by destruct (run _ _ l).
Qed.

(** C32: No change is lost and nothing else reloads: whatever answers came since
    the first one, which the page was rendered with, an answer reloads the page
    exactly when it differs from the first one and the page is neither in use
    nor showing a job; a change met while the page is in use is still a change
    for the next answer. *)
Theorem reloads_exactly_on_change a0 l a :
  wf_states (computes a0) → wf_states (computes a) →
  (step (run step None (a0 :: l)).1 a).2 = [Reload]
  ↔ in_use a = false ∧ job_running a = false ∧ ¬ same_states (computes a0) (computes a).
Proof.
  intros H0 Ha. rewrite last_is_first, <- (vmStatesKey_same _ _ H0 Ha). unfold step, onData.
  case_bool_decide as E; simpl.
  - destruct E as [_ E]. assert (vmStatesKey (computes a0) ≠ vmStatesKey (computes a)) by congruence.
    destruct (in_use a), (job_running a); simpl; split; try done; by intros (? & ? & _).
  - split; [done|]. intros (_ & _ & Hne). destruct E. split; [done|]. congruence.
Qed.

(** ** The properties at concrete answers: two hosts, one unreadable *)
Definition host1 (name state : string) : host := Host true [("aa-1", [name; state]); ("bb-2", ["db,1"; "5"])].
Definition states1 (name state : string) : obj host := [("1", host1 name state); ("12", Host false [])].
(** the same in another order *)
Definition states1' : obj host :=
  [("12", Host false []); ("1", Host true [("bb-2", ["db,1"; "5"]); ("aa-1", ["web"; "1"])])].

Lemma wf_states1 state : Forall digit (chars state) → wf_states (states1 "web" state).
Proof.
  intros Hs. unfold states1, host1. split; [by apply (bool_decide_unpack _)|].
  repeat constructor; simpl; try (by apply (bool_decide_unpack _)); try done.
  - exists "web", state. split_and!; [done|by apply (bool_decide_unpack _)|done].
  - exists "db,1", "5". split_and!; [done|by apply (bool_decide_unpack _)|by repeat constructor].
Qed.
Lemma wf_states1' : wf_states states1'.
Proof.
  split; [by apply (bool_decide_unpack _)|].
  repeat constructor; simpl; try (by apply (bool_decide_unpack _)); try done.
  - exists "db,1", "5". split_and!; [done|by apply (bool_decide_unpack _)|by repeat constructor].
  - exists "web", "1". split_and!; [done|by apply (bool_decide_unpack _)|by repeat constructor].
Qed.

Lemma vmStatesKey_tells_witness :
  vmStatesKey (states1 "web" "1") = vmStatesKey states1' ↔ same_states (states1 "web" "1") states1'.
Proof. apply vmStatesKey_tells; [apply wf_states1; by repeat constructor|apply wf_states1']. Defined.

(** a VM stopped: the page in use waits, the next answer reloads *)
Lemma reloads_exactly_on_change_witness :
  let first := Answer false false (states1 "web" "1") in
  let busy := Answer true false (states1 "web" "5") in
  let later := Answer false false (states1 "web" "5") in
  ((step (run step None [first; busy]).1 later).2 = [Reload]
   ↔ in_use later = false ∧ job_running later = false ∧ ¬ same_states (computes first) (computes later))
  ∧ (step (run step None [first; busy]).1 later).2 = [Reload].
Proof.
  split; [|reflexivity].
  apply (reloads_exactly_on_change _ [_] _); apply wf_states1; by repeat constructor.
Defined.
End VmStates.
