(* ===== verification/JobPanel.v ===== *)
(** * The job panel: operations/static/operations/job_panel.js

    [jobPanel] as a machine: the closure's variables, the poller it makes
    ([Poll], every 3 s, the first request at once) and the requests it has sent.
    Its events are the poller's own, the answers of the job and cancel requests,
    the clicks in the panel and [track]. *)
From S2P Require Import Prelude JsObject JsString Poll.
From Stdlib Require Import Ascii.

#[local] Open Scope string_scope.

Module JobPanel.

(** ** The server's answers *)
Record result := Result {
  warning : string;           (* "" when there is none *)
  left_behind : list string;
  open : string;              (* "" when there is none *)
}.
Record job := Job {
  id : string;
  label : string;
  state : string;
  phase : string;
  error : string;
  progress_done : Z;
  progress_total : Z;         (* 0 also when it is null *)
  cancellable : bool;
  in_request : bool;
  job_result : option result;
}.
Record summary := Summary { s_label : string; s_state : string }.
Record answer := Answer {
  jobs : list job;
  others : list summary;
  short_operation : bool;
  worker_last_seen : option Z;  (* the time it stands for, in ms *)
}.

(** A settled request: answered, or failed with a status (0 when the server
    was not reached) and the detail of its JSON answer ("" when none). *)
Inductive settled (A : Type) := Done (a : A) | Failed (status : Z) (detail : string).
Arguments Done {A} a.
Arguments Failed {A} status detail.

(** The panel's texts in the page's language. *)
Record texts := Texts {
  t_cancel : string; t_open : string; t_refresh : string; t_dismiss : string;
  t_finishing : string; t_not_removed : string; t_short_operation : string;
  t_worker_unavailable : string; t_never : string;
  t_cancel_failed : string; t_cancel_unreachable : string;
}.

(** ** HTML *)
Definition quote : string := String (ascii_of_nat 34) "".
(** The script's HTML texts, their double quotes written as single ones
    (they hold no single quotes). *)
Definition q (s : string) : string := JsString.replace_char "'" quote s.

Definition JOB_STATE_COLORS : obj string :=
  [("queued", "secondary"); ("running", "primary"); ("cancelling", "info"); ("succeeded", "success");
   ("failed", "danger"); ("cancelled", "secondary"); ("uncertain", "warning")].
Definition color (s : string) : string := default "undefined" (JsObj.get s JOB_STATE_COLORS).

(** each [.replace(/c/g, ...)] in turn *)
Definition esc (s : string) : string :=
  JsString.replace_char (ascii_of_nat 34) "&quot;"
    (JsString.replace_char ">" "&gt;"
      (JsString.replace_char "<" "&lt;" (JsString.replace_char "&" "&amp;" s))).

Section panel.
(** the page's texts and state labels, and the browser's date format *)
Variables (states : obj string) (text : texts) (toLocaleString : Z → string).

Definition bar (j : job) : string :=
  if decide (progress_total j = 0%Z) then ""
  else
    let pct := (100 * progress_done j / progress_total j)%Z in
    let finishing := bool_decide (state j = "running" ∧ (99 <= pct)%Z) in
    let width := JsString.of_int (if finishing then 100%Z else pct) in
    q "<div class='progress mt-2' role='progressbar' aria-valuenow='" +:+ width
    +:+ q "' aria-valuemin='0' aria-valuemax='100'><div class='progress-bar"
    +:+ (if finishing then " progress-bar-striped progress-bar-animated" else "")
    +:+ q "' style='width:" +:+ width +:+ q "%'>"
    +:+ (if finishing then esc (t_finishing text) else JsString.of_int pct +:+ "%") +:+ "</div></div>".

(** label, state badge and muted phase on one line, the buttons on its right *)
Definition header (label state phase buttons : string) : string :=
  q "<div class='d-flex flex-wrap align-items-center gap-2'><strong>" +:+ esc label +:+ "</strong>"
  +:+ q "<span class='badge bg-" +:+ color state
  +:+ (if decide (color state = "warning") then " text-dark" else "") +:+ q "'>"
  +:+ esc (match JsObj.get state states with Some l => if decide (l = "") then state else l | None => state end)
  +:+ "</span>"
  +:+ (if decide (phase = "") then "" else q "<span class='small text-body-secondary'>" +:+ esc phase +:+ "</span>")
  +:+ (if decide (buttons = "") then "" else q "<div class='ms-auto d-flex gap-2'>" +:+ buttons +:+ "</div>")
  +:+ "</div>".

Definition alertHtml (state body : string) : string :=
  q "<div class='alert alert-" +:+ color state +:+ q " mb-3' role='status'>" +:+ body +:+ "</div>".

Definition errorHtml (j : job) : string :=
  if decide (error j = "") then "" else q "<div class='small mt-2'>" +:+ esc (error j) +:+ "</div>".

(** [cancelling] : the ids whose cancel request runs *)
Definition jobHtml (cancelling : obj unit) (j : job) : string :=
  let cancel := if cancellable j
    then q "<button type='button' class='btn btn-sm btn-outline-danger' data-cancel='" +:+ esc (id j) +:+ quote
         +:+ (if JsObj.has (id j) cancelling then " disabled" else "") +:+ ">" +:+ esc (t_cancel text) +:+ "</button>"
    else "" in
  alertHtml (state j) (header (label j) (state j) (phase j) cancel +:+ errorHtml j +:+ bar j).

(** the page of what the job made: [/^\/\[^\/\]/], one slash and another character
    after it.  The source's comment says a path of this site; the test takes
    a backslash for that character, which browsers read as a second slash
    ([opens_another_site]). *)
Definition local_path (s : string) : bool :=
  match s with String "/" (String c _) => bool_decide (c ≠ "/"%char) | _ => false end.
Definition opens (j : job) : bool :=
  match job_result j with Some r => local_path (open r) | None => false end.
Definition open_of (j : job) : string := match job_result j with Some r => open r | None => "" end.
Definition left_of (j : job) : list string := match job_result j with Some r => left_behind r | None => [] end.
Definition warning_of (j : job) : string := match job_result j with Some r => warning r | None => "" end.

(** a job that did what it was asked, with nothing more to read *)
Definition quiet (j : job) : bool :=
  bool_decide (state j = "succeeded") && bool_decide (warning_of j = "") && bool_decide (left_of j = []).

Definition outcomeHtml (j : job) : string :=
  let note := if decide (warning_of j = "") then ""
              else q "<div class='small mt-2'>" +:+ esc (warning_of j) +:+ "</div>" in
  let warn := note +:+ (if decide (left_of j = []) then ""
    else q "<div class='small mt-2'>" +:+ esc (t_not_removed text) +:+ q "</div><ul class='list-unstyled small mb-0'>"
      +:+ JsString.join "" ((λ path, q "<li class='text-break'><code>" +:+ esc path +:+ "</code></li>") <$> left_of j)
      +:+ "</ul>") in
  let buttons := (if opens j
      then q "<a class='btn btn-sm btn-primary' href='" +:+ esc (open_of j) +:+ q "'>" +:+ esc (t_open text) +:+ "</a>"
      else "")
    +:+ q "<button type='button' class='btn btn-sm btn-primary' data-refresh='1'>" +:+ esc (t_refresh text) +:+ "</button>"
    +:+ q "<button type='button' class='btn btn-sm btn-outline-secondary' data-dismiss='" +:+ esc (id j)
    +:+ q "'>" +:+ esc (t_dismiss text) +:+ "</button>" in
  alertHtml (state j) (header (label j) (state j) "" buttons +:+ errorHtml j +:+ warn).

Definition noticeHtml (notice : string) : string :=
  if decide (notice = "") then ""
  else alertHtml "failed" (q "<div class='d-flex flex-wrap align-items-center gap-2'><span>"
    +:+ esc notice +:+ q "</span><div class='ms-auto'><button type='button' class='btn btn-sm btn-outline-secondary'"
    +:+ q " data-dismiss-error='1'>" +:+ esc (t_dismiss text) +:+ "</button></div></div>").

Definition otherHtml (o : summary) : string :=
  q "<div class='alert alert-secondary mb-3' role='status'>" +:+ header (s_label o) (s_state o) "" "" +:+ "</div>".

(** a job the worker has to start, run or stop *)
Definition active_state (s : string) : bool := bool_decide (s ∈ ["queued"; "running"; "cancelling"]).
Definition waiting (a : answer) : bool := existsb (λ j, active_state (state j) && negb (in_request j)) (jobs a).
Definition workerHtml (now : Z) (a : answer) : string :=
  if waiting a && match worker_last_seen a with None => true | Some t => bool_decide (60000 < now - t)%Z end
  then q "<div class='alert alert-warning mb-3' role='status'>" +:+ esc (t_worker_unavailable text) +:+ " "
    +:+ esc (match worker_last_seen a with Some t => toLocaleString t | None => t_never text end) +:+ ".</div>"
  else "".

(** ** State: the closure's variables, and the requests not settled *)
Record panel := Panel {
  shown : obj job;              (* id -> job in the last active list *)
  pending : obj unit;           (* left the list (or just submitted), outcome not fetched yet *)
  inflight : obj unit;          (* its outcome is being fetched *)
  dismissed : obj unit;         (* never shown again *)
  outcomes : obj job;           (* finished jobs, until dismissed *)
  cancelling : obj unit;        (* its cancel request runs *)
  notice : string;              (* why the last cancel failed, until dismissed *)
  last : answer;                (* the last list *)
  rendered : option string;     (* the panel's last html *)
  holding : bool;               (* the panel set backgroundJobRunning *)
  bg : bool;                    (* window.backgroundJobRunning *)
  poller : Poll.poller;         (* the poller made by pollWhileVisible *)
  asked : list string;          (* job requests sent and not settled *)
  cancels : list string;        (* cancel requests sent and not settled *)
}.
Definition on_shown (f : obj job → obj job) (p : panel) : panel :=
  Panel (f (shown p)) (pending p) (inflight p) (dismissed p) (outcomes p) (cancelling p) (notice p)
    (last p) (rendered p) (holding p) (bg p) (poller p) (asked p) (cancels p).
Definition on_pending (f : obj unit → obj unit) (p : panel) : panel :=
  Panel (shown p) (f (pending p)) (inflight p) (dismissed p) (outcomes p) (cancelling p) (notice p)
    (last p) (rendered p) (holding p) (bg p) (poller p) (asked p) (cancels p).
Definition on_inflight (f : obj unit → obj unit) (p : panel) : panel :=
  Panel (shown p) (pending p) (f (inflight p)) (dismissed p) (outcomes p) (cancelling p) (notice p)
    (last p) (rendered p) (holding p) (bg p) (poller p) (asked p) (cancels p).
Definition on_dismissed (f : obj unit → obj unit) (p : panel) : panel :=
  Panel (shown p) (pending p) (inflight p) (f (dismissed p)) (outcomes p) (cancelling p) (notice p)
    (last p) (rendered p) (holding p) (bg p) (poller p) (asked p) (cancels p).
Definition on_outcomes (f : obj job → obj job) (p : panel) : panel :=
  Panel (shown p) (pending p) (inflight p) (dismissed p) (f (outcomes p)) (cancelling p) (notice p)
    (last p) (rendered p) (holding p) (bg p) (poller p) (asked p) (cancels p).
Definition on_cancelling (f : obj unit → obj unit) (p : panel) : panel :=
  Panel (shown p) (pending p) (inflight p) (dismissed p) (outcomes p) (f (cancelling p)) (notice p)
    (last p) (rendered p) (holding p) (bg p) (poller p) (asked p) (cancels p).
Definition on_notice (f : string → string) (p : panel) : panel :=
  Panel (shown p) (pending p) (inflight p) (dismissed p) (outcomes p) (cancelling p) (f (notice p))
    (last p) (rendered p) (holding p) (bg p) (poller p) (asked p) (cancels p).
Definition on_last (f : answer → answer) (p : panel) : panel :=
  Panel (shown p) (pending p) (inflight p) (dismissed p) (outcomes p) (cancelling p) (notice p) (f
    (last p)) (rendered p) (holding p) (bg p) (poller p) (asked p) (cancels p).
Definition on_rendered (f : option string → option string) (p : panel) : panel :=
  Panel (shown p) (pending p) (inflight p) (dismissed p) (outcomes p) (cancelling p) (notice p)
    (last p) (f (rendered p)) (holding p) (bg p) (poller p) (asked p) (cancels p).
Definition on_holding (f : bool → bool) (p : panel) : panel :=
  Panel (shown p) (pending p) (inflight p) (dismissed p) (outcomes p) (cancelling p) (notice p)
    (last p) (rendered p) (f (holding p)) (bg p) (poller p) (asked p) (cancels p).
Definition on_bg (f : bool → bool) (p : panel) : panel :=
  Panel (shown p) (pending p) (inflight p) (dismissed p) (outcomes p) (cancelling p) (notice p)
    (last p) (rendered p) (holding p) (f (bg p)) (poller p) (asked p) (cancels p).
Definition on_poller (f : Poll.poller → Poll.poller) (p : panel) : panel :=
  Panel (shown p) (pending p) (inflight p) (dismissed p) (outcomes p) (cancelling p) (notice p)
    (last p) (rendered p) (holding p) (bg p) (f (poller p)) (asked p) (cancels p).
Definition on_asked (f : list string → list string) (p : panel) : panel :=
  Panel (shown p) (pending p) (inflight p) (dismissed p) (outcomes p) (cancelling p) (notice p)
    (last p) (rendered p) (holding p) (bg p) (poller p) (f (asked p)) (cancels p).
Definition on_cancels (f : list string → list string) (p : panel) : panel :=
  Panel (shown p) (pending p) (inflight p) (dismissed p) (outcomes p) (cancelling p) (notice p)
    (last p) (rendered p) (holding p) (bg p) (poller p) (asked p) (f (cancels p)).

(** The panel's html: what [render] builds. *)
Definition html (p : panel) : string :=
  noticeHtml (notice p)
  +:+ JsString.join "" (jobHtml (cancelling p) <$> jobs (last p))
  +:+ JsString.join "" (outcomeHtml <$> (outcomes p).*2)
  +:+ JsString.join "" (otherHtml <$> others (last p))
  +:+ (if short_operation (last p)
       then q "<div class='alert alert-secondary mb-3' role='status'>" +:+ esc (t_short_operation text) +:+ "</div>"
       else "")
  +:+ workerHtml (Poll.now (Poll.page (poller p))) (last p).

(** ** Effects and events *)
Inductive effect :=
  | GetList                  (* $.getJSON(urls.resource) *)
  | GetJob (id : string)     (* $.getJSON(urls.job(id)) *)
  | PostCancel (id : string) (* $.ajax(urls.cancel(id)) *)
  | SetHtml (html : string)  (* element.innerHTML = html *)
  | Assign (url : string)    (* window.location.assign(url) *)
  | Reload.                  (* window.location.reload() *)

(** the data attributes of the clicked element; "" when absent *)
Record dataset := Dataset { d_refresh : string; d_dismiss : string; d_dismissError : string; d_cancel : string }.

Inductive event :=
  | PollEvent (e : Poll.event answer)
  | JobSettled (id : string) (a : settled job) (page_in_use : bool)
  | CancelSettled (id : string) (a : settled unit)
  | Click (d : dataset)
  | Track (id : string)
  | PleaseWait.              (* please_wait.js: a long form is sent *)

Abbreviation handler := (Prelude.handler panel effect).
#[local] Open Scope handler_scope.

(** ** Operations *)
Definition render : handler := with_state (λ p,
  let h := html p in
  (if decide (Some h = rendered p) then skip
   else emit (SetHtml h) ▸ modify (on_rendered (λ _, Some h)))
  ▸ (let busy := bool_decide (h ≠ "") || bool_decide (JsObj.keys (pending p) ≠ []) in
     (if busy then modify (on_bg (λ _, true))
      else if holding p then modify (on_bg (λ _, false)) else skip)
     ▸ modify (on_holding (λ _, busy)))).

(** the part of [fetchOutcome] that runs when it is called *)
Definition fetchOutcome (i : string) : handler := with_state (λ p,
  if JsObj.has i (inflight p) then skip
  else modify (on_inflight (JsObj.set i tt)) ▸ emit (GetJob i) ▸ modify (on_asked (cons i))).

(** ... and its [.done], [.fail] and [.always] handlers *)
Definition outcome_done (i : string) (j : job) (page_in_use : bool) : handler := with_state (λ p,
  if JsObj.has i (dismissed p) then modify (on_pending (JsObj.del i))
  else if active_state (state j) then skip
  else modify (on_pending (JsObj.del i)) ▸ with_state (λ p,
    let others := (length (JsObj.keys (outcomes p)) + length (JsObj.keys (pending p))
                   + length (JsObj.keys (shown p)))%nat in
    if quiet j && negb page_in_use && (others =? 0)%nat
    then if opens j then emit (Assign (open_of j)) else emit Reload
    else modify (on_outcomes (JsObj.set i j)) ▸ render)).
Definition outcome_fail (i : string) (status : Z) : handler :=
  if bool_decide (status = 403 ∨ status = 404)%Z then modify (on_pending (JsObj.del i)) ▸ render else skip.
Definition outcome_always (i : string) : handler := modify (on_inflight (JsObj.del i)).

Definition remove_one (i : string) (l : list string) : list string :=
  match list_find (eq i) l with Some (n, _) => delete n l | None => l end.

Definition job_settled (i : string) (a : settled job) (page_in_use : bool) : handler :=
  modify (on_asked (remove_one i))
  ▸ match a with Done j => outcome_done i j page_in_use | Failed status _ => outcome_fail i status end
  ▸ outcome_always i.

Definition set_pending (i : string) : handler := modify (on_pending (JsObj.set i tt)).

(** [now]: the jobs of the list by id *)
Definition listed (data : answer) : obj job := fold_left (λ o j, JsObj.set (id j) j o) (jobs data) [].

Definition onData (data : answer) : handler :=
  let now := listed data in
  with_state (λ p, for_each (JsObj.keys (shown p)) (λ i, if JsObj.has i now then skip else set_pending i))
  ▸ for_each (JsObj.keys now) (λ i, modify (on_pending (JsObj.del i)))
  ▸ modify (on_shown (λ _, now))
  ▸ modify (on_last (λ _, data))
  ▸ with_state (λ p, for_each (JsObj.keys (pending p)) fetchOutcome)
  ▸ render.

(** The poller's events, its answers passed to [onData]. *)
Definition interval : Z := 3000.
Definition poll_effect (e : Poll.effect answer) : handler :=
  match e with Poll.Request => emit GetList | Poll.OnData d => onData d end.
Definition poll_event (e : Poll.event answer) : handler := with_state (λ p,
  let '(pl, es) := Poll.step interval (poller p) e in
  modify (on_poller (λ _, pl)) ▸ for_each es poll_effect).
(** [poller.stop(); poller.start();] ask for the list now *)
Definition ask_now : handler := poll_event Poll.Stop ▸ poll_event Poll.Start.

Definition cancel (i : string) : handler :=
  modify (on_cancelling (JsObj.set i tt)) ▸ modify (on_notice (λ _, "")) ▸ render
  ▸ emit (PostCancel i) ▸ modify (on_cancels (cons i)).
Definition cancel_settled (i : string) (a : settled unit) : handler :=
  modify (on_cancels (remove_one i))
  ▸ match a with
    | Done _ => skip
    | Failed status detail => modify (on_notice (λ _,
        if decide (detail = "") then
          if decide (status = 0%Z) then t_cancel_unreachable text
          else JsString.replace_first "%(status)s" (JsString.of_int status) (t_cancel_failed text)
        else detail))
    end
  ▸ modify (on_cancelling (JsObj.del i)) ▸ render ▸ ask_now.

Definition unless_empty (s : string) (h : handler) : handler := if decide (s = "") then skip else h.
Definition click (d : dataset) : handler :=
  unless_empty (d_refresh d) (emit Reload)
  ▸ unless_empty (d_dismiss d) (modify (on_dismissed (JsObj.set (d_dismiss d) tt))
      ▸ modify (on_outcomes (JsObj.del (d_dismiss d))) ▸ render)
  ▸ unless_empty (d_dismissError d) (modify (on_notice (λ _, "")) ▸ render)
  ▸ unless_empty (d_cancel d) (with_state (λ p,
      if JsObj.has (d_cancel d) (cancelling p) then skip else cancel (d_cancel d))).

(** follow a job the page just started, as a remembered one *)
Definition track (i : string) : handler := set_pending i ▸ render ▸ ask_now.

Definition step (p : panel) (e : event) : panel * list effect :=
  match e with
  | PollEvent e => poll_event e p
  | JobSettled i a u => job_settled i a u p
  | CancelSettled i a => cancel_settled i a p
  | Click d => click d p
  | Track i => track i p
  | PleaseWait => (on_bg (λ _, true) p, [])
  end.

(** Each button of the panel carries one of the attributes. *)
Definition one_attribute (d : dataset) : Prop :=
  ∃ s, d = Dataset s "" "" "" ∨ d = Dataset "" s "" "" ∨ d = Dataset "" "" s "" ∨ d = Dataset "" "" "" s.

(** What the browser can deliver.  [stop] and [start] are not the page's to
    call: only the panel does. *)
Definition enabled (p : panel) (e : event) : Prop :=
  match e with
  | PollEvent e => Poll.enabled (poller p) e ∧ e ≠ Poll.Stop ∧ e ≠ Poll.Start
  | JobSettled i _ _ => i ∈ asked p
  | CancelSettled i _ => i ∈ cancels p
  | Click d => one_attribute d
  | Track _ | PleaseWait => True
  end.

(** [jobPanel(element, urls, csrfToken, initialIds, ...)] on a page whose flag is [flag] *)
Definition jobPanel (initialIds : list string) (flag : bool) (b : Poll.browser) : panel :=
  let nonempty := bool_decide (initialIds ≠ []) in
  Panel [] (fold_left (λ o i, JsObj.set i tt o) initialIds []) [] [] [] [] ""
    (Answer [] [] false None) None nonempty (nonempty || flag)
    (Poll.pollWhileVisible interval (Some 0%Z) b) [] [].

(** ** What each part of a handler does to the state *)
Lemma render_state p :
  (render p).1 = on_holding (λ _, bool_decide (html p ≠ "") || bool_decide (JsObj.keys (pending p) ≠ []))
    (on_bg (λ b, (bool_decide (html p ≠ "") || bool_decide (JsObj.keys (pending p) ≠ [])) || (negb (holding p) && b))
      (on_rendered (λ _, Some (html p)) p)).
Proof.
  assert (on_rendered (λ _, rendered p) p = p) as Hid by (by destruct p).
  unfold render, with_state. rewrite !seq_fst. set (busy := _ || _).
  destruct (decide (Some (html p) = rendered p)) as [E|E]; [rewrite E, Hid|];
    destruct p as [????????????? ?], busy, holding0; done.
Qed.
Lemma render_emits : emits (λ o, ∃ h, o = SetHtml h) render.
Proof. unfold render. solve_emits ltac:(by eauto). Qed.

(** *** Requests: a job's outcome is asked for once at a time *)
Definition req_ok (l : list string) (o : obj unit) : Prop :=
  NoDup l ∧ ∀ i, i ∈ l ↔ JsObj.has i o = true.
Definition asked_ok (p : panel) : Prop := req_ok (asked p) (inflight p).
Definition cancels_ok (p : panel) : Prop := req_ok (cancels p) (cancelling p).

Lemma req_ok_add i l o : JsObj.has i o = false → req_ok l o → req_ok (i :: l) (JsObj.set i tt o).
Proof.
  intros Hi [Hnd Hl]. split.
  - constructor; [|done]. rewrite Hl. by rewrite Hi.
  - intros k. rewrite elem_of_cons, Hl, JsObj.has_set, orb_true_iff, bool_decide_eq_true. done.
Qed.

Lemma remove_one_elem i k l : NoDup l → k ∈ remove_one i l ↔ k ∈ l ∧ k ≠ i.
Proof.
  unfold remove_one. induction l as [|x l IH]; intros Hnd; simpl.
  - set_solver.
  - inversion Hnd as [|?? Hx Hnd']; subst. case_decide; subst; simpl; [set_solver|].
    specialize (IH Hnd'). destruct (list_find (eq i) l) as [[n y]|]; simpl in *; set_solver.
Qed.
Lemma NoDup_remove_one i l : NoDup l → NoDup (remove_one i l).
Proof.
  unfold remove_one. intros Hnd. destruct (list_find (eq i) l) as [[n y]|]; [|done].
  eapply sublist_NoDup; [exact Hnd|]. apply sublist_delete.
Qed.
Lemma req_ok_remove i l o : req_ok l o → req_ok (remove_one i l) (JsObj.del i o).
Proof.
  intros [Hnd Hl]. split; [by apply NoDup_remove_one|]. intros k.
  rewrite remove_one_elem, Hl, JsObj.has_del, andb_true_iff, bool_decide_eq_true by done. naive_solver.
Qed.

(** Updates of other variables keep what does not read them. *)
Ltac frame := solve_preserves ltac:(done).

Lemma fetchOutcome_asked i : preserves asked_ok (fetchOutcome i).
Proof.
  intros p Hp. unfold fetchOutcome, with_state. destruct (JsObj.has i (inflight p)) eqn:E; [done|].
  by apply req_ok_add.
Qed.
Lemma render_asked a f : preserves (λ p, asked p = a ∧ inflight p = f) render.
Proof. unfold render. frame. Qed.
Lemma render_asked_ok : preserves asked_ok render.
Proof. unfold render. frame. Qed.
Lemma onData_asked d : preserves asked_ok (onData d).
Proof. pose proof fetchOutcome_asked. pose proof render_asked_ok. unfold onData, set_pending. frame. Qed.
Lemma poll_event_asked e : preserves asked_ok (poll_event e).
Proof.
  pose proof onData_asked. unfold poll_event. apply preserves_with_state. intros p.
  destruct (Poll.step _ _ _). unfold poll_effect. frame.
Qed.
Lemma outcome_frame a f i st u :
  preserves (λ p, asked p = a ∧ inflight p = f)
    (match st with Done j => outcome_done i j u | Failed status _ => outcome_fail i status end).
Proof. pose proof (render_asked a f). unfold outcome_done, outcome_fail. frame. Qed.

Lemma step_asked p e : asked_ok p → asked_ok (step p e).1.
Proof.
  pose proof poll_event_asked as Hpoll. pose proof render_asked_ok. intros Hp.
  destruct e as [e|i a u|i a|d|i|]; simpl; [by apply Hpoll|..|done].
  - unfold job_settled, outcome_always. rewrite !seq_fst. simpl.
    set (p1 := on_asked _ p).
    destruct (outcome_frame (asked p1) (inflight p1) i a u p1) as [Ha Hf]; [done|].
    unfold asked_ok. simpl. rewrite Ha, Hf. by apply req_ok_remove.
  - revert p Hp. change (preserves asked_ok (cancel_settled i a)). unfold cancel_settled, ask_now. frame.
  - revert p Hp. change (preserves asked_ok (click d)). unfold click, unless_empty, cancel. frame.
  - revert p Hp. change (preserves asked_ok (track i)). unfold track, set_pending, ask_now. frame.
Qed.

Lemma render_cancels : preserves cancels_ok render.
Proof. unfold render. frame. Qed.
Lemma render_cancel_fields c n : preserves (λ p, cancels p = c ∧ cancelling p = n) render.
Proof. unfold render. frame. Qed.
Lemma poll_event_cancel_fields c n e : preserves (λ p, cancels p = c ∧ cancelling p = n) (poll_event e).
Proof.
  pose proof (render_cancel_fields c n). unfold poll_event. apply preserves_with_state. intros p.
  destruct (Poll.step _ _ _). unfold poll_effect, onData, set_pending, fetchOutcome. frame.
Qed.
Lemma cancel_cancels i p : JsObj.has i (cancelling p) = false → cancels_ok p → cancels_ok (cancel i p).1.
Proof.
  intros Hi Hp. unfold cancel. rewrite !seq_fst. simpl. set (p1 := on_notice _ _).
  destruct (render_cancel_fields (cancels p1) (cancelling p1) p1) as [Hc Hn]; [done|].
  unfold cancels_ok. simpl. rewrite Hc, Hn. by apply req_ok_add.
Qed.
Lemma step_cancels p e : cancels_ok p → cancels_ok (step p e).1.
Proof.
  intros Hp.
  assert (∀ (h : handler) p, (∀ c n, preserves (λ p, cancels p = c ∧ cancelling p = n) h) →
    cancels_ok p → cancels_ok (h p).1) as Hframe.
  { intros h p' Hh Hp'. destruct (Hh (cancels p') (cancelling p') p') as [Hc Hn]; [done|].
    unfold cancels_ok. by rewrite Hc, Hn. }
  destruct e as [e|i a u|i a|d|i|]; simpl; [..|done].
  - apply Hframe; [|done]. intros. apply poll_event_cancel_fields.
  - apply Hframe; [|done]. intros c n. pose proof (render_cancel_fields c n).
    unfold job_settled, outcome_done, outcome_fail, outcome_always. frame.
  - unfold cancel_settled. rewrite (seq_fst _ ask_now), (seq_fst _ render).
    apply Hframe; [intros c n; pose proof (poll_event_cancel_fields c n); unfold ask_now; frame|].
    apply Hframe; [intros c n; apply render_cancel_fields|].
    rewrite !seq_fst. destruct a; simpl; by apply req_ok_remove.
  - assert (preserves cancels_ok (click d)) as Hclick; [|by apply Hclick].
    pose proof render_cancels. unfold click, unless_empty.
    apply preserves_seq; [frame|]. case_decide; [apply preserves_skip|].
    intros s Hs. unfold with_state. destruct (JsObj.has _ _) eqn:E; [done|]. by apply cancel_cancels.
  - apply Hframe; [|done]. intros c n. pose proof (render_cancel_fields c n). pose proof (poll_event_cancel_fields c n).
    unfold track, set_pending, ask_now. frame.
Qed.

(** *** The poller the panel drives is one of [Poll]'s *)
Definition poller_ok (p : panel) : Prop := Poll.Inv interval (Some 0%Z) (poller p).

Lemma poll_event_poller p e : Poll.enabled (poller p) e → poller_ok p → poller_ok (poll_event e p).1.
Proof.
  intros He Hp. unfold poll_event, with_state. destruct (Poll.step _ _ _) as [pl es] eqn:E.
  assert (∀ q, preserves (λ p, poller p = q) render) as Hr by (intros q; unfold render; frame).
  rewrite seq_fst. simpl. set (p1 := on_poller _ p).
  assert (preserves (λ p, poller p = pl) (for_each es poll_effect)) as Hf.
  { unfold poll_effect, onData, set_pending, fetchOutcome. frame. }
  unfold poller_ok. rewrite (Hf p1 eq_refl). pose proof (Poll.step_inv interval (Some 0%Z) _ _ Hp He) as Hi.
  by rewrite E in Hi.
Qed.
Lemma ask_now_poller p : poller_ok p → poller_ok (ask_now p).1.
Proof. intros Hp. unfold ask_now. rewrite seq_fst. by repeat apply poll_event_poller. Qed.
Lemma render_poller : preserves poller_ok render.
Proof. unfold render. frame. Qed.
Lemma step_poller p e : enabled p e → poller_ok p → poller_ok (step p e).1.
Proof.
  pose proof render_poller. pose proof ask_now_poller as Ha. change (preserves poller_ok ask_now) in Ha.
  intros He Hp. destruct e as [e|i a u|i a|d|i|]; simpl; [by apply poll_event_poller; [apply He|]|..|done];
    revert p Hp He.
  - intros p Hp _. revert p Hp. change (preserves poller_ok (job_settled i a u)).
    unfold job_settled, outcome_done, outcome_fail, outcome_always. frame.
  - intros p Hp _. revert p Hp. change (preserves poller_ok (cancel_settled i a)). unfold cancel_settled. frame.
  - intros p Hp _. revert p Hp. change (preserves poller_ok (click d)). unfold click, unless_empty, cancel. frame.
  - intros p Hp _. revert p Hp. change (preserves poller_ok (track i)). unfold track, set_pending. frame.
Qed.

(** *** A dismissed outcome stays dismissed *)
Definition dismissed_ok (p : panel) : Prop :=
  ∀ i, JsObj.has i (dismissed p) = true → JsObj.get i (outcomes p) = None.

Lemma render_dismissed : preserves dismissed_ok render.
Proof. unfold render. frame. Qed.
Lemma poll_event_dismissed e : preserves dismissed_ok (poll_event e).
Proof.
  pose proof render_dismissed. unfold poll_event. apply preserves_with_state. intros p.
  destruct (Poll.step _ _ _). unfold poll_effect, onData, set_pending, fetchOutcome. frame.
Qed.
Lemma outcome_done_dismissed i j u : preserves dismissed_ok (outcome_done i j u).
Proof.
  intros p Hp. unfold outcome_done, with_state. destruct (JsObj.has i (dismissed p)) eqn:E; [done|].
  destruct (active_state _); [done|]. rewrite seq_fst. simpl. set (p1 := on_pending _ p).
  assert (dismissed_ok p1) as Hp1 by exact Hp. destruct (_ && _); [by destruct (opens j)|].
  rewrite seq_fst. apply render_dismissed. intros k Hk. simpl in *. rewrite JsObj.get_set.
  case_decide; [|by apply Hp]. subst. by rewrite E in Hk.
Qed.
Lemma step_dismissed p e : dismissed_ok p → dismissed_ok (step p e).1.
Proof.
  pose proof render_dismissed. pose proof poll_event_dismissed as Hpoll. pose proof outcome_done_dismissed.
  intros Hp. destruct e as [e|i a u|i a|d|i|]; simpl; [by apply Hpoll|..|done]; revert p Hp.
  - change (preserves dismissed_ok (job_settled i a u)). unfold job_settled, outcome_fail, outcome_always. frame.
  - change (preserves dismissed_ok (cancel_settled i a)). unfold cancel_settled, ask_now. frame.
  - change (preserves dismissed_ok (click d)). unfold click, unless_empty, cancel.
    repeat apply preserves_seq; try (by frame). case_decide; [apply preserves_skip|].
    apply preserves_seq; [|done]. intros p Hp. rewrite seq_fst. simpl. intros k. simpl.
    rewrite JsObj.has_set, JsObj.get_del. case_bool_decide; simpl; [by rewrite decide_True|].
    rewrite decide_False by done. by apply Hp.
  - change (preserves dismissed_ok (track i)). unfold track, set_pending, ask_now. frame.
Qed.

(** *** The flag that keeps the page from reloading *)
Definition flag_weak (p : panel) : Prop := holding p = true → bg p = true.
Record guard_ok (p : panel) : Prop := {
  guard_flag : flag_weak p;
  guard_pending : JsObj.keys (pending p) ≠ [] → holding p = true;
  guard_rendered : ∀ h, rendered p = Some h → h ≠ "" → holding p = true;
}.

Lemma render_guard p : flag_weak p → guard_ok (render p).1.
Proof.
  intros Hw. rewrite render_state. set (busy := _ || _).
  constructor; simpl.
  - unfold flag_weak; simpl. by intros ->.
  - intros Hp. unfold busy. rewrite (bool_decide_eq_true_2 (JsObj.keys _ ≠ [])) by done. apply orb_true_r.
  - intros h [= <-] Hh. unfold busy. by rewrite bool_decide_eq_true_2.
Qed.
Lemma render_weak : preserves flag_weak render.
Proof. intros p Hp. by apply render_guard. Qed.
Lemma del_pending_guard i : preserves guard_ok (modify (O:=effect) (on_pending (JsObj.del i))).
Proof.
  intros p [Hf Hp Hr]. constructor; [done| |done]. simpl. intros Hk. apply Hp. intros He. apply Hk.
  apply JsObj.keys_nil_no_key. intros k. rewrite JsObj.get_del. rewrite JsObj.keys_nil_no_key in He.
  case_decide; [done|apply He].
Qed.
Lemma onData_guard d : preserves guard_ok (onData d).
Proof.
  intros p [Hf _ _]. unfold onData. rewrite (seq_fst _ render). apply render_guard.
  revert p Hf. match goal with |- ∀ p, flag_weak p → flag_weak (?h p).1 => change (preserves flag_weak h) end.
  unfold set_pending, fetchOutcome. frame.
Qed.
Ltac guard_frame := solve_preserves ltac:(idtac; match goal with H : guard_ok _ |- _ => destruct H; constructor; done end).
Lemma poll_event_guard e : preserves guard_ok (poll_event e).
Proof.
  pose proof onData_guard. unfold poll_event. apply preserves_with_state. intros p.
  destruct (Poll.step _ _ _). unfold poll_effect. guard_frame.
Qed.
Lemma seq_render_guard (h : handler) : preserves flag_weak h → preserves guard_ok (h ▸ render).
Proof. intros Hh p [Hf _ _]. rewrite seq_fst. by apply render_guard, Hh. Qed.

Lemma outcome_done_guard i j u : preserves guard_ok (outcome_done i j u).
Proof.
  pose proof (del_pending_guard i). unfold outcome_done. apply preserves_with_state. intros p.
  destruct (JsObj.has _ _); [done|]. destruct (active_state _); [apply preserves_skip|].
  apply preserves_seq; [done|]. apply preserves_with_state. intros p'.
  destruct (_ && _); [destruct (opens j); apply preserves_emit|]. apply seq_render_guard. frame.
Qed.
Lemma step_guard p e : guard_ok p → guard_ok (step p e).1.
Proof.
  pose proof poll_event_guard as Hpoll. pose proof outcome_done_guard. pose proof render_weak.
  intros Hp. destruct e as [e|i a u|i a|d|i|]; simpl; [by apply Hpoll|..]; revert p Hp.
  - change (preserves guard_ok (job_settled i a u)). unfold job_settled, outcome_always.
    repeat apply preserves_seq; [guard_frame| |guard_frame]. destruct a; [done|]. unfold outcome_fail.
    destruct (bool_decide _); [|apply preserves_skip]. apply seq_render_guard. frame.
  - change (preserves guard_ok (cancel_settled i a)). unfold cancel_settled, ask_now.
    apply preserves_seq; [|by auto with handler]. apply seq_render_guard. frame.
  - change (preserves guard_ok (click d)). unfold click, unless_empty.
    repeat apply preserves_seq; case_decide; try apply preserves_skip; try apply preserves_emit;
      try (apply seq_render_guard; frame).
    apply preserves_with_state. intros p. destruct (JsObj.has _ _); [apply preserves_skip|].
    unfold cancel. do 2 (apply preserves_seq; [|guard_frame]). apply seq_render_guard. frame.
  - change (preserves guard_ok (track i)). unfold track, ask_now, set_pending.
    apply preserves_seq; [|by auto with handler]. apply seq_render_guard. frame.
  - intros p [Hf Hq Hr]. by constructor.
Qed.

(** *** What a list does to the jobs followed *)
Lemma pending_loop (now : obj job) l p : ∃ pd,
  (for_each l (λ i, if JsObj.has i now then skip else set_pending i) p).1 = on_pending (λ _, pd) p
  ∧ ∀ k, JsObj.has k pd = JsObj.has k (pending p) || (bool_decide (k ∈ l) && negb (JsObj.has k now)).
Proof.
  revert p. induction l as [|i l IH]; intros p.
  { exists (pending p). split; [by destruct p|]. intros k. by rewrite orb_false_r. }
  change (for_each (i :: l) ?f) with (f i ▸ for_each l f). rewrite seq_fst.
  destruct (IH ((if JsObj.has i now then skip else set_pending i) p).1) as (pd & Hpd & Hk).
  exists pd. rewrite Hpd. split; [by destruct (JsObj.has i now)|]. intros k. rewrite Hk.
  destruct (JsObj.has i now) eqn:E; simpl; [|rewrite JsObj.has_set];
    (destruct (decide (k = i)) as [->|Hne];
      [rewrite ?E, (bool_decide_eq_true_2 (i ∈ i :: l)) by set_solver; rewrite ?bool_decide_eq_true_2 by done
      |rewrite (bool_decide_ext (k ∈ i :: l) (k ∈ l)) by set_solver; rewrite ?bool_decide_eq_false_2 by done]);
    simpl; try done; by rewrite ?andb_false_r, ?orb_true_r.
Qed.

Lemma unlist_loop l p : ∃ pd,
  (for_each (O:=effect) l (λ i, modify (on_pending (JsObj.del i))) p).1 = on_pending (λ _, pd) p
  ∧ ∀ k, JsObj.has k pd = JsObj.has k (pending p) && bool_decide (k ∉ l).
Proof.
  revert p. induction l as [|i l IH]; intros p.
  { exists (pending p). split; [by destruct p|]. intros k.
    rewrite bool_decide_eq_true_2 by set_solver. by rewrite andb_true_r. }
  change (for_each (i :: l) ?f) with (f i ▸ for_each l f). rewrite seq_fst.
  destruct (IH (on_pending (JsObj.del i) p)) as (pd & Hpd & Hk).
  exists pd. simpl. rewrite Hpd. split; [done|]. intros k. rewrite Hk. simpl. rewrite JsObj.has_del.
  destruct (decide (k = i)) as [->|Hne].
  - rewrite (bool_decide_eq_false_2 (i ≠ i)), (bool_decide_eq_false_2 (i ∉ i :: l)) by set_solver.
    by rewrite andb_false_r.
  - rewrite (bool_decide_eq_true_2 (k ≠ i)), (bool_decide_ext (k ∉ i :: l) (k ∉ l)) by set_solver. done.
Qed.

Lemma fetch_loop l p : ∃ fl a,
  (for_each l fetchOutcome p).1 = on_inflight (λ _, fl) (on_asked (λ _, a) p)
  ∧ ∀ k, JsObj.has k fl = JsObj.has k (inflight p) || bool_decide (k ∈ l).
Proof.
  revert p. induction l as [|i l IH]; intros p.
  { exists (inflight p), (asked p). split; [by destruct p|]. intros k. by rewrite orb_false_r. }
  change (for_each (i :: l) ?f) with (f i ▸ for_each l f). rewrite seq_fst.
  destruct (IH (fetchOutcome i p).1) as (fl & a & Hfl & Hk).
  exists fl, a. rewrite Hfl. unfold fetchOutcome, with_state in *.
  destruct (JsObj.has i (inflight p)) eqn:E; (split; [done|]); intros k; rewrite Hk; simpl;
    [|rewrite JsObj.has_set]; destruct (decide (k = i)) as [->|Hne].
  - by rewrite E.
  - by rewrite (bool_decide_ext (k ∈ i :: l) (k ∈ l)) by set_solver.
  - rewrite (bool_decide_eq_true_2 (i = i)), (bool_decide_eq_true_2 (i ∈ i :: l)) by (done || by left).
    by rewrite orb_true_r.
  - by rewrite (bool_decide_eq_false_2 (k = i)), (bool_decide_ext (k ∈ i :: l) (k ∈ l)) by set_solver.
Qed.

Lemma has_keys {A} k (o : obj A) : bool_decide (k ∈ JsObj.keys o) = JsObj.has k o.
Proof. unfold JsObj.has. apply bool_decide_ext, JsObj.elem_of_keys. Qed.

Lemma onData_fields d p :
  let p' := (onData d p).1 in
  shown p' = listed d ∧ outcomes p' = outcomes p ∧ dismissed p' = dismissed p
  ∧ (∀ k, JsObj.has k (pending p') = (JsObj.has k (pending p) || JsObj.has k (shown p)) && negb (JsObj.has k (listed d)))
  ∧ (∀ k, JsObj.has k (pending p') = true → JsObj.has k (inflight p') = true).
Proof.
  unfold onData. rewrite !seq_fst, render_state. unfold with_state.
  destruct (pending_loop (listed d) (JsObj.keys (shown p)) p) as (pd1 & -> & Hk1).
  set (p1 := on_pending _ p).
  destruct (unlist_loop (JsObj.keys (listed d)) p1) as (pd2 & -> & Hk2). simpl.
  set (p2 := on_last _ _).
  destruct (fetch_loop (JsObj.keys pd2) p2) as (fl & a & -> & Hk3). simpl. split_and!; [done..| |].
  - intros k. rewrite Hk2. simpl. rewrite Hk1, has_keys, bool_decide_not, has_keys.
    by destruct (JsObj.has k (pending p)), (JsObj.has k (shown p)), (JsObj.has k (listed d)).
  - intros k Hk. by rewrite Hk3, has_keys, Hk, orb_true_r.
Qed.

(** *** Which jobs a step follows *)
Definition followed (i : string) (p : panel) : bool :=
  JsObj.has i (shown p) || JsObj.has i (pending p) || JsObj.has i (outcomes p).

Definition navigates (o : effect) : bool :=
  match o with Reload | Assign _ => true | _ => false end.

(** how a job leaves the panel *)
Definition let_go (p : panel) (e : event) (i : string) : Prop :=
  match e with
  | Click d => d_dismiss d = i
  | JobSettled k (Failed s _) _ => k = i ∧ (s = 403 ∨ s = 404)%Z
  | JobSettled k (Done j) _ =>
      k = i ∧ (JsObj.has i (dismissed p) = true
               ∨ (active_state (state j) = false ∧ existsb navigates (step p e).2 = true))
  | _ => False
  end.

Definition tracks (i : string) (p : panel) : Prop := followed i p = true.

Lemma followed_split i p :
  followed i p = true ↔
  JsObj.has i (shown p) = true ∨ JsObj.has i (pending p) = true ∨ JsObj.has i (outcomes p) = true.
Proof. unfold followed. rewrite !orb_true_iff. tauto. Qed.

Lemma render_tracks i : preserves (tracks i) render.
Proof. unfold render. frame. Qed.
Lemma set_pending_tracks i k : preserves (tracks i) (set_pending k).
Proof.
  intros p. unfold tracks. rewrite !followed_split. simpl. rewrite JsObj.has_set, orb_true_iff. tauto.
Qed.
Lemma onData_tracks i d : preserves (tracks i) (onData d).
Proof.
  intros p. unfold tracks. rewrite !followed_split.
  destruct (onData_fields d p) as (-> & -> & _ & Hp & _). rewrite Hp.
  destruct (JsObj.has i (listed d)), (JsObj.has i (shown p)), (JsObj.has i (pending p)); simpl; auto.
Qed.
Lemma poll_event_tracks i e : preserves (tracks i) (poll_event e).
Proof.
  pose proof (onData_tracks i). unfold poll_event. apply preserves_with_state. intros p.
  destruct (Poll.step _ _ _). unfold poll_effect. frame.
Qed.
Lemma del_pending_other i k : k ≠ i → preserves (tracks i) (modify (O:=effect) (on_pending (JsObj.del k))).
Proof.
  intros Hk p. unfold tracks. rewrite !followed_split. simpl. rewrite JsObj.has_del.
  rewrite (bool_decide_eq_true_2 (i ≠ k)) by done. tauto.
Qed.
Lemma del_outcome_other i k : k ≠ i → preserves (tracks i) (modify (O:=effect) (on_outcomes (JsObj.del k))).
Proof.
  intros Hk p. unfold tracks. rewrite !followed_split. simpl. rewrite JsObj.has_del.
  rewrite (bool_decide_eq_true_2 (i ≠ k)) by done. tauto.
Qed.
Lemma set_outcome_tracks i k j : preserves (tracks i) (modify (O:=effect) (on_outcomes (JsObj.set k j))).
Proof.
  intros p. unfold tracks. rewrite !followed_split. simpl. rewrite JsObj.has_set, orb_true_iff. tauto.
Qed.

(** what the outcome of one job does to the others *)
Lemma outcome_other i k a u : k ≠ i →
  preserves (tracks i) (match a with Done j => outcome_done k j u | Failed s _ => outcome_fail k s end).
Proof.
  intros Hk. pose proof (del_pending_other i k Hk). pose proof (set_outcome_tracks i k).
  pose proof (render_tracks i). unfold outcome_done, outcome_fail. solve_preserves ltac:(fail).
Qed.

(** ... and to itself *)
Lemma outcome_done_self i j u p :
  tracks i p → JsObj.has i (dismissed p) = false →
  tracks i (outcome_done i j u p).1
  ∨ (active_state (state j) = false ∧ existsb navigates (outcome_done i j u p).2 = true).
Proof.
  intros Hp Hd. unfold outcome_done, with_state. rewrite Hd. destruct (active_state _); [by left|].
  rewrite seq_fst, seq_snd. simpl. set (p1 := on_pending _ p).
  destruct (_ && _); [right; by destruct (opens j)|]. left.
  rewrite seq_fst. apply render_tracks. unfold tracks. rewrite followed_split. simpl.
  rewrite JsObj.has_set, bool_decide_eq_true_2 by done. tauto.
Qed.

Lemma job_settled_effects i a u p :
  (job_settled i a u p).2 =
    (match a with Done j => outcome_done i j u | Failed s _ => outcome_fail i s end (on_asked (remove_one i) p)).2.
Proof. unfold job_settled, outcome_always. rewrite !seq_snd. simpl. by rewrite app_nil_r. Qed.

(** *** A flag the panel did not set *)
Definition not_ours (p : panel) : Prop := holding p = false ∧ bg p = true.
Definition flagged (p : panel) : Prop := bg p = true.

Lemma not_ours_flagged (f g : handler) p :
  preserves not_ours f → preserves flagged g → not_ours p → flagged ((f ▸ render ▸ g) p).1.
Proof.
  intros Hf Hg Hp. rewrite !seq_fst. apply Hg. destruct (Hf p Hp) as [Hh Hb].
  unfold flagged. rewrite render_state. simpl. by rewrite Hh, Hb, orb_true_r.
Qed.
Lemma onData_flag d p : not_ours p → flagged (onData d p).1.
Proof.
  intros Hp. unfold onData. match goal with |- context [seq ?f render] => set (h := f) end.
  pose proof (not_ours_flagged h skip p) as Hs. rewrite seq_fst in Hs. apply Hs; [|by intros ?|done].
  unfold h, set_pending, fetchOutcome. frame.
Qed.
Lemma poll_event_flag e p : not_ours p → flagged (poll_event e p).1.
Proof.
  intros Hp. unfold poll_event, with_state. destruct (Poll.step _ _ _) as [pl es] eqn:E.
  rewrite seq_fst. simpl. set (p1 := on_poller _ p).
  assert (es = [] ∨ ∃ o, es = [o]) as [->|[o ->]].
  { destruct e; simpl in E; unfold Poll.run_poll, Poll.settle, Poll.start, Poll.resume, Poll.run_poll in E;
      repeat case_match; simplify_eq/=; eauto. }
  - apply Hp.
  - simpl. rewrite seq_fst. destruct o; [apply Hp|by apply onData_flag].
Qed.
Lemma ask_now_flag : preserves flagged ask_now.
Proof.
  intros p Hp. unfold ask_now, poll_event, with_state. rewrite !seq_fst. simpl.
  unfold Poll.start, Poll.resume, Poll.run_poll. repeat case_match; simplify_eq/=; done.
Qed.

Lemma step_keeps_flag p e : enabled p e → holding p = false → bg p = true → bg (step p e).1 = true.
Proof.
  intros He Hh Hb. assert (not_ours p) as Hp by done. change (flagged (step p e).1).
  pose proof ask_now_flag. destruct e as [e|i a u|i a|d|i|]; simpl; [by apply poll_event_flag|..|done].
  - assert (∀ f g : handler, preserves not_ours f → flagged ((f ▸ g ▸ outcome_always i) p).1 = flagged ((f ▸ g) p).1)
      as Hal by (intros f g _; unfold outcome_always; by rewrite !seq_fst).
    unfold job_settled. rewrite Hal by frame. rewrite seq_fst. simpl. set (p1 := on_asked _ p).
    assert (not_ours p1) as Hp1 by done.
    destruct a as [j|s dt]; unfold outcome_done, outcome_fail, with_state.
    + destruct (JsObj.has _ _); [done|]. destruct (active_state _); [done|].
      rewrite seq_fst. simpl. destruct (_ && _); [by destruct (opens j)|].
      match goal with |- flagged ((?f ▸ render) ?q).1 => pose proof (not_ours_flagged f skip q) as Hs end.
      rewrite seq_fst in Hs. apply Hs; [frame|by intros ?|done].
    + destruct (bool_decide _); [|done].
      match goal with |- flagged ((?f ▸ render) ?q).1 => pose proof (not_ours_flagged f skip q) as Hs end.
      rewrite seq_fst in Hs. apply Hs; [frame|by intros ?|done].
  - unfold cancel_settled. apply not_ours_flagged; [frame|done|done].
  - assert (∀ f g, preserves not_ours f → preserves flagged g → flagged ((f ▸ render ▸ g) p).1) as Hs
      by (intros; by apply not_ours_flagged).
    destruct He as (s & [->|[->|[->| ->]]]); unfold click, unless_empty; simpl;
      rewrite ?(decide_True (P:="" = "")) by done; destruct (decide (s = "")); rewrite !seq_fst; simpl; try done.
    + specialize (Hs (modify (on_dismissed (JsObj.set s tt)) ▸ modify (on_outcomes (JsObj.del s))) skip).
      rewrite !seq_fst in Hs. apply Hs; [frame|by intros ?].
    + specialize (Hs (modify (on_notice (λ _, ""))) skip). rewrite !seq_fst in Hs. apply Hs; [frame|by intros ?].
    + unfold with_state. destruct (JsObj.has _ _); [done|]. unfold cancel. rewrite (seq_fst _ (modify _)), (seq_fst _ (emit _)).
      specialize (Hs (modify (on_cancelling (JsObj.set s tt)) ▸ modify (on_notice (λ _, ""))) skip).
      rewrite !seq_fst in Hs. rewrite !seq_fst. apply Hs; [frame|by intros ?].
  - unfold track. apply not_ours_flagged; [unfold set_pending; frame|done|done].
Qed.

(** *** Escaping *)
(** A browser reading escaped text: the four references, any other character as it is. *)
Fixpoint read_text (s : string) : string :=
  match s with
  | String "&" (String "a" (String "m" (String "p" (String ";" s)))) => String "&" (read_text s)
  | String "&" (String "l" (String "t" (String ";" s))) => String "<" (read_text s)
  | String "&" (String "g" (String "t" (String ";" s))) => String ">" (read_text s)
  | String "&" (String "q" (String "u" (String "o" (String "t" (String ";" s))))) =>
      String (ascii_of_nat 34) (read_text s)
  | String c s => String c (read_text s)
  | "" => ""
  end.

(** the characters that make or end a tag or an attribute *)
Definition is_markup (c : ascii) : bool :=
  bool_decide (c = "<"%char) || bool_decide (c = ">"%char) || bool_decide (c = ascii_of_nat 34).
Definition markup (s : string) : list ascii := filter is_markup (chars s).

Lemma esc_cons a s : esc (String a s) = esc (String a "") +:+ esc s.
Proof.
  change (String a s) with (String a "" +:+ s). unfold esc. by rewrite !JsString.replace_char_app.
Qed.
Lemma esc_one a : esc (String a "") =
  if decide (a = "&"%char) then "&amp;" else if decide (a = "<"%char) then "&lt;"
  else if decide (a = ">"%char) then "&gt;" else if decide (a = ascii_of_nat 34) then "&quot;" else String a "".
Proof.
  case_decide as E1; [by subst|]. case_decide as E2; [by subst|]. case_decide as E3; [by subst|].
  case_decide as E4; [by subst|]. unfold esc. by repeat (simpl; rewrite decide_False by done).
Qed.

Lemma read_text_other a s : a ≠ "&"%char → read_text (String a s) = String a (read_text s).
Proof. intros Ha. by destruct a as [[] [] [] [] [] [] [] []]. Qed.

Lemma markup_app s t : markup (s +:+ t) = (markup s ++ markup t)%list.
Proof. unfold markup. by rewrite JsString.chars_app, filter_app. Qed.
Lemma markup_none s : Forall (λ c, ¬ is_markup c) (chars s) → markup s = [].
Proof.
  unfold markup. induction (chars s) as [|c l IH]; [done|]. intros [Hc Hl]%Forall_cons.
  rewrite filter_cons_False by done. by apply IH.
Qed.
Lemma markup_esc s : markup (esc s) = [].
Proof.
  induction s as [|a s IH]; [done|]. rewrite esc_cons, markup_app, IH, esc_one.
  repeat (case_decide; [done|]). rewrite app_nil_r. apply markup_none. constructor; [|done].
  intros Hm. unfold is_markup in Hm. by repeat case_bool_decide.
Qed.
Lemma markup_int n : markup (JsString.of_int n) = [].
Proof.
  apply markup_none. eapply Forall_impl; [apply JsString.of_int_chars|].
  intros c Hc Hm. unfold is_markup in Hm. repeat (case_bool_decide; subst; [by destruct Hc|]). done.
Qed.
Lemma markup_join l : markup (JsString.join "" l) = concat (markup <$> l).
Proof.
  induction l as [|s l IH]; [done|]. rewrite JsString.join_empty_cons, markup_app, IH. done.
Qed.
Lemma markup_color s : markup (color s) = [].
Proof.
  unfold color, JOB_STATE_COLORS. simpl. repeat case_decide; done.
Qed.

(** *** The structure of the panel: everything that is not text *)
Definition empty (s : string) : bool := bool_decide (s = "").
Definition job_shape (j : job) : bool * bool * bool * bool :=
  (cancellable j, empty (phase j), empty (error j), bool_decide (progress_total j = 0%Z)).
Definition outcome_shape (j : job) : bool * bool * bool * nat :=
  (empty (error j), opens j, empty (warning_of j), length (left_of j)).
Definition worker_warned (p : panel) : bool :=
  negb (empty (workerHtml (Poll.now (Poll.page (poller p))) (last p))).
Definition panel_shape (p : panel) :=
  (empty (notice p), job_shape <$> jobs (last p), outcome_shape <$> (outcomes p).*2, length (others (last p)),
   short_operation (last p), worker_warned p).

Ltac markup_simpl := rewrite ?markup_app, ?markup_esc, ?markup_int, ?markup_color.

Lemma decide_empty {A} s (x y : A) : (if decide (s = "") then x else y) = if empty s then x else y.
Proof. unfold empty. rewrite decide_bool_decide. done. Qed.
Lemma markup_if (b : bool) s t : markup (if b then s else t) = if b then markup s else markup t.
Proof. by destruct b. Qed.

Lemma markup_alert st b1 b2 st' : markup b1 = markup b2 → markup (alertHtml st b1) = markup (alertHtml st' b2).
Proof. unfold alertHtml. intros Hb. markup_simpl. by rewrite Hb. Qed.
Lemma markup_header l1 l2 s1 s2 p1 p2 b1 b2 :
  empty p1 = empty p2 → empty b1 = empty b2 → markup b1 = markup b2 →
  markup (header l1 s1 p1 b1) = markup (header l2 s2 p2 b2).
Proof.
  intros Hp Hb Hm. unfold header. rewrite !decide_empty, Hp, Hb. markup_simpl.
  assert (∀ s, markup (if decide (color s = "warning") then " text-dark" else "") = []) as Hc
    by (intros; by case_decide).
  rewrite !Hc. destruct (empty p2), (empty b2); markup_simpl; by rewrite ?Hm.
Qed.

Lemma empty_app_cons a s t : empty (String a s +:+ t) = false.
Proof. done. Qed.

Lemma markup_jobHtml c1 c2 j1 j2 : job_shape j1 = job_shape j2 → markup (jobHtml c1 j1) = markup (jobHtml c2 j2).
Proof.
  unfold job_shape. intros [= Hc Hp He Ht]. unfold jobHtml. apply markup_alert. markup_simpl.
  assert (markup (errorHtml j1) = markup (errorHtml j2)) as ->.
  { unfold errorHtml. rewrite !decide_empty, He. destruct (empty (error j2)); by markup_simpl. }
  assert (markup (bar j1) = markup (bar j2)) as ->.
  { unfold bar. rewrite !decide_bool_decide, Ht. destruct (bool_decide (progress_total j2 = 0%Z)); [done|].
    markup_simpl. by repeat (case_match; markup_simpl). }
  f_equal. rewrite Hc. apply markup_header; [done|by destruct (cancellable j2)|].
  destruct (cancellable j2); [|done]. markup_simpl. by repeat (case_match; markup_simpl).
Qed.

Lemma markup_left l1 l2 : length l1 = length l2 →
  concat (markup <$> ((λ path, q "<li class='text-break'><code>" +:+ esc path +:+ "</code></li>") <$> l1)) =
  concat (markup <$> ((λ path, q "<li class='text-break'><code>" +:+ esc path +:+ "</code></li>") <$> l2)).
Proof.
  revert l2. induction l1 as [|x l1 IH]; intros [|y l2] Hl; try done. simpl in Hl. injection Hl as Hl.
  rewrite !fmap_cons; cbn [concat]. rewrite (IH l2 Hl). by markup_simpl.
Qed.
Lemma left_nil (l : list string) : bool_decide (l = []) = (length l =? 0)%nat.
Proof. by destruct l. Qed.

Lemma markup_outcomeHtml j1 j2 : outcome_shape j1 = outcome_shape j2 → markup (outcomeHtml j1) = markup (outcomeHtml j2).
Proof.
  unfold outcome_shape. intros [= He Ho Hw Hl]. unfold outcomeHtml. apply markup_alert. markup_simpl.
  assert (markup (errorHtml j1) = markup (errorHtml j2)) as ->.
  { unfold errorHtml. rewrite !decide_empty, He. destruct (empty (error j2)); by markup_simpl. }
  f_equal; [|f_equal].
  - apply markup_header; [done|by destruct (opens j1), (opens j2)|]. rewrite Ho. markup_simpl.
    f_equal. destruct (opens j2); by markup_simpl.
  - rewrite !decide_empty, Hw, !(decide_bool_decide (left_of _ = [])), !left_nil, Hl. f_equal.
    + destruct (empty (warning_of j2)); by markup_simpl.
    + destruct (_ =? 0)%nat; [done|]. markup_simpl. by rewrite !markup_join, (markup_left _ _ Hl).
Qed.

Lemma markup_items {A B} (shape : A → B) (f g : A → string) l1 l2 :
  (∀ x y, shape x = shape y → markup (f x) = markup (g y)) → shape <$> l1 = shape <$> l2 →
  markup (JsString.join "" (f <$> l1)) = markup (JsString.join "" (g <$> l2)).
Proof.
  intros Hs. rewrite !markup_join. revert l2. induction l1 as [|x l1 IH]; intros [|y l2] Hl; try done.
  injection Hl as Hx Hl. rewrite !fmap_cons. cbn [concat]. by rewrite (Hs x y Hx), (IH l2 Hl).
Qed.

(** *** What makes the page move on *)
Definition stays (o : effect) : Prop := navigates o = false.
Lemma render_stays : emits stays render.
Proof. unfold render. solve_emits ltac:(done). Qed.
Lemma poll_event_stays e : emits stays (poll_event e).
Proof.
  pose proof render_stays. unfold poll_event. apply emits_with_state. intros p.
  destruct (Poll.step _ _ _). unfold poll_effect, onData, set_pending, fetchOutcome. solve_emits ltac:(done).
Qed.
Lemma stays_not (h : handler) p o : emits stays h → o ∈ (h p).2 → navigates o = true → False.
Proof. intros Hh Ho Hn. specialize (Hh p). rewrite Forall_forall in Hh. by rewrite (Hh o Ho) in Hn. Qed.

(** ** Properties *)
#[local] Abbreviation reach ids flag b := (reachable enabled step (jobPanel ids flag b)).

Lemma initial_asked ids flag b : asked_ok (jobPanel ids flag b) ∧ cancels_ok (jobPanel ids flag b).
Proof. split; (split; [constructor|]); intros i; simpl; rewrite JsObj.has_true; by split; [inversion 1|intros []]. Qed.

Lemma initial_guard ids flag b : guard_ok (jobPanel ids flag b).
Proof.
  constructor; simpl; [|intros Hk|done].
  - unfold flag_weak; simpl. by intros ->.
  - apply bool_decide_eq_true. by intros ->.
Qed.

Definition fresh (b : Poll.browser) : Prop := Poll.timers b = [] ∧ Poll.requests b = 0.

Lemma reachable_ok ids flag b p : fresh b → reach ids flag b p →
  asked_ok p ∧ cancels_ok p ∧ poller_ok p ∧ dismissed_ok p ∧ guard_ok p.
Proof.
  intros [Ht Hr]. apply (reachable_invariant _ _
    (λ p, asked_ok p ∧ cancels_ok p ∧ poller_ok p ∧ dismissed_ok p ∧ guard_ok p)).
  - destruct (initial_asked ids flag b) as [Ha Hc]. refine (conj Ha (conj Hc (conj _ (conj _ (initial_guard ids flag b))))).
    + by apply Poll.initial_inv.
    + done.
  - intros p' e (? & ? & ? & ? & ?) He.
    split_and!; [by apply step_asked|by apply step_cancels|by apply step_poller|by apply step_dismissed|by apply step_guard].
Qed.

(** C1: No job is lost: a job the panel follows (listed, awaited or shown
    finished) is still followed after any event, unless the user dismissed its
    outcome, the server said it is not theirs to see or gone (403, 404), or it
    ended quietly and the page moved on to show its effect. *)
Theorem job_never_lost p e i :
  enabled p e → followed i p = true → followed i (step p e).1 = true ∨ let_go p e i.
Proof.
  intros _ Hp. change (tracks i (step p e).1 ∨ let_go p e i).
  pose proof (render_tracks i). pose proof (poll_event_tracks i) as Hpoll. pose proof (set_pending_tracks i).
  destruct e as [e|k a u|k a|d|k|]; [left; by apply Hpoll|..|by left].
  - destruct (decide (k = i)) as [->|Hk].
    + destruct a as [j|st dt]; simpl.
      * destruct (JsObj.has i (dismissed p)) eqn:Hd; [by auto|].
        destruct (outcome_done_self i j u (on_asked (remove_one i) p)) as [Hs|[Ha He]]; [done|done|..].
        -- left. unfold job_settled, outcome_always. by rewrite !seq_fst.
        -- right. split; [done|]. right. split; [done|]. by rewrite job_settled_effects.
      * destruct (decide (st = 403 ∨ st = 404)%Z) as [Hst|Hst]; [by auto|]. left.
        unfold job_settled, outcome_fail, outcome_always. rewrite bool_decide_eq_false_2 by done. done.
    + left. revert p Hp. change (preserves (tracks i) (job_settled k a u)).
      pose proof (outcome_other i k a u Hk). unfold job_settled, outcome_always.
      repeat apply preserves_seq; [by frame|done|by frame].
  - left. revert p Hp. change (preserves (tracks i) (cancel_settled k a)). unfold cancel_settled, ask_now. frame.
  - destruct (decide (d_dismiss d = i)) as [Hd|Hd]; [by right|]. left. revert p Hp.
    change (preserves (tracks i) (click d)). pose proof (del_outcome_other i _ Hd).
    unfold click, unless_empty, cancel. frame.
  - left. revert p Hp. change (preserves (tracks i) (track k)). unfold track, ask_now. frame.
Qed.

(** C2: ... and a job that left the list is asked for until its outcome is known:
    after every answered list, each followed job that is neither in the list nor
    shown finished has exactly one request for it in flight. *)
Theorem awaited_jobs_are_asked_for ids flag b p d i :
  fresh b → reach ids flag b p → enabled p (PollEvent (Poll.Settle (Some d))) →
  followed i p = true → JsObj.has i (listed d) = false → JsObj.has i (outcomes p) = false →
  let p' := (step p (PollEvent (Poll.Settle (Some d)))).1 in
  i ∈ asked p' ∧ NoDup (asked p').
Proof.
  intros Hb Hr He Hf Hl Ho. pose proof (reachable_step _ _ _ _ _ Hr He) as Hr'.
  destruct (reachable_ok _ _ _ _ Hb Hr') as ([Hnd Has] & _). split; [|done]. apply Has.
  simpl. unfold poll_event, with_state, Poll.step, Poll.settle. simpl. rewrite !seq_fst. simpl.
  match goal with |- context [onData d ?q] => destruct (onData_fields d q) as (_ & _ & _ & Hp & Hi); set (p1 := q) in * end.
  apply Hi. rewrite Hp, Hl, andb_true_r. rewrite followed_split in Hf. rewrite orb_true_iff.
  destruct Hf as [?|[?|?]]; [by right|by left|]. congruence.
Qed.

(** C3: The page does not reload under a job: while the panel shows anything or
    awaits a job, [backgroundJobRunning] is set; and a flag set by a long form's
    dialog is not cleared by a panel that holds nothing. *)
Theorem page_is_held ids flag b p :
  fresh b → reach ids flag b p →
  (JsObj.keys (pending p) ≠ [] ∨ (∃ h, rendered p = Some h ∧ h ≠ "") → bg p = true)
  ∧ (∀ e, enabled p e → holding p = false → bg p = true → bg (step p e).1 = true).
Proof.
  intros Hb Hr. destruct (reachable_ok _ _ _ _ Hb Hr) as (_ & _ & _ & _ & [Hg Hpe Hre]). split.
  - intros [Hk|(h & Hh & Hn)]; apply Hg; [by apply Hpe|by apply (Hre h)].
  - intros e He Hh Hb'. by apply step_keeps_flag.
Qed.

(** C12: At most one request per job: the requests for job outcomes, and the cancel
    requests, never hold one id twice, and are exactly the ones the closure
    remembers ([inflight] and [cancelling]); a dismissed job never shows as an outcome again; and the panel's poller is
    never asking twice. *)
Theorem one_request_per_job ids flag b p :
  fresh b → reach ids flag b p →
  NoDup (asked p) ∧ NoDup (cancels p)
  ∧ (∀ i, i ∈ asked p ↔ JsObj.has i (inflight p) = true)
  ∧ (∀ i, i ∈ cancels p ↔ JsObj.has i (cancelling p) = true)
  ∧ (∀ i, JsObj.has i (dismissed p) = true → JsObj.get i (outcomes p) = None)
  ∧ (Poll.requests (Poll.page (poller p)) + length (Poll.timers (Poll.page (poller p))) <= 1)%nat.
Proof.
  intros Hb Hr. destruct (reachable_ok _ _ _ _ Hb Hr) as ([? ?] & [? ?] & Hpoll & ? & _).
  split_and!; [done..|]. destruct Hpoll as [Ht Hq Hex _]. rewrite Hq.
  destruct (Poll.running _); [rewrite Hex in Ht by done; by rewrite Ht|].
  destruct (Poll.timer _); [destruct Ht as (? & -> & _)|rewrite Ht]; simpl; lia.
Qed.

Lemma local_path_spec s : local_path s = true ↔ ∃ c t, s = String "/" (String c t) ∧ c ≠ "/"%char.
Proof.
  split; [|intros (c & t & -> & Hc); simpl; by apply bool_decide_eq_true].
  destruct s as [|a r]; [done|]. simpl. destruct (decide (a = "/"%char)) as [->|Ha].
  - destruct r as [|c t]; [done|]. intros H%bool_decide_eq_true. eauto.
  - intros H. exfalso. destruct a as [[] [] [] [] [] [] [] []]; try discriminate. by apply Ha.
Qed.
(** where a quiet job's page goes *)
Lemma goes_where j o :
  o = (if opens j then Assign (open_of j) else Reload) →
  (∃ r c t, job_result j = Some r ∧ open r = String "/" (String c t) ∧ c ≠ "/"%char ∧ o = Assign (open r))
  ∨ ((∀ r c t, job_result j = Some r → open r = String "/" (String c t) → c = "/"%char) ∧ o = Reload).
Proof.
  intros ->. unfold opens, open_of. destruct (job_result j) as [r|]; [|by right].
  destruct (local_path (open r)) eqn:El; [left|right].
  - apply local_path_spec in El as (c & t & E & Hc). by exists r, c, t.
  - split; [|done]. intros r' c t [= <-] E. destruct (decide (c = "/"%char)) as [|Hc]; [done|].
    by rewrite (proj2 (local_path_spec _)) in El by eauto.
Qed.

(** C4: A reload never loses an outcome: the page reloads or moves on by itself
    only for the outcome of a job that succeeded with nothing to read, while
    the page is not in use and no other job is listed, awaited or shown.  It
    moves to the address the job's result names when that is a slash followed
    by a character other than a slash, and reloads for every other result and
    for none.  Otherwise only Refresh reloads.  (Such an address is a path of
    this site unless that character is a backslash: [opens_another_site].) *)
Theorem moves_on_only_when_nothing_is_lost p e o :
  o ∈ (step p e).2 → navigates o = true →
  (∃ d, e = Click d ∧ d_refresh d ≠ "" ∧ o = Reload)
  ∨ ∃ i j, e = JobSettled i (Done j) false ∧ quiet j = true
      ∧ outcomes p = [] ∧ shown p = [] ∧ (∀ k, JsObj.has k (pending p) = true → k = i)
      ∧ ((∃ r c t, job_result j = Some r ∧ open r = String "/" (String c t) ∧ c ≠ "/"%char
            ∧ o = Assign (open r))
         ∨ ((∀ r c t, job_result j = Some r → open r = String "/" (String c t) → c = "/"%char)
            ∧ o = Reload)).
Proof.
  intros Ho Hn. pose proof render_stays. pose proof poll_event_stays as Hpoll.
  destruct e as [e|i a u|i a|d|i|]; simpl in Ho.
  - by destruct (stays_not _ _ _ (Hpoll e) Ho).
  - right. rewrite job_settled_effects in Ho. destruct a as [j|s dt].
    + unfold outcome_done, with_state in Ho. destruct (JsObj.has _ _); [by inversion Ho|].
      destruct (active_state _); [by inversion Ho|]. rewrite seq_snd in Ho. simpl in Ho.
      destruct (_ && _) eqn:E.
      * apply andb_prop in E as [E E3%Nat.eqb_eq]. apply andb_prop in E as [E1 E2%negb_true_iff]. subst u.
        assert (∀ A (l : obj A), length (JsObj.keys l) = 0 → l = []) as Hnil by (by intros ? []).
        exists i, j. split_and!; [done|done|apply Hnil; lia|apply Hnil; lia|..].
        -- intros k Hk. destruct (decide (k = i)) as [|Hne]; [done|].
           assert (JsObj.del i (pending p) = []) as Hp by (apply Hnil; lia).
           apply (f_equal (JsObj.has k)) in Hp. rewrite JsObj.has_del, Hk in Hp.
           by rewrite bool_decide_eq_true_2 in Hp.
        -- apply goes_where. destruct (opens j); by apply list_elem_of_singleton in Ho as ->.
      * exfalso. refine (stays_not _ _ _ _ Ho Hn). solve_emits ltac:(done).
    + exfalso. refine (stays_not _ _ _ _ Ho Hn). unfold outcome_fail. solve_emits ltac:(done).
  - exfalso. refine (stays_not (cancel_settled i a) _ _ _ Ho Hn). unfold cancel_settled, ask_now. solve_emits ltac:(done).
  - left. exists d. unfold click in Ho. rewrite !seq_snd in Ho.
    assert (∀ s h, emits stays h → emits stays (unless_empty s h)) as Hu 
      by (intros; unfold unless_empty; by apply emits_decide; [apply emits_skip|]).
    apply elem_of_app in Ho as [Ho|Ho]; [apply elem_of_app in Ho as [Ho|Ho]; [apply elem_of_app in Ho as [Ho|Ho]|]|].
    + unfold unless_empty in Ho. case_decide; [by inversion Ho|]. by apply list_elem_of_singleton in Ho as ->.
    + exfalso. refine (stays_not _ _ _ _ Ho Hn). apply Hu. solve_emits ltac:(done).
    + exfalso. refine (stays_not _ _ _ _ Ho Hn). apply Hu. solve_emits ltac:(done).
    + exfalso. refine (stays_not _ _ _ _ Ho Hn). apply Hu. unfold cancel. solve_emits ltac:(done).
  - exfalso. refine (stays_not (track i) _ _ _ Ho Hn). unfold track, set_pending, ask_now. solve_emits ltac:(done).
  - inversion Ho.
Qed.

(** Texts stay texts: what a server or a user wrote reads back in the browser
    as it was written, and never makes or ends a tag or an attribute; so the
    panel's tags and attributes depend only on which parts it shows, never on
    any job's label, id, phase, error, warning, files or address. *)
Theorem text_is_never_markup p1 p2 :
  (∀ s, read_text (esc s) = s)
  ∧ (panel_shape p1 = panel_shape p2 → markup (html p1) = markup (html p2)).
Proof.
  split.
  - induction s as [|a s IH]; [done|]. rewrite esc_cons, esc_one.
    repeat (case_decide; [subst; by rewrite <- IH at 2|]).
    change (String a "" +:+ esc s) with (String a (esc s)). by rewrite read_text_other, IH.
  - unfold panel_shape. intros [= Hn Hj Ho Hl Hs Hw]. unfold html. markup_simpl. rewrite Hs.
    rewrite (markup_items job_shape _ _ _ _ (markup_jobHtml (cancelling p1) (cancelling p2)) Hj).
    rewrite (markup_items outcome_shape _ _ _ _ markup_outcomeHtml Ho).
    assert (∀ l1 l2 : list summary, length l1 = length l2 → (λ _, tt) <$> l1 = (λ _, tt) <$> l2) as Hunit.
    { intros l1. induction l1 as [|x l1 IH]; intros [|y l2] Hl'; try done. simpl. f_equal. apply IH. by injection Hl'. }
    rewrite (markup_items (λ _, tt) otherHtml otherHtml (others (last p1)) (others (last p2)));
      [|intros x y _; unfold otherHtml; markup_simpl; by rewrite (markup_header (s_label x) (s_label y) (s_state x) (s_state y) "" "" "" "")|by apply Hunit].
    f_equal; [|do 4 f_equal].
    + unfold noticeHtml. rewrite !decide_empty, Hn. destruct (empty (notice p2)); [done|].
      apply markup_alert. by markup_simpl.
    + unfold worker_warned, workerHtml in *. destruct (_ && _), (_ && _); try done. by markup_simpl.
Qed.
End panel.

(** ** The properties at a concrete panel: one job, running, then gone from the list *)
Section witnesses.
Definition texts0 : texts := Texts "Cancel" "Open" "Refresh" "Dismiss" "Finishing" "Files not removed:"
  "A short operation is in progress." "Worker unavailable, last seen" "never"
  "Cancel failed (HTTP %(status)s)." "Cancel failed: the server could not be reached.".
Definition page0 : Poll.browser := Poll.Browser false 0 [] 0 0.
Definition running_job : job := Job "a" "Delete snapshot" "running" "Merging" "" 1 4 false false None.
Definition done_job : job := Job "a" "Delete <snapshot>" "succeeded" "" "" 4 4 false false None.
Definition list_of (l : list job) : answer := Answer l [] false (Some 0%Z).

#[local] Abbreviation st := (step [] texts0 JsString.of_int).
#[local] Abbreviation reach0 := (reachable enabled st (jobPanel [] false page0)).
Definition asked_list : panel := (st (jobPanel [] false page0) (PollEvent (Poll.Fire 0))).1.
Definition shows_job : panel := (st asked_list (PollEvent (Poll.Settle (Some (list_of [running_job]))))).1.
Definition waited : panel := (st shows_job (PollEvent (Poll.Tick 3000))).1.
Definition asked_again : panel := (st waited (PollEvent (Poll.Fire 1))).1.
Definition awaits_job : panel := (st asked_again (PollEvent (Poll.Settle (Some (list_of []))))).1.

(** the panel as operations/tests/js/job_panel.test.js expects it *)
Example shows_progress : JsString.includes "25%" (default "" (rendered shows_job)) = true
  ∧ JsString.includes "Delete snapshot" (default "" (rendered shows_job)) = true
  ∧ JsString.includes (q "<span class='badge bg-primary'>running</span>") (default "" (rendered shows_job)) = true
  ∧ rendered awaits_job = Some "" ∧ bg awaits_job = true.
Proof. by vm_compute. Qed.

Ltac next := refine (reachable_step _ _ _ _ _ _ _).
Lemma reach_shows : reach0 shows_job.
Proof.
  next; [next; [apply reachable_init|]|].
  - split; [|done]. exists 0%Z. by split; [left|].
  - split; [|done]. by vm_compute; lia.
Qed.
Lemma reach_asked_again : reach0 asked_again.
Proof.
  next; [next; [apply reach_shows|]|].
  - by split.
  - split; [|done]. exists 3000%Z. split; [|by vm_compute]. assert (Poll.timers (Poll.page (poller waited)) = [(1, 3000%Z)]) as ->
      by (by vm_compute). by left.
Qed.
Lemma enabled_gone : enabled asked_again (PollEvent (Poll.Settle (Some (list_of [])))).
Proof. split; [|done]. by vm_compute; lia. Qed.

Lemma job_never_lost_witness :
  followed "a" asked_again = true
  ∧ (followed "a" awaits_job = true ∨ let_go [] texts0 JsString.of_int asked_again (PollEvent (Poll.Settle (Some (list_of [])))) "a").
Proof.
  split; [by vm_compute|].
  apply (job_never_lost [] texts0 JsString.of_int asked_again (PollEvent (Poll.Settle (Some (list_of []))))).
  - apply enabled_gone.
  - by vm_compute.
Defined.

Lemma awaited_jobs_are_asked_for_witness : "a" ∈ asked awaits_job ∧ NoDup (asked awaits_job).
Proof.
  refine (awaited_jobs_are_asked_for [] texts0 JsString.of_int [] false page0 asked_again (list_of []) "a"
    (conj eq_refl eq_refl) reach_asked_again enabled_gone _ _ _); by vm_compute.
Defined.

Lemma page_is_held_witness :
  (JsObj.keys (pending asked_again) ≠ [] ∨ (∃ h, rendered asked_again = Some h ∧ h ≠ "") → bg asked_again = true)
  ∧ (∀ e, enabled asked_again e → holding asked_again = false → bg asked_again = true → bg (st asked_again e).1 = true).
Proof. exact (page_is_held [] texts0 JsString.of_int [] false page0 asked_again (conj eq_refl eq_refl) reach_asked_again). Defined.

Lemma one_request_per_job_witness :
  NoDup (asked asked_again) ∧ NoDup (cancels asked_again)
  ∧ (∀ i, i ∈ asked asked_again ↔ JsObj.has i (inflight asked_again) = true)
  ∧ (∀ i, i ∈ cancels asked_again ↔ JsObj.has i (cancelling asked_again) = true)
  ∧ (∀ i, JsObj.has i (dismissed asked_again) = true → JsObj.get i (outcomes asked_again) = None)
  ∧ (Poll.requests (Poll.page (poller asked_again)) + length (Poll.timers (Poll.page (poller asked_again))) <= 1)%nat.
Proof. exact (one_request_per_job [] texts0 JsString.of_int [] false page0 asked_again (conj eq_refl eq_refl) reach_asked_again). Defined.

(** an address that browsers read as another site's passes the test *)
Definition evil_job : job := Job "a" "Create VM" "succeeded" "" "" 4 4 false false (Some (Result "" [] "/\evil.example")).
Example opens_another_site :
  (st awaits_job (JobSettled "a" (Done evil_job) false)).2 = [Assign "/\evil.example"].
Proof. by vm_compute. Qed.

(** the job ended quietly: the page reloads *)
Lemma moves_on_only_when_nothing_is_lost_witness :
  let e := JobSettled "a" (Done done_job) false in
  (st awaits_job e).2 = [Reload]
  ∧ ((∃ d, e = Click d ∧ d_refresh d ≠ "" ∧ Reload = Reload)
     ∨ ∃ i j, e = JobSettled i (Done j) false ∧ quiet j = true
      ∧ outcomes awaits_job = [] ∧ shown awaits_job = [] ∧ (∀ k, JsObj.has k (pending awaits_job) = true → k = i)
      ∧ ((∃ r c t, job_result j = Some r ∧ open r = String "/" (String c t) ∧ c ≠ "/"%char
            ∧ Reload = Assign (open r))
         ∨ ((∀ r c t, job_result j = Some r → open r = String "/" (String c t) → c = "/"%char)
            ∧ Reload = Reload))).
Proof.
  intros e. assert ((st awaits_job e).2 = [Reload]) as He by (by vm_compute). split; [exact He|].
  apply (moves_on_only_when_nothing_is_lost [] texts0 JsString.of_int awaits_job e Reload); [rewrite He; by left|done].
Defined.

(** another label and phase, the same tags *)
Lemma text_is_never_markup_witness :
  let other := on_last (λ _, list_of [Job "a" "<script>alert(1)</script>" "running" "x>y" "" 3 4 false false None]) shows_job in
  (∀ s, read_text (esc s) = s)
  ∧ markup (html [] texts0 JsString.of_int shows_job) = markup (html [] texts0 JsString.of_int other).
Proof.
  intros other.
  pose proof (text_is_never_markup [] texts0 JsString.of_int shows_job other) as [Hr Hm].
  split; [exact Hr|]. apply Hm. by vm_compute.
Defined.
End witnesses.
End JobPanel.
