(* ===== verification/TableFilter.v ===== *)
(** * The search of the list pages: static/js/table_filter.js

    [filterTable] writes the [hidden] flags of a page's rows, headers and pills
    and its counts from the search box and the chosen state; around it, the
    page's listeners and the search kept in sessionStorage. *)
From S2P Require Import Prelude JsObject JsString.

#[local] Open Scope string_scope.
#[local] Open Scope list_scope.

Module TableFilter.

(** ** The page *)
Record row := Row {
  group_header : bool;        (* data-group-header *)
  search : option string;     (* data-search *)
  textContent : string;
  mark : option string;       (* the [data-state] of an element in it *)
  hidden : bool;
}.
Definition set_hidden (b : bool) (r : row) : row :=
  Row (group_header r) (search r) (textContent r) (mark r) b.
Record group := Group { host : option string; rows : list row }.

(** a [data-count-state] element: its state, its text, its parent's [hidden] *)
Record counter := Counter { countState : string; count_text : string; pill_hidden : bool }.
(** a [data-pill-state] button *)
Record pill := Pill { pillState : string; active : bool }.
Definition set_active (b : bool) (x : pill) : pill := Pill (pillState x) b.

Record page := Page {
  filter_value : string;                 (* #filter *)
  state_value : option string;           (* #state-filter, if there is one *)
  groups : list group;                   (* .searchable *)
  no_match : option bool;                (* #no-match's hidden *)
  counters : list counter;
  status : option (string * string);     (* #filter-status: data-text, text *)
  pills : option (list pill);            (* #state-pills *)
  remember : bool;                       (* no data-forget *)
  key : string;                          (* document.title + "_filter" *)
  sessionStorage : option (obj string);  (* None: turned off, every use of it throws *)
}.
Definition set_filter (v : string) (p : page) : page :=
  Page v (state_value p) (groups p) (no_match p) (counters p) (status p) (pills p) (remember p) (key p) (sessionStorage p).
Definition set_state (v : option string) (p : page) : page :=
  Page (filter_value p) v (groups p) (no_match p) (counters p) (status p) (pills p) (remember p) (key p) (sessionStorage p).
Definition set_pills (v : option (list pill)) (p : page) : page :=
  Page (filter_value p) (state_value p) (groups p) (no_match p) (counters p) (status p) v (remember p) (key p) (sessionStorage p).
Definition set_storage (v : option (obj string)) (p : page) : page :=
  Page (filter_value p) (state_value p) (groups p) (no_match p) (counters p) (status p) (pills p) (remember p) (key p) v.

(** ** [filterTable] *)
Record tally := Tally { counts : obj Z; vms : Z; shownVms : Z }.
Definition count_of (s : string) (t : tally) : Z := default 0%Z (JsObj.get s (counts t)).
Definition count (s : string) (t : tally) : tally :=
  Tally (JsObj.set s (count_of s t + 1)%Z (counts t)) (vms t) (shownVms t).

(** the loop over a group's rows: the rows done, the index of the last header
    met, whether a row shows, the counts *)
Record pass := Pass { rows_done : list row; header : option nat; shown : bool; sums : tally }.

Section filter.
(** the search in lower case, and the chosen state *)
Variables (text state : string).

Definition host_matches (g : group) : bool :=
  match host g with Some h => JsString.includes text (JsString.toLowerCase h) | None => false end.
Definition searched (r : row) : string := default (textContent r) (search r).
Definition found (g : group) (r : row) : bool :=
  host_matches g || JsString.includes text (JsString.toLowerCase (searched r)).
Definition state_matches (r : row) : bool :=
  bool_decide (state = "") || bool_decide (mark r = Some state).

Definition filter_row (g : group) (a : pass) (r : row) : pass :=
  if group_header r then Pass (rows_done a ++ [r]) (Some (length (rows_done a))) (shown a) (sums a)
  else
    let hid := negb (state_matches r && found g r) in
    Pass (rows_done a ++ [set_hidden hid r]) (header a) (shown a || negb hid)
      match mark r with
      | Some s =>
          let t := Tally (counts (sums a)) (vms (sums a) + 1) (shownVms (sums a) + if hid then 0 else 1) in
          if found g r then count s (count "" t) else t
      | None => sums a
      end.

(** a group, with the counts and [anyShown] so far *)
Definition filter_group (a : list group * tally * bool) (g : group) : list group * tally * bool :=
  let '(gs, t, any) := a in
  let b := fold_left (filter_row g) (rows g) (Pass [] None false t) in
  let rs := match header b with
            | Some i => alter (set_hidden (negb (shown b))) i (rows_done b)
            | None => rows_done b
            end in
  (gs ++ [Group (host g) rs], sums b, any || shown b).

Definition filter_counter (t : tally) (c : counter) : counter :=
  let n := count_of (countState c) t in
  Counter (countState c) (JsString.of_int n)
    (bool_decide (n = 0%Z) && negb (bool_decide (countState c = "")) && negb (bool_decide (countState c = state))).

Definition status_text (template : string) (t : tally) : string :=
  JsString.replace_first "%(all)s" (JsString.of_int (vms t))
    (JsString.replace_first "%(shown)s" (JsString.of_int (shownVms t)) template).
End filter.

Definition no_tally : tally := Tally [("", 0%Z)] 0 0.
Definition filterTable (p : page) : page :=
  let text := JsString.toLowerCase (filter_value p) in
  let state := default "" (state_value p) in
  let '(gs, t, anyShown) := fold_left (filter_group text state) (groups p) ([], no_tally, false) in
  Page (filter_value p) (state_value p) gs ((λ _, anyShown) <$> no_match p)
    (filter_counter state t <$> counters p)
    ((λ st, (st.1, status_text st.1 t)) <$> status p)
    (pills p) (remember p) (key p) (sessionStorage p).

(** ** The listeners *)
Definition keep (value : string) (p : page) : page :=
  set_storage ((if decide (value = "") then JsObj.del (key p) else JsObj.set (key p) value) <$> sessionStorage p) p.

(** a pill by its place in the list *)
Definition chooseState (i : nat) (p : page) : page :=
  match pills p, state_value p with
  | Some l, Some _ =>
              match l !! i with
              | Some x => filterTable (set_pills (Some (imap (λ j, set_active (bool_decide (j = i))) l))
                            (set_state (Some (pillState x)) p))
              | None => p
              end
  | _, _ => p   (* no pills; without a state list [states.value] throws *)
  end.

(** the pill of all states: [pills.querySelector('\[data-pill-state=&quot;&quot;\]')] *)
Definition all_pill (l : list pill) : option nat := fst <$> list_find (λ x, pillState x = "") l.

Inductive event := Input (v : string) | StateChange (v : string) | PillClick (i : nat) | Clear.
Definition step (p : page) (e : event) : page :=
  match e with
  | Input v => let p := set_filter v p in filterTable (if remember p then keep v p else p)
  | StateChange v => match state_value p with Some _ => filterTable (set_state (Some v) p) | None => p end
  | PillClick i => chooseState i p
  | Clear =>
      let p := keep "" (set_filter "" p) in
      match pills p with
      | Some l => match all_pill l with
                  | Some i => filterTable (chooseState i p)
                  | None => p   (* chooseState(null) throws *)
                  end
      | None => filterTable (set_state ((λ _, "") <$> state_value p) p)
      end
  end.

(** the script's end: the search kept for the tab is set and applied *)
Definition start (p : page) : page :=
  let stored := match sessionStorage p with Some s => default "" (JsObj.get (key p) s) | None => "" end in
  filterTable (set_filter (if remember p then stored else "") p).

(** ** What the search shows *)
Definition row_shown (text state : string) (g : group) (r : row) : bool :=
  negb (group_header r) && state_matches state r && found text g r.
Definition group_shown (text state : string) (g : group) : bool := existsb (row_shown text state g) (rows g).
Definition marked (r : row) : Prop := group_header r = false ∧ is_Some (mark r).
#[global] Instance marked_dec r : Decision (marked r) := _.
Definition marked_rows (g : group) : list row := filter marked (rows g).
(** how many VMs of a state the search finds, [""] for all of them *)
Definition finds (text s : string) (g : group) (r : row) : bool :=
  found text g r && (bool_decide (s = "") || bool_decide (mark r = Some s)).
Definition total (f : group → row → bool) (gs : list group) : Z :=
  Z.of_nat (length (mjoin ((λ g, filter (λ r, f g r = true) (marked_rows g)) <$> gs))).

(** ** The loops *)
Section loops.
Variables (text state : string).
#[local] Abbreviation filter_row := (filter_row text state).
#[local] Abbreviation filter_group := (filter_group text state).
#[local] Abbreviation row_shown := (row_shown text state).

Definition apply_row (g : group) (r : row) : row :=
  if group_header r then r else set_hidden (negb (row_shown g r)) r.
Definition row_tally (g : group) (t : tally) (r : row) : tally :=
  match group_header r, mark r with
  | false, Some s =>
      let t := Tally (counts t) (vms t + 1) (shownVms t + if row_shown g r then 1 else 0) in
      if found text g r then count s (count "" t) else t
  | _, _ => t
  end.

(** [i] is the last header of [l] *)
Definition last_header (l : list row) (i : nat) : Prop :=
  (∃ r, l !! i = Some r ∧ group_header r = true)
  ∧ ∀ k r, (i < k)%nat → l !! k = Some r → group_header r = false.

Lemma filter_rows g l a :
  let b := fold_left (filter_row g) l a in
  rows_done b = rows_done a ++ (apply_row g <$> l)
  ∧ shown b = shown a || existsb (row_shown g) l
  ∧ sums b = fold_left (row_tally g) l (sums a)
  ∧ ((header b = header a ∧ Forall (λ r, group_header r = false) l)
     ∨ ∃ i, header b = Some (length (rows_done a) + i)%nat ∧ last_header l i).
Proof.
  revert a. induction l as [|r l IH]; intros a; simpl.
  { rewrite app_nil_r, orb_false_r. split_and!; [done..|]. by left. }
  destruct (IH (filter_row g a r)) as (-> & -> & -> & Hh). clear IH.
  assert (rows_done (filter_row g a r) = rows_done a ++ [apply_row g r]) as Hd.
  { unfold TableFilter.filter_row, apply_row, TableFilter.row_shown. by destruct (group_header r). }
  assert (shown (filter_row g a r) = shown a || row_shown g r) as Hs.
  { unfold TableFilter.filter_row, TableFilter.row_shown. destruct (group_header r); simpl; [by rewrite orb_false_r|].
    by rewrite negb_involutive. }
  assert (sums (filter_row g a r) = row_tally g (sums a) r) as Ht.
  { unfold TableFilter.filter_row, row_tally, TableFilter.row_shown. destruct (group_header r); simpl; [done|].
    destruct (mark r); [|done]. by destruct (state_matches _ _ && _). }
  rewrite Hd, Hs, Ht, <- (assoc_L (++)), orb_assoc. split_and!; [done..|].
  rewrite Hd, length_app in Hh. simpl in Hh. destruct Hh as [[Hh Hl]|(i & Hh & (r' & Hr' & Hg') & Hi)].
  - rewrite Hh. unfold TableFilter.filter_row. destruct (group_header r) eqn:E; simpl.
    + right. exists 0%nat. rewrite Nat.add_0_r. split; [done|]. split; [by exists r|].
      intros [|k] rk Hk; [lia|]. simpl. intros Hrk. by eapply Forall_lookup_1 in Hl.
    + left. by split; [|constructor].
  - right. exists (S i). split; [rewrite Hh; f_equal; lia|]. split; [by exists r'|].
    intros [|k] rk Hk; [lia|]. simpl. apply Hi. lia.
Qed.

(** A group after the pass: its rows as they match, its last header as any of
    them does. *)
Definition apply_group (g : group) : group :=
  let b := fold_left (filter_row g) (rows g) (Pass [] None false no_tally) in
  Group (host g) match header b with
                 | Some i => alter (set_hidden (negb (shown b))) i (rows_done b)
                 | None => rows_done b
                 end.

Lemma filter_row_header g l a a' :
  rows_done a = rows_done a' → header a = header a' → shown a = shown a' →
  header (fold_left (filter_row g) l a) = header (fold_left (filter_row g) l a').
Proof.
  revert a a'. induction l as [|r l IH]; intros a a' Hd Hh Hs; [done|]. simpl. apply IH;
    unfold TableFilter.filter_row; destruct (group_header r); simpl; congruence.
Qed.

Lemma filter_groups gs done t any :
  fold_left filter_group gs (done, t, any) =
    (done ++ (apply_group <$> gs),
     fold_left (λ t g, fold_left (row_tally g) (rows g) t) gs t,
     any || existsb (group_shown text state) gs).
Proof.
  revert done t any. induction gs as [|g gs IH]; intros done t any; simpl.
  { by rewrite app_nil_r, orb_false_r. }
  rewrite IH. clear IH. unfold apply_group at 2.
  pose proof (filter_rows g (rows g) (Pass [] None false t)) as H. simpl in H. destruct H as (Hd & Hs & Ht & _).
  pose proof (filter_rows g (rows g) (Pass [] None false no_tally)) as H. simpl in H. destruct H as (Hd' & Hs' & _ & _).
  rewrite (filter_row_header g (rows g) (Pass [] None false t) (Pass [] None false no_tally)) by done.
  rewrite Hd, Hs, Ht, Hd', Hs', <- (assoc_L (++)), orb_assoc. done.
Qed.

Lemma apply_group_rows g j r :
  rows g !! j = Some r →
  ∃ r', rows (apply_group g) !! j = Some r'
    ∧ (group_header r = false → r' = set_hidden (negb (row_shown g r)) r)
    ∧ (last_header (rows g) j → r' = set_hidden (negb (group_shown text state g)) r)
    ∧ (group_header r = true → ¬ last_header (rows g) j → r' = r).
Proof.
  intros Hr. unfold apply_group. simpl.
  pose proof (filter_rows g (rows g) (Pass [] None false no_tally)) as H. simpl in H.
  destruct H as (-> & -> & _ & Hh). fold (group_shown text state g).
  assert (group_header r = false → apply_row g r = set_hidden (negb (row_shown g r)) r) as Hrow.
  { intros E. unfold apply_row. by rewrite E. }
  assert (group_header r = true → apply_row g r = r) as Hhead.
  { intros E. unfold apply_row. by rewrite E. }
  destruct Hh as [[-> Hall]|(i & -> & Hi)].
  - exists (apply_row g r). rewrite list_lookup_fmap, Hr. split_and!; [done..| |by auto].
    intros [(r' & Hr' & Hg) _]. rewrite Hr in Hr'. injection Hr' as <-.
    eapply Forall_lookup_1 in Hall; [|done]. congruence.
  - destruct (decide (i = j)) as [->|Hij].
    + exists (set_hidden (negb (group_shown text state g)) (apply_row g r)).
      rewrite list_lookup_alter, decide_True, list_lookup_fmap, Hr by done. split; [done|].
      destruct Hi as [(r' & Hr' & Hg) Hlast]. rewrite Hr in Hr'. injection Hr' as <-. unfold apply_row. rewrite Hg.
      split_and!; [done..|]. intros _ []. split; [by exists r|]. exact Hlast.
    + exists (apply_row g r). rewrite list_lookup_alter, decide_False, list_lookup_fmap, Hr by done.
      split_and!; [done..| |by auto]. intros [(r' & Hr' & Hg) Hj]. rewrite Hr in Hr'. injection Hr' as <-.
      destruct Hi as [(ri & Hri & Hgi) Hi]. destruct (decide (i < j)%nat).
      * specialize (Hi j r ltac:(done) Hr). congruence.
      * specialize (Hj i ri ltac:(lia) Hri). congruence.
Qed.

(** A pass over what a pass has done changes nothing: it reads all but the flags. *)
Definition reads_same (g g' : group) : Prop :=
  host g' = host g ∧ Forall2 (λ r r', ∃ b, r' = set_hidden b r) (rows g) (rows g').

Lemma apply_group_length g : length (rows (apply_group g)) = length (rows g).
Proof.
  unfold apply_group. simpl. pose proof (filter_rows g (rows g) (Pass [] None false no_tally)) as H. simpl in H.
  destruct H as (-> & _). destruct (header _); by rewrite ?length_alter, length_fmap.
Qed.

Lemma last_header_dec l j : Decision (last_header l j).
Proof.
  destruct (l !! j) as [r|] eqn:Hr; [|right; intros [(r & Hr' & _) _]; congruence].
  destruct (group_header r) eqn:Hg; [|right; intros [(r' & Hr' & Hg') _]; congruence].
  destruct (decide (Forall (λ r, group_header r = false) (drop (S j) l))) as [HF|HF].
  - left. split; [by exists r|]. intros k rk Hk Hrk. eapply Forall_lookup_1 in HF; [done|].
    rewrite lookup_drop. replace (S j + (k - S j))%nat with k by lia. done.
  - right. intros [_ Hk]. apply HF, Forall_lookup. intros i x. rewrite lookup_drop. apply Hk. lia.
Qed.

Lemma apply_group_same g : reads_same g (apply_group g).
Proof.
  split; [done|]. apply Forall2_same_length_lookup_2; [by rewrite apply_group_length|].
  intros j r r' Hr Hr'. destruct (apply_group_rows g j r Hr) as (x & Hx & Hrow & Hlast & Hhead).
  rewrite Hr' in Hx. injection Hx as <-. destruct (group_header r) eqn:Hg; [|by eauto].
  destruct (last_header_dec (rows g) j); [by eauto|]. exists (hidden r). rewrite Hhead by done. by destruct r.
Qed.

Lemma row_shown_same g g' r b : host g' = host g → row_shown g' (set_hidden b r) = row_shown g r.
Proof. intros Hh. unfold TableFilter.row_shown, found, host_matches. by rewrite Hh. Qed.
Lemma group_shown_same g g' : reads_same g g' → group_shown text state g' = group_shown text state g.
Proof.
  intros [Hh HF]. unfold group_shown. destruct g as [h rs], g' as [h' rs']; simpl in *. subst h'.
  assert (∀ r b, TableFilter.row_shown text state (Group h rs') (set_hidden b r) = TableFilter.row_shown text state (Group h rs) r)
    as Hr by (intros; by apply row_shown_same).
  revert Hr. generalize (Group h rs') (Group h rs). intros g' g Hr.
  induction HF as [|r ? ?? [b ->] HF IH]; [done|]. simpl. by rewrite Hr, IH.
Qed.
Lemma last_header_same g g' j : reads_same g g' → last_header (rows g') j ↔ last_header (rows g) j.
Proof.
  intros [_ HF]. unfold last_header.
  assert (∀ k r', rows g' !! k = Some r' → ∃ r, rows g !! k = Some r ∧ group_header r = group_header r') as H1.
  { intros k r' Hk. destruct (Forall2_lookup_r _ _ _ _ _ HF Hk) as (r & ? & b & ->). by exists r. }
  assert (∀ k r, rows g !! k = Some r → ∃ r', rows g' !! k = Some r' ∧ group_header r' = group_header r) as H2.
  { intros k r Hk. destruct (Forall2_lookup_l _ _ _ _ _ HF Hk) as (r' & ? & b & ->). by eexists. }
  split; (intros [(r & Hr & Hg) Hk]; split; [naive_solver|]); intros k x Hlt Hx.
  - destruct (H2 k x Hx) as (? & ? & <-). by eapply Hk.
  - destruct (H1 k x Hx) as (? & ? & <-). by eapply Hk.
Qed.

Lemma apply_group_idem g : apply_group (apply_group g) = apply_group g.
Proof.
  pose proof (apply_group_same g) as Hs. destruct Hs as [Hh HF] eqn:E. clear E.
  assert (∀ a b : group, host a = host b → rows a = rows b → a = b) as Heq by (intros [??] [??]; simpl; congruence).
  apply Heq; [done|]. apply list_eq_same_length with (length (rows g)); [by rewrite !apply_group_length|by rewrite !apply_group_length|].
  intros j x y _ Hx Hy. destruct (Forall2_lookup_r _ _ _ _ _ HF Hy) as (r & Hr & b & Hyb).
  destruct (apply_group_rows g j r Hr) as (y' & Hy' & Hrow & Hlast & Hhead).
  rewrite Hy in Hy'. injection Hy' as <-.
  destruct (apply_group_rows _ j y Hy) as (x' & Hx' & Hrow' & Hlast' & Hhead').
  rewrite Hx in Hx'. injection Hx' as <-. pose proof (last_header_same _ _ j Hs) as Hl.
  rewrite (group_shown_same _ _ Hs) in Hlast'.
  assert (group_header y = group_header r) as Hgy by (by rewrite Hyb). destruct (group_header r) eqn:Hg.
  - destruct (last_header_dec (rows g) j) as [Hj|Hj]; [rewrite Hlast', Hlast by tauto; done|].
    rewrite Hhead'; [done|done|by rewrite Hl].
  - rewrite Hrow' by done. rewrite Hyb at 1. rewrite (row_shown_same g) by done. rewrite Hrow by done. done.
Qed.

(** The counts: each counted quantity is a number of marked rows. *)
Lemma count_total (v : tally → Z) (f : group → row → bool) (P : row → Prop) gs t :
  (∀ g t r, P r → v (row_tally g t r) = (v t + if bool_decide (marked r) && f g r then 1 else 0)%Z) →
  Forall (λ g, Forall P (rows g)) gs →
  v (fold_left (λ t g, fold_left (row_tally g) (rows g) t) gs t) = (v t + total f gs)%Z.
Proof.
  intros Hv HP. revert t. induction HP as [|g gs Hg HP IH]; intros t; simpl.
  { unfold total. simpl. lia. }
  rewrite IH. clear IH.
  assert (∀ l t, Forall P l → v (fold_left (row_tally g) l t)
    = (v t + Z.of_nat (length (filter (λ r, f g r = true) (filter marked l))))%Z) as Hl.
  { clear -Hv. induction l as [|r l IH]; intros t HP; simpl; [lia|]. inversion HP; subst.
    rewrite IH, Hv by done. rewrite (filter_cons marked). destruct (decide (marked r)) as [Hm|Hm];
      [rewrite bool_decide_eq_true_2 by done|rewrite bool_decide_eq_false_2 by done].
    2: { rewrite andb_false_l. lia. }
    rewrite filter_cons. destruct (f g r); simpl; lia. }
  rewrite Hl by done. unfold total, marked_rows. rewrite fmap_cons. match goal with |- context [mjoin (?x :: ?l)] => change (mjoin (x :: l)) with (x ++ mjoin l) end. rewrite length_app. lia.
Qed.

Lemma count_of_count s s' t : count_of s (count s' t) = (count_of s t + if decide (s = s') then 1 else 0)%Z.
Proof. unfold count_of, count. simpl. rewrite JsObj.get_set. case_decide; subst; simpl; [done|lia]. Qed.

Lemma row_tally_counts s g t r :
  mark r ≠ Some "" →
  count_of s (row_tally g t r) = (count_of s t + if bool_decide (marked r) && finds text s g r then 1 else 0)%Z.
Proof.
  intros Hm. unfold row_tally, finds. destruct (group_header r) eqn:Hg.
  { rewrite bool_decide_eq_false_2 by (intros [? _]; congruence). simpl. lia. }
  destruct (mark r) as [m|] eqn:Em;
    [|rewrite bool_decide_eq_false_2 by (intros [_ [? ?]]; congruence); simpl; lia].
  rewrite bool_decide_eq_true_2 by (split; eauto). simpl.
  destruct (found text g r); simpl; [|unfold count_of; simpl; lia].
  rewrite !count_of_count. unfold count_of. simpl. repeat case_decide; repeat case_bool_decide; simplify_eq/=; try lia.
Qed.
Lemma row_tally_vms g t r :
  vms (row_tally g t r) = (vms t + if bool_decide (marked r) && true then 1 else 0)%Z
  ∧ shownVms (row_tally g t r) = (shownVms t + if bool_decide (marked r) && row_shown g r then 1 else 0)%Z.
Proof.
  unfold row_tally. destruct (group_header r) eqn:Hg.
  { rewrite bool_decide_eq_false_2 by (intros [? _]; congruence). simpl. lia. }
  destruct (mark r) as [m|] eqn:Em;
    [|rewrite bool_decide_eq_false_2 by (intros [_ [? ?]]; congruence); simpl; lia].
  rewrite bool_decide_eq_true_2 by (split; eauto). simpl. by destruct (found text g r).
Qed.
Lemma row_tally_same g g' t r b : host g' = host g → row_tally g' t (set_hidden b r) = row_tally g t r.
Proof.
  intros Hh. unfold row_tally. rewrite (row_shown_same g) by done. unfold found, host_matches. rewrite Hh. done.
Qed.
Lemma tally_idem gs t :
  fold_left (λ t g, fold_left (row_tally g) (rows g) t) (apply_group <$> gs) t
  = fold_left (λ t g, fold_left (row_tally g) (rows g) t) gs t.
Proof.
  revert t. induction gs as [|g gs IH]; intros t; [done|].
  rewrite fmap_cons. cbn [fold_left]. rewrite IH. f_equal.
  destruct (apply_group_same g) as [Hh HF]. pose proof (row_tally_same g (apply_group g)) as Hr.
  revert Hh HF Hr t. generalize (apply_group g). intros g' Hh HF Hr. induction HF as [|r ? ?? [b ->] HF IHr]; intros t; [done|].
  cbn [fold_left]. rewrite Hr by done. apply IHr.
Qed.
Lemma any_shown_idem gs :
  existsb (group_shown text state) (apply_group <$> gs) = existsb (group_shown text state) gs.
Proof.
  induction gs as [|g gs IH]; [done|]. rewrite fmap_cons. cbn [existsb]. rewrite IH.
  f_equal. apply group_shown_same, apply_group_same.
Qed.
End loops.

Lemma filterTable_eq p :
  let text := JsString.toLowerCase (filter_value p) in
  let state := default "" (state_value p) in
  let t := fold_left (λ t g, fold_left (row_tally text state g) (rows g) t) (groups p) no_tally in
  filterTable p =
    Page (filter_value p) (state_value p) (apply_group text state <$> groups p)
      ((λ _, existsb (group_shown text state) (groups p)) <$> no_match p)
      (filter_counter state t <$> counters p) ((λ st, (st.1, status_text st.1 t)) <$> status p)
      (pills p) (remember p) (key p) (sessionStorage p).
Proof. intros text state t. unfold filterTable. fold text state. by rewrite filter_groups. Qed.

Lemma filterTable_idem p : filterTable (filterTable p) = filterTable p.
Proof.
  rewrite (filterTable_eq (filterTable p)), (filterTable_eq p). simpl. rewrite tally_idem. f_equal.
  - rewrite <- list_fmap_compose. apply list_fmap_ext. intros. apply apply_group_idem.
  - destruct (no_match p); [|done]. simpl. by rewrite any_shown_idem.
  - rewrite <- list_fmap_compose. by apply list_fmap_ext.
  - by destruct (status p) as [[??]|].
Qed.

(** ** The page through its events *)
Definition pills_ok (p : page) : Prop :=
  match pills p with
  | Some l => NoDup (pillState <$> l) ∧ is_Some (all_pill l)
      ∧ ∃ v, state_value p = Some v ∧ Forall (λ x, active x = bool_decide (pillState x = v)) l
  | None => True
  end.
Definition kept (p : page) : Prop :=
  remember p = true → ∀ s, sessionStorage p = Some s →
  JsObj.get (key p) s = if decide (filter_value p = "") then None else Some (filter_value p).
Definition applied (p : page) : Prop := filterTable p = p ∧ pills_ok p ∧ kept p.

(** The hidden input of the pills changes only through them. *)
Definition enabled (p : page) (e : event) : Prop :=
  match e with
  | StateChange _ => pills p = None
  | PillClick i => ∃ l, pills p = Some l ∧ (i < length l)%nat
  | _ => True
  end.

(** what [filterTable] leaves alone *)
Lemma filterTable_rest p :
  filter_value (filterTable p) = filter_value p ∧ state_value (filterTable p) = state_value p
  ∧ pills (filterTable p) = pills p ∧ remember (filterTable p) = remember p
  ∧ key (filterTable p) = key p ∧ sessionStorage (filterTable p) = sessionStorage p.
Proof. by rewrite filterTable_eq. Qed.
Lemma pills_ok_filter p : pills_ok (filterTable p) ↔ pills_ok p.
Proof. unfold pills_ok. by destruct (filterTable_rest p) as (_ & -> & -> & _). Qed.
Lemma kept_filter p : kept (filterTable p) ↔ kept p.
Proof. unfold kept. by destruct (filterTable_rest p) as (-> & _ & _ & -> & -> & ->). Qed.
Lemma applied_filter p : pills_ok p → kept p → applied (filterTable p).
Proof. intros. split; [apply filterTable_idem|]. by rewrite pills_ok_filter, kept_filter. Qed.

Lemma kept_keep v p : kept (keep v (set_filter v p)).
Proof.
  intros _ s. unfold keep. simpl. destruct (sessionStorage p) as [s0|]; [|done]. intros [= <-].
  case_decide; [apply JsObj.get_del_eq|apply JsObj.get_set_eq].
Qed.

Lemma all_pill_lookup l i : all_pill l = Some i → ∃ x, l !! i = Some x ∧ pillState x = "".
Proof.
  unfold all_pill. destruct (list_find _ l) as [[j x]|] eqn:E; [|done]. intros [= <-]. simpl.
  apply list_find_Some in E as (? & ? & _). eauto.
Qed.

Lemma chooseState_ok i p :
  pills_ok p → pills_ok (chooseState i p).
Proof.
  unfold chooseState. destruct (pills p) as [l|] eqn:El; [|done].
  destruct (state_value p) as [v|] eqn:Ev; [|done]. destruct (l !! i) as [x|] eqn:Ex; [|done].
  intros Hp. rewrite pills_ok_filter. unfold pills_ok in *. rewrite El in Hp. simpl.
  destruct Hp as (Hnd & Hall & _).
  assert (pillState <$> imap (λ j, set_active (bool_decide (j = i))) l = pillState <$> l) as Hs.
  { apply list_eq. intros k.
    rewrite !list_lookup_fmap, list_lookup_imap. by destruct (l !! k). }
  rewrite Hs. split_and!; [done|..].
  - destruct Hall as [k Hk]. apply all_pill_lookup in Hk as (y & Hy & Hys).
    unfold all_pill. destruct (list_find _ _) as [[??]|] eqn:E; [by eexists|].
    apply list_find_None in E. assert (imap (λ j, set_active (bool_decide (j = i))) l !! k
      = Some (set_active (bool_decide (k = i)) y)) as Hk by (by rewrite list_lookup_imap, Hy).
    apply (Forall_lookup_1 _ _ _ _ E) in Hk. done.
  - exists (pillState x). split; [done|]. apply Forall_lookup. intros k y. rewrite list_lookup_imap.
    destruct (l !! k) as [z|] eqn:Ez; [|done]. intros [= <-]. simpl. apply bool_decide_ext.
    split; [intros ->; congruence|]. intros Hz. eapply NoDup_lookup; [exact Hnd|..];
      rewrite list_lookup_fmap, ?Ez, ?Ex; simpl; [done|congruence].
Qed.
Lemma chooseState_rest i p :
  filter_value (chooseState i p) = filter_value p ∧ remember (chooseState i p) = remember p
  ∧ key (chooseState i p) = key p ∧ sessionStorage (chooseState i p) = sessionStorage p.
Proof.
  unfold chooseState. destruct (pills p), (state_value p); try done. destruct (_ !! _); [|done].
  by rewrite filterTable_eq.
Qed.
Lemma kept_choose i p : kept (chooseState i p) ↔ kept p.
Proof. unfold kept. by destruct (chooseState_rest i p) as (-> & -> & -> & ->). Qed.

Lemma step_applied p e : applied p → enabled p e → applied (step p e).
Proof.
  intros (Hf & Hp & Hk) He. destruct e as [v|v|i|]; simpl in *.
  - apply applied_filter; destruct (remember p) eqn:Er; try done; [apply kept_keep|].
    intros Hr. simpl in Hr. congruence.
  - destruct (state_value p); [|done]. apply applied_filter; [|done]. unfold pills_ok. simpl. by rewrite He.
  - destruct He as (l & Hl & Hi). unfold applied. rewrite kept_choose. split_and!; [|by apply chooseState_ok|done].
    unfold chooseState. rewrite Hl. destruct (state_value p); [|done]. destruct (l !! i); [|done].
    apply filterTable_idem.
  - destruct (pills p) as [l|] eqn:El.
    + pose proof Hp as Hp'. unfold pills_ok in Hp'. rewrite El in Hp'.
      destruct (all_pill l) as [i|]; [|by destruct Hp' as (_ & [??] & _)].
      apply applied_filter; [|apply kept_choose, kept_keep]. apply chooseState_ok. exact Hp.
    + apply applied_filter; [|apply kept_keep]. unfold pills_ok. simpl. by rewrite El.
Qed.

Lemma includes_empty s : JsString.includes "" s = true.
Proof. by destruct s. Qed.

(** with no search and no state every row shows *)
Lemma all_shown p g r :
  filter_value p = "" → default "" (state_value p) = "" →
  g ∈ groups (filterTable p) → r ∈ rows g → group_header r = false → hidden r = false.
Proof.
  intros Hv Hs Hg Hr Hh. rewrite filterTable_eq, Hv, Hs in Hg. simpl in Hg.
  apply list_elem_of_fmap in Hg as (g0 & -> & _). apply list_elem_of_lookup in Hr as [j Hr].
  destruct (apply_group_same "" "" g0) as [_ HF]. destruct (Forall2_lookup_r _ _ _ _ _ HF Hr) as (r0 & Hr0 & b & ->).
  destruct (apply_group_rows "" "" g0 j r0 Hr0) as (r' & Hr' & Hrow & _). rewrite Hr in Hr'. injection Hr' as Hb.
  simpl in *. rewrite Hrow in Hb by done. injection Hb as ->.
  unfold row_shown, state_matches, found. rewrite Hh, includes_empty, orb_true_r. done.
Qed.

Lemma clear_shows_all p g r :
  pills_ok p → g ∈ groups (step p Clear) → r ∈ rows g → group_header r = false → hidden r = false.
Proof.
  intros Hp. simpl. unfold pills_ok in Hp. destruct (pills p) as [l|] eqn:El.
  - destruct Hp as (_ & [i Hi] & v & Hv & _). rewrite Hi. destruct (all_pill_lookup _ _ Hi) as (x & Hx & Hxs).
    apply all_shown; unfold chooseState, keep; simpl; rewrite El, Hv, Hx, filterTable_eq; simpl; [done|by rewrite Hxs].
  - apply all_shown; simpl; [done|]. by destruct (state_value p).
Qed.

(** ** Properties *)

(** the row a search [sought] in the state [state] is after: no header, in the
    chosen state if one is chosen, and the search stands, in any case, in the
    name of its group's host, or in the row's [data-search], or, when it has
    none, in its text *)
Definition wanted (sought state : string) (g : group) (r : row) : Prop :=
  group_header r = false
  ∧ (state = "" ∨ mark r = Some state)
  ∧ ((∃ h, host g = Some h ∧ JsString.occurs sought h)
     ∨ match search r with
       | Some s => JsString.occurs sought s
       | None => JsString.occurs sought (textContent r)
       end).

Lemma row_shown_wanted sought state g r :
  row_shown (JsString.toLowerCase sought) state g r = true ↔ wanted sought state g r.
Proof.
  unfold row_shown, wanted, state_matches, found, host_matches, searched.
  rewrite !andb_true_iff, negb_true_iff, !orb_true_iff, !bool_decide_eq_true, JsString.includes_lower.
  rewrite (assoc and). f_equiv. f_equiv.
  - destruct (host g) as [h|]; [rewrite JsString.includes_lower; naive_solver|naive_solver].
  - by destruct (search r).
Qed.
Lemma group_shown_wanted sought state g :
  group_shown (JsString.toLowerCase sought) state g = true ↔ ∃ r, r ∈ rows g ∧ wanted sought state g r.
Proof.
  unfold group_shown. rewrite existsb_exists. f_equiv. intros r. by rewrite row_shown_wanted, list_elem_of_In.
Qed.
Lemma hidden_unless (b : bool) (P : Prop) r r' : (b = true ↔ P) → r' = set_hidden (negb b) r → hidden r' = false ↔ P.
Proof. intros Hb ->. simpl. rewrite negb_false_iff. exact Hb. Qed.

(** C39: What shows is what the search and the state list say, and nothing else
    of a row changes: after [filterTable] a row shows exactly when its state is
    the chosen one (or none is chosen) and the search stands, in any case, in
    its group's host, or in its [data-search], or in its text when it has no
    [data-search]; the last header of a group shows exactly while such a row is
    in the group; "no match" shows exactly while there is none in the page.
    (Characters are those below 256, with the letters' cases of JavaScript.) *)
Theorem filterTable_shows_the_matches p i g j r :
  groups p !! i = Some g → rows g !! j = Some r →
  let wanted := wanted (filter_value p) (default "" (state_value p)) in
  ∃ g' r', groups (filterTable p) !! i = Some g' ∧ host g' = host g ∧ rows g' !! j = Some r'
    ∧ r' = set_hidden (hidden r') r
    ∧ (group_header r = false → hidden r' = false ↔ wanted g r)
    ∧ (last_header (rows g) j → hidden r' = false ↔ ∃ r0, r0 ∈ rows g ∧ wanted g r0)
    ∧ (∀ b, no_match (filterTable p) = Some b →
         b = false ↔ ¬ ∃ g0 r0, g0 ∈ groups p ∧ r0 ∈ rows g0 ∧ wanted g0 r0).
Proof.
  intros Hg Hr wanted. rewrite filterTable_eq. simpl.
  set (text := JsString.toLowerCase (filter_value p)). set (state := default "" (state_value p)).
  destruct (apply_group_rows text state g j r Hr) as (r' & Hr' & Hrow & Hlast & Hhead).
  exists (apply_group text state g), r'. rewrite list_lookup_fmap, Hg. split_and!; [done..| | | |].
  - destruct (group_header r) eqn:E; [|by rewrite Hrow at 1 by done; rewrite Hrow].
    destruct (last_header_dec (rows g) j) as [Hj|Hj].
    + by rewrite Hlast.
    + rewrite Hhead by done. by destruct r.
  - intros Hh. eapply hidden_unless; [apply row_shown_wanted|by apply Hrow].
  - intros Hh. eapply hidden_unless; [apply group_shown_wanted|by apply Hlast].
  - intros b Hb. destruct (no_match p); [|done]. injection Hb as <-.
    rewrite <- not_true_iff_false, existsb_exists. f_equiv. split.
    + intros (g0 & Hi%list_elem_of_In & (r0 & ?)%group_shown_wanted). by exists g0, r0.
    + intros (g0 & r0 & Hi%list_elem_of_In & ?). exists g0. split; [done|]. apply group_shown_wanted. by exists r0.
Qed.

(** The counts are exact: each state's count is the number of VMs of that
    state the search finds, whatever state is chosen, the one of all states all
    of them, a state's pill is hidden exactly when its count is 0 and it is not
    chosen, and the status line tells how many VMs show of how many. *)
Theorem counts_are_exact p :
  Forall (λ g, Forall (λ r, mark r ≠ Some "") (rows g)) (groups p) →
  let text := JsString.toLowerCase (filter_value p) in
  let state := default "" (state_value p) in
  counters (filterTable p) =
    (λ c, let n := total (finds text (countState c)) (groups p) in
          Counter (countState c) (JsString.of_int n)
            (bool_decide (n = 0%Z ∧ countState c ≠ "" ∧ countState c ≠ state))) <$> counters p
  ∧ status (filterTable p) =
    (λ st, (st.1, JsString.replace_first "%(all)s" (JsString.of_int (total (λ _ _, true) (groups p)))
       (JsString.replace_first "%(shown)s" (JsString.of_int (total (row_shown text state) (groups p))) st.1)))
    <$> status p.
Proof.
  intros Hm text state. rewrite filterTable_eq. fold text state. simpl.
  assert (Forall (λ g, Forall (λ _, True) (rows g)) (groups p)) as Ht.
  { apply Forall_true. intros. by apply Forall_true. }
  split.
  - apply list_fmap_ext. intros _ c _. unfold filter_counter.
    rewrite (count_total text state (count_of (countState c)) (finds text (countState c)) (λ r, mark r ≠ Some "") _ no_tally
      (λ g t r, row_tally_counts text state (countState c) g t r) Hm).
    assert (count_of (countState c) no_tally = 0%Z) as ->.
    { unfold count_of, no_tally. simpl. by case_decide. }
    rewrite Z.add_0_l. f_equal. rewrite !(bool_decide_and _ (_ ∧ _)), bool_decide_and, !bool_decide_not, andb_assoc. done.
  - destruct (status p) as [st|]; [|done]. simpl. unfold status_text.
    rewrite (count_total text state vms (λ _ _, true) (λ _, True) _ no_tally
      (λ g t r _, proj1 (row_tally_vms text state g t r)) Ht).
    rewrite (count_total text state shownVms (row_shown text state) (λ _, True) _ no_tally
      (λ g t r _, proj2 (row_tally_vms text state g t r)) Ht).
    done.
Qed.

(** The search stays applied: whatever is typed, chosen and cleared, the page
    always shows what the search and the state in force say (filtering again
    changes nothing), the pressed pill is the chosen state's, the tab remembers
    exactly the search in the box, and Clear shows every row. *)
Theorem search_stays_applied p0 p :
  pills_ok p0 →
  (∀ s, sessionStorage p0 = Some s → JsObj.get (key p0) s ≠ Some "") →
  reachable enabled (silent step) (start p0) p →
  filterTable p = p
  ∧ (∀ l x, pills p = Some l → x ∈ l → active x = true ↔ state_value p = Some (pillState x))
  ∧ (remember p = true → ∀ s, sessionStorage p = Some s →
       JsObj.get (key p) s = if decide (filter_value p = "") then None else Some (filter_value p))
  ∧ (∀ g r, g ∈ groups (step p Clear) → r ∈ rows g → group_header r = false → hidden r = false).
Proof.
  intros Hp Hs Hr.
  assert (applied p) as (Hf & Hp' & Hk).
  { revert p Hr. apply reachable_invariant; [|intros; by apply step_applied].
    apply applied_filter; [done|]. intros Hrem s. simpl in *. rewrite Hrem. intros Hst. rewrite Hst.
    specialize (Hs _ Hst). destruct (JsObj.get (key p0) s) as [w|]; simpl; [case_decide; congruence|done]. }
  split_and!; [done| |done|intros; by eapply clear_shows_all].
  intros l x Hl Hx. unfold pills_ok in Hp'. rewrite Hl in Hp'. destruct Hp' as (_ & _ & v & -> & HF).
  rewrite Forall_forall in HF. rewrite (HF x Hx), bool_decide_eq_true. naive_solver.
Qed.

(** ** A page: instances/tests/js/table_filter.test.js *)
Section witnesses.
Definition vm (text state : string) : row := Row false None text (Some state) false.
Definition page1 (search state : string) : page :=
  Page search (Some state)
    [Group (Some "host-a") [Row true None "host-a Connected" None false; vm "web-1 Active" "Active"; vm "db-1 Off" "Off"];
     Group (Some "host-b") [Row true None "host-b Connected" None false; vm "web-9 Off" "Off"]]
    (Some true) [Counter "" "" false; Counter "Off" "" false; Counter "Paused" "" false] (Some ("%(shown)s of %(all)s", ""))
    (Some [Pill "" (bool_decide (state = "")); Pill "Off" (bool_decide (state = "Off"))]) true "VMs_filter" (Some []).
Definition visible (p : page) : list (list string) := (λ g, textContent <$> filter (λ r, hidden r = false) (rows g)) <$> groups p.

Example filters :
  visible (filterTable (page1 "DB" "")) = [["host-a Connected"; "db-1 Off"]; []]
  ∧ visible (filterTable (page1 "HOST-B" "")) = [[]; ["host-b Connected"; "web-9 Off"]]
  ∧ visible (filterTable (page1 "web" "Off")) = [[]; ["host-b Connected"; "web-9 Off"]]
  ∧ counters (filterTable (page1 "web" "Off")) = [Counter "" "2" false; Counter "Off" "1" false; Counter "Paused" "0" true]
  ∧ status (filterTable (page1 "web" "Off")) = Some ("%(shown)s of %(all)s", "1 of 3").
Proof. by vm_compute. Qed.

(** the search is in capitals, the row in small letters *)
Lemma filterTable_shows_the_matches_witness :
  wanted "DB" "" (Group (Some "host-a") []) (vm "db-1 Off" "Off")
  ∧ ∃ g' r', groups (filterTable (page1 "DB" "")) !! 0%nat = Some g' ∧ rows g' !! 2%nat = Some r' ∧ hidden r' = false.
Proof.
  assert (JsString.occurs "DB" "db-1 Off") as Ho by (by apply JsString.includes_lower).
  split; [split_and!; [done|by left|by right]|].
  destruct (filterTable_shows_the_matches (page1 "DB" "") 0 _ 2 _ eq_refl eq_refl) as (g' & r' & Hg & _ & Hr & _ & Hrow & _).
  exists g', r'. split_and!; [exact Hg|exact Hr|]. apply (Hrow eq_refl). split_and!; [done|by left|by right].
Defined.

Lemma counts_are_exact_witness : counters (filterTable (page1 "web" "Off")) =
  [Counter "" "2" false; Counter "Off" "1" false; Counter "Paused" "0" true].
Proof.
  destruct (counts_are_exact (page1 "web" "Off") ltac:(by repeat constructor)) as [-> _]. by vm_compute.
Defined.

Lemma search_stays_applied_witness :
  let p := step (step (start (page1 "" "")) (Input "db")) (PillClick 1) in
  filterTable p = p ∧ visible p = [["host-a Connected"; "db-1 Off"]; []]
  ∧ (∀ s, sessionStorage p = Some s → JsObj.get "VMs_filter" s = Some "db").
Proof.
  intros p.
  assert (reachable enabled (silent step) (start (page1 "" "")) p) as Hr.
  { refine (reachable_silent _ _ _ _ (PillClick 1) _ (reachable_silent _ _ _ _ (Input "db") _ (reachable_init _ _ _) I eq_refl) _ eq_refl).
    exists [Pill "" true; Pill "Off" false]. split; [by vm_compute|]. simpl. lia. }
  assert (pills_ok (page1 "" "")) as Hp.
  { split; [|split; [by eexists|]].
    - apply (bool_decide_eq_true_1 (NoDup _)). by vm_compute.
    - exists "". split; [done|]. by repeat constructor. }
  assert (∀ s, sessionStorage (page1 "" "") = Some s → JsObj.get (key (page1 "" "")) s ≠ Some "") as Hs
    by (by intros s [= <-]).
  destruct (search_stays_applied _ p Hp Hs Hr) as (Hf & _ & Hk & _).
  split_and!; [exact Hf|by vm_compute|]. intros s Hst. exact (Hk eq_refl s Hst).
Defined.
End witnesses.
End TableFilter.
