(* ===== verification/IsoUpload.v ===== *)
(** * A storage pool's page: static/js/storage_page.js

    The ISO upload in chunks: one POST at a time, a failed one tried again
    after 1, 2 and 4 s, a failed upload resumed where it stopped; and the rows of
    the Clone dialog. *)
From S2P Require Import Prelude JsObject JsString.
From Stdlib Require Import Ascii.
From Stdlib Require Init.Byte.

#[local] Open Scope string_scope.
#[local] Open Scope list_scope.
#[local] Open Scope Z_scope.

Module IsoUpload.

(** ** Files and chunks *)
Record file := File { name : string; lastModified : Z; content : list Init.Byte.byte }.
Definition size (f : file) : Z := Z.of_nat (length (content f)).

(** [file.slice(start, end)]: a view of the file *)
Record blob := Blob { of_file : file; b_start : Z; b_end : Z }.
Definition bytes (b : blob) : list Init.Byte.byte :=
  take (Z.to_nat (b_end b - b_start b)) (drop (Z.to_nat (b_start b)) (content (of_file b))).

Definition chunkSize : Z := 32 * 1024 * 1024.
Definition totalChunks (f : file) : Z := (size f + (chunkSize - 1)) / chunkSize.   (* Math.ceil *)
Definition fileSignature (f : file) : string :=
  JsString.join ":" [name f; JsString.of_int (size f); JsString.of_int (lastModified f)].

(** [/\.iso$/i.test(fileName) && fileName.length > 4] *)
Definition iso_name (n : string) : bool :=
  let len := String.length n in
  bool_decide (JsString.toLowerCase (String.substring (len - 4) 4 n) = ".iso") && bool_decide (4 < len)%nat.

(** ** State *)
(** the form data of one request *)
Record post := Post {
  chunk : blob; file_name : string; chunk_index : Z; total_chunks : Z; file_size : Z; upload_id : string;
}.
Record pending := Pending { signature : string; chunkIndex : Z; uploadId : string }.
(** the variables of the running upload's closure *)
Record upload := Upload { u_file : file; u_chunkIndex : Z; u_uploadId : string; retryCount : Z }.
Record texts := Texts {
  noFile : string; notIso : string; empty : string; starting : string; uploading : string;
  retrying : string; failed : string;
}.
Record form := Form {
  error_message : option string;   (* None: hidden *)
  status_shown : bool; status_text : string; button_disabled : bool; dialog_shown : bool;
}.
Record uploader := Uploader {
  pendingUpload : option pending;
  uploadInProgress : bool;
  current : option upload;         (* the last submit that started an upload *)
  inflight : option post;          (* its request, not answered *)
  timer : option Z;                (* when its retry is due *)
  now : Z;
  ui : form;
}.

Inductive effect :=
  | Ajax (p : post)
  | Track (job : string).          (* resourceJobPanel.track *)
Inductive event :=
  | Submit (f : option file) (randomUUID : string)
  | Success (job : string)
  | Error (status : Z) (error : string)   (* "" when the answer has none *)
  | Fire                           (* the retry's timer *)
  | Tick (dt : Z).

Definition set_ui (f : form → form) (s : uploader) : uploader :=
  Uploader (pendingUpload s) (uploadInProgress s) (current s) (inflight s) (timer s) (now s) (f (ui s)).
Definition show_error (m : string) (u : form) : form :=
  Form (Some m) (status_shown u) (status_text u) (button_disabled u) (dialog_shown u).
Definition set_status_text (m : string) (u : form) : form :=
  Form (error_message u) (status_shown u) m (button_disabled u) (dialog_shown u).
Definition set_dialog (b : bool) (u : form) : form :=
  Form (error_message u) (status_shown u) (status_text u) (button_disabled u) b.
(** the status hidden, the button usable *)
Definition form_idle (u : form) : form := Form (error_message u) false (status_text u) false (dialog_shown u).

Definition retriable (status : Z) : bool :=
  bool_decide (status = 0) || bool_decide (status = 429) || bool_decide (500 <= status).
Definition client_error (status : Z) : bool :=
  bool_decide (400 <= status < 500) && negb (bool_decide (status = 429)).

Section uploader.
Variable text : texts.
Abbreviation handler := (Prelude.handler uploader effect).
#[local] Open Scope handler_scope.

Definition post_of (u : upload) : post :=
  let start := u_chunkIndex u * chunkSize in
  let fin := Z.min (start + chunkSize) (size (u_file u)) in
  Post (Blob (u_file u) start fin) (name (u_file u)) (u_chunkIndex u) (totalChunks (u_file u))
    (size (u_file u)) (u_uploadId u).

Definition uploadChunk : handler := with_state (λ s,
  match current s with
  | Some u =>
      if decide (totalChunks (u_file u) <= u_chunkIndex u) then skip
      else emit (Ajax (post_of u)) ▸ modify (λ s,
        Uploader (pendingUpload s) (uploadInProgress s) (current s) (Some (post_of u)) (timer s) (now s) (ui s))
  | None => skip
  end).

(** the submit handler *)
Definition submit (fo : option file) (randomUUID : string) : handler := with_state (λ s,
  if uploadInProgress s then skip else
  match fo with
  | None => modify (set_ui (show_error (noFile text)))
  | Some f =>
      if negb (iso_name (name f)) then modify (set_ui (show_error (notIso text)))
      else if decide (size f = 0) then modify (set_ui (show_error (empty text)))
      else
        let fresh := Pending (fileSignature f) 0 randomUUID in
        let p := match pendingUpload s with
                 | Some p => if decide (signature p = fileSignature f) then p else fresh
                 | None => fresh
                 end in
        modify (λ s, Uploader (Some p) true (Some (Upload f (chunkIndex p) (uploadId p) 0)) (inflight s) (timer s) (now s)
          (Form None true (starting text) true (dialog_shown (ui s))))
        ▸ uploadChunk
  end).

(** the request's [success] *)
Definition success (job : string) : handler := with_state (λ s,
  match current s with
  | Some u =>
      let k := u_chunkIndex u + 1 in
      (if decide (u_chunkIndex u = 0)
       then emit (Track job) ▸ modify (set_ui (λ x, set_dialog false (set_status_text (uploading text) x)))
       else skip)
      ▸ modify (λ s, Uploader
          ((λ p, Pending (signature p) k (uploadId p)) <$> pendingUpload s) (uploadInProgress s)
          (Some (Upload (u_file u) k (u_uploadId u) 0)) None (timer s) (now s) (ui s))
      ▸ (if decide (k < totalChunks (u_file u)) then uploadChunk
         else modify (λ s, Uploader None false (current s) (inflight s) (timer s) (now s) (form_idle (ui s))))
  | None => skip
  end).

(** ... and its [error] *)
Definition error (status : Z) (err : string) : handler := with_state (λ s,
  match current s with
  | Some u =>
      if retriable status && bool_decide (retryCount u < 3) then
        let n := retryCount u + 1 in
        modify (λ s, Uploader (pendingUpload s) (uploadInProgress s)
          (Some (Upload (u_file u) (u_chunkIndex u) (u_uploadId u) n)) None
          (Some (now s + 1000 * 2 ^ (n - 1))) (now s) (set_status_text (retrying text) (ui s)))
      else modify (λ s, Uploader (if client_error status then None else pendingUpload s) false (current s) None
        (timer s) (now s)
        (set_dialog true (show_error (if decide (err = "") then failed text else err) (form_idle (ui s)))))
  | None => skip
  end).

Definition fire : handler :=
  modify (λ s, Uploader (pendingUpload s) (uploadInProgress s) (current s) (inflight s) None (now s) (ui s))
  ▸ uploadChunk.

Definition step (s : uploader) (e : event) : uploader * list effect :=
  match e with
  | Submit f r => submit f r s
  | Success j => success j s
  | Error st er => error st er s
  | Fire => fire s
  | Tick dt => (Uploader (pendingUpload s) (uploadInProgress s) (current s) (inflight s) (timer s) (now s + dt) (ui s), [])
  end.

Definition start (now : Z) : uploader := Uploader None false None None None now (Form None false "" false true).

(** [beforeunload]: whether the browser asks before the page is left *)
Definition asks_before_leaving (s : uploader) : bool := uploadInProgress s.

(** ** What the server took: the requests answered with success, in order *)
Definition observe (w : uploader * list post) (e : event) : uploader * list post :=
  ((step w.1 e).1, match e, inflight w.1 with Success _, Some p => w.2 ++ [p] | _, _ => w.2 end).

(** What the browser can deliver: an answer to the request in flight, the timer
    when it is due, a new UUID with each submit. *)
Definition enabled (w : uploader * list post) (e : event) : Prop :=
  match e with
  | Submit _ r => r ∉ upload_id <$> w.2 ∧ (∀ p, pendingUpload w.1 = Some p → uploadId p ≠ r)
  | Success _ | Error _ _ => is_Some (inflight w.1)
  | Fire => ∃ due, timer w.1 = Some due ∧ due <= now w.1
  | Tick dt => 0 <= dt
  end.
End uploader.

(** ** The Clone dialog *)
Record clone_form := CloneForm {
  clone_volume : string; clone_name : string; convert : bool; format : string; prealloc : bool;
  format_row : bool; prealloc_row : bool;   (* shown *)
}.
Definition showCloneRows (c : clone_form) : clone_form :=
  CloneForm (clone_volume c) (clone_name c) (convert c) (format c) (prealloc c)
    (convert c) (convert c && bool_decide (format c = "qcow2")).
(** [show.bs.modal]: filled for the volume of the button that opened it *)
Definition open_clone (volume : string) (c : clone_form) : clone_form :=
  showCloneRows (CloneForm volume "" false "raw" false (format_row c) (prealloc_row c)).

(** ** Chunks *)
Lemma totalChunks_spec f i : i < totalChunks f ↔ i * chunkSize < size f.
Proof.
  unfold totalChunks. assert (0 < chunkSize) as Hc by done. split; intros H.
  - pose proof (Z.div_mod (size f + (chunkSize - 1)) chunkSize ltac:(lia)).
    pose proof (Z.mod_pos_bound (size f + (chunkSize - 1)) chunkSize Hc). nia.
  - assert (i + 1 <= (size f + (chunkSize - 1)) / chunkSize); [|lia]. apply Z.div_le_lower_bound; nia.
Qed.

Definition chunk_of (f : file) (i : Z) : blob := chunk (post_of (Upload f i "" 0)).

(** the first [k] chunks are the file up to where the [k]th ends *)
Lemma chunks_prefix f (k : nat) :
  Z.of_nat k <= totalChunks f →
  mjoin ((λ i, bytes (chunk_of f i)) <$> seqZ 0 (Z.of_nat k)) = take (Z.to_nat (Z.of_nat k * chunkSize)) (content f).
Proof.
  induction k as [|k IH]; intros Hk; [done|].
  assert (0 < chunkSize) as Hc by done.
  assert (Z.of_nat k * chunkSize < size f) as Hlt by (apply totalChunks_spec; lia).
  replace (Z.of_nat (S k)) with (Z.of_nat k + 1) in * by lia.
  rewrite seqZ_app, fmap_app, join_app, IH by lia. simpl. rewrite app_nil_r.
  unfold bytes, chunk_of, post_of. simpl. rewrite take_take_drop. unfold size in *.
  destruct (decide (Z.of_nat k * chunkSize + chunkSize <= Z.of_nat (length (content f)))).
  - f_equal. lia.
  - rewrite !take_ge by lia. done.
Qed.
Lemma chunks_are_the_file f :
  mjoin ((λ i, bytes (chunk_of f i)) <$> seqZ 0 (totalChunks f)) = content f.
Proof.
  assert (0 < chunkSize) as Hc by done.
  assert (0 <= totalChunks f) as Ht by (unfold totalChunks, size; apply Z.div_pos; lia).
  rewrite <- (Z2Nat.id (totalChunks f)) by done. rewrite chunks_prefix by lia. apply take_ge.
  rewrite Z2Nat.id by done. pose proof (totalChunks_spec f (totalChunks f)). unfold size in *. lia.
Qed.

(** The signature tells the name, the size and the date. *)
Lemma fileSignature_inj f g :
  fileSignature f = fileSignature g → name f = name g ∧ size f = size g ∧ lastModified f = lastModified g.
Proof.
  unfold fileSignature. intros H%(f_equal chars).
  assert (∀ a b c, chars (JsString.join ":" [a; b; c]) = chars a ++ ":"%char :: (chars b ++ ":"%char :: chars c)) as Hj.
  { intros a b c. change (JsString.join ":" [a; b; c]) with (a +:+ ":" +:+ (b +:+ ":" +:+ c)).
    by rewrite !JsString.chars_app. }
  rewrite !Hj in H. apply (f_equal reverse) in H.
  rewrite !reverse_app, !reverse_cons, !reverse_app, !reverse_cons, <- !(assoc_L (++)) in H. simpl in H.
  assert (∀ n, ":"%char ∉ reverse (chars (JsString.of_int n))) as Hfree.
  { intros n. rewrite elem_of_reverse. by apply JsString.of_int_free. }
  apply JsString.split_at in H as [H1 H]; [|done..]. apply JsString.split_at in H as [H2 H3]; [|done..].
  apply (inj reverse) in H1, H2, H3.
  split_and!; [by apply JsString.chars_inj|by apply JsString.of_int_inj, JsString.chars_inj..].
Qed.
Lemma signature_total f g : fileSignature f = fileSignature g → totalChunks f = totalChunks g.
Proof. intros (_ & Hs & _)%fileSignature_inj. unfold totalChunks. by rewrite Hs. Qed.

(** ** The invariant *)
Definition of_id (u : string) (l : list post) : list post := filter (λ p, upload_id p = u) l.
(** the first chunks of a file with the signature, in order *)
Definition tiles (sig u : string) (l : list post) : Prop :=
  ∀ i p, l !! i = Some p → ∃ f, fileSignature f = sig ∧ p = post_of (Upload f (Z.of_nat i) u 0).

Record pending_ok (p : pending) (log : list post) : Prop := {
  p_len : chunkIndex p = Z.of_nat (length (of_id (uploadId p) log));
  p_more : ∀ f, fileSignature f = signature p → size f ≠ 0 → chunkIndex p < totalChunks f;
  p_tiles : tiles (signature p) (uploadId p) (of_id (uploadId p) log);
}.
Record running (s : uploader) (u : upload) : Prop := {
  r_current : current s = Some u;
  r_pending : pendingUpload s = Some (Pending (fileSignature (u_file u)) (u_chunkIndex u) (u_uploadId u));
  r_size : size (u_file u) ≠ 0;
  r_retry : 0 <= retryCount u <= 3;
  r_one : (inflight s = Some (post_of u) ∧ timer s = None)
          ∨ (inflight s = None ∧ ∃ due, timer s = Some due ∧ due <= now s + 4000);
}.
Record inv (w : uploader * list post) : Prop := {
  i_idle : uploadInProgress w.1 = false → inflight w.1 = None ∧ timer w.1 = None;
  i_busy : uploadInProgress w.1 = true → ∃ u, running w.1 u;
  i_pending : ∀ p, pendingUpload w.1 = Some p → pending_ok p w.2;
}.

Section proofs.
Variable text : texts.
#[local] Abbreviation step := (step text).
#[local] Abbreviation observe := (observe text).

Lemma uploadChunk_eq s u :
  current s = Some u → u_chunkIndex u < totalChunks (u_file u) →
  uploadChunk s = (Uploader (pendingUpload s) (uploadInProgress s) (current s) (Some (post_of u)) (timer s) (now s) (ui s),
                   [Ajax (post_of u)]).
Proof. intros Hu Hlt. unfold uploadChunk, with_state. rewrite Hu. case_decide; [lia|]. unfold seq; simpl. by rewrite Hu. Qed.

Lemma running_more s u log : running s u → (∀ p, pendingUpload s = Some p → pending_ok p log) →
  0 <= u_chunkIndex u < totalChunks (u_file u).
Proof.
  intros [_ Hp Hs _ _] Hok. destruct (Hok _ Hp) as [Hl Hm _]. simpl in *. split; [lia|]. by apply Hm.
Qed.

(** a submit that starts an upload *)
Lemma submit_eq f r s :
  uploadInProgress s = false → iso_name (name f) = true → size f ≠ 0 →
  let fresh := Pending (fileSignature f) 0 r in
  let p := match pendingUpload s with
           | Some p => if decide (signature p = fileSignature f) then p else fresh
           | None => fresh
           end in
  chunkIndex p < totalChunks f →
  step s (Submit (Some f) r) =
    (Uploader (Some p) true (Some (Upload f (chunkIndex p) (uploadId p) 0)) (Some (post_of (Upload f (chunkIndex p) (uploadId p) 0)))
       (timer s) (now s) (Form None true (starting text) true (dialog_shown (ui s))),
     [Ajax (post_of (Upload f (chunkIndex p) (uploadId p) 0))]).
Proof.
  intros Hb Hn Hs fresh p Hlt. simpl. unfold submit, with_state. rewrite Hb, Hn. simpl.
  rewrite decide_False by done. fold fresh. fold p. unfold seq. simpl.
  by erewrite uploadChunk_eq.
Qed.

(** a success answers the chunk; the next one follows, or the upload is over *)
Lemma success_eq s u j :
  running s u →
  let k := u_chunkIndex u + 1 in
  let u' := Upload (u_file u) k (u_uploadId u) 0 in
  let s' := (step s (Success j)).1 in
  current s' = Some u'
  ∧ (if decide (k < totalChunks (u_file u))
     then pendingUpload s' = Some (Pending (fileSignature (u_file u)) k (u_uploadId u))
       ∧ uploadInProgress s' = uploadInProgress s ∧ inflight s' = Some (post_of u')
     else pendingUpload s' = None ∧ uploadInProgress s' = false ∧ inflight s' = None)
  ∧ timer s' = timer s ∧ now s' = now s.
Proof.
  intros [Hc Hp _ _ _] k u' s'. subst s'. simpl. unfold success, with_state. rewrite Hc. fold k u'.
  rewrite !seq_fst. destruct (decide (k < totalChunks (u_file u))) as [Hk|Hk].
  - destruct (decide (u_chunkIndex u = 0)); erewrite uploadChunk_eq; try done; simpl; rewrite ?Hp; by split_and!.
  - destruct (decide (u_chunkIndex u = 0)); by split_and!.
Qed.

Lemma of_id_more u log p : upload_id p = u → of_id u (log ++ [p]) = of_id u log ++ [p].
Proof. intros Hp. unfold of_id. rewrite filter_app. f_equal. by rewrite filter_cons_True. Qed.

Lemma pending_ok_fresh f r log : r ∉ upload_id <$> log → pending_ok (Pending (fileSignature f) 0 r) log.
Proof.
  intros Hr. assert (of_id r log = []) as Hnil.
  { apply elem_of_nil_inv. intros p [Hid Hp]%list_elem_of_filter. apply Hr, list_elem_of_fmap. by exists p. }
  constructor; simpl; rewrite ?Hnil; [done|..].
  - intros g _ Hs. apply totalChunks_spec. unfold size in *. lia.
  - intros i p Hi. done.
Qed.

Lemma pending_ok_more u log :
  pending_ok (Pending (fileSignature (u_file u)) (u_chunkIndex u) (u_uploadId u)) log →
  u_chunkIndex u + 1 < totalChunks (u_file u) →
  pending_ok (Pending (fileSignature (u_file u)) (u_chunkIndex u + 1) (u_uploadId u)) (log ++ [post_of u]).
Proof.
  intros [Hl Hm Ht] Hlt. simpl in *. constructor; simpl; rewrite ?of_id_more by done.
  - rewrite length_app. simpl. lia.
  - intros f Hf Hs. by rewrite (signature_total _ _ Hf).
  - intros i p. rewrite lookup_app_Some, list_lookup_singleton_Some. intros [Hp|(Hge & Hi & <-)]; [by apply Ht|].
    exists (u_file u). split; [done|]. unfold post_of. simpl. by replace (Z.of_nat i) with (u_chunkIndex u) by lia.
Qed.

(** changes of the form alone *)
Lemma inv_ui s s' log :
  pendingUpload s' = pendingUpload s → uploadInProgress s' = uploadInProgress s → current s' = current s →
  inflight s' = inflight s → timer s' = timer s → now s' = now s → inv (s, log) → inv (s', log).
Proof.
  intros Hp Hb Hc Hi Ht Hn [Hidle Hbusy Hok]. constructor; simpl in *.
  - by rewrite Hb, Hi, Ht.
  - rewrite Hb. intros Hr. destruct (Hbusy Hr) as [u [H1 H2 H3 H4 H5]]. exists u. constructor; by rewrite ?Hc, ?Hp, ?Hi, ?Ht, ?Hn.
  - by rewrite Hp.
Qed.

Lemma submit_inv fo r s log :
  inv (s, log) → r ∉ upload_id <$> log → inv ((step s (Submit fo r)).1, log).
Proof.
  intros Hi Hr. destruct (uploadInProgress s) eqn:Hb.
  { unfold IsoUpload.step, submit, with_state. by rewrite Hb. }
  assert (∀ m, inv (set_ui (show_error m) s, log)) as Herr by (intros m; by eapply inv_ui; [..|exact Hi]).
  destruct fo as [f|]; [|unfold IsoUpload.step, submit, with_state; rewrite Hb; apply Herr].
  destruct (iso_name (name f)) eqn:Hn; [|unfold IsoUpload.step, submit, with_state; rewrite Hb, Hn; apply Herr].
  destruct (decide (size f = 0)) as [Hs|Hs];
    [unfold IsoUpload.step, submit, with_state; rewrite Hb, Hn; simpl; rewrite decide_True by done; apply Herr|].
  destruct Hi as [Hidle _ Hok]. simpl in Hidle, Hok. specialize (Hidle Hb).
  set (p := match pendingUpload s with
            | Some p => if decide (signature p = fileSignature f) then p else Pending (fileSignature f) 0 r
            | None => Pending (fileSignature f) 0 r
            end).
  assert (signature p = fileSignature f ∧ pending_ok p log) as [Hsig Hpok].
  { subst p. destruct (pendingUpload s) as [p|]; [case_decide|]; split; auto using pending_ok_fresh. }
  assert (chunkIndex p < totalChunks f) as Hlt by (by apply Hpok).
  rewrite submit_eq by done. fold p. constructor; simpl; [done| |by intros ? [= <-]].
  intros _. eexists. constructor; simpl; try done; [|by left; destruct Hidle].
  destruct p; simpl in *. by subst.
Qed.

Lemma success_inv j s log :
  inv (s, log) → is_Some (inflight s) → inv (observe (s, log) (Success j)).
Proof.
  intros [Hidle Hbusy Hok] [q Hq]. simpl in *. destruct (uploadInProgress s) eqn:Hb; [|destruct Hidle; congruence].
  destruct (Hbusy eq_refl) as [u Hu]. pose proof (running_more _ _ _ Hu Hok) as Hlt.
  pose proof (success_eq s u j Hu) as Hs. simpl in Hs. unfold IsoUpload.observe. simpl.
  destruct Hu as [Hc Hp Hsz Hre [[Hif Htm]|[Hif _]]]; [|congruence]. rewrite Hif.
  destruct Hs as (Hc' & Hs & Ht' & Hn').
  case_decide as Hk; destruct Hs as (Hp' & Hb' & Hi'); constructor; simpl; rewrite ?Hb', ?Hb; try done.
  - intros _. eexists. constructor; [exact Hc'|exact Hp'|done|simpl; lia|]. left. by rewrite Hi', Ht'.
  - rewrite Hp'. intros ? [= <-]. by apply pending_ok_more; [apply Hok|].
  - by rewrite Hi', Ht'.
  - by rewrite Hp'.
Qed.

Lemma error_inv status er s log :
  inv (s, log) → is_Some (inflight s) → inv ((step s (Error status er)).1, log).
Proof.
  intros [Hidle Hbusy Hok] [q Hq]. simpl in *. destruct (uploadInProgress s) eqn:Hb; [|destruct Hidle; congruence].
  destruct (Hbusy eq_refl) as [u [Hc Hp Hsz Hre [[Hif Htm]|[Hif _]]]]; [|congruence].
  unfold error, with_state. rewrite Hc. destruct (retriable status); simpl; [case_bool_decide as Hlt; simpl|].
  - constructor; simpl; [congruence| |done]. intros _. eexists. constructor; simpl; try done; [simpl; lia|].
    right. split; [done|]. eexists. split; [done|].
    assert (2 ^ (retryCount u + 1 - 1) <= 2 ^ 2) by (apply Z.pow_le_mono_r; lia). lia.
  - constructor; simpl; [done|done|]. destruct (client_error _); [done|]. exact Hok.
  - constructor; simpl; [done|done|]. destruct (client_error _); [done|]. exact Hok.
Qed.

Lemma upload_step_inv w e : inv w → enabled w e → inv (observe w e).
Proof.
  destruct w as [s log]. intros Hi He. destruct e as [fo r|j|st er| |dt]; simpl in He.
  - apply submit_inv; [done|]. apply He.
  - by apply success_inv.
  - by apply error_inv.
  - destruct He as (due & Ht & Hd). destruct Hi as [Hidle Hbusy Hok]. simpl in *.
    destruct (uploadInProgress s) eqn:Hb; [|destruct Hidle; congruence].
    destruct (Hbusy eq_refl) as [u Hu]. pose proof (running_more _ _ _ Hu Hok) as Hlt.
    destruct Hu as [Hc Hp Hsz Hre _]. unfold IsoUpload.observe. simpl. unfold fire. rewrite seq_fst.
    erewrite uploadChunk_eq; [|done|lia]. constructor; simpl; [congruence| |done]. intros _.
    exists u. constructor; simpl; try done. by left.
  - destruct Hi as [Hidle Hbusy Hok]. constructor; simpl in *; [done| |done]. intros Hb.
    destruct (Hbusy Hb) as [u [? ? ? ? H5]]. exists u. constructor; simpl; try done.
    destruct H5 as [?|(? & due & ? & ?)]; [by left|right]. split; [done|]. exists due. split; [done|lia].
Qed.

Lemma upload_reachable_inv t w :
  reachable enabled (silent observe) (start t, []) w → inv w.
Proof.
  intros Hr. apply (reachable_invariant enabled (silent observe) inv (start t, [])); [..|done].
  - constructor; simpl; done.
  - intros. by apply upload_step_inv.
Qed.

(** the chunks taken with one id are the first ones of the file *)
Lemma tiles_chunks f u l :
  tiles (fileSignature f) u l →
  chunk_index <$> l = seqZ 0 (Z.of_nat (length l))
  ∧ Forall (λ p, file_name p = name f ∧ file_size p = size f ∧ total_chunks p = totalChunks f ∧ upload_id p = u) l
  ∧ ((∀ p, p ∈ l → content (of_file (chunk p)) = content f) →
     (λ p, bytes (chunk p)) <$> l = (λ i, bytes (chunk_of f i)) <$> seqZ 0 (Z.of_nat (length l))).
Proof.
  intros Ht. split_and!.
  - apply list_eq. intros i. rewrite list_lookup_fmap. destruct (l !! i) as [p|] eqn:E.
    + destruct (Ht _ _ E) as (g & _ & ->). apply lookup_lt_Some in E.
      rewrite lookup_seqZ_lt by lia. done.
    + apply lookup_ge_None_1 in E. rewrite lookup_seqZ_ge by lia. done.
  - apply Forall_lookup. intros i p Hp. destruct (Ht _ _ Hp) as (g & Hg & ->). simpl.
    destruct (fileSignature_inj _ _ Hg) as (? & ? & _). split_and!; auto using signature_total.
  - intros Hsame. apply list_eq. intros i. rewrite !list_lookup_fmap. destruct (l !! i) as [p|] eqn:E.
    + pose proof (Hsame p (list_elem_of_lookup_2 _ _ _ E)) as Hc.
      destruct (Ht _ _ E) as (g & Hg & ->). apply lookup_lt_Some in E. rewrite lookup_seqZ_lt by lia. simpl in *.
      destruct (fileSignature_inj _ _ Hg) as (_ & Hs & _). unfold bytes, chunk_of, post_of. simpl.
      by rewrite Hs, Hc.
    + apply lookup_ge_None_1 in E. rewrite lookup_seqZ_ge by lia. done.
Qed.

(** C35: An upload that ends well has sent the file: when the last chunk is taken,
    the chunks the server took under the upload's id, in the order it took
    them, are numbered 0 .. n-1, each carries the file's name, size and number
    of chunks, and together they are the file's bytes, whatever failed, was
    retried, given up and resumed, or uploaded in between, if the user sent the
    same bytes each time (a resumed file is told by its name, size and date). *)
Theorem upload_sends_the_file t s log u j :
  reachable enabled (silent observe) (start t, []) (s, log) →
  is_Some (inflight s) → current s = Some u → u_chunkIndex u + 1 = totalChunks (u_file u) →
  let f := u_file u in
  let w' := observe (s, log) (Success j) in
  let sent := of_id (u_uploadId u) w'.2 in
  uploadInProgress w'.1 = false ∧ pendingUpload w'.1 = None
  ∧ chunk_index <$> sent = seqZ 0 (totalChunks f)
  ∧ Forall (λ p, file_name p = name f ∧ file_size p = size f ∧ total_chunks p = totalChunks f) sent
  ∧ ((∀ p, p ∈ sent → content (of_file (chunk p)) = content f) →
     mjoin ((λ p, bytes (chunk p)) <$> sent) = content f).
Proof.
  intros Hr Hq Hu Hl. pose proof (upload_reachable_inv _ _ Hr) as [Hidle Hbusy Hok]. simpl in Hidle, Hbusy, Hok.
  destruct (uploadInProgress s) eqn:Hb; [|destruct Hidle as [Hi _]; [done|]; rewrite Hi in Hq; by destruct Hq].
  destruct (Hbusy eq_refl) as [u' Hu']. assert (u' = u) as -> by (destruct Hu'; congruence).
  pose proof (success_eq s u j Hu') as Hs. simpl in Hs. rewrite decide_False in Hs by lia.
  destruct Hu' as [_ Hp Hsz _ [[Hif _]|[Hif _]]]; [|rewrite Hif in Hq; by destruct Hq].
  unfold IsoUpload.observe. simpl. rewrite Hif. destruct (Hok _ Hp) as [Hlen _ Ht]. simpl in Hlen, Ht.
  rewrite of_id_more by done.
  assert (tiles (fileSignature (u_file u)) (u_uploadId u) (of_id (u_uploadId u) log ++ [post_of u])) as Ht'.
  { intros i p. rewrite lookup_app_Some, list_lookup_singleton_Some. intros [?|(? & Hi & <-)]; [by apply Ht|].
    exists (u_file u). split; [done|]. unfold post_of. simpl. by replace (Z.of_nat i) with (u_chunkIndex u) by lia. }
  destruct (tiles_chunks _ _ _ Ht') as (Hix & HF & Hby). rewrite length_app in Hix, Hby. simpl in Hix, Hby.
  replace (Z.of_nat (length (of_id (u_uploadId u) log) + 1)) with (totalChunks (u_file u)) in Hix, Hby by lia.
  split_and!; [apply Hs|apply Hs|done| |].
  - eapply Forall_impl; [exact HF|]. naive_solver.
  - intros Hsame. rewrite (Hby Hsame). apply chunks_are_the_file.
Qed.

(** An upload never runs twice and never hangs: while one is in progress,
    exactly one chunk is in flight or one retry is pending, due within 4 s,
    after at most three tries again; otherwise nothing is pending; a second
    submit does nothing; and a request goes out only when none is in flight. *)
Theorem one_chunk_at_a_time t s log :
  reachable enabled (silent observe) (start t, []) (s, log) →
  (if uploadInProgress s
   then ∃ u, current s = Some u ∧ 0 <= retryCount u <= 3
     ∧ ((inflight s = Some (post_of u) ∧ timer s = None)
        ∨ (inflight s = None ∧ ∃ due, timer s = Some due ∧ due <= now s + 4000))
     ∧ (∀ fo r, step s (Submit fo r) = (s, []))
   else inflight s = None ∧ timer s = None)
  ∧ (∀ e p, enabled (s, log) e → Ajax p ∈ (step s e).2 →
       (inflight s = None ∨ ∃ j, e = Success j) ∧ inflight (step s e).1 = Some p).
Proof.
  intros Hr. pose proof (upload_reachable_inv _ _ Hr) as Hi. pose proof Hi as [Hidle Hbusy Hok]. simpl in Hidle, Hbusy, Hok.
  assert (∀ s p, Ajax p ∈ (uploadChunk s).2 → inflight (uploadChunk s).1 = Some p) as Hchunk.
  { intros s0 p. unfold uploadChunk, with_state. destruct (current s0) as [u|]; [case_decide|]; simpl; set_solver. }
  split.
  - destruct (uploadInProgress s) eqn:Hb; [|by apply Hidle].
    destruct (Hbusy eq_refl) as [u [Hc Hp Hsz Hre Hone]]. exists u. split_and!; [done|lia|lia|done|].
    intros fo r. simpl. unfold submit, with_state. by rewrite Hb.
  - intros e p He Hin. destruct e as [fo r|j|st er| |dt].
    + split.
      * left. destruct (uploadInProgress s) eqn:Hb; [|by apply Hidle]. exfalso. simpl in Hin.
        unfold submit, with_state in Hin. rewrite Hb in Hin. simpl in Hin. set_solver.
      * revert Hin. simpl. unfold submit, with_state. destruct (uploadInProgress s); [simpl; set_solver|].
        destruct fo as [f|]; [|simpl; set_solver]. destruct (negb _); [simpl; set_solver|].
        case_decide; [simpl; set_solver|]. rewrite seq_fst, seq_snd. apply Hchunk.
    + split; [by eauto|]. revert Hin. simpl. unfold success, with_state. destruct (current s) as [u|]; [|simpl; set_solver].
      rewrite !seq_fst, !seq_snd. destruct (decide (u_chunkIndex u = 0)), (decide (_ < totalChunks _));
        simpl; rewrite ?elem_of_cons; intros Hin; try set_solver; naive_solver.
    + revert Hin. simpl. unfold error, with_state. destruct (current s) as [u|]; [|simpl; set_solver].
      destruct (_ && _); simpl; set_solver.
    + revert Hin. simpl. unfold fire. rewrite seq_fst, seq_snd. intros Hin. split; [|by apply Hchunk].
      left. destruct He as (due & Ht & _). simpl in Ht.
      destruct (uploadInProgress s); [|by apply Hidle]. destruct (Hbusy eq_refl) as [u [? ? ? ? [[? ?]|[? ?]]]]; congruence.
    + simpl in Hin. set_solver.
Qed.

(** A failed chunk is tried again or the upload stops and can resume: with no
    answer, 429 or a server error, the same chunk goes out again after 1, 2 and
    4 s; then, or after another error, the upload stops with its message, and
    sending the file again goes on at the same chunk with the same id, or, when
    the server refused the upload (4xx), begins anew under a new id. *)
Theorem failed_chunk_is_sent_again t s log u status er r :
  reachable enabled (silent observe) (start t, []) (s, log) →
  is_Some (inflight s) → current s = Some u → iso_name (name (u_file u)) = true →
  let s' := (step s (Error status er)).1 in
  (retriable status = true → retryCount u < 3 →
     timer s' = Some (now s + 1000 * 2 ^ retryCount u) ∧ uploadInProgress s' = true
     ∧ ∀ dt, (step (step s' (Tick dt)).1 Fire).2 = [Ajax (post_of u)])
  ∧ (retriable status = false ∨ retryCount u = 3 →
     uploadInProgress s' = false ∧ button_disabled (ui s') = false
     ∧ error_message (ui s') = Some (if decide (er = "") then failed text else er)
     ∧ (step s' (Submit (Some (u_file u)) r)).2 =
         [Ajax (if client_error status then post_of (Upload (u_file u) 0 r 0) else post_of u)]).
Proof.
  intros Hr Hq Hu Hn. pose proof (upload_reachable_inv _ _ Hr) as [Hidle Hbusy Hok]. simpl in Hidle, Hbusy, Hok.
  destruct (uploadInProgress s) eqn:Hb; [|destruct Hidle as [Hi _]; [done|]; rewrite Hi in Hq; by destruct Hq].
  destruct (Hbusy eq_refl) as [u' Hu']. assert (u' = u) as -> by (destruct Hu'; congruence).
  pose proof (running_more _ _ _ Hu' Hok) as Hlt. destruct Hu' as [_ Hp Hsz Hre _].
  assert (0 < totalChunks (u_file u)) as Hpos by lia. intros s'.
  split.
  - intros Hret H3. subst s'. cbn [IsoUpload.step]. unfold error, with_state. rewrite Hu, Hret.
    rewrite bool_decide_eq_true_2 by done. simpl.
    replace (retryCount u + 1 - 1) with (retryCount u) by lia. split_and!; [done..|]. intros dt.
    unfold fire. rewrite seq_snd. simpl.
    by rewrite uploadChunk_eq with (u := Upload (u_file u) (u_chunkIndex u) (u_uploadId u) (retryCount u + 1)) by (done || (simpl; lia)).
  - intros Hstop.
    assert (retriable status && bool_decide (retryCount u < 3) = false) as Hno.
    { destruct Hstop as [-> | ->]; [done|]. by rewrite andb_false_r. }
    assert (s' = (Uploader (if client_error status then None else pendingUpload s) false (current s) None
        (timer s) (now s)
        (set_dialog true (show_error (if decide (er = "") then failed text else er) (form_idle (ui s)))))) as Hs'.
    { subst s'. cbn [IsoUpload.step]. unfold error, with_state. by rewrite Hu, Hno, <- Hu. }
    clearbody s'. subst s'. split_and!; [done..|].
    match goal with |- context [step ?x (Submit _ _)] => pose proof (submit_eq (u_file u) r x eq_refl Hn Hsz) as Hsub end.
    cbv zeta in Hsub. cbn [pendingUpload] in Hsub. destruct (client_error status).
    + rewrite Hsub by done. done.
    + rewrite Hp, decide_True in Hsub by done. rewrite Hp, Hsub by (simpl; lia). done.
Qed.
End proofs.

(** ** An upload *)
Section witnesses.
Definition texts0 : texts := Texts "no file" "not an ISO" "empty" "Starting" "Uploading" "Retrying" "Failed".
Definition iso : file := File "debian.ISO" 1700000000000 [Init.Byte.x00; Init.Byte.xff].
#[local] Abbreviation obs := (observe texts0).
Definition sending : uploader * list post := obs (start 0, []) (Submit (Some iso) "id-1").
Definition after_error : uploader * list post := obs sending (Error 503 "").
Definition waited : uploader * list post := obs after_error (Tick 1000).
Definition sending_again : uploader * list post := obs waited Fire.

Example bad_files :
  error_message (ui (obs (start 0, []) (Submit (Some (File ".iso" 0 [Init.Byte.x00])) "r")).1) = Some "not an ISO"
  ∧ error_message (ui (obs (start 0, []) (Submit (Some (File "a.iso" 0 [])) "r")).1) = Some "empty"
  ∧ error_message (ui (obs (start 0, []) (Submit None "r")).1) = Some "no file".
Proof. by vm_compute. Qed.

Lemma reach_again : reachable enabled (silent obs) (start 0, []) sending_again.
Proof.
  refine (reachable_silent _ _ _ waited Fire _ (reachable_silent _ _ _ after_error (Tick 1000) _
    (reachable_silent _ _ _ sending (Error 503 "") _ (reachable_silent _ _ _ _ (Submit (Some iso) "id-1") _
      (reachable_init _ _ _) _ eq_refl) _ eq_refl) _ eq_refl) _ eq_refl).
  - split; [|done]. simpl. intros H. inversion H.
  - by eexists.
  - simpl. lia.
  - exists 1000. by vm_compute.
Qed.

Lemma upload_sends_the_file_witness :
  let w' := obs sending_again (Success "job-1") in
  mjoin ((λ p, bytes (chunk p)) <$> of_id "id-1" w'.2) = [Init.Byte.x00; Init.Byte.xff].
Proof.
  intros w'.
  destruct (upload_sends_the_file texts0 0 sending_again.1 sending_again.2 (Upload iso 0 "id-1" 1) "job-1") as (_ & _ & _ & _ & H);
    [exact reach_again|by eexists|done..|].
  apply H. intros p. simpl. intros ->%list_elem_of_singleton. done.
Defined.

Lemma one_chunk_at_a_time_witness :
  let s := sending_again.1 in
  inflight s = Some (post_of (Upload iso 0 "id-1" 1)) ∧ (step texts0 s (Submit (Some iso) "id-2")) = (s, []).
Proof.
  intros s. destruct (one_chunk_at_a_time texts0 0 sending_again.1 sending_again.2 reach_again) as [(u & Hu & _ & _ & Hs) _].
  split; [done|]. apply Hs.
Defined.

Lemma failed_chunk_is_sent_again_witness :
  let s' := (step texts0 sending_again.1 (Error 503 "")).1 in
  timer s' = Some 3000 ∧ (step texts0 (step texts0 s' (Tick 2000)).1 Fire).2 = [Ajax (post_of (Upload iso 0 "id-1" 1))].
Proof.
  intros s'.
  destruct (failed_chunk_is_sent_again texts0 0 sending_again.1 sending_again.2 (Upload iso 0 "id-1" 1) 503 "" "id-2"
    reach_again ltac:(by eexists) eq_refl eq_refl) as [H _].
  destruct (H eq_refl ltac:(simpl; lia)) as (Ht & _ & Hf). split; [exact Ht|apply Hf].
Defined.
End witnesses.
End IsoUpload.
