(* ===== verification/Words.v ===== *)
(** * Integers of a width: the bit operations the scripts use on them *)
From S2P Require Import Prelude.

#[local] Open Scope Z_scope.

Module Words.

(** What is checked of every number below a bound. *)
Lemma checked_below (f : Z → bool) (n : nat) k :
  forallb (λ i, f (Z.of_nat i)) (List.seq 0 n) = true → 0 <= k < Z.of_nat n → f k = true.
Proof.
  intros Hf Hk. assert (In (Z.to_nat k) (List.seq 0 n)) as Hin by (apply in_seq; lia).
  pose proof (proj1 (forallb_forall _ _) Hf _ Hin) as H. simpl in H. by rewrite Z2Nat.id in H by lia.
Qed.

(** [b] fills the low bits [a * 2^n] leaves free: or-ing is adding. *)
Lemma testbit_high b n i : 0 <= b < 2 ^ n → n <= i → Z.testbit b i = false.
Proof.
  intros Hb Hi. destruct (decide (b = 0)) as [->|Hz]; [apply Z.bits_0|].
  assert (0 <= n) by (destruct (decide (0 <= n)); [done|]; rewrite (Z.pow_neg_r 2 n) in Hb by lia; lia).
  apply Z.bits_above_log2; [lia|]. assert (Z.log2 b < n) by (apply Z.log2_lt_pow2; lia). lia.
Qed.

Lemma land_low a b n : 0 <= n → 0 <= b < 2 ^ n → Z.land (a * 2 ^ n) b = 0.
Proof.
  intros Hn Hb. apply Z.bits_inj. intros i. rewrite Z.land_spec, Z.bits_0.
  destruct (decide (i < n)).
  - rewrite Z.mul_pow2_bits_low by done. done.
  - rewrite (testbit_high b n i) by lia. apply andb_false_r.
Qed.

Lemma lor_low a b n : 0 <= n → 0 <= b < 2 ^ n → Z.lor (a * 2 ^ n) b = a * 2 ^ n + b.
Proof. intros Hn Hb. rewrite <- Z.add_lor_land, (land_low a b n) by done. lia. Qed.

End Words.
