(* ===== verification/ConsoleTyping.v ===== *)
(** * Typing text on the VNC console: static/js/console_layouts.js and the
    typing part of static/js/console_vnc.js

    The VM gets keys, not characters: which key and modifiers type a character
    on the VM's layout, a text typed key by key after what is still being
    typed, and what a touch keyboard's text field changed.

    A text of the page is a list of UTF-16 code units, as JavaScript has it; a
    character is a code point. *)
From S2P Require Import Prelude Words Keysyms.

#[local] Open Scope string_scope.
#[local] Open Scope list_scope.
#[local] Open Scope Z_scope.

Module ConsoleTyping.

(** ** Layouts: console_layouts.js *)
(** a key of a layout: its code and the characters it types with no modifier,
    Shift, AltGr, and both ([null]: none) *)
Record key := Key { code : string; plain : option Z; shift : option Z; altgr : option Z; both : option Z }.
Definition character (k : key) (slot : nat) : option Z :=
  match slot with 0%nat => plain k | 1%nat => shift k | 2%nat => altgr k | _ => both k end.
Definition layout := list key.

Definition MODIFIERS : list (list string) := [[]; ["ShiftLeft"]; ["AltRight"]; ["AltRight"; "ShiftLeft"]].
Abbreviation table := (gmap Z (string * list string)).

(** the loop over the keys for one set of modifiers *)
Definition add_key (slot : nat) (modifiers : list string) (m : table) (k : key) : table :=
  match character k slot with
  | Some c => if decide (is_Some (m !! c)) then m else <[c := (code k, modifiers)]> m
  | None => m
  end.
Definition add_slot (l : layout) (m : table) (sm : nat * list string) : table :=
  fold_left (add_key sm.1 sm.2) l m.
Definition keys (l : layout) : table := fold_left (add_slot l) (imap pair MODIFIERS) ∅.
Definition layoutKeys (l : layout) (c : Z) : option (string * list string) := keys l !! c.

(** ** Keys of a character *)
Definition typedKeys (c : Z) : option (Z * string) :=
  if decide (c = 10) then Some (0xff0d, "Enter")        (* XK_Return *)
  else if decide (c = 8) then Some (0xff08, "Backspace") (* XK_BackSpace *)
  else if decide (c = 9) then Some (0xff09, "Tab")       (* XK_Tab *)
  else if decide (c = 32) then Some (0x20, "Space")      (* XK_space *)
  else None.
Definition modifierKeysym (m : string) : Z :=
  if decide (m = "ShiftLeft") then 0xffe1 else 0xfe03.  (* XK_Shift_L, XK_ISO_Level3_Shift *)

(** a key to type: its keysym, its code, its modifiers *)
Record stroke := Stroke { keysym : Z; key_code : string; modifiers : list string }.

Definition keysFor (l : layout) (c : Z) : option stroke :=
  match typedKeys c with
  | Some (ks, cd) => Some (Stroke ks cd [])
  | None => match layoutKeys l c with
            | Some (cd, ms) => Some (Stroke (Keysymdef.lookup c) cd ms)
            | None => None
            end
  end.

(** [rfb.sendKey(keysym, code, down)]; without [down], a press and a release *)
Record sendKey := SendKey { sk_keysym : Z; sk_code : string; sk_down : option bool }.
Definition typeKeys (s : stroke) : list sendKey :=
  ((λ m, SendKey (modifierKeysym m) m (Some true)) <$> modifiers s)
  ++ [SendKey (keysym s) (key_code s) None]
  ++ ((λ m, SendKey (modifierKeysym m) m (Some false)) <$> reverse (modifiers s)).

(** ** Texts *)
(** [text.replace(/\r\n?/g, '\n')] *)
Fixpoint newlines (t : list Z) : list Z :=
  match t with
  | [] => []
  | u :: t => if decide (u = 13)
              then 10 :: match t with
                         | v :: t' => if decide (v = 10) then newlines t' else newlines t
                         | [] => []
                         end
              else u :: newlines t
  end.

Definition high (u : Z) : bool := (0xd800 <=? u) && (u <=? 0xdbff).
Definition low (u : Z) : bool := (0xdc00 <=? u) && (u <=? 0xdfff).
(** [\[...text\]]: its code points; a surrogate without its other half stands alone *)
Fixpoint spread (t : list Z) : list Z :=
  match t with
  | [] => []
  | u :: t => match t with
              | v :: t' => if high u && low v
                           then (0x10000 + (u - 0xd800) * 1024 + (v - 0xdc00)) :: spread t'
                           else u :: spread t
              | [] => [u]
              end
  end.
Definition characters (text : list Z) : list Z := spread (newlines text).

Definition missing (l : layout) (cs : list Z) : list Z := filter (λ c, keysFor l c = None) cs.

(** [typeText]: the characters no key types, and the keys queued after those
    still to be typed *)
Definition typeText (l : layout) (text : list Z) (typing : list stroke) : list Z * list stroke :=
  let cs := characters text in
  let m := missing l cs in
  (m, if decide (m = []) then typing ++ omap (keysFor l) cs else typing).

(** ** The touch keyboard's field *)
Fixpoint same (a b : list Z) : nat :=
  match a, b with x :: a, y :: b => if decide (x = y) then S (same a b) else 0%nat | _, _ => 0%nat end.
Definition resetText : list Z := replicate 100 95.      (* '_'.repeat(100) *)
(** what the field reports as typed: Backspaces, then the new end *)
Definition changed (lastText text : list Z) : list Z :=
  let n := same text lastText in replicate (length lastText - n) 8 ++ drop n text.

Record field := Field { value : list Z; lastText : list Z }.
Definition input (l : layout) (text : list Z) (f : field) (typing : list stroke) : field * list stroke :=
  let '(m, typing') := typeText l (changed (lastText f) text) typing in
  (if decide (m = []) then
     if decide (length text = 0 ∨ 200 < length text)%nat then Field resetText resetText else Field text text
   else Field (lastText f) (lastText f), typing').

(** ** The page: the keys still to be typed ([typing]), one every 25 ms *)
Inductive event := Type_ (text : list Z) | Input (text : list Z) | NextKey.
Record page := Page { typing : list stroke; touch : field }.
Definition step (l : layout) (p : page) (e : event) : page * list sendKey :=
  match e with
  | Type_ text => (Page (typeText l text (typing p)).2 (touch p), [])
  | Input text => let '(f, t) := input l text (touch p) (typing p) in (Page t f, [])
  | NextKey => match typing p with
               | s :: t => (Page t (touch p), typeKeys s)
               | [] => (p, [])
               end
  end.
Definition start : page := Page [] (Field resetText resetText).

(** ** What the VM makes of the keys: it holds modifiers down, and its layout
    makes a character of each other key pressed. *)
Record machine := Machine { held : gset string; text : list Z }.
Definition modifier (cd : string) : bool := bool_decide (cd = "ShiftLeft" ∨ cd = "AltRight").
Definition slot_of (h : gset string) : nat :=
  ((if decide ("AltRight" ∈ h) then 2 else 0) + if decide ("ShiftLeft" ∈ h) then 1 else 0)%nat.
Definition special (cd : string) : option Z :=
  if decide (cd = "Enter") then Some 10 else if decide (cd = "Backspace") then Some 8
  else if decide (cd = "Tab") then Some 9 else if decide (cd = "Space") then Some 32 else None.
Definition types (l : layout) (h : gset string) (cd : string) : option Z :=
  match special cd with
  | Some c => Some c
  | None => match list_find (λ k, code k = cd) l with Some (_, k) => character k (slot_of h) | None => None end
  end.
Definition press (l : layout) (cd : string) (m : machine) : machine :=
  if modifier cd then Machine ({[cd]} ∪ held m) (text m)
  else Machine (held m) (text m ++ match types l (held m) cd with Some c => [c] | None => [] end).
Definition release (cd : string) (m : machine) : machine := Machine (held m ∖ {[cd]}) (text m).
Definition receive (l : layout) (m : machine) (k : sendKey) : machine :=
  match sk_down k with
  | Some true => press l (sk_code k) m
  | Some false => release (sk_code k) m
  | None => release (sk_code k) (press l (sk_code k) m)
  end.

(** the layouts of console/layouts/*.json: one entry a code, none for the
    modifiers and the keys [typedKeys] has *)
Record layout_ok (l : layout) : Prop := {
  codes_once : NoDup (code <$> l);
  codes_plain : Forall (λ k, special (code k) = None ∧ modifier (code k) = false) l;
}.

(** ** The table of a layout *)
(** the first key that types [c] with the modifiers of a slot *)
Definition first (l : layout) (c : Z) (sm : nat * list string) : option (string * list string) :=
  (λ ik, (code ik.2, sm.2)) <$> list_find (λ k, character k sm.1 = Some c) l.

Lemma add_slot_lookup l sm m c : add_slot l m sm !! c = (m !! c) ∪ first l c sm.
Proof.
  unfold add_slot, first. destruct sm as [slot ms]. simpl. revert m.
  induction l as [|k l IH]; intros m; simpl; [by destruct (m !! c)|]. rewrite IH. clear IH.
  unfold add_key. destruct (decide (character k slot = Some c)) as [Hc|Hc].
  - rewrite Hc. destruct (m !! c) as [x|] eqn:Hm.
    + rewrite decide_True by eauto. rewrite Hm. by destruct (list_find _ l) as [[??]|].
    + rewrite decide_False by (by intros [? ?]). rewrite lookup_insert_eq. by destruct (list_find _ l) as [[??]|].
  - assert ((match character k slot with
             | Some c0 => if decide (is_Some (m !! c0)) then m else <[c0:=(code k, ms)]> m
             | None => m
             end) !! c = m !! c) as ->.
    { destruct (character k slot) as [c0|]; [|done]. case_decide; [done|]. rewrite lookup_insert_ne; [done|congruence]. }
    f_equal. by destruct (list_find _ l) as [[??]|].
Qed.

Lemma keys_lookup l c :
  layoutKeys l c = first l c (0%nat, []) ∪ (first l c (1%nat, ["ShiftLeft"])
    ∪ (first l c (2%nat, ["AltRight"]) ∪ first l c (3%nat, ["AltRight"; "ShiftLeft"]))).
Proof.
  unfold layoutKeys, keys. simpl. rewrite !add_slot_lookup, lookup_empty.
  by destruct (first l c (0%nat, _)), (first l c (1%nat, _)), (first l c (2%nat, _)), (first l c (3%nat, _)).
Qed.

Lemma first_Some l c slot ms x :
  first l c (slot, ms) = Some x →
  ∃ i k, x = (code k, ms) ∧ l !! i = Some k ∧ character k slot = Some c
    ∧ ∀ j k', (j < i)%nat → l !! j = Some k' → character k' slot ≠ Some c.
Proof.
  unfold first. destruct (list_find _ _) as [[i k]|] eqn:E; [|done]. simpl. intros [= <-].
  apply list_find_Some in E as (? & ? & Hj). exists i, k. split_and!; [done..|]. intros. by eapply Hj.
Qed.
Lemma first_None l c slot ms k : first l c (slot, ms) = None → k ∈ l → character k slot ≠ Some c.
Proof.
  unfold first. destruct (list_find _ _) as [[??]|] eqn:E; [done|]. intros _.
  apply list_find_None in E. rewrite Forall_forall in E. apply E.
Qed.

Lemma union_Some {A} (x : A) y : Some x ∪ y = Some x.
Proof. by destruct y. Qed.
Lemma union_None {A} (y : option A) : None ∪ y = y.
Proof. by destruct y. Qed.

Lemma fewest l c :
  match layoutKeys l c with
  | Some (cd, ms) =>
      ∃ i k slot, l !! i = Some k ∧ code k = cd ∧ MODIFIERS !! slot = Some ms ∧ character k slot = Some c
        ∧ (∀ k' slot', k' ∈ l → (slot' < slot)%nat → character k' slot' ≠ Some c)
        ∧ (∀ j k', (j < i)%nat → l !! j = Some k' → character k' slot ≠ Some c)
  | None => ∀ k slot, k ∈ l → (slot < length MODIFIERS)%nat → character k slot ≠ Some c
  end.
Proof.
  rewrite keys_lookup.
  destruct (first l c (0%nat, [])) as [x|] eqn:E0; [|destruct (first l c (1%nat, _)) as [x|] eqn:E1;
    [|destruct (first l c (2%nat, _)) as [x|] eqn:E2; [|destruct (first l c (3%nat, _)) as [x|] eqn:E3]]]; rewrite ?union_Some, ?union_None.
  1: apply first_Some in E0 as (i & k & ->  & ? & ? & ?); simpl; exists i, k, 0%nat.
  2: apply first_Some in E1 as (i & k & ->  & ? & ? & ?); simpl; exists i, k, 1%nat.
  3: apply first_Some in E2 as (i & k & ->  & ? & ? & ?); simpl; exists i, k, 2%nat.
  4: apply first_Some in E3 as (i & k & ->  & ? & ? & ?); simpl; exists i, k, 3%nat.
  1-4: simpl; split_and!; [done..| |assumption]; intros k' slot' Hk Hlt; destruct slot' as [|[|[|slot']]]; try lia;
    eauto using first_None.
  intros k slot Hk Hlt. destruct slot as [|[|[|[|slot]]]]; try lia; eauto using first_None.
Qed.

(** A character is typed by the first key with the fewest modifiers that types
    it: the key and modifiers chosen do type it, no key types it with fewer
    modifiers, no earlier key with the same ones, and a character is refused
    only when no key of the layout types it. *)
Theorem fewest_modifiers_first l c :
  match layoutKeys l c with
  | Some (cd, ms) =>
      ∃ i k slot, l !! i = Some k ∧ code k = cd ∧ MODIFIERS !! slot = Some ms ∧ character k slot = Some c
        ∧ (∀ k' slot', k' ∈ l → (slot' < slot)%nat → character k' slot' ≠ Some c)
        ∧ (∀ j k', (j < i)%nat → l !! j = Some k' → character k' slot ≠ Some c)
  | None => ∀ k slot, k ∈ l → (slot < length MODIFIERS)%nat → character k slot ≠ Some c
  end.
Proof. apply fewest. Qed.

(** ** What is typed is read *)
Lemma find_code l i k : NoDup (code <$> l) → l !! i = Some k → list_find (λ k', code k' = code k) l = Some (i, k).
Proof.
  intros Hnd Hk. apply list_find_Some. split_and!; [done..|]. intros j y Hj Hlt Hc.
  assert (j = i); [|lia]. apply (NoDup_lookup (code <$> l) j i (code k)); [done|..];
    rewrite list_lookup_fmap, ?Hj, ?Hk; simpl; congruence.
Qed.

Lemma receive_key l t k slot ms c :
  layout_ok l → k ∈ l → MODIFIERS !! slot = Some ms → character k slot = Some c →
  fold_left (receive l) (typeKeys (Stroke (Keysymdef.lookup c) (code k) ms)) (Machine ∅ t) = Machine ∅ (t ++ [c]).
Proof.
  intros [Hnd Hp] Hk Hm Hc. rewrite Forall_forall in Hp. destruct (Hp k Hk) as [Hs Hmod].
  apply list_elem_of_lookup in Hk as [i Hi]. pose proof (find_code l i k Hnd Hi) as Hf.
  assert (∀ h, slot_of h = slot → code k ∉ h → receive l (Machine h t) (SendKey (Keysymdef.lookup c) (code k) None)
    = Machine h (t ++ [c])) as Hone.
  { intros h Hh Hnot. unfold receive. simpl. unfold press, release. rewrite Hmod. simpl. unfold types.
    rewrite Hs, Hf, Hh, Hc. f_equal. set_solver. }
  assert (code k ≠ "ShiftLeft" ∧ code k ≠ "AltRight") as [Hn1 Hn2].
  { unfold modifier in Hmod. apply bool_decide_eq_false_1 in Hmod. naive_solver. }
  unfold typeKeys. rewrite !fold_left_app. simpl fold_left at 2. simpl modifiers. simpl keysym.
  assert (fold_left (receive l) ((λ m, SendKey (modifierKeysym m) m (Some true)) <$> ms) (Machine ∅ t)
    = Machine (list_to_set ms) t) as ->.
  { destruct slot as [|[|[|[|slot]]]]; [..|done]; injection Hm as <-; by vm_compute. }
  rewrite Hone.
  - destruct slot as [|[|[|[|slot]]]]; [..|done]; injection Hm as <-; by vm_compute.
  - destruct slot as [|[|[|[|slot]]]]; [..|done]; injection Hm as <-; by vm_compute.
  - destruct slot as [|[|[|[|slot]]]]; [..|done]; injection Hm as <-; simpl; set_solver.
Qed.



Lemma receive_stroke l t c s :
  layout_ok l → keysFor l c = Some s →
  fold_left (receive l) (typeKeys s) (Machine ∅ t) = Machine ∅ (t ++ [c]).
Proof.
  intros Hl. unfold keysFor. destruct (typedKeys c) as [[ks cd]|] eqn:E.
  - intros [= <-]. assert (special cd = Some c ∧ modifier cd = false) as [Hs Hm].
    { unfold typedKeys in E. repeat case_decide; simplify_eq; by vm_compute. }
    unfold typeKeys. simpl. unfold receive, press, release. simpl. rewrite Hm. simpl. unfold types. rewrite Hs.
    f_equal. set_solver.
  - pose proof (fewest l c) as Hf. destruct (layoutKeys l c) as [[cd ms]|]; [|done]. intros [= <-].
    destruct Hf as (i & k & slot & Hi & <- & Hm & Hc & _).
    eapply receive_key; [done|by eapply list_elem_of_lookup_2|done..].
Qed.

Lemma receive_strokes l t cs ss :
  layout_ok l → Forall2 (λ c s, keysFor l c = Some s) cs ss →
  fold_left (receive l) (mjoin (typeKeys <$> ss)) (Machine ∅ t) = Machine ∅ (t ++ cs).
Proof.
  intros Hl HF. revert t. induction HF as [|c s cs ss Hc HF IH]; intros t; simpl; [by rewrite app_nil_r|].
  rewrite fold_left_app, (receive_stroke l t c s), IH by done. by rewrite <- (assoc_L (++)).
Qed.

Lemma missing_nil l cs : missing l cs = [] → Forall2 (λ c s, keysFor l c = Some s) cs (omap (keysFor l) cs).
Proof.
  unfold missing. induction cs as [|c cs IH]; [by constructor|]. rewrite filter_cons.
  case_decide as E; [done|]. intros Hm. simpl. destruct (keysFor l c) as [s|] eqn:Es; [|done].
  constructor; [done|]. by apply IH.
Qed.

(** ** The texts a page told the VM: the accepted ones, in order *)
Definition accepted (l : layout) (t : list Z) : list Z :=
  if decide (missing l (characters t) = []) then characters t else [].
Fixpoint told (l : layout) (p : page) (es : list event) : list Z :=
  match es with
  | [] => []
  | e :: es => match e with
               | Type_ t => accepted l t
               | Input t => accepted l (changed (lastText (touch p)) t)
               | NextKey => []
               end ++ told l (step l p e).1 es
  end.

Definition queued (l : layout) (p : page) (cs : list Z) : Prop := Forall2 (λ c s, keysFor l c = Some s) cs (typing p).

Lemma typeText_queue l t q cs :
  Forall2 (λ c s, keysFor l c = Some s) cs q →
  Forall2 (λ c s, keysFor l c = Some s) (cs ++ accepted l t) (typeText l t q).2.
Proof.
  intros HF. unfold typeText, accepted. simpl. case_decide; [|by rewrite app_nil_r].
  apply Forall2_app; [done|]. by apply missing_nil.
Qed.

Lemma input_queue l t f q : (input l t f q).2 = (typeText l (changed (lastText f) t) q).2.
Proof. unfold input. by destruct (typeText _ _ _). Qed.

Lemma run_queue l p es cs t :
  layout_ok l → queued l p cs →
  let r := run (step l) p es in
  ∃ cs' t', queued l r.1 cs' ∧ fold_left (receive l) r.2 (Machine ∅ t) = Machine ∅ t'
    ∧ t' ++ cs' = t ++ cs ++ told l p es.
Proof.
  intros Hl. revert p cs t. induction es as [|e es IH]; intros p cs t Hq; simpl.
  { exists cs, t. by rewrite app_nil_r. }
  destruct (step l p e) as [p1 o1] eqn:Es. destruct (run (step l) p1 es) as [p2 o2] eqn:Er. simpl.
  assert (∃ cs1 t1, queued l p1 cs1 ∧ fold_left (receive l) o1 (Machine ∅ t) = Machine ∅ t1
    ∧ t1 ++ cs1 = t ++ cs ++ match e with Type_ x => accepted l x
        | Input x => accepted l (changed (lastText (touch p)) x) | NextKey => [] end) as (cs1 & t1 & Hq1 & Ho & Ht).
  { destruct e as [x|x|]; simpl in Es.
    - injection Es as <- <-. exists (cs ++ accepted l x), t. split_and!; [by apply typeText_queue|done|done].
    - destruct (input l x (touch p) (typing p)) as [f q] eqn:Ei. injection Es as <- <-.
      exists (cs ++ accepted l (changed (lastText (touch p)) x)), t. split_and!; [|done..]. unfold queued. simpl.
      assert (q = (typeText l (changed (lastText (touch p)) x) (typing p)).2) as -> by (by rewrite <- input_queue, Ei).
      by apply typeText_queue.
    - unfold queued in Hq. destruct (typing p) as [|s q] eqn:Eq; injection Es as <- <-.
      + exists cs, t. rewrite app_nil_r. unfold queued. by rewrite Eq.
      + inversion Hq as [|c ? cs' ? Hc HF]; subst. exists cs', (t ++ [c]). split_and!; [done|by apply receive_stroke|].
        by rewrite app_nil_r, <- (assoc_L (++)). }
  specialize (IH p1 cs1 t1 Hq1). rewrite Er in IH. simpl in IH. destruct IH as (cs2 & t2 & Hq2 & Ho2 & Ht2).
  exists cs2, t2. split_and!; [done|by rewrite fold_left_app, Ho|]. rewrite Ht2, !(assoc_L (++)), Ht.
  by rewrite !(assoc_L (++)).
Qed.

(** C40: What is typed is what the VM reads: whatever texts are typed and touched
    while keys are still going out, the VM, on the same layout, reads the
    accepted texts in order and nothing else, with no modifier left down; a
    text with a character no key types queues nothing at all. *)
Theorem typed_text_is_what_the_vm_reads l es p sent :
  layout_ok l → run (step l) start es = (p, sent) →
  (∃ t, fold_left (receive l) sent (Machine ∅ []) = Machine ∅ t ∧ t `prefix_of` told l start es)
  ∧ fold_left (receive l) (sent ++ mjoin (typeKeys <$> typing p)) (Machine ∅ []) = Machine ∅ (told l start es)
  ∧ ∀ text q, let '(m, q') := typeText l text q in
      (∀ c, c ∈ m ↔ c ∈ characters text ∧ typedKeys c = None ∧ layoutKeys l c = None)
      ∧ (m ≠ [] → q' = q).
Proof.
  intros Hl Hr. destruct (run_queue l start es [] [] Hl ltac:(constructor)) as (cs & t & Hq & Ho & Ht).
  rewrite Hr in Hq, Ho. simpl in *. split_and!.
  - exists t. split; [done|]. exists cs. done.
  - rewrite fold_left_app, Ho, (receive_strokes l t cs) by done. by rewrite Ht.
  - intros text q. unfold typeText. split; [|intros; by case_decide].
    intros c. unfold missing. rewrite list_elem_of_filter. unfold keysFor.
    destruct (typedKeys c) as [[??]|], (layoutKeys l c) as [[??]|]; naive_solver.
Qed.

(** ** The touch keyboard *)
(** what the characters make of a line: a Backspace deletes the last one *)
Definition line (cs L : list Z) : list Z := fold_left (λ L c, if decide (c = 8) then take (length L - 1) L else L ++ [c]) cs L.

(** the layouts' characters are one code unit each *)
Definition bmp (l : layout) : Prop :=
  ∀ k slot c, k ∈ l → character k slot = Some c → c < 0x10000 ∧ high c = false ∧ low c = false.

Lemma spread_bmp t : (∀ c, c ∈ spread t → c < 0x10000) → spread t = t.
Proof.
  induction t as [|u t IH]; [done|]. intros Hc. destruct t as [|v t]; [done|].
  cbn [spread] in *. destruct (high u && low v) eqn:E.
  - exfalso. specialize (Hc _ ltac:(by left)). unfold high, low in E. lia.
  - f_equal. apply IH. intros c Hin. apply Hc. by right.
Qed.
Lemma newlines_id t : 13 ∉ t → newlines t = t.
Proof.
  induction t as [|u t IH]; [done|]. rewrite not_elem_of_cons. intros [Hu Ht]. simpl.
  rewrite decide_False by done. by rewrite IH.
Qed.

Lemma accepted_bmp l t : bmp l → 13 ∉ t → missing l (characters t) = [] → characters t = t.
Proof.
  intros Hb Ht Hm. unfold characters in *. rewrite newlines_id in * by done. apply spread_bmp. intros c Hc.
  destruct (keysFor l c) as [s|] eqn:E.
  - unfold keysFor in E. destruct (typedKeys c) eqn:Et.
    + unfold typedKeys in Et. repeat case_decide; simplify_eq; lia.
    + pose proof (fewest l c) as Hf. destruct (layoutKeys l c) as [[cd ms]|]; [|done].
      destruct Hf as (i & k & slot & Hi & _ & _ & Hk & _). eapply Hb; [by eapply list_elem_of_lookup_2|done].
  - assert (c ∈ missing l (spread t)) as Hin by (by apply list_elem_of_filter). rewrite Hm in Hin. by inversion Hin.
Qed.

Lemma line_app a b L : line (a ++ b) L = line b (line a L).
Proof. apply fold_left_app. Qed.
Lemma line_backspaces n L : line (replicate n 8) L = take (length L - n) L.
Proof.
  revert L. induction n as [|n IH]; intros L; simpl; [by rewrite Nat.sub_0_r, firstn_all|].
  rewrite IH, length_take, take_take. f_equal. lia.
Qed.
Lemma line_text t L : 8 ∉ t → line t L = L ++ t.
Proof.
  revert L. induction t as [|c t IH]; intros L; [by rewrite app_nil_r|]. rewrite not_elem_of_cons. intros [Hc Ht].
  simpl. rewrite decide_False by done. rewrite IH by done. by rewrite <- (assoc_L (++)).
Qed.
Lemma same_take a b : take (same a b) a = take (same a b) b ∧ (same a b <= length b)%nat.
Proof.
  revert b. induction a as [|x a IH]; intros [|y b]; simpl; try (split; [done|lia]).
  case_decide; simpl; [|split; [done|lia]]. subst. destruct (IH b) as [-> ?]. split; [done|lia].
Qed.

(** A touch keyboard's text reaches the VM as the field shows it: the keys sent
    for an accepted change delete exactly the end of the last text that
    changed and type the new one, so a line that ended in the field's last text
    ends in its new text; a change with a character no key types sends nothing,
    and the field goes back to what the VM has. *)
Theorem touch_text_follows_the_field l text f q pre :
  bmp l → 13 ∉ text → 8 ∉ text →
  let n := same text (lastText f) in
  let '(m, _) := typeText l (changed (lastText f) text) q in
  let '(f', q') := input l text f q in
  value f' = lastText f'
  ∧ (m ≠ [] → q' = q ∧ value f' = lastText f)
  ∧ (m = [] →
      (value f' = text ∨ value f' = resetText)
      ∧ q' = q ++ omap (keysFor l) (changed (lastText f) text)
      ∧ (∀ L, line (changed (lastText f) text) L = take (length L - (length (lastText f) - n)) L ++ drop n text)
      ∧ line (changed (lastText f) text) (pre ++ lastText f) = pre ++ text).
Proof.
  intros Hb H13 H8 n. unfold input. set (ch := changed (lastText f) text).
  assert (13 ∉ ch ∧ (∀ L, line ch L = take (length L - (length (lastText f) - n)) L ++ drop n text)) as [Hch Hline].
  { subst ch. unfold changed. fold n. split.
    - rewrite not_elem_of_app. split; [by intros [? _]%elem_of_replicate|]. intros Hin. apply H13. by apply (subseteq_drop n).
    - intros L. rewrite line_app, line_backspaces, line_text; [done|]. intros Hin. apply H8. by apply (subseteq_drop n). }
  unfold typeText. destruct (decide (missing l (characters ch) = [])) as [Hm|Hm]; rewrite ?Hm.
  - split_and!; [by case_decide|by intros ?|]. intros _.
    split_and!; [case_decide; auto|by rewrite (accepted_bmp l) by done|done|].
    rewrite Hline, length_app. destruct (same_take text (lastText f)) as [Ht Hn]. fold n in Ht, Hn.
    rewrite take_app_ge by lia. rewrite <- (assoc_L (++)). f_equal.
    replace (length pre + length (lastText f) - (length (lastText f) - n) - length pre)%nat with n by lia.
    by rewrite <- Ht, take_drop.
  - split_and!; by intros.
Qed.

(** ** Typing on a small layout *)
Section witnesses.
Definition small : layout :=
  [Key "KeyA" (Some 97) (Some 65) None None; Key "KeyQ" (Some 113) (Some 81) (Some 64) None;
   Key "Digit1" (Some 49) (Some 33) (Some 64) (Some 161)].
Lemma small_ok : layout_ok small.
Proof. split; [by apply (bool_decide_eq_true_1 _); vm_compute|]. by repeat constructor. Qed.
Lemma small_bmp : bmp small.
Proof.
  assert (Forall (λ k, Forall (λ c, c < 0x10000 ∧ high c = false ∧ low c = false)
    (omap id [plain k; shift k; altgr k; both k])) small) as H.
  { apply (bool_decide_eq_true_1 _). by vm_compute. }
  intros k slot c Hk Hc. rewrite Forall_forall in H. specialize (H k Hk). rewrite Forall_forall in H. apply H.
  apply list_elem_of_omap. exists (Some c). split; [|done]. unfold character in Hc.
  destruct slot as [|[|[|slot]]]; rewrite Hc; set_solver.
Qed.

Example types_at : layoutKeys small 64 = Some ("KeyQ", ["AltRight"])
  ∧ typeKeys (Stroke 33 "Digit1" ["ShiftLeft"])
    = [SendKey 0xffe1 "ShiftLeft" (Some true); SendKey 33 "Digit1" None; SendKey 0xffe1 "ShiftLeft" (Some false)]
  ∧ (typeText small [97; 98] []) = ([98], []).
Proof. by vm_compute. Qed.

Lemma typed_text_is_what_the_vm_reads_witness :
  let r := run (step small) start [Type_ [97; 13; 10]; NextKey; Type_ [161; 98]; Type_ [64]; NextKey; NextKey] in
  fold_left (receive small) r.2 (Machine ∅ []) = Machine ∅ [97; 10; 64].
Proof.
  intros r.
  destruct (typed_text_is_what_the_vm_reads small [Type_ [97; 13; 10]; NextKey; Type_ [161; 98]; Type_ [64]; NextKey; NextKey] r.1 r.2 small_ok
    ltac:(by vm_compute)) as (_ & H & _).
  assert (typing r.1 = []) as Hq by (by vm_compute). rewrite Hq, app_nil_r in H. rewrite H. by vm_compute.
Defined.

Lemma touch_text_follows_the_field_witness :
  line (changed [95; 97; 97] [95; 97; 113]) [33; 95; 97; 97] = [33; 95; 97; 113].
Proof.
  destruct (touch_text_follows_the_field small [95; 97; 113] (Field [95; 97; 97] [95; 97; 97]) [] [33] small_bmp) as (_ & _ & H);
    [by apply (bool_decide_eq_true_1 _); vm_compute..|]. apply H. by vm_compute.
Defined.
End witnesses.
End ConsoleTyping.
