(* ===== verification/ConsoleKeys.v ===== *)
(** * The keys menu and the View menu of the VNC console:
    static/js/console_keys.js and [applyView] of static/js/console_vnc.js

    Modifiers held from the menu, key combinations pressed and released 20 ms
    later, and a page that may stop sending keys (view only).  The effects are
    the key events that leave for the VM. *)
From S2P Require Import Prelude JsObject JsString.

#[local] Open Scope string_scope.
#[local] Open Scope list_scope.
#[local] Open Scope Z_scope.

Module ConsoleKeys.

(** ** Keys *)
Record key := Key { keysym : Z; code : string }.
Definition CTRL : key := Key 0xffe3 "ControlLeft".
Definition ALT : key := Key 0xffe9 "AltLeft".
Definition SUPER : key := Key 0xffeb "MetaLeft".
Definition DELETE : key := Key 0xffff "Delete".
Definition HOLDS : list (string * key) := [("holdctrl", CTRL); ("holdalt", ALT); ("holdsuper", SUPER)].

(** the combinations of the menu, by the item's id *)
Definition function_key (i : Z) : string * list key :=
  ("ctrlaltf" +:+ JsString.of_int i, [CTRL; ALT; Key (0xffbd + i) ("F" +:+ JsString.of_int i)]).
Definition combinations : list (string * list key) :=
  [("ctrlaltbackspace", [CTRL; ALT; Key 0xff08 "Backspace"]);
   ("alttab", [ALT; Key 0xff09 "Tab"]);
   ("superkey", [SUPER]);
   ("sendesc", [Key 0xff1b "Escape"]);
   ("sendtab", [Key 0xff09 "Tab"]);
   ("ctrlc", [CTRL; Key 0x63 "KeyC"]);
   ("ctrlz", [CTRL; Key 0x7a "KeyZ"]);
   ("ctrld", [CTRL; Key 0x64 "KeyD"]);
   ("ctrlbackslash", [CTRL; Key 0x5c "Backslash"])]
  ++ (function_key <$> seqZ 1 12).

(** ** State *)
(** the View menu's inputs *)
Record view := View {
  v_resize : string; clip_checked : bool; drag_checked : bool; viewOnly_checked : bool;
  dot_checked : bool; v_quality : Z; v_compression : Z;
}.
(** ... and what they set: on the RFB object, and which inputs are disabled *)
Record settings := Settings {
  scaleViewport : bool; resizeSession : bool; clip_disabled : bool; clipViewport : bool;
  drag_disabled : bool; dragViewport : bool; showDotCursor : bool; qualityLevel : Z; compressionLevel : Z;
}.
Record page := Page {
  connected : bool;
  viewOnly : bool;
  pressed : list string;       (* the hold items with aria-pressed, active *)
  timers : list (list key);    (* the releases of combinations, 20 ms after each *)
  setting : settings;
}.
Definition set_pressed (f : list string → list string) (p : page) : page :=
  Page (connected p) (viewOnly p) (f (pressed p)) (timers p) (setting p).
Definition set_timers (f : list (list key) → list (list key)) (p : page) : page :=
  Page (connected p) (viewOnly p) (pressed p) (f (timers p)) (setting p).
Definition set_viewOnly (b : bool) (p : page) : page := Page (connected p) b (pressed p) (timers p) (setting p).
Definition set_setting (s : settings) (p : page) : page := Page (connected p) (viewOnly p) (pressed p) (timers p) s.

Record wire := Wire { w_key : key; w_down : bool }.
Abbreviation handler := (Prelude.handler page wire).
#[local] Open Scope handler_scope.

(** ** Handlers *)
(** [rfb.sendKey] with a direction: nothing leaves a page that is not connected
    or only views *)
Definition sendKey (k : key) (down : bool) : handler := with_state (λ p,
  if negb (connected p) || viewOnly p then skip else emit (Wire k down)).
Definition sendCtrlAltDel : handler :=
  sendKey CTRL true ▸ sendKey ALT true ▸ sendKey DELETE true
  ▸ sendKey DELETE false ▸ sendKey ALT false ▸ sendKey CTRL false.

Definition hold (id : string) (k : key) (down : bool) : handler :=
  sendKey k down
  ▸ modify (set_pressed (λ l, if down then id :: filter (λ x, x ≠ id) l else filter (λ x, x ≠ id) l)).
Definition is_pressed (id : string) (p : page) : bool := bool_decide (id ∈ pressed p).

Definition releaseHeld : handler :=
  for_each HOLDS (λ ik, with_state (λ p, if is_pressed ik.1 p then hold ik.1 ik.2 false else skip)).

Definition press_all (keys : list key) : handler := for_each keys (λ k, sendKey k true).
Definition release_all (keys : list key) : handler := for_each (reverse keys) (λ k, sendKey k false).
Definition sendKeys (keys : list key) : handler :=
  releaseHeld ▸ press_all keys ▸ modify (set_timers (λ t, t ++ [keys])).

(** a hold item chosen *)
Definition toggle (ik : string * key) : handler := with_state (λ p,
  if viewOnly p then skip else hold ik.1 ik.2 (negb (is_pressed ik.1 p))).
(** the same key let go on the keyboard *)
Definition keyup (cd : string) : handler :=
  for_each HOLDS (λ ik, with_state (λ p,
    if bool_decide (cd = code ik.2) && is_pressed ik.1 p then hold ik.1 ik.2 false else skip)).

Definition applyView (v : view) : handler :=
  let scale := bool_decide (v_resize v = "scale") in
  let clip := clip_checked v && negb scale in
  modify (set_setting (Settings scale (bool_decide (v_resize v = "remote")) scale clip
    (negb clip) (drag_checked v && clip) (dot_checked v) (v_quality v) (v_compression v)))
  ▸ (if viewOnly_checked v then releaseHeld else skip)
  ▸ modify (set_viewOnly (viewOnly_checked v)).

Inductive event :=
  | CtrlAltDel
  | Combination (id : string)
  | Hold (id : string)
  | KeyUp (cd : string)
  | ReleaseTimer
  | ChangeView (v : view).

Definition step (p : page) (e : event) : page * list wire :=
  match e with
  | CtrlAltDel => (releaseHeld ▸ sendCtrlAltDel) p
  | Combination i => match JsObj.get i combinations with
                     | Some keys => sendKeys keys p
                     | None => (p, [])
                     end
  | Hold i => match JsObj.get i HOLDS with
              | Some k => toggle (i, k) p
              | None => (p, [])
              end
  | KeyUp cd => keyup cd p
  | ReleaseTimer => match timers p with
                    | keys :: t => (modify (set_timers (λ _, t)) ▸ release_all keys) p
                    | [] => (p, [])
                    end
  | ChangeView v => applyView v p
  end.

(** The View menu changes when no combination is being released (20 ms). *)
Definition enabled (p : page) (e : event) : Prop :=
  match e with ReleaseTimer => timers p ≠ [] | ChangeView _ => timers p = [] | _ => True end.

(** ** What is down at the VM: presses less releases of a key *)
Definition net (cd : string) (l : list wire) : Z :=
  foldr (λ w n, n + (if decide (code (w_key w) = cd) then if w_down w then 1 else -1 else 0)) 0 l.
Definition held (cd : string) (p : page) : Z :=
  foldr (λ ik n, n + if decide (code ik.2 = cd ∧ ik.1 ∈ pressed p) then 1 else 0) 0 HOLDS.
Definition pending (cd : string) (l : list key) : Z :=
  foldr (λ k n, n + if decide (code k = cd) then 1 else 0) 0 l.


Lemma net_cons cd w l :
  net cd (w :: l) = net cd l + (if decide (code (w_key w) = cd) then if w_down w then 1 else -1 else 0).
Proof. done. Qed.
Lemma net_app cd a b : net cd (a ++ b) = net cd a + net cd b.
Proof. induction a as [|w a IH]; simpl; [done|]. rewrite IH. lia. Qed.

(** what the page still has to let go of a key *)
Definition due (cd : string) (p : page) : Z :=
  if viewOnly p then 0 else held cd p + foldr (λ keys n, n + pending cd keys) 0 (timers p).
Definition page_ok (p : page) : Prop :=
  connected p = true ∧ (viewOnly p = true → pressed p = []) ∧ pressed p ⊆ HOLDS.*1.

(** A handler is balanced: what it presses and releases is what the page holds
    more or less after it. *)
Definition balanced (h : handler) : Prop := ∀ p, page_ok p →
  page_ok (h p).1 ∧ viewOnly (h p).1 = viewOnly p ∧ ∀ cd, net cd (h p).2 = due cd (h p).1 - due cd p.

Lemma balanced_skip : balanced skip.
Proof. intros p Hp. split_and!; [done..|]. intros cd. simpl. lia. Qed.
Lemma balanced_seq f g : balanced f → balanced g → balanced (f ▸ g).
Proof.
  intros Hf Hg p Hp. rewrite seq_fst, seq_snd. destruct (Hf p Hp) as (H1 & H2 & H3).
  destruct (Hg _ H1) as (H4 & H5 & H6). split_and!; [done|congruence|]. intros cd. rewrite net_app, H3, H6. lia.
Qed.
Lemma balanced_for_each {A} (l : list A) f : (∀ x, x ∈ l → balanced (f x)) → balanced (for_each l f).
Proof.
  induction l as [|x l IH]; intros Hf; simpl; [apply balanced_skip|].
  apply balanced_seq; [by apply Hf; left|]. apply IH. intros. apply Hf. by right.
Qed.

Lemma sendKey_eq k d p :
  sendKey k d p = (p, if negb (connected p) || viewOnly p then [] else [Wire k d]).
Proof. unfold sendKey, with_state. by destruct (_ || _). Qed.

Lemma hold_eq i k d p :
  hold i k d p =
    (set_pressed (λ l, if d then i :: filter (λ x, x ≠ i) l else filter (λ x, x ≠ i) l) p,
     if negb (connected p) || viewOnly p then [] else [Wire k d]).
Proof. unfold hold, seq. rewrite sendKey_eq. simpl. by rewrite app_nil_r. Qed.

Lemma holds_distinct i k i' k' : (i, k) ∈ HOLDS → (i', k') ∈ HOLDS → i = i' → k = k'.
Proof. unfold HOLDS. set_solver. Qed.

(** one key's share of [held] when the held keys change to those of [l'] *)
Lemma held_other cd (x : string) (k : key) (l l' : list string) :
  (x ∈ l' ↔ x ∈ l) →
  (if decide (code k = cd ∧ x ∈ l') then 1 else 0) = (if decide (code k = cd ∧ x ∈ l) then 1 else 0).
Proof. intros H. apply decide_ext. by rewrite H. Qed.
Lemma held_own cd (x : string) (k : key) (l l' : list string) (d : bool) :
  (x ∈ l' ↔ d = true) → (x ∈ l ↔ d = false) →
  (if decide (code k = cd ∧ x ∈ l') then 1 else 0)
    = (if decide (code k = cd ∧ x ∈ l) then 1 else 0) + if decide (code k = cd) then if d then 1 else -1 else 0.
Proof.
  intros H1 H2. rewrite (decide_ext (code k = cd ∧ x ∈ l') (code k = cd ∧ d = true)) by by rewrite H1.
  rewrite (decide_ext (code k = cd ∧ x ∈ l) (code k = cd ∧ d = false)) by by rewrite H2.
  destruct d; repeat case_decide; naive_solver lia.
Qed.
Lemma held_change cd i k p (f : list string → list string) (d : bool) :
  (i, k) ∈ HOLDS → (i ∈ f (pressed p) ↔ d = true) → (i ∈ pressed p ↔ d = false) →
  (∀ x, x ≠ i → x ∈ f (pressed p) ↔ x ∈ pressed p) →
  held cd (set_pressed f p) = held cd p + if decide (code k = cd) then if d then 1 else -1 else 0.
Proof.
  intros Hik Hi1 Hi2 Hx. unfold held, HOLDS in *. cbn [foldr fst snd pressed set_pressed].
  rewrite !elem_of_cons in Hik. destruct Hik as [[= -> ->]|[[= -> ->]|[[= -> ->]|Hik]]]; [..|by inversion Hik].
  - rewrite (held_own cd "holdctrl" CTRL _ _ d Hi1 Hi2), !(held_other cd _ _ (pressed p) (f (pressed p))) by by apply Hx. lia.
  - rewrite (held_own cd "holdalt" ALT _ _ d Hi1 Hi2), !(held_other cd _ _ (pressed p) (f (pressed p))) by by apply Hx. lia.
  - rewrite (held_own cd "holdsuper" SUPER _ _ d Hi1 Hi2), !(held_other cd _ _ (pressed p) (f (pressed p))) by by apply Hx. lia.
Qed.

Lemma hold_balanced i k d :
  (i, k) ∈ HOLDS → balanced (λ p, if bool_decide (i ∈ pressed p ↔ d = false) && negb (viewOnly p) then hold i k d p else (p, [])).
Proof.
  intros Hik p (Hc & Hv & Hs). destruct (_ && _) eqn:E; [|by apply balanced_skip].
  apply andb_prop in E as [Hi%bool_decide_eq_true Hvo%negb_true_iff]. rewrite hold_eq, Hc, Hvo. simpl.
  assert (i ∈ HOLDS.*1) as Hi' by (apply list_elem_of_fmap; by exists (i, k)).
  assert (∀ x, x ∈ (if d then i :: filter (λ x, x ≠ i) (pressed p) else filter (λ x, x ≠ i) (pressed p))
    ↔ (x = i ∧ d = true) ∨ (x ≠ i ∧ x ∈ pressed p)) as Hmem.
  { clear. intros x. destruct d; rewrite ?elem_of_cons, list_elem_of_filter; destruct (decide (x = i)); naive_solver. }
  split_and!; [split_and!; simpl; [done|congruence|]|done|].
  { intros x Hx. apply Hmem in Hx as [[-> _]|[_ Hx]]; [done|by apply Hs]. }
  intros cd. unfold due. simpl. rewrite Hvo.
  rewrite (held_change cd i k p _ d); [|done|rewrite Hmem; tauto|done|intros x Hx; rewrite Hmem; tauto].
  destruct d; lia.
Qed.

Lemma let_go_balanced i k (b : bool) :
  (i, k) ∈ HOLDS → balanced (with_state (λ p, if b && is_pressed i p then hold i k false else skip)).
Proof.
  intros Hik p Hp. pose proof (hold_balanced i k false Hik p Hp) as H. cbv beta in H. unfold with_state, is_pressed.
  destruct b; [|by apply balanced_skip]. simpl. destruct (bool_decide (i ∈ pressed p)) eqn:E; [|by apply balanced_skip].
  apply bool_decide_eq_true in E. destruct Hp as (_ & Hv & _).
  rewrite bool_decide_eq_true_2 in H by done. destruct (viewOnly p); [|done].
  exfalso. rewrite Hv in E by done. by inversion E.
Qed.
Lemma releaseHeld_balanced : balanced releaseHeld.
Proof. apply balanced_for_each. intros [i k] Hik. by apply (let_go_balanced i k true). Qed.
Lemma keyup_balanced cd : balanced (keyup cd).
Proof. apply balanced_for_each. intros [i k] Hik. by apply let_go_balanced. Qed.
Lemma toggle_balanced i k : (i, k) ∈ HOLDS → balanced (toggle (i, k)).
Proof.
  intros Hik p Hp. pose proof (hold_balanced i k (negb (is_pressed i p)) Hik p Hp) as H. cbv beta in H. unfold toggle, with_state.
  destruct (viewOnly p) eqn:Ev; [by rewrite andb_false_r in H|]. rewrite andb_true_r in H.
  rewrite bool_decide_eq_true_2 in H; [done|]. unfold is_pressed. rewrite negb_false_iff, bool_decide_eq_true. done.
Qed.

Lemma sends_eq keys d p :
  for_each keys (λ k, sendKey k d) p = (p, if negb (connected p) || viewOnly p then [] else (λ k, Wire k d) <$> keys).
Proof.
  induction keys as [|k keys IH]; simpl; [by destruct (_ || _)|]. unfold seq. rewrite sendKey_eq, IH.
  by destruct (_ || _).
Qed.
Lemma net_sends cd keys (d : bool) : net cd ((λ k, Wire k d) <$> keys) = (if d then 1 else -1) * pending cd keys.
Proof. induction keys as [|k keys IH]; [simpl; lia|]. rewrite fmap_cons, net_cons, IH. simpl. case_decide; destruct d; lia. Qed.
Lemma pending_reverse cd keys : pending cd (reverse keys) = pending cd keys.
Proof.
  assert (∀ a b, pending cd (a ++ b) = pending cd a + pending cd b) as Happ.
  { intros a b. induction a as [|x a IH]; simpl; [done|]. rewrite IH. lia. }
  induction keys as [|k keys IH]; [done|]. rewrite reverse_cons, Happ, IH. simpl. lia.
Qed.

Lemma combination_balanced keys : balanced (sendKeys keys).
Proof.
  intros q Hq. unfold sendKeys. rewrite seq_assoc. revert q Hq. apply balanced_seq; [apply releaseHeld_balanced|].
  intros p (Hc & Hv & Hs). rewrite seq_fst, seq_snd. unfold press_all. rewrite !sends_eq, Hc. simpl.
  split_and!; [done..|]. intros cd. unfold due. simpl. destruct (viewOnly p); simpl; [lia|].
  rewrite app_nil_r, net_sends, foldr_app. simpl.
  assert (∀ l n, foldr (λ keys n, n + pending cd keys) n l = n + foldr (λ keys n, n + pending cd keys) 0 l) as Hf.
  { induction l as [|x l IH]; intros n; simpl; [lia|]. rewrite (IH n). lia. }
  rewrite Hf. unfold held. simpl. lia.
Qed.

Lemma let_go_state i k p :
  (with_state (λ p, if is_pressed i p then hold i k false else skip) p).1 = set_pressed (filter (λ x, x ≠ i)) p.
Proof.
  unfold with_state, is_pressed. case_bool_decide as E; [by rewrite hold_eq|]. destruct p as [c v l t s]. simpl in *.
  unfold set_pressed. simpl. f_equal. clear -E. induction l as [|x l IH]; [done|]. rewrite filter_cons.
  rewrite decide_True by (intros ->; apply E; by left). f_equal. apply IH. intros ?; apply E; by right.
Qed.
Lemma releaseHeld_state p :
  (releaseHeld p).1 = set_pressed (filter (λ x, x ∉ HOLDS.*1)) p.
Proof.
  unfold releaseHeld. simpl. rewrite !seq_fst, !let_go_state. unfold set_pressed. simpl. f_equal.
  rewrite !list_filter_filter. apply list_filter_iff. intros x. rewrite !not_elem_of_cons. set_solver.
Qed.
Lemma releaseHeld_none p : page_ok p → pressed (releaseHeld p).1 = [].
Proof.
  intros (_ & _ & Hs). rewrite releaseHeld_state. simpl. apply elem_of_nil_inv.
  intros x [Hx Hin]%list_elem_of_filter. by apply Hx, Hs.
Qed.
Lemma releaseHeld_timers p : timers (releaseHeld p).1 = timers p.
Proof. by rewrite releaseHeld_state. Qed.

Lemma balanced_use h p : balanced h → page_ok p → page_ok (h p).1 ∧ ∀ cd, net cd (h p).2 = due cd (h p).1 - due cd p.
Proof. intros Hh Hp. destruct (Hh p Hp) as (? & _ & ?). done. Qed.

Lemma held_none cd p : pressed p = [] → held cd p = 0.
Proof.
  intros Hp. unfold held. rewrite Hp. simpl.
  rewrite !decide_False by (intros [_ H]; inversion H). done.
Qed.

Lemma step_balanced p e : page_ok p → enabled p e → page_ok (step p e).1
  ∧ ∀ cd, net cd (step p e).2 = due cd (step p e).1 - due cd p.
Proof.
  intros Hp He. destruct e as [|i|i|cd| |v]; cbn [step enabled] in *.
  - assert (balanced (releaseHeld ▸ sendCtrlAltDel)) as Hb.
    { apply balanced_seq; [apply releaseHeld_balanced|]. intros q Hq. unfold sendCtrlAltDel, seq.
      rewrite !sendKey_eq. destruct (_ || _); simpl; (split; [done|split; [done|]]); intros cd; [lia|].
      repeat case_decide; simplify_eq; lia. }
    by apply balanced_use.
  - destruct (JsObj.get i combinations) as [keys|]; [|apply (balanced_use skip); [apply balanced_skip|done]].
    apply balanced_use; [apply combination_balanced|done].
  - destruct (JsObj.get i HOLDS) as [k|] eqn:E; [|apply (balanced_use skip); [apply balanced_skip|done]].
    apply balanced_use; [|done]. by apply toggle_balanced, JsObj.get_elem_of.
  - apply balanced_use; [apply keyup_balanced|done].
  - destruct (timers p) as [|keys t] eqn:Et; [done|]. destruct Hp as (Hc & Hv & Hs). rewrite seq_fst, seq_snd.
    unfold release_all. rewrite !sends_eq. simpl. rewrite Hc. simpl. split; [done|]. intros cd. unfold due. simpl.
    rewrite Et. simpl. destruct (viewOnly p); simpl; [lia|]. rewrite net_sends, pending_reverse. unfold held. simpl. lia.
  - unfold applyView. rewrite !seq_fst, !seq_snd. simpl.
    set (q := set_setting _ p). assert (page_ok q) as Hq by done. assert (∀ cd, due cd q = due cd p) as Hd by done.
    destruct (viewOnly_checked v) eqn:Ev; simpl.
    + destruct (releaseHeld_balanced q Hq) as ((Hc & Hv & Hs) & Hvo & Hn).
      assert (pressed (releaseHeld q).1 = []) as Hnil by (apply releaseHeld_none, Hq).
      split; [by split_and!|]. intros cd. rewrite app_nil_r, Hn, Hd. unfold due at 1 3. simpl.
      rewrite Hvo, (held_none cd _ Hnil), releaseHeld_timers. change (timers q) with (timers p). rewrite He.
      simpl. destruct (viewOnly p); lia.
    + split; [split_and!; [apply Hp|done|apply Hp]|]. intros cd. unfold due. simpl.
      change (held cd (set_viewOnly false q)) with (held cd p).
      destruct (viewOnly p) eqn:Evo; [|lia]. destruct Hp as (_ & Hp & _). rewrite He, held_none by auto. simpl. lia.
Qed.

Lemma trace_balanced p es p' os cd :
  page_ok p → trace enabled step p es p' os → page_ok p' ∧ net cd os = due cd p' - due cd p.
Proof.
  intros Hp Ht. induction Ht as [p|p e es p' os He Ht IH]; [split; [done|simpl; lia]|].
  destruct (step_balanced p e Hp He) as [H1 H2]. destruct (IH H1) as [? H3]. split; [done|].
  rewrite net_app, H2, H3. lia.
Qed.

(** No key stays down at the VM: over any use of the menus on a connected page,
    a key's presses exceed its releases exactly by the menu item that shows it
    held and the combinations whose release is due within 20 ms; a page that
    only views holds nothing down. *)
Theorem no_key_stays_down s es p os cd :
  let p0 := Page true false [] [] s in
  trace enabled step p0 es p os →
  net cd os = (if viewOnly p then 0 else held cd p + foldr (λ keys n, n + pending cd keys) 0 (timers p))
  ∧ (timers p = [] → pressed p = [] → net cd os = 0)
  ∧ (viewOnly p = true → pressed p = [] ∧ net cd os = 0).
Proof.
  intros p0 Ht. assert (page_ok p0) as H0 by (split_and!; [done|done|simpl; set_solver]).
  destruct (trace_balanced _ _ _ _ cd H0 Ht) as [(_ & Hv & _) Hn].
  assert (due cd p0 = 0) as Hd by (unfold due, p0; simpl; rewrite held_none by done; lia).
  rewrite Hd, Z.sub_0_r in Hn. unfold due in Hn. split_and!; [done|..].
  - intros Htm Hpr. rewrite Hn, Htm, held_none by done. by destruct (viewOnly p).
  - intros Hvo. rewrite Hvo in Hn. auto.
Qed.

(** The View menu never asks for what cannot be: a screen is dragged only while
    it is clipped, and clipped only while it is not fitted to the window; the
    inputs that would have no effect are disabled; the other settings are what
    was chosen. *)
Theorem view_settings_are_consistent v p :
  let p' := (applyView v p).1 in
  let s := setting p' in
  (dragViewport s = true → clipViewport s = true) ∧ (clipViewport s = true → scaleViewport s = false)
  ∧ (clip_disabled s = true → clipViewport s = false) ∧ (drag_disabled s = true ↔ clipViewport s = false)
  ∧ ¬ (scaleViewport s = true ∧ resizeSession s = true)
  ∧ viewOnly p' = viewOnly_checked v ∧ (viewOnly_checked v = false → pressed p' = pressed p)
  ∧ clipViewport s = clip_checked v && negb (scaleViewport s)
  ∧ dragViewport s = drag_checked v && clipViewport s.
Proof.
  assert (setting (applyView v p).1 = setting (set_setting (Settings (bool_decide (v_resize v = "scale"))
    (bool_decide (v_resize v = "remote")) (bool_decide (v_resize v = "scale"))
    (clip_checked v && negb (bool_decide (v_resize v = "scale"))) (negb (clip_checked v && negb (bool_decide (v_resize v = "scale"))))
    (drag_checked v && (clip_checked v && negb (bool_decide (v_resize v = "scale")))) (dot_checked v) (v_quality v) (v_compression v)) p)
    ∧ viewOnly (applyView v p).1 = viewOnly_checked v
    ∧ (viewOnly_checked v = false → pressed (applyView v p).1 = pressed p)) as (Hs & Hv & Hp).
  { unfold applyView. rewrite !seq_fst. destruct (viewOnly_checked v); simpl; [|done].
    rewrite releaseHeld_state. done. }
  intros p' s. subst s p'. rewrite Hs, Hv. simpl. split_and!; try done.
  - destruct (drag_checked v); [done|]. by intros.
  - destruct (bool_decide _); [|done]. by rewrite andb_false_r.
  - intros ->. by rewrite andb_false_r.
  - destruct (clip_checked v && _); done.
  - intros [H1%bool_decide_eq_true H2%bool_decide_eq_true]. congruence.
Qed.

Section witnesses.
Definition settings0 : settings := Settings false false false false true false false 6 2.
Definition page0 : page := Page true false [] [] settings0.
Definition ctrl_c : list event := [Hold "holdalt"; Combination "ctrlc"; ReleaseTimer].

Example ctrl_c_sends : (run step page0 ctrl_c).2 =
  [Wire ALT true; Wire ALT false; Wire CTRL true; Wire (Key 0x63 "KeyC") true; Wire (Key 0x63 "KeyC") false; Wire CTRL false]
  ∧ JsObj.get "ctrlaltf12" combinations = Some [CTRL; ALT; Key 0xffc9 "F12"].
Proof. by vm_compute. Qed.

Lemma no_key_stays_down_witness :
  let '(p, os) := run step page0 ctrl_c in trace enabled step page0 ctrl_c p os ∧ net "ControlLeft" os = 0.
Proof.
  assert (trace enabled step page0 ctrl_c (run step page0 ctrl_c).1 (run step page0 ctrl_c).2) as Ht.
  { change ((run step page0 ctrl_c).2) with ((step page0 (Hold "holdalt")).2
      ++ (step (step page0 (Hold "holdalt")).1 (Combination "ctrlc")).2
      ++ (step (step (step page0 (Hold "holdalt")).1 (Combination "ctrlc")).1 ReleaseTimer).2 ++ []).
    repeat (refine (trace_cons _ _ _ _ _ _ _ _ _); [done|]). apply trace_nil. }
  destruct (no_key_stays_down settings0 ctrl_c (run step page0 ctrl_c).1 (run step page0 ctrl_c).2 "ControlLeft" Ht) as (_ & H & _).
  split; [exact Ht|]. apply H; by vm_compute.
Defined.
End witnesses.
End ConsoleKeys.
