(* ===== verification/Websock.v ===== *)
(** * The buffered socket: static/js/novnc/core/websock.js

    [Websock]: the receive queue (a byte array, a read and a write position,
    compacted and grown up to 40 MiB) and the send queue (a fixed array, sent when
    it is full or flushed).  Bytes are integers; the arrays are typed arrays, whose
    [set] throws out of range.  The channel is its state and the messages sent. *)
From S2P Require Import Prelude Words.

#[local] Open Scope list_scope.
#[local] Open Scope Z_scope.

Module Websock.

(** ** Typed arrays *)
Abbreviation bytes := (list Z).
Definition byte (b : Z) : Prop := 0 <= b < 256.
Definition len (a : bytes) : Z := Z.of_nat (length a).
(** [new Uint8Array(n)] *)
Definition zeros (n : Z) : bytes := replicate (Z.to_nat n) 0.
(** [a.slice(s, e)], [a.subarray(s, e)], [0 <= s] *)
Definition slice (s e : Z) (a : bytes) : bytes := take (Z.to_nat (e - s)) (drop (Z.to_nat s) a).
(** [a.set(b, off)], which throws a RangeError when [b] does not fit *)
Definition put (a b : bytes) (off : Z) : option bytes :=
  if decide (off + len b <= len a)
  then Some (take (Z.to_nat off) a ++ b ++ drop (Z.to_nat (off + len b)) a) else None.
(** [a\[i\] = v], ignored out of range; the array keeps the low 8 bits *)
Definition store (i v : Z) (a : bytes) : bytes := <[Z.to_nat i := v mod 256]> a.
(** [a.copyWithin(0, s, e)] *)
Definition copyWithin0 (s e : Z) (a : bytes) : bytes := slice s e a ++ drop (Z.to_nat (e - s)) a.

(** ** State *)
Inductive readyState := Unused | Connecting | Open | Closing | Closed.
Record websock := Websock {
  rQi : Z;               (* receive queue index *)
  rQlen_ : Z;            (* next write position in the receive queue *)
  rQbufferSize : Z;
  rQ : bytes;
  sQbufferSize : Z;
  sQlen : Z;
  sQ : bytes;
  ready : readyState;    (* the channel's *)
  sent : list bytes;     (* the messages handed to it *)
}.
Definition MAX_RQ_GROW_SIZE : Z := 40 * 1024 * 1024.
Definition constructor : websock := Websock 0 0 (1024 * 1024 * 4) [] (1024 * 10) 0 [] Unused [].

Definition set_rQ (i l : Z) (w : websock) : websock :=
  Websock i l (rQbufferSize w) (rQ w) (sQbufferSize w) (sQlen w) (sQ w) (ready w) (sent w).
Definition set_rBuffer (size : Z) (q : bytes) (w : websock) : websock :=
  Websock (rQi w) (rQlen_ w) size q (sQbufferSize w) (sQlen w) (sQ w) (ready w) (sent w).
Definition set_sQ (l : Z) (q : bytes) (w : websock) : websock :=
  Websock (rQi w) (rQlen_ w) (rQbufferSize w) (rQ w) (sQbufferSize w) l q (ready w) (sent w).
Definition set_ready (s : readyState) (w : websock) : websock :=
  Websock (rQi w) (rQlen_ w) (rQbufferSize w) (rQ w) (sQbufferSize w) (sQlen w) (sQ w) s (sent w).
Definition send (m : bytes) (w : websock) : websock :=
  Websock (rQi w) (rQlen_ w) (rQbufferSize w) (rQ w) (sQbufferSize w) (sQlen w) (sQ w) (ready w) (sent w ++ [m]).

Definition allocateBuffers (w : websock) : websock :=
  set_sQ (sQlen w) (zeros (sQbufferSize w)) (set_rBuffer (rQbufferSize w) (zeros (rQbufferSize w)) w).
Definition init (w : websock) : websock :=
  let w := allocateBuffers w in set_ready Unused (set_rQ 0 (rQlen_ w) w).
(** [attach], of a channel with every property *)
Definition attach (s : readyState) (w : websock) : websock := set_ready s (init w).

(** ** Receive queue *)
Definition rQlen (w : websock) : Z := rQlen_ w - rQi w.
Definition at_ (w : websock) (i : Z) : option Z := rQ w !! Z.to_nat i.
Definition rQpeek8 (w : websock) : option Z := at_ w (rQi w).
Definition rQskipBytes (n : Z) (w : websock) : websock := set_rQ (rQi w + n) (rQlen_ w) w.

(** the 32-bit integers of [<<] and [>>>] *)
Definition int32 (n : Z) : Z := (n + 2 ^ 31) mod 2 ^ 32 - 2 ^ 31.
(** [byte] counts down; a byte out of range is [undefined], whose shift is 0 *)
Fixpoint shift_loop (byte : nat) (res : Z) (w : websock) : Z * websock :=
  match byte with
  | 0%nat => (res, w)
  | S byte =>
      let b := default 0 (at_ w (rQi w)) in
      shift_loop byte (res + int32 (Z.shiftl b (Z.of_nat byte * 8))) (rQskipBytes 1 w)
  end.
Definition rQshift (n : nat) (w : websock) : Z * websock :=
  let '(res, w) := shift_loop n 0 w in (res mod 2 ^ 32, w).   (* >>> 0 *)
Definition rQshift8 := rQshift 1.
Definition rQshift16 := rQshift 2.
Definition rQshift32 := rQshift 4.

Definition rQshiftBytes (n : Z) (w : websock) : bytes * websock :=
  let w := rQskipBytes n w in (slice (rQi w - n) (rQi w) (rQ w), w).
Definition rQshiftTo := rQshiftBytes.
Definition rQpeekBytes (n : Z) (w : websock) : bytes := slice (rQi w) (rQi w + n) (rQ w).
(** the text as its character codes, [step] (4096) at a time *)
Fixpoint str_loop (step : Z) (fuel : nat) (i n : Z) (str : bytes) (w : websock) : option (bytes * websock) :=
  match fuel with
  | 0%nat => None
  | S fuel =>
      if decide (i < n) then
        let '(part, w) := rQshiftBytes (Z.min step (n - i)) w in
        str_loop step fuel (i + step) n (str ++ part) w
      else Some (str, w)
  end.
Definition rQshiftStr (n : Z) (w : websock) : option (bytes * websock) :=
  str_loop 4096 (S (Z.to_nat n)) 0 n [] w.

(** [None]: it throws *)
Definition rQwait (num : Z) (goback : Z) (w : websock) : option (bool * websock) :=
  if decide (rQlen_ w - rQi w < num) then
    if decide (goback = 0) then Some (true, w)
    else if decide (rQi w < goback) then None
    else Some (true, set_rQ (rQi w - goback) (rQlen_ w) w)
  else Some (false, w).

(** [None]: it throws *)
Definition expandCompactRQ (minFit : Z) (w : websock) : option websock :=
  let unread := rQlen_ w - rQi w in
  let requiredBufferSize := (unread + minFit) * 8 in
  let resizeNeeded := bool_decide (rQbufferSize w < requiredBufferSize) in
  let size := if resizeNeeded then Z.max (rQbufferSize w * 2) requiredBufferSize else rQbufferSize w in
  let capped := bool_decide (MAX_RQ_GROW_SIZE < size) in
  let size := if capped then MAX_RQ_GROW_SIZE else size in
  if capped && bool_decide (size - unread < minFit) then None
  else
    match (if resizeNeeded then put (zeros size) (slice (rQi w) (rQlen_ w) (rQ w)) 0
           else Some (copyWithin0 (rQi w) (rQlen_ w) (rQ w))) with
    | Some q => Some (set_rQ 0 unread (set_rBuffer size q w))
    | None => None
    end.

(** [_recvMessage]: the state and whether the message handler is called; [None]: it throws *)
Definition recvMessage (data : bytes) (w : websock) : option (websock * bool) :=
  let w := if decide (rQlen_ w = rQi w) then set_rQ 0 0 w else w in
  match (if decide (rQbufferSize w - rQlen_ w < len data) then expandCompactRQ (len data) w else Some w) with
  | Some w => match put (rQ w) data (rQlen_ w) with
              | Some q => let w := set_rQ (rQi w) (rQlen_ w + len data) (set_rBuffer (rQbufferSize w) q w) in
                          Some (w, bool_decide (0 < rQlen_ w - rQi w))
              | None => None
              end
  | None => None
  end.

(** ** Send queue *)
Definition flush (w : websock) : websock :=
  match ready w with
  | Open => if decide (0 < sQlen w) then set_sQ 0 (sQ w) (send (slice 0 (sQlen w) (sQ w)) w) else w
  | _ => w
  end.
Definition sQensureSpace (n : Z) (w : websock) : websock :=
  if decide (sQbufferSize w - sQlen w < n) then flush w else w.
(** [_sQ\[_sQlen++\] = v] *)
Definition sQappend (v : Z) (w : websock) : websock := set_sQ (sQlen w + 1) (store (sQlen w) v (sQ w)) w.

Definition sQpush8 (num : Z) (w : websock) : websock := sQappend num (sQensureSpace 1 w).
Definition sQpush16 (num : Z) (w : websock) : websock :=
  let w := sQensureSpace 2 w in
  let w := sQappend (Z.land (Z.shiftr num 8) 255) w in
  sQappend (Z.land (Z.shiftr num 0) 255) w.
Definition sQpush32 (num : Z) (w : websock) : websock :=
  let w := sQensureSpace 4 w in
  let w := sQappend (Z.land (Z.shiftr num 24) 255) w in
  let w := sQappend (Z.land (Z.shiftr num 16) 255) w in
  let w := sQappend (Z.land (Z.shiftr num 8) 255) w in
  sQappend (Z.land (Z.shiftr num 0) 255) w.

(** the loop of [sQpushBytes]; [None]: it has not ended (or [set] threw) *)
Fixpoint push_loop (fuel : nat) (offset : Z) (b : bytes) (w : websock) : option websock :=
  match fuel with
  | 0%nat => None
  | S fuel =>
      if decide (offset < len b) then
        let w := sQensureSpace 1 w in
        let chunkSize := Z.min (sQbufferSize w - sQlen w) (len b - offset) in
        match put (sQ w) (slice offset (offset + chunkSize) b) (sQlen w) with
        | Some q => push_loop fuel (offset + chunkSize) b (set_sQ (sQlen w + chunkSize) q w)
        | None => None
        end
      else Some w
  end.
Definition sQpushBytes (b : bytes) (w : websock) : option websock := push_loop (S (length b)) 0 b w.
Definition sQpushString (codes : bytes) (w : websock) : option websock :=
  sQpushBytes ((λ c, c mod 256) <$> codes) w.   (* new Uint8Array keeps the low 8 bits *)

Definition close (w : websock) : websock :=
  match ready w with Connecting | Open => set_ready Closing w | _ => w end.

(** ** Slices *)
Lemma len_nonneg a : 0 <= len a.
Proof. unfold len. lia. Qed.
Lemma len_app a b : len (a ++ b) = len a + len b.
Proof. unfold len. rewrite length_app. lia. Qed.
Lemma len_cons x a : len (x :: a) = 1 + len a.
Proof. unfold len. simpl. lia. Qed.
Lemma len_zeros n : 0 <= n → len (zeros n) = n.
Proof. intros Hn. unfold len, zeros. rewrite length_replicate. lia. Qed.
Lemma len_slice s e a : 0 <= s <= e → e <= len a → len (slice s e a) = e - s.
Proof. unfold len, slice. intros ??. rewrite length_take, length_drop. lia. Qed.
Lemma slice_split s m e a : 0 <= s <= m → m <= e → slice s e a = slice s m a ++ slice m e a.
Proof.
  intros ??. unfold slice. replace (Z.to_nat m) with (Z.to_nat s + Z.to_nat (m - s))%nat by lia.
  rewrite <- drop_drop, take_take_drop. f_equal. lia.
Qed.
Lemma slice_empty s a : slice s s a = [].
Proof. unfold slice. by rewrite Z.sub_diag. Qed.
Lemma slice_all a : slice 0 (len a) a = a.
Proof. unfold slice, len. rewrite Z.sub_0_r, Nat2Z.id, drop_0. apply firstn_all. Qed.
Lemma take_slice n s e a : 0 <= s → 0 <= n <= e - s → take (Z.to_nat n) (slice s e a) = slice s (s + n) a.
Proof. intros ??. unfold slice. rewrite take_take. f_equal. lia. Qed.
Lemma drop_slice n s e a : 0 <= s → 0 <= n <= e - s → drop (Z.to_nat n) (slice s e a) = slice (s + n) e a.
Proof.
  intros ??. unfold slice. rewrite skipn_firstn_comm, drop_drop. f_equal; [lia|]. f_equal. lia.
Qed.
Lemma Forall_slice P s e a : Forall P a → Forall P (slice s e a).
Proof. intros. by apply Forall_take, Forall_drop. Qed.

Lemma slice_app_l s e a b : 0 <= s <= e → e <= len a → slice s e (a ++ b) = slice s e a.
Proof.
  unfold slice, len. intros ??. rewrite drop_app_le, take_app_le; [done|rewrite length_drop; lia|lia].
Qed.
Lemma slice_app_r s e a b : 0 <= s → slice (len a + s) (len a + e) (a ++ b) = slice s e b.
Proof.
  unfold slice, len. intros ?. rewrite drop_app_ge by lia. f_equal; [lia|]. f_equal. lia.
Qed.
Lemma slice_take s e n a : 0 <= s <= e → e <= n → slice s e (take (Z.to_nat n) a) = slice s e a.
Proof. unfold slice. intros ??. rewrite skipn_firstn_comm, take_take. f_equal. lia. Qed.

Lemma put_spec a b off q :
  0 <= off → put a b off = Some q →
  len q = len a ∧ (∀ s, 0 <= s <= off → slice s (off + len b) q = slice s off a ++ b)
  ∧ (∀ P, Forall P a → Forall P b → Forall P q).
Proof.
  unfold put. intros Hoff. case_decide as Hfit; [|done]. intros [= <-]. pose proof (len_nonneg b).
  assert (len (take (Z.to_nat off) a) = off) as Hl by (unfold len in *; rewrite length_take; lia).
  split_and!.
  - rewrite !len_app, Hl. unfold len in *. rewrite length_drop. lia.
  - intros s Hs. rewrite (slice_split s off) by lia. f_equal.
    + rewrite slice_app_l, slice_take by lia. done.
    + rewrite <- Hl at 1 2. rewrite <- (Z.add_0_r (len (take _ a))) at 1. rewrite slice_app_r by lia.
      rewrite slice_app_l by lia. apply slice_all.
  - intros P Ha Hb. rewrite !Forall_app. auto using Forall_take, Forall_drop.
Qed.
Lemma put_fits a b off : off + len b <= len a → ∃ q, put a b off = Some q.
Proof. unfold put. intros. rewrite decide_True by done. by eexists. Qed.

(** ** The receive queue as a FIFO *)
Definition unread (w : websock) : bytes := slice (rQi w) (rQlen_ w) (rQ w).
Record ok (w : websock) : Prop := {
  ok_i : 0 <= rQi w <= rQlen_ w;
  ok_len : rQlen_ w <= rQbufferSize w;
  ok_size : len (rQ w) = rQbufferSize w;
  ok_max : rQbufferSize w <= MAX_RQ_GROW_SIZE;
  ok_bytes : Forall byte (rQ w);
}.

Lemma unread_len w : ok w → len (unread w) = rQlen w.
Proof. intros [? ? ? ? ?]. unfold unread. rewrite len_slice by lia. done. Qed.

Lemma expand_spec m w :
  ok w → 0 <= m →
  match expandCompactRQ m w with
  | Some w' => ok w' ∧ unread w' = unread w ∧ rQi w' = 0 ∧ m <= rQbufferSize w' - rQlen_ w'
      ∧ rQlen w + m <= MAX_RQ_GROW_SIZE
  | None => MAX_RQ_GROW_SIZE < rQlen w + m
  end.
Proof.
  intros Hok Hm. pose proof (unread_len w Hok) as Hu. destruct Hok as [Hi Hl Hs Hx Hb].
  unfold expandCompactRQ. fold (unread w). change (rQlen_ w - rQi w) with (rQlen w).
  assert (0 < MAX_RQ_GROW_SIZE) by done. assert (0 <= rQlen w <= rQbufferSize w) as Hr by (unfold rQlen; lia).
  destruct (bool_decide (rQbufferSize w < (rQlen w + m) * 8)) eqn:Er; [apply bool_decide_eq_true in Er|apply bool_decide_eq_false in Er].
  - set (s0 := Z.max _ _). set (s1 := if bool_decide (MAX_RQ_GROW_SIZE < s0) then _ else _).
    assert (s1 = Z.min MAX_RQ_GROW_SIZE s0) as Hs1 by (subst s1; case_bool_decide; lia).
    destruct (bool_decide (MAX_RQ_GROW_SIZE < s0) && bool_decide (s1 - rQlen w < m)) eqn:Ec.
    { apply andb_prop in Ec as [E1%bool_decide_eq_true E2%bool_decide_eq_true]. lia. }
    assert (rQlen w + m <= s1) as Hfit.
    { apply andb_false_iff in Ec as [E1%bool_decide_eq_false|E2%bool_decide_eq_false]; lia. }
    destruct (put_fits (zeros s1) (unread w) 0) as [q Hq]; [rewrite len_zeros by lia; lia|].
    rewrite Hq. destruct (put_spec _ _ 0 _ ltac:(lia) Hq) as (Hlq & Hsl & Hall). rewrite len_zeros in Hlq by lia.
    split_and!; [|unfold unread; simpl|done|simpl; lia|lia].
    + split; simpl; [lia|lia|done|lia|]. apply Hall; [|by apply Forall_slice].
      apply Forall_replicate. unfold byte. lia.
    + specialize (Hsl 0 ltac:(lia)). rewrite Hu, Z.add_0_l in Hsl. rewrite Hsl. by rewrite slice_empty.
  - rewrite (bool_decide_eq_false_2 (MAX_RQ_GROW_SIZE < rQbufferSize w)) by lia. simpl.
    assert (len (copyWithin0 (rQi w) (rQlen_ w) (rQ w)) = rQbufferSize w) as Hlc.
    { unfold copyWithin0. rewrite len_app. fold (unread w). rewrite Hu. unfold rQlen, len in *. rewrite length_drop. lia. }
    split_and!; [|unfold unread; simpl|done|simpl; lia|lia].
    + split; simpl; [lia|lia|done|done|]. unfold copyWithin0. apply Forall_app.
      split; [by apply Forall_slice|by apply Forall_drop].
    + unfold copyWithin0. fold (unread w). rewrite slice_app_l by (rewrite ?Hu; lia).
      rewrite <- Hu. apply slice_all.
Qed.

Lemma recv_spec d w :
  ok w → Forall byte d →
  match recvMessage d w with
  | Some (w', called) => ok w' ∧ unread w' = unread w ++ d ∧ called = bool_decide (unread w ++ d ≠ [])
      ∧ len (unread w) + len d <= MAX_RQ_GROW_SIZE
  | None => MAX_RQ_GROW_SIZE < len (unread w) + len d
  end.
Proof.
  intros Hok Hd. rewrite (unread_len w Hok). unfold recvMessage.
  set (w1 := if decide (rQlen_ w = rQi w) then set_rQ 0 0 w else w).
  assert (ok w1 ∧ unread w1 = unread w ∧ rQlen w1 = rQlen w) as (Hok1 & Hu1 & Hl1).
  { subst w1. case_decide as E; [|done]. destruct Hok as [? ? ? ? ?]. split_and!.
    - split; simpl; try done; lia.
    - unfold unread. simpl. by rewrite E, !slice_empty.
    - unfold rQlen. simpl. lia. }
  pose proof (expand_spec (len d) w1 Hok1 (len_nonneg d)) as He.
  assert (∀ w2, ok w2 → unread w2 = unread w → len d <= rQbufferSize w2 - rQlen_ w2 → rQlen w + len d <= MAX_RQ_GROW_SIZE →
    match (match put (rQ w2) d (rQlen_ w2) with
           | Some q => let w := set_rQ (rQi w2) (rQlen_ w2 + len d) (set_rBuffer (rQbufferSize w2) q w2) in
                       Some (w, bool_decide (0 < rQlen_ w - rQi w))
           | None => None end) with
    | Some (w', called) => ok w' ∧ unread w' = unread w ++ d ∧ called = bool_decide (unread w ++ d ≠ [])
        ∧ rQlen w + len d <= MAX_RQ_GROW_SIZE
    | None => MAX_RQ_GROW_SIZE < rQlen w + len d
    end) as Hput.
  { intros w2 Hok2 Hu2 Hfit Hmax. pose proof Hok2 as [Hi2 Hle2 Hs2 Hx2 Hb2].
    destruct (put_fits (rQ w2) d (rQlen_ w2)) as [q Hq]; [lia|]. rewrite Hq.
    destruct (put_spec _ _ (rQlen_ w2) _ ltac:(lia) Hq) as (Hlq & Hsl & Hall). pose proof (len_nonneg d).
    assert (unread (set_rQ (rQi w2) (rQlen_ w2 + len d) (set_rBuffer (rQbufferSize w2) q w2)) = unread w ++ d) as Hu3.
    { unfold unread at 1. simpl. rewrite Hsl by lia. by rewrite <- Hu2. }
    split_and!; [|done| |done].
    - split; simpl; [lia|lia|lia|done|]. by apply Hall.
    - simpl. apply bool_decide_ext. rewrite <- (app_nil_l (unread w ++ d)) at 1. rewrite <- Hu2.
      pose proof (unread_len w2 Hok2) as Hl2. unfold rQlen in Hl2.
      assert (len (unread w2 ++ d) = rQlen_ w2 + len d - rQi w2) as Hl3 by (rewrite len_app; lia).
      destruct (unread w2 ++ d) as [|x r]; [change (len []) with 0 in Hl3|rewrite len_cons in Hl3; pose proof (len_nonneg r)];
        [split; [intros; exfalso; lia|done]|split; [done|intros; lia]]. }
  case_decide as Hc; [|apply Hput; [done..|lia|]].
  - destruct (expandCompactRQ (len d) w1) as [w2|]; [|lia]. destruct He as (Hok2 & Hu2 & Hi2 & Hf2 & Hm2).
    apply Hput; [done|congruence|lia|lia].
  - destruct Hok1 as [? ? ? ? ?]. rewrite <- Hl1. unfold rQlen. lia.
Qed.

(** ** Reads *)
Lemma skip_spec n w :
  ok w → 0 <= n <= rQlen w → ok (rQskipBytes n w) ∧ unread (rQskipBytes n w) = drop (Z.to_nat n) (unread w).
Proof.
  intros [Hi Hl Hs Hx Hb] Hn. unfold rQlen in Hn. split.
  - split; simpl; try done; lia.
  - unfold unread. simpl. rewrite drop_slice by lia. done.
Qed.
Lemma skip_skip m n w : rQskipBytes m (rQskipBytes n w) = rQskipBytes (n + m) w.
Proof. unfold rQskipBytes, set_rQ. simpl. f_equal. lia. Qed.

Lemma unread_byte w b q : ok w → unread w = b :: q → at_ w (rQi w) = Some b ∧ byte b ∧ 1 <= rQlen w.
Proof.
  intros Hok Hu. pose proof (unread_len w Hok) as Hl. rewrite Hu, len_cons in Hl. pose proof (len_nonneg q).
  destruct Hok as [Hi Hle Hs Hx Hb]. assert (at_ w (rQi w) = Some b) as Ha.
  { unfold at_. unfold unread, slice in Hu. assert (take (Z.to_nat (rQlen_ w - rQi w)) (drop (Z.to_nat (rQi w)) (rQ w)) !! 0%nat = Some b)
      as H0 by (by rewrite Hu). rewrite lookup_take in H0. case_decide; [|done]. by rewrite lookup_drop, Nat.add_0_r in H0. }
  split_and!; [done| |lia]. unfold at_ in Ha. by eapply Forall_lookup_1 in Hb.
Qed.

(** the big-endian number of some bytes *)
Fixpoint be (l : bytes) : Z := match l with [] => 0 | b :: l => b * 2 ^ (8 * len l) + be l end.
Lemma be_range l : Forall byte l → 0 <= be l < 2 ^ (8 * len l).
Proof.
  induction 1 as [|b l Hb Hl IH]; [done|]. cbn [be]. rewrite len_cons. pose proof (len_nonneg l).
  replace (8 * (1 + len l)) with (8 + 8 * len l) by lia. rewrite Z.pow_add_r by lia. unfold byte in Hb. nia.
Qed.

Lemma int32_mod n : int32 n mod 2 ^ 32 = n mod 2 ^ 32.
Proof.
  unfold int32. rewrite Zminus_mod_idemp_l. f_equal. lia.
Qed.

Lemma shift_loop_spec n res w :
  ok w → Z.of_nat n <= rQlen w →
  (shift_loop n res w).1 mod 2 ^ 32 = (res + be (take n (unread w))) mod 2 ^ 32
  ∧ (shift_loop n res w).2 = rQskipBytes (Z.of_nat n) w.
Proof.
  revert res w. induction n as [|n IH]; intros res w Hok Hn.
  { simpl. rewrite Z.add_0_r. split; [done|]. destruct w. unfold rQskipBytes, set_rQ. simpl. f_equal. lia. }
  pose proof (unread_len w Hok) as Hl. destruct (unread w) as [|b q] eqn:Hu; [change (len []) with 0 in Hl; lia|].
  destruct (unread_byte w b q Hok Hu) as (Ha & Hb & _). rewrite len_cons in Hl.
  destruct (skip_spec 1 w Hok ltac:(lia)) as [Hok' Hu']. rewrite Hu in Hu'. simpl in Hu'.
  cbn [shift_loop]. rewrite Ha. simpl default.
  destruct (IH (res + int32 (Z.shiftl b (Z.of_nat n * 8))) (rQskipBytes 1 w) Hok') as [H1 H2].
  { unfold rQlen in *. simpl. lia. }
  rewrite Hu', drop_0 in H1. split; [|rewrite H2, skip_skip; f_equal; lia].
  rewrite H1. cbn [take be]. rewrite Z.shiftl_mul_pow2 by lia.
  assert (len (take n q) = Z.of_nat n) as -> by (unfold len in *; rewrite length_take; lia).
  replace (8 * Z.of_nat n) with (Z.of_nat n * 8) by lia. set (x := b * 2 ^ (Z.of_nat n * 8)).
  replace (res + int32 x + be (take n q)) with (int32 x + (res + be (take n q))) by lia.
  replace (res + (x + be (take n q))) with (x + (res + be (take n q))) by lia.
  rewrite (Z.add_mod (int32 x)), int32_mod, <- Z.add_mod by done. done.
Qed.

Lemma rQshift_spec n w :
  ok w → (n <= 4)%nat → Z.of_nat n <= rQlen w →
  rQshift n w = (be (take n (unread w)), rQskipBytes (Z.of_nat n) w).
Proof.
  intros Hok H4 Hn. pose proof (shift_loop_spec n 0 w Hok Hn) as [H1 H2].
  unfold rQshift. destruct (shift_loop n 0 w) as [r w']. simpl in *. rewrite H1, H2. f_equal.
  rewrite Z.add_0_l. apply Z.mod_small.
  assert (Forall byte (take n (unread w))) as Hb by (apply Forall_take, Forall_slice, Hok).
  pose proof (be_range _ Hb) as Hr.
  assert (2 ^ (8 * len (take n (unread w))) <= 2 ^ 32); [|lia]. apply Z.pow_le_mono_r; [lia|].
  unfold len. rewrite length_take. lia.
Qed.

Lemma rQshiftBytes_spec n w :
  ok w → 0 <= n <= rQlen w → rQshiftBytes n w = (take (Z.to_nat n) (unread w), rQskipBytes n w).
Proof.
  intros [Hi Hl Hs Hx Hb] Hn. unfold rQlen in Hn. unfold rQshiftBytes. simpl. f_equal.
  unfold unread. rewrite take_slice by lia. f_equal; lia.
Qed.
Lemma rQpeekBytes_spec n w : ok w → 0 <= n <= rQlen w → rQpeekBytes n w = take (Z.to_nat n) (unread w).
Proof.
  intros [Hi Hl Hs Hx Hb] Hn. unfold rQlen in Hn. unfold rQpeekBytes, unread. by rewrite take_slice by lia.
Qed.

Lemma str_loop_spec step fuel i n str w :
  0 < step → ok w → 0 <= i → 0 <= n - i <= rQlen w ∨ n <= i → (Z.to_nat (n - i) < fuel)%nat →
  str_loop step fuel i n str w =
    Some (str ++ take (Z.to_nat (n - i)) (unread w), rQskipBytes (Z.max 0 (n - i)) w).
Proof.
  intros Hst. revert i str w. induction fuel as [|fuel IH]; intros i str w Hok Hi Hn Hf; [lia|].
  cbn [str_loop]. case_decide as Hlt.
  - rewrite rQshiftBytes_spec by (done || lia). set (m := Z.min step (n - i)).
    destruct (skip_spec m w Hok ltac:(lia)) as [Hok' Hu'].
    assert (rQlen (rQskipBytes m w) = rQlen w - m) as Hl' by (unfold rQlen; simpl; lia).
    rewrite IH by (done || lia). rewrite skip_skip, Hu', <- (assoc_L (++)), take_take_drop.
    do 2 f_equal; [do 2 f_equal; lia|f_equal; lia].
  - replace (Z.to_nat (n - i)) with 0%nat by lia. rewrite app_nil_r. do 2 f_equal.
    destruct w. unfold rQskipBytes, set_rQ. simpl. f_equal. lia.
Qed.

(** ** The queue against its specification *)
Inductive op :=
  | Recv (data : bytes) | Skip (n : Z) | Shift (n : nat) | Peek8 | Bytes (n : Z) | PeekBytes (n : Z) | Str (n : Z)
  | Wait (num : Z).
Inductive out := Called (b : bool) | Num (n : Z) | Data (l : bytes) | Waits (b : bool) | Nothing.

Definition perform (o : op) (w : websock) : option (out * websock) :=
  match o with
  | Recv d => (λ wb, (Called wb.2, wb.1)) <$> recvMessage d w
  | Skip n => Some (Nothing, rQskipBytes n w)
  | Shift n => let '(r, w) := rQshift n w in Some (Num r, w)
  | Peek8 => Some (Num (default (-1) (rQpeek8 w)), w)
  | Bytes n => let '(b, w) := rQshiftBytes n w in Some (Data b, w)
  | PeekBytes n => Some (Data (rQpeekBytes n w), w)
  | Str n => (λ bw, (Data bw.1, bw.2)) <$> rQshiftStr n w
  | Wait num => (λ bw, (Waits bw.1, bw.2)) <$> rQwait num 0 w
  end.

#[global] Instance byte_dec b : Decision (byte b).
Proof. unfold byte. apply _. Defined.

(** a FIFO of bytes; [None]: reading more than there is, or receiving what is
    no bytes or more than the queue may hold *)
Definition fifo (o : op) (q : bytes) : option (out * bytes) :=
  match o with
  | Recv d => if decide (Forall byte d ∧ len q + len d <= MAX_RQ_GROW_SIZE)
              then Some (Called (bool_decide (q ++ d ≠ [])), q ++ d) else None
  | Skip n => if decide (0 <= n <= len q) then Some (Nothing, drop (Z.to_nat n) q) else None
  | Shift n => if decide (n <= 4 ∧ n <= length q)%nat then Some (Num (be (take n q)), drop n q) else None
  | Peek8 => match q with b :: _ => Some (Num b, q) | [] => None end
  | Bytes n | Str n => if decide (0 <= n <= len q) then Some (Data (take (Z.to_nat n) q), drop (Z.to_nat n) q) else None
  | PeekBytes n => if decide (0 <= n <= len q) then Some (Data (take (Z.to_nat n) q), q) else None
  | Wait num => Some (Waits (bool_decide (len q < num)), q)
  end.

Fixpoint run_ops {S} (f : op → S → option (out * S)) (os : list op) (s : S) : option (list out * S) :=
  match os with
  | [] => Some ([], s)
  | o :: os => match f o s with
               | Some (x, s) => match run_ops f os s with Some (xs, s) => Some (x :: xs, s) | None => None end
               | None => None
               end
  end.

Lemma perform_fifo o w x q :
  ok w → fifo o (unread w) = Some (x, q) → ∃ w', perform o w = Some (x, w') ∧ ok w' ∧ unread w' = q.
Proof.
  intros Hok. pose proof (unread_len w Hok) as Hl. destruct o as [d|n|n| |n|n|n|num]; cbn [perform fifo].
  - case_decide as Hd; [|done]. destruct Hd as [Hd Hm]. intros [= <- <-]. pose proof (recv_spec d w Hok Hd) as Hr.
    destruct (recvMessage d w) as [[w' c]|]; [|lia]. destruct Hr as (? & ? & -> & _). by exists w'.
  - case_decide as Hn; [|done]. intros [= <- <-]. destruct (skip_spec n w Hok) as [??]; [lia|]. by eexists.
  - case_decide as Hn; [|done]. intros [= <- <-]. unfold len in Hl. rewrite rQshift_spec by (done || lia).
    destruct (skip_spec (Z.of_nat n) w Hok) as [??]; [lia|]. eexists. split_and!; [done..|]. by rewrite Nat2Z.id in *.
  - destruct (unread w) as [|b r] eqn:Hu; [done|]. intros [= <- <-]. unfold rQpeek8.
    destruct (unread_byte w b r Hok Hu) as (-> & _). by exists w.
  - case_decide as Hn; [|done]. intros [= <- <-]. rewrite rQshiftBytes_spec by (done || lia).
    destruct (skip_spec n w Hok) as [??]; [lia|]. by eexists.
  - case_decide as Hn; [|done]. intros [= <- <-]. rewrite rQpeekBytes_spec by (done || lia). by exists w.
  - case_decide as Hn; [|done]. intros [= <- <-]. unfold rQshiftStr.
    rewrite str_loop_spec by (done || lia). simpl. rewrite Z.sub_0_r, Z.max_r by lia.
    destruct (skip_spec n w Hok) as [??]; [lia|]. by eexists.
  - intros [= <- <-]. unfold rQwait. change (rQlen_ w - rQi w) with (rQlen w). rewrite Hl.
    exists w. case_decide as E; [rewrite bool_decide_eq_true_2 by done|rewrite bool_decide_eq_false_2 by done]; done.
Qed.

(** C36: The receive queue is a FIFO of bytes: whatever messages come, whenever the
    queue is compacted or grown, every read of bytes that are there gives the
    oldest ones (as a big-endian number, bytes or text), in order, none lost
    and none twice; a message throws exactly when the unread bytes and it
    exceed 40 MiB; and a wait that backs up undoes the read before it. *)
Theorem receive_queue_is_a_fifo w os xs q :
  ok w → run_ops fifo os (unread w) = Some (xs, q) →
  ∃ w', run_ops perform os w = Some (xs, w') ∧ ok w' ∧ unread w' = q
    ∧ (∀ d, Forall byte d → recvMessage d w' = None ↔ MAX_RQ_GROW_SIZE < len q + len d)
    ∧ (∀ n num, 0 < n <= len q → len q - n < num → rQwait num n (rQskipBytes n w') = Some (true, w')).
Proof.
  revert w xs. induction os as [|o os IH]; intros w xs Hok; cbn [run_ops].
  - intros [= <- <-]. exists w. split_and!; [done..| |].
    + intros d Hd. pose proof (recv_spec d w Hok Hd) as Hr. destruct (recvMessage d w) as [[w' c]|]; [|done].
      split; [done|]. intros. destruct Hr as (_ & _ & _ & ?). lia.
    + intros n num Hn Hw. pose proof (unread_len w Hok) as Hl. destruct Hok as [Hi Hle Hs Hx Hb].
      unfold rQwait. simpl. rewrite decide_True by (unfold rQlen in Hl; lia). rewrite decide_False by lia.
      rewrite decide_False by lia. do 2 f_equal. destruct w. unfold set_rQ. simpl. f_equal. lia.
  - destruct (fifo o (unread w)) as [[x q1]|] eqn:Ef; [|done].
    destruct (perform_fifo o w x q1 Hok Ef) as (w1 & -> & Hok1 & <-).
    destruct (run_ops fifo os (unread w1)) as [[ys q2]|] eqn:Er; [|done]. intros [= <- <-].
    destruct (IH w1 ys Hok1 Er) as (w' & -> & ?). by exists w'.
Qed.

(** ** The send queue *)
Record sok (w : websock) : Prop := {
  sok_size : 4 <= sQbufferSize w;
  sok_array : len (sQ w) = sQbufferSize w;
  sok_len : 0 <= sQlen w <= sQbufferSize w;
  sok_sent : Forall (λ m, 0 < len m <= sQbufferSize w) (sent w);
}.
(** every byte pushed so far: the messages sent, and what waits in the queue *)
Definition stream (w : websock) : bytes := mjoin (sent w) ++ slice 0 (sQlen w) (sQ w).

Lemma flush_spec w :
  sok w → ready w = Open → sok (flush w) ∧ stream (flush w) = stream w ∧ sQlen (flush w) = 0 ∧ ready (flush w) = Open
    ∧ sQbufferSize (flush w) = sQbufferSize w.
Proof.
  intros [Hs Ha Hl Hm] Ho. unfold flush. rewrite Ho. case_decide as Hp.
  - split_and!; [|unfold stream; cbn [sent sQlen sQ set_sQ send]|done..].
    + split; simpl; [done..|lia|]. apply Forall_app. split; [done|]. repeat constructor; rewrite len_slice; lia.
    + rewrite join_app, slice_empty. cbn [mjoin list_join]. by rewrite !app_nil_r.
  - split_and!; try done; lia.
Qed.
Lemma ensure_spec n w :
  sok w → ready w = Open → 0 < n <= 4 → let w' := sQensureSpace n w in
  sok w' ∧ stream w' = stream w ∧ sQlen w' + n <= sQbufferSize w' ∧ ready w' = Open ∧ sQbufferSize w' = sQbufferSize w.
Proof.
  intros Hw Ho Hn w'. subst w'. unfold sQensureSpace. case_decide as Hc.
  - destruct (flush_spec w Hw Ho) as (Hw' & ? & Hl & ? & ?). split_and!; try done. destruct Hw'. lia.
  - split_and!; try done. lia.
Qed.

(** a handler of pushes: [l] is appended to the stream *)
Definition pushes (l : bytes) (w w' : websock) : Prop :=
  sok w' ∧ stream w' = stream w ++ l ∧ ready w' = Open ∧ sQbufferSize w' = sQbufferSize w.

Lemma slice_store i v a : 0 <= i < len a → slice 0 (i + 1) (store i v a) = slice 0 i a ++ [v mod 256].
Proof.
  unfold len, slice, store. intros Hi. rewrite !Z.sub_0_r, !drop_0.
  replace (Z.to_nat (i + 1)) with (S (Z.to_nat i)) by lia.
  rewrite (take_S_r _ _ (v mod 256)) by (apply list_lookup_insert_eq; lia). by rewrite take_insert_ge by lia.
Qed.
Lemma append_spec v w :
  sok w → sQlen w < sQbufferSize w → ready w = Open → pushes [v mod 256] w (sQappend v w).
Proof.
  intros [Hs Ha Hl Hm] Hlt Ho. unfold pushes. split_and!; [|unfold stream; cbn [sent sQlen sQ set_sQ sQappend]|done..].
  - split; simpl; try done; [|lia]. unfold store, len in *. by rewrite length_insert.
  - rewrite slice_store by lia. by rewrite (assoc_L (++)).
Qed.
Lemma append_len v w : sQlen (sQappend v w) = sQlen w + 1.
Proof. done. Qed.

(** the bytes of a number, most significant first *)
Fixpoint be_bytes (n : nat) (num : Z) : bytes :=
  match n with 0%nat => [] | S n => Z.shiftr num (8 * Z.of_nat n) mod 256 :: be_bytes n num end.
Lemma be_be_bytes n num : be (be_bytes n num) = num mod 2 ^ (8 * Z.of_nat n).
Proof.
  induction n as [|n IH]; [by rewrite Z.mod_1_r|]. cbn [be be_bytes]. rewrite IH.
  assert (len (be_bytes n num) = Z.of_nat n) as ->.
  { unfold len. f_equal. clear. induction n as [|n IH]; simpl; auto. }
  rewrite Z.shiftr_div_pow2 by lia. replace (8 * Z.of_nat (S n)) with (8 * Z.of_nat n + 8) by lia.
  rewrite Z.pow_add_r by lia. rewrite Z.rem_mul_r by (try apply Z.pow_nonzero; lia). change (2 ^ 8) with 256. lia.
Qed.

Lemma append_more l v w w' :
  pushes l w w' → sQlen w' < sQbufferSize w' → pushes (l ++ [v mod 256]) w (sQappend v w').
Proof.
  intros (Hok & Hst & Ho & Hsz) Hlt. destruct (append_spec v w' Hok Hlt Ho) as (? & Hst' & ? & ?).
  split_and!; [done| |done|congruence]. by rewrite Hst', Hst, (assoc_L (++)).
Qed.

Lemma push8_spec num w : sok w → ready w = Open → pushes [num mod 256] w (sQpush8 num w).
Proof.
  intros Hw Ho. destruct (ensure_spec 1 w Hw Ho ltac:(lia)) as (H1 & H2 & H3 & H4 & H5).
  apply (append_more [] num w (sQensureSpace 1 w)); [|lia]. split_and!; [done|by rewrite app_nil_r|done..].
Qed.
Lemma land_255 n : Z.land n 255 mod 256 = n mod 256.
Proof. change 255 with (Z.ones 8). rewrite Z.land_ones by lia. by rewrite Z.mod_mod. Qed.

Lemma push16_spec num w : sok w → ready w = Open → pushes (be_bytes 2 num) w (sQpush16 num w).
Proof.
  intros Hw Ho. destruct (ensure_spec 2 w Hw Ho ltac:(lia)) as (H1 & H2 & H3 & H4 & H5).
  unfold sQpush16. cbn [be_bytes]. simpl (8 * _). rewrite <- !(land_255 (Z.shiftr _ _)).
  apply (append_more [_]); [apply (append_more [])|]; [|rewrite ?append_len; simpl; lia..].
  split_and!; [done|by rewrite app_nil_r|done..].
Qed.
Lemma push32_spec num w : sok w → ready w = Open → pushes (be_bytes 4 num) w (sQpush32 num w).
Proof.
  intros Hw Ho. destruct (ensure_spec 4 w Hw Ho ltac:(lia)) as (H1 & H2 & H3 & H4 & H5).
  unfold sQpush32. cbn [be_bytes]. simpl (8 * _). rewrite <- !(land_255 (Z.shiftr _ _)).
  apply (append_more [_; _; _]); [apply (append_more [_; _]); [apply (append_more [_]); [apply (append_more [])|]|]|];
    [|rewrite ?append_len; simpl; lia..].
  split_and!; [done|by rewrite app_nil_r|done..].
Qed.

Lemma push_loop_spec fuel off b w :
  sok w → ready w = Open → 0 <= off <= len b → len b - off < Z.of_nat fuel →
  ∃ w', push_loop fuel off b w = Some w' ∧ pushes (drop (Z.to_nat off) b) w w'.
Proof.
  revert off w. induction fuel as [|fuel IH]; intros off w Hw Ho Hoff Hf; [lia|]. cbn [push_loop].
  case_decide as Hlt.
  - destruct (ensure_spec 1 w Hw Ho ltac:(lia)) as (H1 & H2 & H3 & H4 & H5). set (w1 := sQensureSpace 1 w) in *.
    set (n := Z.min (sQbufferSize w1 - sQlen w1) (len b - off)). pose proof H1 as [Hs Ha Hl Hm].
    assert (len (slice off (off + n) b) = n) as Hln by (rewrite len_slice; lia).
    destruct (put_fits (sQ w1) (slice off (off + n) b) (sQlen w1)) as [q Hq]; [lia|]. rewrite Hq.
    destruct (put_spec _ _ (sQlen w1) _ ltac:(lia) Hq) as (Hlq & Hsl & _). rewrite Hln in Hsl.
    set (w2 := set_sQ (sQlen w1 + n) q w1).
    assert (pushes (slice off (off + n) b) w w2) as (H6 & H7 & H8 & H9).
    { split_and!; [split; simpl; [done|lia|lia|done]| |done|done]. rewrite <- H2. unfold stream. subst w2.
      cbn [sent sQlen sQ set_sQ]. rewrite Hsl by lia. by rewrite (assoc_L (++)). }
    destruct (IH (off + n) w2 H6 H8 ltac:(lia) ltac:(lia)) as (w' & -> & H10 & H11 & H12 & H13).
    exists w'. split; [done|]. split_and!; [done| |done|congruence]. rewrite H11, H7, <- (assoc_L (++)). f_equal.
    assert (∀ s, 0 <= s <= len b → drop (Z.to_nat s) b = slice s (len b) b) as Hd.
    { intros s ?. unfold slice. symmetry. apply take_ge. rewrite length_drop. unfold len in *. lia. }
    rewrite !Hd by lia. symmetry. apply slice_split; lia.
  - exists w. split; [done|]. split_and!; [done| |done|done]. rewrite drop_ge; [by rewrite app_nil_r|]. unfold len in *. lia.
Qed.

(** with the channel not open and the queue full, the loop repeats itself *)
Lemma push_loop_stuck fuel b w :
  sok w → ready w ≠ Open → sQlen w = sQbufferSize w → b ≠ [] → push_loop fuel 0 b w = None.
Proof.
  intros [Hs Ha Hl Hm] Ho Hfull Hb. induction fuel as [|fuel IH]; [done|]. cbn [push_loop].
  assert (0 < len b) as Hlb by (destruct b; [done|]; rewrite len_cons; pose proof (len_nonneg b); lia).
  rewrite decide_True by done.
  assert (sQensureSpace 1 w = w) as -> by (unfold sQensureSpace, flush; case_decide; [by destruct (ready w)|done]).
  rewrite Hfull. replace (Z.min (sQbufferSize w - sQbufferSize w) (len b - 0)) with 0 by lia.
  rewrite slice_empty. unfold put. change (len []) with 0. rewrite decide_True by lia. cbn [app].
  rewrite !Z.add_0_r, take_drop. rewrite <- Hfull. by destruct w.
Qed.

Inductive push := P8 (n : Z) | P16 (n : Z) | P32 (n : Z) | PString (codes : bytes) | PBytes (b : bytes) | PFlush.
Definition do_push (p : push) (w : websock) : option websock :=
  match p with
  | P8 n => Some (sQpush8 n w) | P16 n => Some (sQpush16 n w) | P32 n => Some (sQpush32 n w)
  | PString l => sQpushString l w | PBytes b => sQpushBytes b w | PFlush => Some (flush w)
  end.
Fixpoint do_pushes (ps : list push) (w : websock) : option websock :=
  match ps with [] => Some w | p :: ps => match do_push p w with Some w => do_pushes ps w | None => None end end.
Definition pushed (p : push) : bytes :=
  match p with
  | P8 n => be_bytes 1 n | P16 n => be_bytes 2 n | P32 n => be_bytes 4 n
  | PString l => (λ c, c mod 256) <$> l | PBytes b => b | PFlush => []
  end.

Lemma do_push_spec p w : sok w → ready w = Open → ∃ w', do_push p w = Some w' ∧ pushes (pushed p) w w'.
Proof.
  intros Hw Ho. destruct p as [n|n|n|l|b|]; cbn [do_push pushed].
  - eexists. split; [done|]. cbn [be_bytes]. simpl (8 * _). rewrite Z.shiftr_0_r. by apply push8_spec.
  - eexists. split; [done|]. by apply push16_spec.
  - eexists. split; [done|]. by apply push32_spec.
  - unfold sQpushString, sQpushBytes. set (b := _ <$> l). apply (push_loop_spec _ 0 b); [done..| |];
      pose proof (len_nonneg b); unfold len in *; lia.
  - unfold sQpushBytes. apply (push_loop_spec _ 0 b); [done..| |]; pose proof (len_nonneg b); unfold len in *; lia.
  - eexists. split; [done|]. destruct (flush_spec w Hw Ho) as (? & ? & ? & ? & ?).
    split_and!; [done|by rewrite app_nil_r|done..].
Qed.

(** a number pushed past the end of the queue changes only its length *)
Definition past_end (w w' : websock) : Prop := len (sQ w) <= sQlen w' ∧ sQ w' = sQ w ∧ sent w' = sent w.
Lemma append_past_end v w w' : past_end w w' → past_end w (sQappend v w').
Proof.
  intros (H1 & H2 & H3). unfold past_end, sQappend. cbn [set_sQ sQ sQlen sent]. split_and!; [lia| |done].
  unfold store. rewrite list_insert_ge; [done|]. rewrite H2. unfold len in H1. lia.
Qed.
Lemma ensure_closed n w : ready w ≠ Open → sQensureSpace n w = w.
Proof. unfold sQensureSpace, flush. intros. case_decide; [|done]. by destruct (ready w). Qed.
Lemma number_dropped w n p :
  ready w ≠ Open → len (sQ w) <= sQlen w → p ∈ [P8 n; P16 n; P32 n] →
  ∃ w', do_push p w = Some w' ∧ sQ w' = sQ w ∧ sent w' = sent w.
Proof.
  intros Hr Hl Hp. assert (past_end w w) as Hw by done.
  assert (∃ w', do_push p w = Some w' ∧ past_end w w') as (w' & ? & _ & ? & ?); [|by exists w'].
  rewrite !elem_of_cons, elem_of_nil in Hp. destruct Hp as [->|[->|[->|[]]]]; (eexists; split; [done|]);
    unfold sQpush8, sQpush16, sQpush32; rewrite ensure_closed by done; by repeat apply append_past_end.
Qed.

(** C37: What is pushed is what is sent: on an open channel every push ends, the
    bytes pushed (numbers big-endian, as the receive queue reads them, texts
    one byte a character) leave in order, none lost and none twice, in
    non-empty messages no larger than the queue, and a flush leaves none
    behind.  On a channel that is not open, with the queue full, a push of
    bytes or of a text never ends (unless it is empty), and a push of a number
    ends with its bytes dropped: the queue's bytes and the messages stay as they
    are. *)
Theorem send_queue_sends_in_order w ps :
  sok w → ready w = Open →
  (∃ w', do_pushes ps w = Some w' ∧ sok w' ∧ ready w' = Open
     ∧ stream w' = stream w ++ mjoin (pushed <$> ps)
     ∧ Forall (λ m, 0 < len m <= sQbufferSize w) (sent w')
     ∧ mjoin (sent (flush w')) = stream w')
  ∧ (∀ n num, be (be_bytes n num) = num mod 2 ^ (8 * Z.of_nat n))
  ∧ (∀ s b fuel, s ≠ Open → b ≠ [] → sQlen w = sQbufferSize w → push_loop fuel 0 b (set_ready s w) = None)
  ∧ (∀ s n p, s ≠ Open → sQlen w = sQbufferSize w → p ∈ [P8 n; P16 n; P32 n] →
       ∃ w', do_push p (set_ready s w) = Some w' ∧ sQ w' = sQ w ∧ sent w' = sent w).
Proof.
  intros Hw Ho. split_and!; [|apply be_be_bytes| |].
  - revert w Hw Ho. induction ps as [|p ps IH]; intros w Hw Ho; cbn [do_pushes].
    + exists w. rewrite app_nil_r. split_and!; [done..|by destruct Hw|].
      destruct (flush_spec w Hw Ho) as (_ & Hs & Hl & _). rewrite <- Hs. unfold stream at 1.
      by rewrite Hl, slice_empty, app_nil_r.
    + destruct (do_push_spec p w Hw Ho) as (w1 & -> & H1 & H2 & H3 & H4).
      destruct (IH w1 H1 H3) as (w' & -> & H5 & H6 & H7 & H8 & H9). exists w'.
      rewrite H4 in H8. split_and!; [done..| |done|done]. rewrite H7, H2, <- (assoc_L (++)). done.
  - intros s b fuel Hs Hb Hf. apply push_loop_stuck; [|done..]. by destruct Hw.
  - intros s n p Hs Hf Hp. apply (number_dropped (set_ready s w) n); [done|destruct Hw; simpl; lia|done].
Qed.

(** ** A socket as [attach] leaves it *)
Lemma attach_ok s w :
  rQlen_ w = 0 → 0 <= rQbufferSize w <= MAX_RQ_GROW_SIZE → ok (attach s w) ∧ unread (attach s w) = [].
Proof.
  intros Hl Hs. unfold unread, attach, init, allocateBuffers. simpl. rewrite Hl. split; [|apply slice_empty].
  split; simpl; rewrite ?Hl, ?len_zeros; try lia. apply Forall_replicate. by vm_compute.
Qed.
Lemma attach_sok s w :
  sQlen w = 0 → 4 <= sQbufferSize w → sent w = [] → sok (attach s w) ∧ stream (attach s w) = [].
Proof.
  intros Hl Hs Hm. unfold stream, attach, init, allocateBuffers. simpl. rewrite Hl, Hm. split; [|by rewrite slice_empty].
  split; simpl; rewrite ?Hl, ?len_zeros, ?Hm; try lia. constructor.
Qed.

Section witnesses.
(** a small socket: a receive queue of 4 bytes, a send queue of 5 *)
Definition small : websock := attach Open (Websock 0 0 4 [] 5 0 [] Unused []).
Definition traffic : list op := [Recv [1; 2; 3]; Wait 4; Shift 2; Recv [4; 5; 6; 7]; Shift 4; Bytes 1; Wait 1].
Definition pushed_keys : list push := [P8 4; P8 (-1); P16 0; P32 0xff0d; PBytes [1; 2; 3; 4; 5; 6; 7]; PFlush].

Definition read : list out :=
  [Called true; Waits true; Num 0x0102; Called true; Num 0x03040506; Data [7]; Waits true].

(** the queue grows for the second message *)
Example grows : match run_ops perform traffic small with
                | Some (xs, w) => xs = read
                    ∧ rQbufferSize w = 40
                | None => False
                end
  ∧ sent <$> do_pushes pushed_keys small = Some [[4; 255; 0; 0]; [0; 0; 255; 13; 1]; [2; 3; 4; 5; 6]; [7]].
Proof. by vm_compute. Qed.
Example real_socket : ok (attach Open constructor) ∧ sok (attach Open constructor).
Proof. split; [by apply attach_ok|by apply attach_sok]. Qed.

Lemma receive_queue_is_a_fifo_witness :
  ∃ w', run_ops perform traffic small = Some (read, w') ∧ unread w' = [].
Proof.
  destruct (receive_queue_is_a_fifo small traffic read [] (proj1 (attach_ok Open (Websock 0 0 4 [] 5 0 [] Unused []) eq_refl ltac:(by vm_compute))) ltac:(by vm_compute))
    as (w' & H & _ & Hu & _).
  exists w'. exact (conj H Hu).
Defined.

Lemma send_queue_sends_in_order_witness :
  ∃ w', do_pushes pushed_keys small = Some w' ∧ mjoin (sent (flush w')) = [4; 255; 0; 0; 0; 0; 255; 13; 1; 2; 3; 4; 5; 6; 7].
Proof.
  destruct (send_queue_sends_in_order small pushed_keys (proj1 (attach_sok Open (Websock 0 0 4 [] 5 0 [] Unused []) eq_refl ltac:(by vm_compute) eq_refl)) eq_refl)
    as [(w' & H & _ & _ & Hs & _ & Hf) _].
  exists w'. split; [exact H|]. rewrite Hf, Hs. by vm_compute.
Defined.
End witnesses.
End Websock.
