(* ===== verification/Requests.v ===== *)
(** * Lists that follow a choice: [load_list] of static/js/create_instance.js

    A list is filled by the answer to a request for the current choice; a newer
    request aborts the older one, whose answer then never comes.  [T] is what
    is done once the list is filled. *)
From S2P Require Import Prelude.

Module Requests.
Section requests.
Context {T : Type}.
(** [list.request], and the requests that are out: for which choice, what
    follows, and whether it was aborted *)
Record requests := Requests_ {
  request : option nat;
  next_request : nat;
  out : gmap nat (string * T * bool) }.
Definition no_requests : requests := Requests_ None 0 ∅.

(** [list.request.abort()]: an answered one is no longer out *)
Definition abort_request (r : option nat) (m : gmap nat (string * T * bool)) : gmap nat (string * T * bool) :=
  match r with Some id => alter (λ f, (f.1, true)) id m | None => m end.
Definition load_list (choice : string) (t : T) (r : requests) : requests :=
  Requests_ (Some (next_request r)) (S (next_request r))
    (<[next_request r := (choice, t, false)]> (abort_request (request r) (out r))).
(** The answer or the failure of a request that was not aborted *)
Definition finish (id : nat) (r : requests) : requests := Requests_ (request r) (next_request r) (delete id (out r)).
Definition waits (id : nat) (choice : string) (t : T) (r : requests) : Prop := out r !! id = Some (choice, t, false).

(** The newest request is the only one that can still be answered. *)
Record newest (r : requests) : Prop := Newest {
  newest_fresh : ∀ id f, out r !! id = Some f → id < next_request r;
  newest_only : ∀ id choice t, waits id choice t r → request r = Some id }.

Lemma abort_waits r m id choice t :
  abort_request r m !! id = Some (choice, t, false) → m !! id = Some (choice, t, false) ∧ r ≠ Some id.
Proof.
  destruct r as [i|]; [|done]. simpl. destruct (decide (i = id)) as [->|Hn].
  - rewrite lookup_alter_eq. destruct (m !! id) as [[]|]; simpl; by intros [=].
  - rewrite lookup_alter_ne by done. split; [done|congruence].
Qed.
Lemma abort_out r m id f : abort_request r m !! id = Some f → is_Some (m !! id).
Proof.
  destruct r as [i|]; [|done]. simpl. destruct (decide (i = id)) as [->|Hn].
  - rewrite lookup_alter_eq. by destruct (m !! id).
  - by rewrite lookup_alter_ne.
Qed.

Lemma no_requests_newest : newest no_requests.
Proof. split; unfold waits; simpl; intros *; by rewrite lookup_empty. Qed.
Lemma load_newest choice t r : newest r → newest (load_list choice t r).
Proof.
  intros [Hf Ho]. split; unfold waits; simpl.
  - intros id f [[<- _]|[_ Ha]]%lookup_insert_Some; [lia|]. apply abort_out in Ha as [f' Ha]. apply Hf in Ha. lia.
  - intros id c t' [[<- _]|[_ [Ha Hid]%abort_waits]]%lookup_insert_Some; [done|]. by apply Ho in Ha.
Qed.
Lemma finish_newest id r : newest r → newest (finish id r).
Proof.
  intros [Hf Ho]. split; unfold waits; simpl; intros *; [intros [_ H]%lookup_delete_Some; eauto|].
  intros [_ H]%lookup_delete_Some. by eapply Ho.
Qed.
(** after a load only its own request is awaited, after its end none *)
Lemma load_waits id c t choice t' r :
  newest r → waits id c t (load_list choice t' r) → id = next_request r ∧ c = choice ∧ t = t'.
Proof.
  intros [_ Ho]. unfold waits. simpl.
  intros [[<- [= <- <-]]|[_ [Ha Hid]%abort_waits]]%lookup_insert_Some; [done|]. apply Ho in Ha. congruence.
Qed.
Lemma load_is_awaited choice t r : waits (next_request r) choice t (load_list choice t r).
Proof. unfold waits. simpl. by rewrite lookup_insert_eq. Qed.
Lemma finish_still_waits id id' c t r : waits id c t (finish id' r) → waits id c t r.
Proof. unfold waits. simpl. by intros [_ H]%lookup_delete_Some. Qed.
Lemma finish_waits id c t id' c' t' r :
  newest r → waits id c t r → waits id' c' t' (finish id r) → False.
Proof.
  intros [_ Ho] H H'. unfold waits in H'. simpl in H'. apply lookup_delete_Some in H' as [Hn H'].
  apply Ho in H, H'. congruence.
Qed.
End requests.
Arguments requests : clear implicits.
End Requests.
Export Requests.
#[export] Hint Resolve no_requests_newest load_newest finish_newest : core.
