(* ===== verification/CreateForm.v ===== *)
(** * The form that creates a VM: its rows, static/js/create_instance.js

    The rows of the chosen volumes and networks and the fields the server
    reads.  The pickers (Tom Select) tell the form which item was added or
    removed; their own list of chosen items is part of the state. *)
From S2P Require Import Prelude JsObject JsString Requests.
From Stdlib Require Import Ascii.

#[local] Open Scope string_scope.
#[local] Open Scope list_scope.

Module Rows.
(** a row of [#img-list] and of [#net-list]; [element] is the row itself *)
Record disk_row := Disk {
  d_element : nat; d_item : string; d_label : string;
  device_name : string; device : string;
  bus_name : string; bus : string; buses : list string;
  bus_requests : requests (option string);   (* then: the bus to select, of a refused form *)
  to_select : list string }.                 (* the selections jQuery runs next *)
Record net_row := Net { n_element : nat; n_item : string; n_label : string; mac : string }.
Record page := Page {
  img_list : list disk_row; net_list : list net_row;
  disk_items : list string; net_items : list string;   (* the pickers' chosen items *)
  images : string; networks : string; vm_mac : string; (* the fields that are sent *)
  next_row : nat;
  mac_requests : list nat }.                           (* the rows a random MAC is asked for *)

(** [select_value]: an option the list does not have is added *)
Definition select_value (value : string) (options : list string) : list string * string :=
  (if bool_decide (value ∈ options) then options else options ++ [value], value).

Definition sync_lists (s : page) : page :=
  Page
    (imap (λ i r, Disk (d_element r) (d_item r) ("hdd" +:+ JsString.of_int (Z.of_nat i))
                    ("device" +:+ JsString.of_int (Z.of_nat i)) (device r)
                    ("bus" +:+ JsString.of_int (Z.of_nat i)) (bus r) (buses r) (bus_requests r) (to_select r)) (img_list s))
    (imap (λ i r, Net (n_element r) (n_item r) ("eth" +:+ JsString.of_int (Z.of_nat i)) (mac r)) (net_list s))
    (disk_items s) (net_items s)
    (JsString.join "," (d_item <$> img_list s)) (JsString.join "," (n_item <$> net_list s))
    (JsString.join "," (mac <$> net_list s)) (next_row s) (mac_requests s).

Definition with_rows (d : list disk_row) (n : list net_row) (s : page) : page :=
  Page d n (disk_items s) (net_items s) (images s) (networks s) (vm_mac s) (next_row s) (mac_requests s).
Definition with_items (d n : list string) (s : page) : page :=
  Page (img_list s) (net_list s) d n (images s) (networks s) (vm_mac s) (next_row s) (mac_requests s).

Section form.
(** the fields of the page's row template: its device and its buses *)
Context (device0 : string) (buses0 : list string).

Definition add_disk_row (volume : string) (s : page) : page :=
  let row := Disk (next_row s) volume "" "" device0 "" (default "" (head buses0)) buses0 no_requests [] in
  sync_lists (Page (img_list s ++ [row]) (net_list s) (disk_items s) (net_items s) (images s) (networks s)
    (vm_mac s) (S (next_row s)) (mac_requests s)).
(** a network row without a MAC asks for a random one *)
Definition add_network_row (network m : string) (s : page) : page :=
  sync_lists (Page (img_list s) (net_list s ++ [Net (next_row s) network "" m]) (disk_items s) (net_items s)
    (images s) (networks s) (vm_mac s) (S (next_row s))
    (mac_requests s ++ if decide (m = "") then [next_row s] else [])).
(** [row_for(list, item)?.remove()]: the first row of the item *)
Fixpoint remove_first {A} (f : A → string) (item : string) (l : list A) : list A :=
  match l with
  | [] => []
  | x :: l => if decide (f x = item) then l else x :: remove_first f item l
  end.
Definition remove_disk (item : string) (s : page) : page :=
  sync_lists (with_rows (remove_first d_item item (img_list s)) (net_list s) s).
Definition remove_network (item : string) (s : page) : page :=
  sync_lists (with_rows (img_list s) (remove_first n_item item (net_list s)) s).

Definition on_disk (e : nat) (f : disk_row → disk_row) (s : page) : page :=
  with_rows ((λ r, if decide (d_element r = e) then f r else r) <$> img_list s) (net_list s) s.
Definition on_net (e : nat) (f : net_row → net_row) (s : page) : page :=
  with_rows (img_list s) ((λ r, if decide (n_element r = e) then f r else r) <$> net_list s) s.

Definition load_buses (disk_type : string) (then_select : option string) (r : disk_row) : disk_row :=
  Disk (d_element r) (d_item r) (d_label r) (device_name r) (device r) (bus_name r) "" []
    (load_list disk_type then_select (bus_requests r)) (to_select r).
Definition with_device (v : string) (r : disk_row) : disk_row :=
  Disk (d_element r) (d_item r) (d_label r) (device_name r) v (bus_name r) (bus r) (buses r) (bus_requests r) (to_select r).
Definition with_bus (l : list string) (v : string) (ts : list string) (rs : requests (option string)) (r : disk_row) : disk_row :=
  Disk (d_element r) (d_item r) (d_label r) (device_name r) (device r) (bus_name r) v l rs ts.
Definition buses_answered (id : nat) (data : list string) (r : disk_row) : disk_row :=
  match out (bus_requests r) !! id with
  | Some (_, then_select, false) =>
    with_bus data (default "" (head data)) (to_select r ++ match then_select with Some b => [b] | None => [] end)
      (finish id (bus_requests r)) r
  | _ => r
  end.
Definition buses_failed (id : nat) (r : disk_row) : disk_row :=
  with_bus (buses r) (bus r) (to_select r) (finish id (bus_requests r)) r.
(** the bus of a refused form is kept *)
Definition bus_selected (b : string) (r : disk_row) : disk_row :=
  let '(l, v) := select_value b (buses r) in with_bus l v (filter (λ x, x ≠ b) (to_select r)) (bus_requests r) r.

(** [restore_submitted]: the networks and volumes of a refused form, added
    to their pickers without the callbacks *)
Record sent_nic := Nic { nic_name : string; nic_mac : string }.
Record sent_disk := Sent { sent_volume : string; sent_device : string; sent_bus : string }.
Definition restore_nic (s : page) (n : sent_nic) : page :=
  let s := add_network_row (nic_name n) (nic_mac n) s in
  with_items (disk_items s) (net_items s ++ [nic_name n]) s.
Definition restore_disk (s : page) (d : sent_disk) : page :=
  let e := next_row s in
  let s := add_disk_row (sent_volume d) s in
  on_disk e (λ r, load_buses (sent_device d) (Some (sent_bus d)) (with_device (sent_device d) r))
    (with_items (disk_items s ++ [sent_volume d]) (net_items s) s).
(** Events: the pickers' callbacks, the rows' fields, and answers. *)
Inductive event :=
  | DiskAdded (volume : string) | DiskRemoved (volume : string)
  | NetAdded (network : string) | NetRemoved (network : string)
  | MacTyped (e : nat) (m : string)
  | MacAnswered (e : nat) (m : string)
  | DeviceChanged (e : nat) (d : string)
  | BusesAnswered (e id : nat) (data : list string) | BusesFailed (e id : nat)
  | BusSelected (e : nat) (b : string) | BusChosen (e : nat) (b : string)
  | VolumesLoaded (disks : list sent_disk).   (* of the pool of a refused form *)
Definition has_row (item : string) (l : list string) : bool := bool_decide (item ∈ l).
Definition step (s : page) (ev : event) : page :=
  match ev with
  | DiskAdded v =>
    let s := with_items (disk_items s ++ [v]) (net_items s) s in
    if has_row v (d_item <$> img_list s) then s else add_disk_row v s
  | DiskRemoved v => remove_disk v (with_items (filter (λ x, x ≠ v) (disk_items s)) (net_items s) s)
  | NetAdded v =>
    let s := with_items (disk_items s) (net_items s ++ [v]) s in
    if has_row v (n_item <$> net_list s) then s else add_network_row v "" s
  | NetRemoved v => remove_network v (with_items (disk_items s) (filter (λ x, x ≠ v) (net_items s)) s)
  | MacTyped e m => sync_lists (on_net e (λ r, Net (n_element r) (n_item r) (n_label r) m) s)
  | MacAnswered e m =>
    sync_lists (on_net e (λ r, Net (n_element r) (n_item r) (n_label r) (if decide (mac r = "") then m else mac r))
      (Page (img_list s) (net_list s) (disk_items s) (net_items s) (images s) (networks s) (vm_mac s) (next_row s)
        (filter (λ x, x ≠ e) (mac_requests s))))
  | DeviceChanged e d => on_disk e (λ r, load_buses d None (with_device d r)) s
  | BusesAnswered e id data => on_disk e (buses_answered id data) s
  | BusesFailed e id => on_disk e (buses_failed id) s
  | BusSelected e b => on_disk e (bus_selected b) s
  | BusChosen e b => on_disk e (λ r, with_bus (buses r) b (to_select r) (bus_requests r) r) s
  | VolumesLoaded disks => foldl restore_disk s disks
  end.
(** what the pickers and the server can do *)
Definition enabled (s : page) (ev : event) : Prop :=
  match ev with
  | DiskAdded v => v ∉ disk_items s
  | NetAdded v => v ∉ net_items s
  | DiskRemoved v => v ∈ disk_items s
  | NetRemoved v => v ∈ net_items s
  | MacTyped e _ => e ∈ n_element <$> net_list s
  | MacAnswered e _ => e ∈ mac_requests s
  | DeviceChanged e _ => e ∈ d_element <$> img_list s
  | BusSelected e b => ∃ r, r ∈ img_list s ∧ d_element r = e ∧ b ∈ to_select r
  | BusChosen e b => ∃ r, r ∈ img_list s ∧ d_element r = e ∧ b ∈ buses r
  | BusesAnswered _ _ _ | BusesFailed _ _ => True
  (* no volume is offered before *)
  | VolumesLoaded disks => disk_items s = [] ∧ NoDup (sent_volume <$> disks)
  end.

Definition empty_page : page := Page [] [] [] [] "" "" "" 0 [].
(** [add_first_network]: the host's "default" network, or its first one *)
Definition add_first_network (names : list string) : page :=
  match names with
  | [] => empty_page
  | n :: _ => step empty_page (NetAdded (if bool_decide ("default" ∈ names) then "default" else n))
  end.

Definition restore_submitted (nics : list sent_nic) : page := foldl restore_nic empty_page nics.

(** *** The fields are those of the rows *)
Record fields_ok (s : page) : Prop := Fields {
  f_images : images s = JsString.join "," (d_item <$> img_list s);
  f_networks : networks s = JsString.join "," (n_item <$> net_list s);
  f_macs : vm_mac s = JsString.join "," (mac <$> net_list s);
  f_disk : ∀ i r, img_list s !! i = Some r →
      d_label r = "hdd" +:+ JsString.of_int (Z.of_nat i) ∧ device_name r = "device" +:+ JsString.of_int (Z.of_nat i)
      ∧ bus_name r = "bus" +:+ JsString.of_int (Z.of_nat i);
  f_net : ∀ i r, net_list s !! i = Some r → n_label r = "eth" +:+ JsString.of_int (Z.of_nat i) }.
(** each chosen item has one row *)
Definition items_ok (s : page) : Prop :=
  NoDup (disk_items s) ∧ d_item <$> img_list s ≡ₚ disk_items s
  ∧ NoDup (net_items s) ∧ n_item <$> net_list s ≡ₚ net_items s.
Definition good (s : page) : Prop := fields_ok s ∧ items_ok s.

Lemma fmap_imap_same {A B} (f : A → B) (g : nat → A → A) l : (∀ i x, f (g i x) = f x) → f <$> imap g l = f <$> l.
Proof.
  intros H. rewrite fmap_imap. revert g H. induction l as [|x l IH]; intros g H; [done|].
  cbn. f_equal; [apply H|]. apply IH. intros i. apply (H (S i)).
Qed.
Lemma sync_good s : items_ok s → good (sync_lists s).
Proof.
  intros (H1 & H2 & H3 & H4). split; [split|split_and!]; simpl; rewrite ?fmap_imap_same by done; try done.
  - by intros i r (r' & Hr & ->)%list_lookup_imap_Some.
  - by intros i r (r' & Hr & ->)%list_lookup_imap_Some.
Qed.
(** an update of one row that leaves what is derived *)
Lemma on_disk_good e f s :
  (∀ r, d_item (f r) = d_item r ∧ d_label (f r) = d_label r ∧ device_name (f r) = device_name r ∧ bus_name (f r) = bus_name r) →
  good s → good (on_disk e f s).
Proof.
  intros Hf [[Hi Hn Hm Hd He] (H1 & H2 & H3 & H4)].
  assert (∀ r : disk_row, d_item (if decide (d_element r = e) then f r else r) = d_item r) as Hit.
  { intros r. case_decide; [by apply Hf|done]. }
  assert (d_item <$> ((λ r, if decide (d_element r = e) then f r else r) <$> img_list s) = d_item <$> img_list s) as E.
  { rewrite <- list_fmap_compose. apply list_fmap_ext. intros i r _. apply Hit. }
  split; [split|split_and!]; simpl; rewrite ?E; try done.
  intros i r (r' & -> & Hr)%list_lookup_fmap_Some. destruct (Hd i r' Hr) as (?&?&?).
  case_decide; [|done]. destruct (Hf r') as (_ & -> & -> & ->). done.
Qed.
Lemma on_net_items e f s : (∀ r, n_item (f r) = n_item r) → items_ok s → items_ok (on_net e f s).
Proof.
  intros Hf (H1 & H2 & H3 & H4). split_and!; simpl; try done. rewrite <- list_fmap_compose, <- H4.
  apply reflexive_eq, list_fmap_ext. intros i r _. simpl. by case_decide.
Qed.
Lemma remove_first_perm {A} (f : A → string) item (l : list A) :
  NoDup (f <$> l) → f <$> remove_first f item l ≡ₚ filter (λ x, x ≠ item) (f <$> l).
Proof.
  induction l as [|x l IH]; [done|]. rewrite fmap_cons. intros [Hx Hl]%NoDup_cons. simpl. case_decide as Hd.
  - rewrite filter_cons_False by by intros []. clear IH. subst item. apply reflexive_eq.
    assert (∀ k : list string, f x ∉ k → filter (λ y, y ≠ f x) k = k) as Hk; [|by rewrite Hk].
    induction k as [|y k IHk]; [done|]. intros [Hy Hk]%not_elem_of_cons. rewrite filter_cons_True by done. by rewrite IHk.
  - rewrite filter_cons_True by done. rewrite fmap_cons. by rewrite IH.
Qed.
Lemma filter_items item l l' : l ≡ₚ l' → NoDup l' → filter (λ x : string, x ≠ item) l ≡ₚ filter (λ x, x ≠ item) l' ∧ NoDup (filter (λ x, x ≠ item) l').
Proof. intros Hp Hn. split; [by rewrite Hp|]. by apply NoDup_filter. Qed.

Lemma without_item item l l' (f : list string) :
  f ≡ₚ filter (λ x, x ≠ item) l → l ≡ₚ l' → f ≡ₚ filter (λ x, x ≠ item) l'.
Proof. intros -> ->. done. Qed.
Lemma NoDup_snoc (l : list string) v : NoDup l → v ∉ l → NoDup (l ++ [v]).
Proof. intros H Hv. rewrite <- Permutation_cons_append. by constructor. Qed.

Lemma add_disk_good v s :
  items_ok s → v ∉ disk_items s → good (with_items (disk_items s ++ [v]) (net_items s) (add_disk_row v s)).
Proof.
  intros (H1 & H2 & H3 & H4) Hv. unfold add_disk_row.
  change (with_items ?d ?n (sync_lists ?x)) with (sync_lists (with_items d n x)). apply sync_good.
  split_and!; simpl; [by apply NoDup_snoc| |done|done]. rewrite fmap_app. by apply Permutation_app.
Qed.
Lemma add_network_good v m s :
  items_ok s → v ∉ net_items s → good (with_items (disk_items s) (net_items s ++ [v]) (add_network_row v m s)).
Proof.
  intros (H1 & H2 & H3 & H4) Hv. unfold add_network_row.
  change (with_items ?d ?n (sync_lists ?x)) with (sync_lists (with_items d n x)). apply sync_good.
  split_and!; simpl; [done|done|by apply NoDup_snoc|]. rewrite fmap_app. by apply Permutation_app.
Qed.
Lemma restore_nic_good s n : good s → nic_name n ∉ net_items s → good (restore_nic s n).
Proof. intros [_ Hi] Hn. unfold restore_nic. apply (add_network_good (nic_name n) (nic_mac n) s); done. Qed.
Lemma restore_disk_good s d : good s → sent_volume d ∉ disk_items s → good (restore_disk s d).
Proof.
  intros [_ Hi] Hd. unfold restore_disk. apply on_disk_good; [done|].
  by apply (add_disk_good (sent_volume d) s).
Qed.
Lemma restore_nics_good nics s :
  good s → NoDup (nic_name <$> nics) → (∀ n, n ∈ nic_name <$> nics → n ∉ net_items s) → good (foldl restore_nic s nics).
Proof.
  revert s. induction nics as [|n nics IH]; [done|]. intros s Hg [Hn Hnd]%NoDup_cons Hd. simpl.
  apply IH; [apply restore_nic_good; [done|]; apply Hd; by left|done|].
  intros m Hm. simpl. rewrite elem_of_app, list_elem_of_singleton. intros [Hin| ->]; [|done].
  apply (Hd m); [by right|done].
Qed.
Lemma restore_disks_good disks s :
  good s → NoDup (sent_volume <$> disks) → (∀ n, n ∈ sent_volume <$> disks → n ∉ disk_items s) → good (foldl restore_disk s disks).
Proof.
  revert s. induction disks as [|n disks IH]; [done|]. intros s Hg [Hn Hnd]%NoDup_cons Hd. simpl.
  apply IH; [apply restore_disk_good; [done|]; apply Hd; by left|done|].
  intros m Hm. simpl. rewrite elem_of_app, list_elem_of_singleton. intros [Hin| ->]; [|done].
  apply (Hd m); [by right|done].
Qed.

Lemma step_good s ev : good s → enabled s ev → good (step s ev).
Proof.
  intros Hg He. pose proof Hg as [Hf (H1 & H2 & H3 & H4)].
  destruct ev as [v|v|v|v|e m|e m|e d|e id data|e id|e b|e b|disks]; simpl in *.
  - unfold has_row. rewrite bool_decide_eq_false_2 by by rewrite H2.
    by apply (add_disk_good v s).
  - apply sync_good. split_and!; simpl; [by apply NoDup_filter| |done|done].
    eapply without_item; [|exact H2]. apply remove_first_perm. by rewrite H2.
  - unfold has_row. rewrite bool_decide_eq_false_2 by by rewrite H4.
    by apply (add_network_good v "" s).
  - apply sync_good. split_and!; simpl; [done|done|by apply NoDup_filter|].
    eapply without_item; [|exact H4]. apply remove_first_perm. by rewrite H4.
  - by apply sync_good, on_net_items.
  - by apply sync_good, on_net_items.
  - by apply on_disk_good.
  - apply on_disk_good; [|done]. intros r. unfold buses_answered. by destruct (_ !! _) as [[[]]|]; [case_match|].
  - by apply on_disk_good.
  - by apply on_disk_good.
  - by apply on_disk_good.
  - destruct He as [E Hd]. apply restore_disks_good; [done|done|]. intros n _. rewrite E. apply not_elem_of_nil.
Qed.
Lemma empty_good : good empty_page.
Proof. split; [split|split_and!]; simpl; try done; constructor. Qed.

(** The form is opened new, with the host's networks, or refused. *)
Inductive opened : page → Prop :=
  | opened_new names : opened (add_first_network names)
  | opened_refused nics : NoDup (nic_name <$> nics) → opened (restore_submitted nics).
Lemma opened_good s : opened s → good s.
Proof.
  intros [names|nics Hn].
  - destruct names as [|n names]; [apply empty_good|]. apply step_good; [apply empty_good|]. simpl. apply not_elem_of_nil.
  - apply restore_nics_good; [apply empty_good|done|]. intros n _. apply not_elem_of_nil.
Qed.
Lemma joined_parts l : Forall (λ s, "," ∉ chars s)%char l → l ≠ [] → JsString.split "," (JsString.join "," l) = l.
Proof. intros Hl Hn. by apply JsString.split_join. Qed.

(** The server gets the form that is shown: whatever is added, removed,
    typed or answered, each chosen volume and each chosen network has exactly
    one row; the i-th row's fields are named device<i> and bus<i>, and the
    fields [images], [networks] and [mac], taken apart at their commas, are
    the rows' volumes, networks and MAC addresses in the order of the rows (a
    name with a comma apart), so that each volume goes with its own device and
    bus, and each network with its own address. *)
Theorem sent_fields_are_the_rows s0 s :
  opened s0 → reachable enabled (silent step) s0 s →
  items_ok s
  ∧ (∀ i r, img_list s !! i = Some r → device_name r = "device" +:+ JsString.of_int (Z.of_nat i)
        ∧ bus_name r = "bus" +:+ JsString.of_int (Z.of_nat i))
  ∧ (Forall (λ r, "," ∉ chars (d_item r))%char (img_list s) → img_list s ≠ [] →
        JsString.split "," (images s) = d_item <$> img_list s)
  ∧ (Forall (λ r, "," ∉ chars (n_item r) ∧ "," ∉ chars (mac r))%char (net_list s) → net_list s ≠ [] →
        JsString.split "," (networks s) = n_item <$> net_list s ∧ JsString.split "," (vm_mac s) = mac <$> net_list s).
Proof.
  intros Ho Hr. assert (good s) as [[Hi Hn Hm Hd _] Hit].
  { revert s Hr. apply reachable_invariant; [by apply opened_good|]. intros s ev. apply step_good. }
  split_and!; [done|by intros i r (_ & ? & ?)%Hd|..].
  - intros Hc Hne. rewrite Hi. apply joined_parts; [by apply Forall_fmap|]. by destruct (img_list s).
  - intros [Hc1 Hc2]%Forall_and Hne. rewrite Hn, Hm. clear Hi Hn Hm Hit Hd.
    split; apply joined_parts; try (by apply Forall_fmap); by destruct (net_list s).
Qed.
End form.

Definition form_step := step "disk" ["virtio"; "sata"].
Definition sample_events : list event :=
  [MacAnswered 0 "52:54:00:00:00:01"; NetAdded "lan"; MacTyped 1 "52:54:00:00:00:02"; DiskAdded "a.img"; DiskAdded "b.img";
   DiskRemoved "a.img"; NetRemoved "default"].
Lemma sent_fields_are_the_rows_witness :
  let s := foldl form_step (add_first_network "disk" ["virtio"; "sata"] ["lan"; "default"]) sample_events in
  networks s = "lan" ∧ vm_mac s = "52:54:00:00:00:02" ∧ images s = "b.img" ∧ items_ok s.
Proof.
  intros s. split_and!; [by vm_compute..|].
  apply (sent_fields_are_the_rows "disk" ["virtio"; "sata"] (add_first_network "disk" ["virtio"; "sata"] ["lan"; "default"]));
    [apply opened_new|].
  apply reachable_allowed. cbn [allowed enabled sample_events].
  split_and!; try exact I; apply (bool_decide_unpack _); vm_compute; exact I.
Defined.
End Rows.
