(* ===== verification/CreateLists.v ===== *)
(** * The form that creates a VM: presets and templates

    static/js/create_instance.js.  Module [Presets]: the sizes, the disk source
    and the preset marked as applied.  Module [Templates]: the pool a template
    is taken from and the list of its templates. *)
From S2P Require Import Prelude JsObject JsString Requests.

#[local] Open Scope string_scope.
#[local] Open Scope list_scope.

Module Presets.
Record preset := Preset { label : string; p_vcpu : string; p_memory : string; p_disk : string }.
Record form := Form {
  vm_vcpu : string; vm_memory : string; vm_hdd_size : string;
  disk_source : string;                 (* the checked radio button *)
  sources : list (string * bool);       (* a source's fields: are they shown and sent? *)
  picker_enabled : bool;                (* [images_control] *)
  presets : list (preset * bool);       (* a button, and whether it is marked *)
  preset_status : string }.

Definition show_source (source : string) (s : form) : form :=
  Form (vm_vcpu s) (vm_memory s) (vm_hdd_size s) (disk_source s)
    ((λ f, (f.1, bool_decide (f.1 = source))) <$> sources s) (bool_decide (source = "existing"))
    (presets s) (preset_status s).
Definition clear_presets (s : form) : form :=
  Form (vm_vcpu s) (vm_memory s) (vm_hdd_size s) (disk_source s) (sources s) (picker_enabled s)
    ((λ b, (b.1, false)) <$> presets s) (preset_status s).
Definition status_text (p : preset) : string :=
  label p +:+ ": " +:+ p_vcpu p +:+ " vCPU, " +:+ p_memory p +:+ " MiB, new " +:+ p_disk p +:+ " GiB disk".
(** the button is the [i]-th one *)
Definition apply_preset (i : nat) (s : form) : form :=
  match presets s !! i with
  | Some (p, _) =>
    let s := Form (p_vcpu p) (p_memory p) (p_disk p) "new" (sources s) (picker_enabled s) (presets s) (preset_status s) in
    let s := clear_presets (show_source "new" s) in
    Form (vm_vcpu s) (vm_memory s) (vm_hdd_size s) (disk_source s) (sources s) (picker_enabled s)
      (<[i := (p, true)]> (presets s)) (status_text p)
  | None => s
  end.

Inductive form_event :=
  | PresetClicked (i : nat)
  | VcpuTyped (v : string) | MemoryTyped (v : string) | DiskTyped (v : string)
  | SourceChosen (v : string)
  | FlavorsReplied (l : list preset).   (* a flavor was added or deleted: the reply's presets *)
Definition form_step (s : form) (e : form_event) : form :=
  match e with
  | PresetClicked i => apply_preset i s
  | VcpuTyped v => clear_presets (Form v (vm_memory s) (vm_hdd_size s) (disk_source s) (sources s) (picker_enabled s) (presets s) (preset_status s))
  | MemoryTyped v => clear_presets (Form (vm_vcpu s) v (vm_hdd_size s) (disk_source s) (sources s) (picker_enabled s) (presets s) (preset_status s))
  | DiskTyped v => clear_presets (Form (vm_vcpu s) (vm_memory s) v (disk_source s) (sources s) (picker_enabled s) (presets s) (preset_status s))
  | SourceChosen v =>
    let s := show_source v (Form (vm_vcpu s) (vm_memory s) (vm_hdd_size s) v (sources s) (picker_enabled s) (presets s) (preset_status s)) in
    if decide (v ≠ "new") then clear_presets s else s
  | FlavorsReplied l =>
    Form (vm_vcpu s) (vm_memory s) (vm_hdd_size s) (disk_source s) (sources s) (picker_enabled s)
      ((λ p, (p, false)) <$> l) (preset_status s)
  end.
(** the page as the server sent it, set up *)
Definition opened_form (vcpu memory hdd source : string) (srcs : list string) (l : list preset) : form :=
  show_source source (Form vcpu memory hdd source ((λ x, (x, true)) <$> srcs) true ((λ p, (p, false)) <$> l) "").

(** What the form shows is what it sends. *)
Record form_ok (s : form) : Prop := FormOk {
  k_sources : ∀ x b, (x, b) ∈ sources s → b = bool_decide (x = disk_source s);
  k_picker : picker_enabled s = bool_decide (disk_source s = "existing");
  k_preset : ∀ i p, presets s !! i = Some (p, true) →
      vm_vcpu s = p_vcpu p ∧ vm_memory s = p_memory p ∧ vm_hdd_size s = p_disk p ∧ disk_source s = "new" }.

Lemma shown_sources (l : list (string * bool)) source x b :
  (x, b) ∈ (λ f : string * bool, (f.1, bool_decide (f.1 = source))) <$> l → b = bool_decide (x = source).
Proof. by intros ([] & [= -> ->] & _)%list_elem_of_fmap. Qed.
Lemma cleared (l : list (preset * bool)) i p : ((λ b : preset * bool, (b.1, false)) <$> l) !! i = Some (p, true) → False.
Proof. by intros ([] & [=] & _)%list_lookup_fmap_Some. Qed.

Lemma form_step_ok s e : form_ok s → form_ok (form_step s e).
Proof.
  intros Hok. pose proof Hok as [Hs Hp Hm]. destruct e as [i|v|v|v|v|l]; simpl.
  - unfold apply_preset. destruct (presets s !! i) as [[p b]|] eqn:Hi; [|done]. split; simpl.
    + intros x b'. apply shown_sources.
    + done.
    + intros j q [(<- & [= <-] & _)|[_ []%cleared]]%list_lookup_insert_Some. done.
  - split; simpl; [done|done|]. by intros i p []%cleared.
  - split; simpl; [done|done|]. by intros i p []%cleared.
  - split; simpl; [done|done|]. by intros i p []%cleared.
  - destruct (decide (v ≠ "new")) as [Hv|Hv]; split; simpl; try (intros x b; apply shown_sources); try done.
    + by intros i p []%cleared.
    + apply dec_stable in Hv as ->. intros i p Hi. destruct (Hm i p Hi) as (? & ? & ? & _). done.
  - split; simpl; [done|done|]. by intros i p (? & [=] & _)%list_lookup_fmap_Some.
Qed.
Lemma opened_form_ok vcpu memory hdd source srcs l : form_ok (opened_form vcpu memory hdd source srcs l).
Proof.
  split; simpl; [intros x b; apply shown_sources|done|]. by intros i p (? & [=] & _)%list_lookup_fmap_Some.
Qed.
(** A preset marked as applied is the one that is sent: the sizes are its sizes
    and the source is a new disk, until one of them is edited. *)
Lemma marked_preset_is_sent vcpu memory hdd source srcs l s :
  reachable (λ _ _, True) (silent form_step) (opened_form vcpu memory hdd source srcs l) s → form_ok s.
Proof.
  revert s. apply reachable_invariant; [apply opened_form_ok|]. intros s e Hs _. by apply form_step_ok.
Qed.
End Presets.

Module Templates.
Section templates.
(** the lists the server may answer with, for a pool *)
Context (lists : string → list string → Prop).
Record page := Page {
  template_pool : string;
  template_storage : string; storages : list string;   (* the pool the copy goes into, and its options *)
  options : list string; value : string;               (* [#template] *)
  loads : requests (option string);                    (* then: the template of a refused form *)
  to_select : list string }.

Definition load_templates (pool : string) (then_select : option string) (s : page) : page :=
  Page (template_pool s) (template_storage s) (storages s) [] "" (load_list pool then_select (loads s)) (to_select s).
Definition template_pool_chosen (pool : string) (s : page) : page :=
  load_templates pool None
    (Page pool pool (if bool_decide (pool ∈ storages s) then storages s else storages s ++ [pool])
       (options s) (value s) (loads s) (to_select s)).
Definition with_options (l : list string) (v : string) (r : requests (option string)) (ts : list string) (s : page) : page :=
  Page (template_pool s) (template_storage s) (storages s) l v r ts.
Inductive event :=
  | PoolChosen (pool : string) | StorageChosen (pool : string)
  | Answered (id : nat) (data : list string) | Failed (id : nat)
  | Selected (t : string) | Chosen (t : string).
Definition step (s : page) (e : event) : page :=
  match e with
  | PoolChosen pool => template_pool_chosen pool s
  | StorageChosen pool => Page (template_pool s) pool (storages s) (options s) (value s) (loads s) (to_select s)
  | Answered id data =>
    match out (loads s) !! id with
    | Some (_, then_select, false) =>
      with_options data (default "" (head data)) (finish id (loads s))
        (to_select s ++ match then_select with Some t => [t] | None => [] end) s
    | _ => s
    end
  | Failed id => with_options (options s) (value s) (finish id (loads s)) (to_select s) s
  | Selected t =>
    with_options (if bool_decide (t ∈ options s) then options s else options s ++ [t]) t (loads s)
      (filter (λ x, x ≠ t) (to_select s)) s
  | Chosen t => with_options (options s) t (loads s) (to_select s) s
  end.
Definition enabled (s : page) (e : event) : Prop :=
  match e with
  | PoolChosen _ => True
  | StorageChosen pool => pool ∈ storages s
  | Answered id data => ∃ pool t, waits id pool t (loads s) ∧ lists pool data
  | Failed id => is_Some (out (loads s) !! id)
  | Selected t => t ∈ to_select s
  | Chosen t => t ∈ options s
  end.
(** a new form waits for a pool to be chosen; a refused one loads its pool *)
Definition opened (pool storage : string) (pools : list string) (templ : option string) : page :=
  let s := Page pool storage pools [] "" no_requests [] in
  match templ with Some t => load_templates pool (Some t) s | None => s end.

(** a list of the pool, with the template of a refused form when it is not there *)
Definition of_pool (pool : string) (kept : option string) (l : list string) : Prop :=
  ∃ data, (data = [] ∨ lists pool data) ∧ (l = data ∨ ∃ t, kept = Some t ∧ l = data ++ [t]).
Record inv (kept : option string) (s : page) : Prop := Inv {
  i_newest : newest (loads s);
  i_wait : ∀ id pool t, waits id pool t (loads s) →
     pool = template_pool s ∧ (options s = [] ∨ ∃ t', kept = Some t' ∧ options s = [t']) ∧ (t = None ∨ t = kept);
  i_select : ∀ t, t ∈ to_select s → kept = Some t;
  i_pool : of_pool (template_pool s) kept (options s) }.

Lemma selected_of_pool kept t pool l : kept = Some t → of_pool pool kept l → of_pool pool kept (if bool_decide (t ∈ l) then l else l ++ [t]).
Proof.
  intros Hk (data & Hd & [->|(t' & Ht & ->)]); exists data; (split; [done|]); case_bool_decide as Hin; eauto.
  right. exists t'. split; [done|]. rewrite Hk in Ht. injection Ht as ->. destruct Hin. apply elem_of_app. right. by left.
Qed.
Lemma step_inv_templates kept s e : inv kept s → enabled s e → inv kept (step s e).
Proof.
  intros [Hn Hw Hs Hp] He. destruct e as [pool|pool|id data|id|t|t]; simpl in *.
  - split; simpl; [by apply load_newest| |done|exists []; eauto].
    intros id c t H. apply (load_waits _ _ _ _ _ _ Hn) in H as (_ & -> & ->). eauto.
  - split; simpl; eauto.
  - destruct He as (pool & t & Hwt & Hl). pose proof Hwt as Ho. unfold waits in Ho. rewrite Ho.
    destruct (Hw _ _ _ Hwt) as (-> & _ & Ht). split; simpl; [by apply finish_newest| | |].
    + intros id' c t' H. by destruct (finish_waits _ _ _ _ _ _ _ Hn Hwt H).
    + intros x [Hx|Hx]%elem_of_app; [by apply Hs|]. destruct t as [t|]; [|by apply not_elem_of_nil in Hx].
      apply list_elem_of_singleton in Hx as ->. by destruct Ht as [|<-].
    + exists data. eauto.
  - split; simpl; [by apply finish_newest| |done|done].
    intros id' c t' H%finish_still_waits. by apply (Hw id').
  - split; simpl; [done| | |].
    + intros id pool t' H. destruct (Hw _ _ _ H) as (-> & Ho & Ht). split_and!; [done| |done]. pose proof (Hs t He) as Hk.
      destruct Ho as [->|(t'' & Hk' & ->)]; [right; by exists t|].
      rewrite Hk in Hk'. injection Hk' as <-. right. exists t. split; [done|].
      rewrite bool_decide_eq_true_2 by by left. done.
    + intros x Hx. apply Hs. by apply list_elem_of_filter in Hx as [_ Hx].
    + by apply selected_of_pool; [apply Hs|].
  - split; simpl; eauto.
Qed.

(** An answer for another choice never fills the list: whatever the user
    chooses and in whatever order requests are answered or fail, the templates
    that are offered are those the server listed for the pool that is chosen
    now (and, in a refused form, the template it was sent with), and the one
    request that can still fill the list is for that pool, the list being
    empty until then. *)
Theorem templates_are_of_the_chosen_pool pool storage pools templ s :
  reachable enabled (silent step) (opened pool storage pools templ) s →
  of_pool (template_pool s) templ (options s)
  ∧ (∀ id c t, waits id c t (loads s) → c = template_pool s ∧ (options s = [] ∨ ∃ t', templ = Some t' ∧ options s = [t']))
  ∧ (∀ id c t id' c' t', waits id c t (loads s) → waits id' c' t' (loads s) → id' = id).
Proof.
  intros Hr. assert (inv templ s) as [Hn Hw _ Hp].
  { revert s Hr. apply reachable_invariant; [|by intros s e; apply step_inv_templates].
    assert (of_pool pool templ []) as H0 by (exists []; eauto).
    destruct templ as [t|]; split; simpl; try done; try (intros x []%not_elem_of_nil); try by apply load_newest, no_requests_newest.
    intros id c t' H. apply (load_waits _ _ _ _ _ _ no_requests_newest) in H as (_ & -> & ->). eauto. }
  split_and!; [done| |].
  - intros id c t H. by destruct (Hw _ _ _ H) as (? & ? & _).
  - intros * H H'. apply (newest_only _ Hn) in H, H'. congruence.
Qed.
End templates.

(** the answer for the first pool is late: it never comes *)
Lemma templates_are_of_the_chosen_pool_witness :
  let lists p l := p = "isos" ∧ l = ["b.qcow2"] in
  let s := foldl step (opened "" "default" ["default"] None) [PoolChosen "images"; PoolChosen "isos"; Answered 1 ["b.qcow2"]] in
  options s = ["b.qcow2"] ∧ storages s = ["default"; "images"; "isos"] ∧ of_pool lists (template_pool s) None (options s).
Proof.
  intros lists s. split_and!; [by vm_compute..|].
  apply (templates_are_of_the_chosen_pool lists "" "default" ["default"] None s). apply reachable_allowed.
  cbn [allowed enabled]. split_and!; try exact I. exists "isos", None. split; [by vm_compute|done].
Defined.
End Templates.
