(* ===== verification/XmlEditor.v ===== *)
(** * The VM page's XML editor: static/js/xml_editor.js

    The editor's text, the review dialog and the requests, whose answers come in
    any order; the rows of the dialog's diff. *)
From S2P Require Import Prelude JsObject JsString.
From Stdlib Require Import Ascii.

#[local] Open Scope string_scope.
#[local] Open Scope list_scope.

Module XmlEditor.
(** ** The rows of a diff *)
Fixpoint digits_of (s : string) : string * string :=
  match s with
  | EmptyString => ("", "")
  | String a r => if JsString.decimal a then let '(d, r) := digits_of r in (String a d, r) else ("", s)
  end.
(** [\d+] *)
Definition number (s : string) : option (string * string) :=
  match digits_of s with ("", _) => None | p => Some p end.
(** a text after a prefix *)
Definition after (p s : string) : option string :=
  if JsString.startsWith p s then Some (String.substring (String.length p) (String.length s) s) else None.
(** [/^@@ -\d+(?:,\d+)? \+(\d+)/]: the first line of the hunk *)
Definition hunk (line : string) : option string :=
  match after "@@ -" line with
  | Some r =>
    match number r with
    | Some (_, r) =>
      let r := match after "," r with
               | Some r' => match number r' with Some (_, r') => r' | None => r end
               | None => r
               end in
      match after " +" r with Some r => fst <$> number r | None => None end
    | None => None
    end
  | None => None
  end.
Record row := Row { textContent : string; className : string }.
Definition row_of (line_text : string) (line : string) : row :=
  match hunk line with
  | Some n => Row (JsString.replace_first "__line__" n line_text) "diff-hunk small text-body-secondary"
  | None => Row line (match line with
                      | String "+" _ => "diff-add text-success"
                      | String "-" _ => "diff-del text-danger"
                      | _ => ""
                      end)
  end.

(** ** The editor *)
Section editor.
(** [diff.dataset.line], and the page's text for a request that failed *)
Context (line_text failed : string).

(** the answer: a diff, whether it was saved, an error *)
Record answer := Answer { a_diff : list string; a_saved : bool; a_error : string }.
Record dialog := Dialog {
  error : string; same_shown : bool; save_shown : bool; save_disabled : bool; diff : list row; modal_shown : bool }.
Record page := Page {
  value : string;                  (* [editor.getValue()] *)
  base : string; reviewed : string; clean : string;
  review : dialog;
  next_post : nat;
  posts : gmap nat (string * bool) }.   (* sent and not answered: the XML, and whether Save sent it *)
Inductive effect := Post (inst_xml base : string) (confirm : bool) | Reload.

Definition load (xml : string) : page := Page xml xml "" xml (Dialog "" false false false [] false) 0 ∅.
Definition xmlEditUnsaved (s : page) : bool := bool_decide (value s ≠ clean s).

Definition show (a : answer) (d : dialog) : dialog :=
  let lines := a_diff a in
  Dialog (a_error a) (negb (bool_decide (a_error a ≠ "") || (0 <? length lines)%nat)) (0 <? length lines)%nat false
    (row_of line_text <$> drop 2 lines) (modal_shown d).
Definition with_review (d : dialog) (s : page) : page :=
  Page (value s) (base s) (reviewed s) (clean s) d (next_post s) (posts s).
Definition post (xml : string) (confirm : bool) (s : page) : page * list effect :=
  (Page (value s) (base s) (reviewed s) (clean s) (review s) (S (next_post s)) (<[next_post s := (xml, confirm)]> (posts s)),
   [Post xml (base s) confirm]).

Inductive event :=
  | Edited (xml : string) | Submitted | DialogHidden | SaveClicked
  | Answered (id : nat) (a : answer) | PostFailed (id : nat).
Definition saved_answer (a : answer) (s : page) : page * list effect :=
  if a_saved a then
    (Page (value s) (base s) (reviewed s) (reviewed s) (review s) (next_post s) (posts s), [Reload])
  else
    let d := review s in
    (with_review (Dialog (a_error a) (same_shown d) (save_shown d) false (diff d) (modal_shown d)) s, []).
Definition review_answer (xml : string) (a : answer) (s : page) : page * list effect :=
  let d := show a (review s) in
  (Page (value s) (base s) xml (clean s)
     (Dialog (error d) (same_shown d) (save_shown d) (save_disabled d) (diff d) true) (next_post s) (posts s), []).
Definition answered (id : nat) (a : answer) (s : page) : page * list effect :=
  match posts s !! id with
  | Some (xml, confirm) =>
    let s := Page (value s) (base s) (reviewed s) (clean s) (review s) (next_post s) (delete id (posts s)) in
    match confirm with true => saved_answer a s | false => review_answer xml a s end
  | None => (s, [])
  end.
Definition step (s : page) (e : event) : page * list effect :=
  match e with
  | Edited xml => (Page xml (base s) (reviewed s) (clean s) (review s) (next_post s) (posts s), [])
  | Submitted => post (value s) false s
  | DialogHidden =>
    let d := review s in
    (with_review (Dialog (error d) (same_shown d) (save_shown d) (save_disabled d) (diff d) false) s, [])
  | SaveClicked =>
    let d := review s in
    post (reviewed s) true (with_review (Dialog (error d) (same_shown d) (save_shown d) true (diff d) (modal_shown d)) s)
  | Answered id a => answered id a s
  | PostFailed id => answered id (Answer [] false failed) s
  end.

(** the answers the server may give to an XML, without and with [confirm] *)
Context (answers : string → bool → answer → Prop).
Definition enabled (s : page) (e : event) : Prop :=
  match e with
  | SaveClicked => modal_shown (review s) = true ∧ save_shown (review s) = true ∧ save_disabled (review s) = false
  | Answered id a => ∃ xml confirm, posts s !! id = Some (xml, confirm) ∧ answers xml confirm a
  | PostFailed id => is_Some (posts s !! id)
  | _ => True
  end.

(** What the dialog offers to save is what it shows: the diff is the answer to
    a review of the XML that Save sends. *)
Definition shows_reviewed (s : page) : Prop :=
  save_shown (review s) = true →
  ∃ a, answers (reviewed s) false a ∧ a_diff a ≠ [] ∧ diff (review s) = row_of line_text <$> drop 2 (a_diff a).

Lemma review_shows xml a s :
  (a_diff a = [] ∨ answers xml false a) → shows_reviewed (review_answer xml a s).1.
Proof.
  intros Ha Hs. simpl in *. exists a. destruct (a_diff a) as [|x l] eqn:E; [done|]. by destruct Ha.
Qed.
Lemma answered_shows id a s :
  shows_reviewed s → (a_diff a = [] ∨ ∀ xml, posts s !! id = Some (xml, false) → answers xml false a) →
  shows_reviewed (answered id a s).1.
Proof.
  intros Hs Ha. unfold answered. destruct (posts s !! id) as [[xml []]|]; [| |done].
  - unfold saved_answer. destruct (a_saved a); exact Hs.
  - apply review_shows. destruct Ha as [Ha|Ha]; [by left|right; by apply Ha].
Qed.
Lemma step_shows s e : shows_reviewed s → enabled s e → shows_reviewed (step s e).1.
Proof.
  intros Hs He. destruct e as [xml| | | |id a|id]; try exact Hs.
  - apply answered_shows; [done|]. right. destruct He as (xml & c & Hp & Ha). intros xml'. rewrite Hp. by intros [= <- ->].
  - apply answered_shows; [done|]. by left.
Qed.

(** Save defines the XML whose changes the dialog shows: in every order in
    which the text is edited, reviews are sent and their answers come, whenever
    Save can be clicked the lines in the dialog are the server's diff of one
    XML, and the click sends that XML, with the definition the editor opened
    with, and not a later edit; the editor's text changes only when it is
    edited. *)
Theorem save_sends_what_is_shown xml s :
  reachable enabled step (load xml) s →
  (enabled s SaveClicked →
    ∃ a, answers (reviewed s) false a ∧ a_diff a ≠ [] ∧ diff (review s) = row_of line_text <$> drop 2 (a_diff a)
         ∧ (step s SaveClicked).2 = [Post (reviewed s) (base s) true])
  ∧ base s = xml
  ∧ ∀ e, (∀ x, e ≠ Edited x) → value (step s e).1 = value s.
Proof.
  intros Hr. assert (shows_reviewed s ∧ base s = xml) as [Hs Hb].
  { revert s Hr. apply reachable_invariant; [done|]. intros s e [Hs Hb] He. split; [by apply step_shows|].
    destruct e as [x| | | |id a|id]; try done; simpl; unfold answered; destruct (posts s !! id) as [[y []]|]; try done;
      unfold saved_answer; by case_match. }
  split_and!; [|done|].
  - intros (_ & Hsh & _). destruct (Hs Hsh) as (a & Ha & Hd & E). by exists a.
  - intros e He. destruct e as [x| | | |id a|id]; try done; [by destruct (He x)|..];
      simpl; unfold answered; destruct (posts s !! id) as [[y []]|]; try done; unfold saved_answer; by case_match.
Qed.
End editor.

Definition header : list string := ["--- VM"; "+++ VM"].
Lemma save_sends_what_is_shown_witness :
  let answers xml (confirm : bool) a := confirm = false ∧ a = Answer (header ++ ["@@ -1,9 +2,9 @@"; "+<" +:+ xml +:+ "/>"]) false "" in
  let s := (run (step "Line __line__" "failed") (load "a") [Edited "b"; Submitted; Edited "c";
    Answered 0 (Answer (header ++ ["@@ -1,9 +2,9 @@"; "+<b/>"]) false "")]).1 in
  textContent <$> diff (review s) = ["Line 2"; "+<b/>"]
  ∧ (step "Line __line__" "failed" s SaveClicked).2 = [Post "b" "a" true] ∧ base s = "a".
Proof.
  intros answers s. split_and!; [by vm_compute..|].
  apply (save_sends_what_is_shown "Line __line__" "failed" answers "a" s).
  assert (∀ s e, enabled answers s e → reachable (enabled answers) (step "Line __line__" "failed") (load "a") s →
    reachable (enabled answers) (step "Line __line__" "failed") (load "a") (step "Line __line__" "failed" s e).1) as Hgo.
  { intros. by apply reachable_step. }
  unfold s. refine (Hgo (run (step "Line __line__" "failed") (load "a") [Edited "b"; Submitted; Edited "c"]).1 (Answered 0 _) _ _).
  { exists "b", false. split; [by vm_compute|done]. }
  refine (Hgo (run (step "Line __line__" "failed") (load "a") [Edited "b"; Submitted]).1 (Edited "c") I _).
  refine (Hgo (run (step "Line __line__" "failed") (load "a") [Edited "b"]).1 Submitted I _).
  refine (Hgo (load "a") (Edited "b") I _). apply reachable_init.
Defined.

(** The answer to Save marks as saved what was reviewed last, not what Save
    sent: an XML reviewed between the click and its answer counts as saved,
    and the page reloads over it without asking. *)
Example later_review_counts_as_saved :
  let r := run (step "" "") (load "a") [Edited "b"; Submitted; Answered 0 (Answer (header ++ ["+b"]) false ""); SaveClicked; DialogHidden;
    Edited "c"; Submitted; Answered 2 (Answer (header ++ ["+c"]) false ""); Answered 1 (Answer [] true "")] in
  r.2 = [Post "b" "a" false; Post "b" "a" true; Post "c" "a" false; Reload] ∧ value r.1 = "c" ∧ xmlEditUnsaved r.1 = false.
Proof. by vm_compute. Qed.
Example hunks :
  hunk "@@ -1,9 +12,8 @@" = Some "12" ∧ hunk "@@ -7 +8 @@" = Some "8" ∧ hunk "+ <disk/>" = None
  ∧ row_of "Line __line__" "@@ -1,9 +12,8 @@" = Row "Line 12" "diff-hunk small text-body-secondary".
Proof. by vm_compute. Qed.
End XmlEditor.
