(* ===== verification/Charts.v ===== *)
(** * The live charts: static/js/charts.js, host_graphs.js, instance_stats.js

    The points a chart keeps, and what the answers to the polls of the host
    overview and of the VM's Stats tab do to their charts.  The readings are of
    an arbitrary type [V]; the numbers of memory are exact. *)
From S2P Require Import Prelude JsObject JsString.

#[local] Open Scope string_scope.
#[local] Open Scope list_scope.

Module Charts.
Definition CHART_POINTS : nat := 10.

(** ** The last points *)
(** [push], then [shift] while there are too many *)
Definition push_point {A} (l : list A) (x : A) : list A :=
  let l := l ++ [x] in if (CHART_POINTS <? length l)%nat then drop 1 l else l.
Definition last_points {A} (l : list A) : list A := drop (length l - CHART_POINTS) l.

Lemma push_last {A} (h : list A) x : push_point (last_points h) x = last_points (h ++ [x]).
Proof.
  unfold push_point, last_points. rewrite !length_app, length_drop. simpl length.
  destruct (decide (CHART_POINTS <= length h)) as [Hl|Hl].
  - rewrite (proj2 (Nat.ltb_lt _ _)) by lia. rewrite <- drop_app_le by lia. rewrite drop_drop. f_equal. lia.
  - rewrite (proj2 (Nat.ltb_ge _ _)) by lia. rewrite <- drop_app_le by lia. f_equal. lia.
Qed.
Lemma last_points_fmap {A B} (f : A → B) l : f <$> last_points l = last_points (f <$> l).
Proof. unfold last_points. by rewrite fmap_drop, length_fmap. Qed.
Lemma last_points_length {A} (l : list A) : length (last_points l) = length l `min` CHART_POINTS.
Proof. unfold last_points. rewrite length_drop. lia. Qed.

Section charts.
Context {V : Type}.
(** a chart: its labels, its lines and the top of its axis *)
Record chart := Chart { labels : list string; datasets : list (list (option V)); y_max : option Z }.
Definition lineChart (lines : nat) (max : option Z) : chart := Chart [] (replicate lines []) max.
(** [addPoint]: [labels] and every line drop their first point together *)
Definition addPoint (label : string) (values : list (option V)) (c : chart) : chart :=
  let full := (CHART_POINTS <? length (labels c ++ [label]))%nat in
  Chart (if full then drop 1 (labels c ++ [label]) else labels c ++ [label])
    (imap (λ i set, let set := set ++ [mjoin (values !! i)] in if full then drop 1 set else set) (datasets c))
    (y_max c).
Definition with_max (m : Z) (c : chart) : chart := Chart (labels c) (datasets c) (Some m).

(** What a chart shows of the points it was given. *)
Definition shows (points : list (string * list (option V))) (c : chart) : Prop :=
  labels c = last_points (fst <$> points)
  ∧ ∀ i set, datasets c !! i = Some set → set = last_points ((λ p : string * list (option V), mjoin (p.2 !! i)) <$> points).

Lemma lineChart_shows n m : shows [] (lineChart n m).
Proof. split; [done|]. simpl. intros i set [-> _]%lookup_replicate. done. Qed.
Lemma addPoint_shows points label values c :
  shows points c → shows (points ++ [(label, values)]) (addPoint label values c).
Proof.
  intros [Hl Hs]. unfold addPoint. split; simpl.
  - rewrite Hl, fmap_app. simpl. rewrite <- push_last. done.
  - intros i set (set' & Hi & ->)%list_lookup_imap_Some. specialize (Hs i set' Hi). subst set'.
    rewrite fmap_app. simpl. rewrite <- push_last. unfold push_point.
    rewrite Hl, !length_app, !last_points_length, !length_fmap. done.
Qed.
Lemma with_max_shows points m c : shows points c → shows points (with_max m c).
Proof. done. Qed.

(** ** The host overview *)
(** tenths of a GB, exactly *)
Definition gb (bytes : Z) : Z := (bytes * 10 * 2 + 2 ^ 30) / 2 ^ 31.
Record host_answer := HostAnswer {
  h_timeline : string; h_cpudata : option V; h_window : option V; h_sample : option V;
  h_usage : Z; h_total : Z }.
Context (of_tenths : Z → V).
Record host_page := HostPage {
  cpuWindows : list (option V); cpuChart : chart; memChart : chart;
  cpuNow : option V; memNow : option (Z * Z); lastUpdate : string;
  cpuSample : option V;
  stale_since : option string;       (* the warning, and since when *)
  updated_at : option string }.
Definition host_start : host_page :=
  HostPage [] (lineChart 1 (Some 100%Z)) (lineChart 1 None) None None "–" None None None.
Definition stale (s : host_page) : host_page :=
  HostPage (cpuWindows s) (cpuChart s) (memChart s) (cpuNow s) (memNow s) (lastUpdate s) (cpuSample s)
    (Some (lastUpdate s)) None.
Definition host_graph (d : host_answer) (s : host_page) : host_page :=
  let s := HostPage (push_point (cpuWindows s) (h_window d)) (addPoint (h_timeline d) [h_cpudata d] (cpuChart s)) (memChart s)
             (cpuNow s) (memNow s) (lastUpdate s) (h_sample d) (stale_since s) (updated_at s) in
  let s :=
    if decide (h_total d ≠ 0%Z) then
      HostPage (cpuWindows s) (cpuChart s)
        (addPoint (h_timeline d) [Some (of_tenths (gb (h_usage d)))] (with_max (gb (h_total d)) (memChart s)))
        (cpuNow s) (Some (gb (h_usage d), gb (h_total d))) (lastUpdate s) (cpuSample s) (stale_since s) (updated_at s)
    else
      HostPage (cpuWindows s) (cpuChart s) (addPoint (h_timeline d) [None] (memChart s))
        (cpuNow s) (memNow s) (lastUpdate s) (cpuSample s) (stale_since s) (updated_at s) in
  match h_cpudata d with
  | None => stale s
  | Some v => HostPage (cpuWindows s) (cpuChart s) (memChart s) (Some v) (memNow s) (h_timeline d) (cpuSample s)
                None (Some (h_timeline d))
  end.
(** an answer, or a poll that failed *)
Definition host_step (s : host_page) (e : option host_answer) : host_page :=
  match e with Some d => host_graph d s | None => stale s end.

(** ** The Stats tab of a VM *)
Record device := Device { dev : string; data : list (option V) }.   (* a disk's name or a NIC's MAC *)
Record stats_answer := StatsAnswer {
  timeline : string; cpudata : option V; window : option V; sample : option V;
  used : Z; total : Z; blkdata : list device; netdata : list device }.
Record stats_page := StatsPage {
  windows : list (option V); sample_sent : option V;
  cpu : chart; mem : chart; disks : obj chart; nics : obj chart;
  cpu_now : option V; mem_now : option (Z * Z);   (* [cpuNow], [memNow]; none: empty *)
  now : gmap string (list (option V)) }.   (* the readings above the charts, by element *)
(** [Math.round(n / 1024)] *)
Definition mib (n : Z) : Z := (n * 2 + 1024) / 2048.
Definition charts_of (lines : nat) (names : list string) : obj chart :=
  foldl (λ o n, if JsObj.has n o then o else JsObj.set n (lineChart lines None) o) [] names.
Definition stats_start (disk_names macs : list string) : stats_page :=
  StatsPage [] None (lineChart 1 (Some 100%Z)) (lineChart 1 None) (charts_of 2 disk_names) (charts_of 2 macs) None None ∅.
(** a device without a chart is left out *)
Definition push_device (t : string) (o : obj chart) (d : device) : obj chart :=
  match JsObj.get (dev d) o with Some c => JsObj.set (dev d) (addPoint t (data d) c) o | None => o end.
Definition push_now (prefix : string) (o : obj chart) (m : gmap string (list (option V))) (d : device) : gmap string (list (option V)) :=
  match JsObj.get (dev d) o with Some _ => <[prefix +:+ dev d +:+ "Now" := data d]> m | None => m end.
Definition graph_usage (d : stats_answer) (s : stats_page) : stats_page :=
  StatsPage (push_point (windows s) (window d)) (sample d)
    (addPoint (timeline d) [cpudata d] (cpu s))
    (if decide (total d ≠ 0%Z) then
       addPoint (timeline d) [Some (of_tenths (10 * mib (used d)))] (with_max (mib (total d) `max` mib (used d)) (mem s))
     else addPoint (timeline d) [None] (mem s))
    (foldl (push_device (timeline d)) (disks s) (blkdata d))
    (foldl (push_device (timeline d)) (nics s) (netdata d))
    (cpudata d) (if decide (total d ≠ 0%Z) then Some (mib (used d), mib (total d)) else None)
    (foldl (push_now "net" (nics s)) (foldl (push_now "blk" (disks s)) (now s) (blkdata d)) (netdata d)).
(** a poll that failed: the next answer averages over a default span *)
Definition stats_failed (s : stats_page) : stats_page :=
  StatsPage (windows s) None (cpu s) (mem s) (disks s) (nics s) (cpu_now s) (mem_now s) (now s).
Definition stats_step (s : stats_page) (e : option stats_answer) : stats_page :=
  match e with Some d => graph_usage d s | None => stats_failed s end.
(** the points a device's chart was given by the answers *)
Definition points_of (n : string) (f : stats_answer → list device) (h : list stats_answer) : list (string * list (option V)) :=
  mbind (λ d, (λ x, (timeline d, data x)) <$> filter (λ x, dev x = n) (f d)) h.

Lemma push_devices t n l o c pts :
  JsObj.get n o = Some c → shows pts c →
  ∃ c', JsObj.get n (foldl (push_device t) o l) = Some c'
    ∧ shows (pts ++ ((λ x, (t, data x)) <$> filter (λ x, dev x = n) l)) c'.
Proof.
  revert o c pts. induction l as [|d l IH]; intros o c pts Hg Hs; simpl.
  - exists c. by rewrite app_nil_r.
  - unfold push_device at 2. destruct (decide (dev d = n)) as [Hd|Hd].
    + rewrite filter_cons_True by done. rewrite Hd, Hg.
      destruct (IH (JsObj.set n (addPoint t (data d) c) o) (addPoint t (data d) c) (pts ++ [(t, data d)])) as (c' & Hc & Hs').
      * apply JsObj.get_set_eq.
      * by apply addPoint_shows.
      * exists c'. by rewrite <- app_assoc in Hs'.
    + rewrite filter_cons_False by done. destruct (JsObj.get (dev d) o) as [c0|]; [|by eapply IH].
      eapply IH; [|done]. rewrite JsObj.get_set. by rewrite decide_False.
Qed.
Definition same_keys {A B} (o : obj A) (o' : obj B) : Prop := ∀ n, is_Some (JsObj.get n o) ↔ is_Some (JsObj.get n o').
Lemma push_devices_keys t l o : same_keys (foldl (push_device t) o l) o.
Proof.
  revert o. induction l as [|d l IH]; intros o n; simpl; [done|]. rewrite (IH _ n). unfold push_device.
  destruct (JsObj.get (dev d) o) as [c|] eqn:E; [|done]. rewrite JsObj.get_set. case_decide as Hn; [|done].
  subst n. rewrite E. split; by eexists.
Qed.

(** The charts of a group of devices show the points the answers gave them. *)
Definition show_devices (f : stats_answer → list device) (h : list stats_answer) (o : obj chart) : Prop :=
  ∀ n c, JsObj.get n o = Some c → shows (points_of n f h) c.
Lemma devices_step f h d o :
  show_devices f h o → show_devices f (h ++ [d]) (foldl (push_device (timeline d)) o (f d)).
Proof.
  intros Hs n c Hg. destruct (proj1 (push_devices_keys (timeline d) (f d) o n) (mk_is_Some _ _ Hg)) as [c0 Hc0].
  destruct (push_devices (timeline d) n (f d) o c0 (points_of n f h) Hc0 (Hs _ _ Hc0)) as (c' & Hc' & Hs').
  rewrite Hg in Hc'. injection Hc' as <-. unfold points_of in *. rewrite bind_app. simpl. by rewrite app_nil_r.
Qed.
Lemma charts_of_start f lines names : show_devices f [] (charts_of lines names).
Proof.
  unfold charts_of, show_devices. cut (∀ o : obj chart, (∀ n c, JsObj.get n o = Some c → shows [] c) →
    ∀ n c, JsObj.get n (foldl (λ o n, if JsObj.has n o then o else JsObj.set n (lineChart lines None) o) o names) = Some c → shows [] c).
  { intros H. apply H. by intros n c. }
  induction names as [|m names IH]; intros o Ho; [done|]. simpl. apply IH. intros n c.
  destruct (JsObj.has m o); [apply Ho|]. rewrite JsObj.get_set. case_decide; [|apply Ho].
  intros [= <-]. apply lineChart_shows.
Qed.

Record stats_ok (h : list stats_answer) (s : stats_page) : Prop := StatsOk {
  o_windows : windows s = last_points (window <$> h);
  o_cpu : shows ((λ d, (timeline d, [cpudata d])) <$> h) (cpu s);
  o_mem : shows ((λ d, (timeline d, [if decide (total d = 0%Z) then None else Some (of_tenths (10 * mib (used d)))])) <$> h) (mem s);
  o_disks : show_devices blkdata h (disks s);
  o_nics : show_devices netdata h (nics s) }.
Lemma graph_usage_ok h d s : stats_ok h s → stats_ok (h ++ [d]) (graph_usage d s).
Proof.
  intros [Hw Hc Hm Hd Hn]. split; simpl.
  - by rewrite Hw, push_last, fmap_app.
  - rewrite fmap_app. by apply addPoint_shows.
  - rewrite fmap_app. simpl. destruct (decide (total d = 0%Z)) as [E|E].
    + rewrite decide_False by auto. by apply addPoint_shows.
    + rewrite decide_True by done. by apply addPoint_shows, with_max_shows.
  - by apply devices_step.
  - by apply devices_step.
Qed.
Lemma stats_run_ok disk_names macs es : stats_ok (omap id es) (foldl stats_step (stats_start disk_names macs) es).
Proof.
  assert (∀ h s, stats_ok h s → stats_ok (h ++ omap id es) (foldl stats_step s es)) as H.
  { induction es as [|e es IH]; intros h s Hs; [by rewrite app_nil_r|]. simpl. destruct e as [d|]; simpl.
    - change (d :: list_omap _ _ _ _) with ([d] ++ omap id es). rewrite app_assoc.
      by apply IH, graph_usage_ok.
    - apply IH. by destruct Hs. }
  apply (H []). split; simpl; try done; try apply lineChart_shows; apply charts_of_start.
Qed.

(** The charts show the last ten answers: after any answers and failed
    polls, the Stats tab's CPU and memory charts hold a point for each of the
    last ten answers, in order, a gap where a reading is missing, and each
    disk's and NIC's chart the last ten readings the answers had for it; the
    span a CPU point's tooltip names is that of the answer the point came
    from; the next request sends the last answer's sample, and none after a
    failed poll. *)
Theorem charts_show_the_last_answers disk_names macs es :
  let s := foldl stats_step (stats_start disk_names macs) es in
  let h := omap id es in
  shows ((λ d, (timeline d, [cpudata d])) <$> h) (cpu s)
  ∧ shows ((λ d, (timeline d, [if decide (total d = 0%Z) then None else Some (of_tenths (10 * mib (used d)))])) <$> h) (mem s)
  ∧ (∀ n c, JsObj.get n (disks s) = Some c → shows (points_of n blkdata h) c)
  ∧ (∀ n c, JsObj.get n (nics s) = Some c → shows (points_of n netdata h) c)
  ∧ (∀ i, labels (cpu s) !! i = timeline <$> last_points h !! i ∧ windows s !! i = window <$> last_points h !! i)
  ∧ sample_sent s = mjoin (sample <$> mjoin (last es)).
Proof.
  intros s h. pose proof (stats_run_ok disk_names macs es) as [Hw Hc Hm Hd Hn]. fold s in Hw, Hc, Hm, Hd, Hn.
  split_and!; [done..| |].
  - destruct Hc as [Hl _]. intros i. rewrite Hl, Hw, <- list_fmap_compose, <- !last_points_fmap, !list_lookup_fmap. done.
  - unfold s. destruct es as [|e es _] using rev_ind; [done|]. rewrite foldl_snoc, last_snoc. by destruct e.
Qed.

(** The host overview: the same, and what it says of a failed poll. *)
Record host_ok (h : list host_answer) (s : host_page) : Prop := HostOk {
  ho_windows : cpuWindows s = last_points (h_window <$> h);
  ho_cpu : shows ((λ d, (h_timeline d, [h_cpudata d])) <$> h) (cpuChart s) }.
Lemma host_graph_ok h d s : host_ok h s → host_ok (h ++ [d]) (host_graph d s).
Proof.
  intros [Hw Hc]. unfold host_graph. split; destruct (decide _), (h_cpudata d) eqn:E; simpl;
    rewrite ?Hw, ?push_last, ?fmap_app; try done; simpl; rewrite ?E; by apply addPoint_shows.
Qed.
Lemma host_run_ok es : host_ok (omap id es) (foldl host_step host_start es).
Proof.
  assert (∀ h s, host_ok h s → host_ok (h ++ omap id es) (foldl host_step s es)) as H.
  { induction es as [|e es IH]; intros h s Hs; [by rewrite app_nil_r|]. simpl. destruct e as [d|]; simpl.
    - change (d :: list_omap _ _ _ _) with ([d] ++ omap id es). rewrite app_assoc.
      by apply IH, host_graph_ok.
    - apply IH. by destruct Hs. }
  apply (H []). split; [done|]. apply lineChart_shows.
Qed.
(** the warning is there exactly when the last poll gave no CPU reading, and
    says the time of the last one that did *)
Lemma stale_since_last_reading (s : host_page) e :
  match e with
  | Some d => if decide (is_Some (h_cpudata d)) then stale_since (host_step s e) = None ∧ lastUpdate (host_step s e) = h_timeline d
              else stale_since (host_step s e) = Some (lastUpdate s)
  | None => stale_since (host_step s e) = Some (lastUpdate s)
  end.
Proof.
  destruct e as [d|]; [|done]. simpl. unfold host_graph. case_decide as H.
  - destruct H as [v ->]. by case_decide.
  - destruct (h_cpudata d); [by destruct H|]. by case_decide.
Qed.
End charts.
Arguments chart : clear implicits.
Arguments host_page : clear implicits.
Arguments stats_page : clear implicits.
Arguments stats_answer : clear implicits.
Arguments host_answer : clear implicits.
End Charts.
