(* ===== verification/FindAddress.v ===== *)
(** * Find by address: static/js/find_address.js

    What the dialog takes for an address, what it says about its search, the
    rows of an answer, and the one request at a time. *)
From S2P Require Import Prelude JsObject JsString.
From Stdlib Require Import Ascii.

#[local] Open Scope string_scope.
#[local] Open Scope list_scope.

Module FindAddress.
(** ** MAC addresses: [/^\[0-9a-f\]{2}(\[:-\]?)\[0-9a-f\]{2}(\1\[0-9a-f\]{2}){4}$/i] *)
Definition hex_digit (a : ascii) : bool :=
  let n := nat_of_ascii a in
  (48 <=? n)%nat && (n <=? 57)%nat || (65 <=? n)%nat && (n <=? 70)%nat || (97 <=? n)%nat && (n <=? 102)%nat.
(** two digits, and what follows them *)
Definition hex2 (s : string) : option string :=
  match s with
  | String a (String b r) => if hex_digit a && hex_digit b then Some r else None
  | _ => None
  end.
Definition separator (s : string) : string * string :=
  match s with
  | String ":" r => (":", r)
  | String "-" r => ("-", r)
  | _ => ("", s)
  end.
(** the text after the separator the first pair was followed by *)
Definition after_sep (sep s : string) : option string :=
  match sep, s with
  | EmptyString, _ => Some s
  | String c _, String a r => if decide (a = c) then Some r else None
  | String _ _, EmptyString => None
  end.
(** [(\1\[0-9a-f\]{2})] [n] times and the end *)
Fixpoint pairs_end (sep : string) (n : nat) (s : string) : bool :=
  match n with
  | 0 => bool_decide (s = "")
  | S n => match after_sep sep s with
           | Some r => match hex2 r with Some r => pairs_end sep n r | None => false end
           | None => false
           end
  end.
Definition MAC (s : string) : bool :=
  match hex2 s with
  | Some r => let '(sep, r) := separator r in
              match hex2 r with Some r => pairs_end sep 4 r | None => false end
  | None => false
  end.

(** [/^\[0-9a-fA-F:.\]+(\/\[0-9\]+)?$/] with a [/\[.:\]/] in it: an address or a network *)
Definition address_char (a : ascii) : bool := hex_digit a || bool_decide (a = ":"%char) || bool_decide (a = "."%char).
Definition all_chars (p : ascii → bool) (s : string) : bool := forallb p (chars s).
Definition address_like (s : string) : bool :=
  match JsString.split "/" s with
  | [a] => negb (bool_decide (a = "")) && all_chars address_char a
  | [a; n] => negb (bool_decide (a = "")) && all_chars address_char a && negb (bool_decide (n = "")) && all_chars JsString.decimal n
  | _ => false
  end && existsb (λ c, bool_decide (c = "."%char) || bool_decide (c = ":"%char)) (chars s).
(** what of the list's search box the dialog opens with *)
Definition is_address (typed : string) : bool := MAC typed || address_like typed.

(** the reference: six pairs of digits joined by one separator *)
Definition pair_of_digits (p : string) : Prop :=
  ∃ a b, p = String a (String b "") ∧ hex_digit a = true ∧ hex_digit b = true.
Definition mac_address (s : string) : Prop :=
  ∃ sep l, sep ∈ [""; ":"; "-"] ∧ length l = 6 ∧ Forall pair_of_digits l ∧ s = JsString.join sep l.

Lemma hex2_spec s r : hex2 s = Some r ↔ ∃ p, pair_of_digits p ∧ s = p +:+ r.
Proof.
  split.
  - destruct s as [|a [|b s]]; [done..|]. simpl. destruct (hex_digit a) eqn:Ha, (hex_digit b) eqn:Hb; try done.
    intros [= <-]. exists (String a (String b "")). split; [by exists a, b|done].
  - intros (p & (a & b & -> & Ha & Hb) & ->). simpl. by rewrite Ha, Hb.
Qed.
Lemma after_sep_spec sep s r : sep ∈ [""; ":"; "-"] → after_sep sep s = Some r ↔ s = sep +:+ r.
Proof.
  intros Hs. assert (sep = "" ∨ ∃ c, sep = String c "") as [->|[c ->]].
  { rewrite !elem_of_cons, elem_of_nil in Hs. naive_solver. }
  - simpl. split; [by intros [= ->]|by intros ->].
  - destruct s as [|a s]; simpl; [done|]. case_decide as Ha; subst; split; intros [=]; by subst.
Qed.
Lemma pairs_end_spec sep n s :
  sep ∈ [""; ":"; "-"] →
  pairs_end sep n s = true ↔ ∃ l, length l = n ∧ Forall pair_of_digits l ∧ chars s = JsString.more sep l [].
Proof.
  intros Hsep. revert s. induction n as [|n IH]; intros s; simpl.
  - rewrite bool_decide_eq_true. split; [intros ->; by exists []|].
    intros (l & Hl & _ & E). destruct l; [|done]. simpl in E. by destruct s.
  - split.
    + destruct (after_sep sep s) as [r|] eqn:Ha; [|done]. apply after_sep_spec in Ha as ->; [|done].
      destruct (hex2 r) as [r'|] eqn:Hr; [|done]. apply hex2_spec in Hr as (p & Hp & ->).
      intros (l & Hl & Hd & E)%IH. exists (p :: l). split; [simpl; lia|]. split; [by constructor|].
      by rewrite !JsString.chars_app, E.
    + intros (l & Hl & Hd & E). destruct l as [|p l]; [done|]. apply Forall_cons in Hd as [Hp Hd]. simpl in E, Hl.
      assert (s = sep +:+ p +:+ String.string_of_list_ascii (JsString.more sep l [])) as ->.
      { apply JsString.chars_inj. by rewrite E, !JsString.chars_app, String.list_ascii_of_string_of_list_ascii. }
      rewrite (proj2 (after_sep_spec sep _ _ Hsep) eq_refl), (proj2 (hex2_spec _ _) (ex_intro _ p (conj Hp eq_refl))).
      apply IH. exists l. split; [lia|]. by rewrite String.list_ascii_of_string_of_list_ascii.
Qed.
(** a separator is read where there is one: pairs hold none *)
Lemma separator_spec sep r p rest :
  sep ∈ [""; ":"; "-"] → pair_of_digits p → r = sep +:+ p +:+ rest → separator r = (sep, p +:+ rest).
Proof.
  intros Hs (a & b & -> & Ha & _) ->. rewrite !elem_of_cons, elem_of_nil in Hs.
  destruct Hs as [->|[->|[->|[]]]]; [|done..]. simpl. destruct a as [[][][][][][][][]]; try done.
Qed.
Lemma separator_app r : (separator r).1 ∈ [""; ":"; "-"] ∧ r = (separator r).1 +:+ (separator r).2.
Proof. destruct r as [|[[][][][][][][][]] r]; split; try done; set_solver. Qed.

(** The dialog knows a MAC address: [MAC] accepts a text exactly when it is
    six pairs of hexadecimal digits with the same separator between them, a
    colon, a hyphen or none. *)
Theorem MAC_is_a_mac_address s : MAC s = true ↔ mac_address s.
Proof.
  unfold MAC, mac_address. split.
  - destruct (hex2 s) as [r|] eqn:H1; [|done]. apply hex2_spec in H1 as (p1 & Hp1 & ->).
    pose proof (separator_app r) as [Hsep Er]. destruct (separator r) as [sep r1]. cbn [fst snd] in *. subst r.
    destruct (hex2 r1) as [r2|] eqn:H2; [|done]. apply hex2_spec in H2 as (p2 & Hp2 & ->).
    intros (l & Hl & Hd & E)%pairs_end_spec; [|done]. exists sep, (p1 :: p2 :: l).
    split_and!; [done|simpl; lia|by repeat constructor|]. apply JsString.chars_inj.
    rewrite <- (app_nil_r (chars (JsString.join _ _))), JsString.join_more. by rewrite !JsString.chars_app, E.
  - intros (sep & l & Hsep & Hl & Hd & ->). destruct l as [|p1 [|p2 l]]; [done..|].
    apply Forall_cons in Hd as [Hp1 Hd]. apply Forall_cons in Hd as [Hp2 Hd].
    assert (JsString.join sep (p1 :: p2 :: l) = p1 +:+ sep +:+ p2 +:+ String.string_of_list_ascii (JsString.more sep l [])) as ->.
    { apply JsString.chars_inj. rewrite <- (app_nil_r (chars (JsString.join _ _))), JsString.join_more.
      by rewrite !JsString.chars_app, String.list_ascii_of_string_of_list_ascii. }
    rewrite (proj2 (hex2_spec _ _) (ex_intro _ p1 (conj Hp1 eq_refl))), (separator_spec sep _ p2 _ Hsep Hp2 eq_refl).
    rewrite (proj2 (hex2_spec _ _) (ex_intro _ p2 (conj Hp2 eq_refl))). apply pairs_end_spec; [done|].
    exists l. split; [simpl in Hl; lia|]. by rewrite String.list_ascii_of_string_of_list_ascii.
Qed.

(** ** The answer: [coverageText] and [show] *)
(** the dialog's texts, with their placeholders *)
Record texts := Texts {
  t_checked : string; t_noAgent : string; t_unread : string; t_hostsDown : string; t_hostsUnfinished : string;
  t_someUnchecked : string; t_unregistered : string; t_conflict : string; t_readAt : string; t_noneMac : string; t_none : string;
  t_failed : string }.
Record coverage := Coverage {
  checked : Z; no_agent : Z; unread : Z; hosts_down : list string; hosts_unfinished : list string; some_unchecked : bool }.
(** [template.replace(placeholder, value)], the value kept as it is *)
Definition fill (template placeholder value : string) : string := JsString.replace_first placeholder value template.
Definition coverageText (t : texts) (c : coverage) : string :=
  JsString.join " "
    ([fill (t_checked t) "%(n)s" (JsString.of_int (checked c))]
     ++ (if decide (no_agent c ≠ 0%Z) then [fill (t_noAgent t) "%(n)s" (JsString.of_int (no_agent c))] else [])
     ++ (if decide (unread c ≠ 0%Z) then [fill (t_unread t) "%(n)s" (JsString.of_int (unread c))] else [])
     ++ (if decide (hosts_down c ≠ []) then [fill (t_hostsDown t) "%(hosts)s" (JsString.join ", " (hosts_down c))] else [])
     ++ (if decide (hosts_unfinished c ≠ []) then [fill (t_hostsUnfinished t) "%(hosts)s" (JsString.join ", " (hosts_unfinished c))] else [])
     ++ (if some_unchecked c then [t_someUnchecked t] else [])).
Record found := Found {
  vm : string; url : option string; address : string; mac : string; sources : list string;
  conflict : bool; host : option string }.
Record answer := Answer { a_error : string; matches : list found; a_coverage : option coverage; read_at : string }.
(** a cell: its text, with a link to the VM or the conflict badge *)
Record cell := Cell { text : string; href : option string; badge : option string }.
Definition vmCell (t : texts) (m : found) : cell :=
  match url m with
  | Some u => Cell (vm m) (Some u) None
  | None => Cell (vm m +:+ " " +:+ t_unregistered t) None None
  end.
Definition row (t : texts) (m : found) : list cell :=
  [Cell (if decide (address m = "") then "—" else address m) None (if conflict m then Some (t_conflict t) else None);
   vmCell t m; Cell (mac m) None None; Cell (JsString.join ", " (sources m)) None None]
  ++ match host m with Some h => [Cell h None None] | None => [] end.

Record page := Page {
  q : string; filter_text : string;                    (* the dialog's field and the list's search box *)
  error : string; rows : list (list cell); coverage_text : string;
  button_disabled : bool;
  request : option string }.                           (* the search that is out *)
Definition show (t : texts) (a : answer) (s : page) : page :=
  Page (q s) (filter_text s) (a_error a) (row t <$> matches a)
    (match a_coverage a with
     | Some c =>
       let none := if MAC (JsString.trim (q s)) then t_noneMac t else t_none t in
       (if decide (matches a = []) then none +:+ " " else "") +:+ coverageText t c +:+ " " +:+ fill (t_readAt t) "%(time)s" (read_at a)
     | None => ""
     end) (button_disabled s) (request s).
Inductive event :=
  | Opened | FieldTyped (v : string) | FilterTyped (v : string) | Submitted
  | Answered (a : answer) | Redirected | Failed.
Inductive effect := Fetch (q : string) | Reload.
Definition shown_answer (t : texts) (a : answer) (s : page) : page :=
  let s := show t a s in Page (q s) (filter_text s) (error s) (rows s) (coverage_text s) false None.
Definition step (t : texts) (s : page) (e : event) : page * list effect :=
  match e with
  | Opened =>
    let typed := JsString.trim (filter_text s) in
    (if is_address typed then Page typed (filter_text s) (error s) (rows s) (coverage_text s) (button_disabled s) (request s) else s, [])
  | FieldTyped v => (Page v (filter_text s) (error s) (rows s) (coverage_text s) (button_disabled s) (request s), [])
  | FilterTyped v => (Page (q s) v (error s) (rows s) (coverage_text s) (button_disabled s) (request s), [])
  | Submitted => (Page (q s) (filter_text s) (error s) (rows s) (coverage_text s) true (Some (q s)), [Fetch (q s)])
  (* signed out: the page is left *)
  | Redirected => (Page (q s) (filter_text s) (error s) (rows s) (coverage_text s) (button_disabled s) None, [Reload])
  | Answered a => (shown_answer t a s, [])
  | Failed => (shown_answer t (Answer (t_failed t) [] None "") s, [])
  end.
(** a form whose button is disabled is not submitted *)
Definition enabled (s : page) (e : event) : Prop :=
  match e with
  | Submitted => button_disabled s = false
  | Answered _ | Redirected | Failed => is_Some (request s)
  | _ => True
  end.
(** One search is out at a time, while the button is disabled. *)
Lemma one_search t s :
  reachable enabled (step t) (Page "" "" "" [] "" false None) s → is_Some (request s) → button_disabled s = true.
Proof.
  revert s. refine (reachable_invariant enabled (step t) (λ s, is_Some (request s) → button_disabled s = true) _ _ _); [by intros []|].
  intros s [| | | |a| |] Hi He; simpl; try done; try (by intros []). by case_match.
Qed.
Example addresses :
  MAC "52:54:00:ab:CD:ef" = true ∧ MAC "525400abcdef" = true ∧ MAC "52:54-00:ab:cd:ef" = false
  ∧ is_address "10.0.0.0/24" = true ∧ is_address "fe80::1" = true ∧ is_address "cafe" = false ∧ JsString.trim "  a b " = "a b".
Proof. by vm_compute. Qed.
End FindAddress.
