(* ===== verification/Gestures.v ===== *)
(** * noVNC: touch gestures, static/js/novnc/core/input/gesturehandler.js

    The state machine that turns touches into gestures.  Coordinates and times
    are integers; [hypot] and [atan2_degrees] stand for the floating-point
    [Math.hypot] and [Math.atan2] (in degrees), averages are exact fractions. *)
From S2P Require Import Prelude.
From Stdlib Require Import QArith Qabs Qround.

#[local] Open Scope Z_scope.
#[local] Open Scope list_scope.

Module Gestures.
Definition GH_NOGESTURE := 0.
Definition GH_ONETAP := 1.
Definition GH_TWOTAP := 2.
Definition GH_THREETAP := 4.
Definition GH_DRAG := 8.
Definition GH_LONGPRESS := 16.
Definition GH_TWODRAG := 32.
Definition GH_PINCH := 64.
Definition GH_INITSTATE := 127.
Definition GH_MOVE_THRESHOLD : Q := 50.
Definition GH_ANGLE_THRESHOLD : Q := 90.
Definition GH_MULTITOUCH_TIMEOUT := 250.
Definition GH_TAP_TIMEOUT := 1000.
Definition GH_LONGPRESS_TIMEOUT := 1000.
Definition GH_TWOTOUCH_TIMEOUT := 50.

Record touch := Touch {
  id : Z; started : Z; active : bool;
  firstX : Z; firstY : Z; lastX : Z; lastY : Z; angle : Q }.
Record handler := Handler {
  state : Z; tracked : list touch; ignored : list Z;
  waitingRelease : bool; releaseStart : Z;
  longpressTimeoutId : bool; twoTouchTimeoutId : bool;   (* not null *)
  longpressPending : bool; twoTouchPending : bool }.     (* the browser's timers *)
Definition new : handler := Handler GH_INITSTATE [] [] false 0 false false false false.

Inductive gesture := onetap | twotap | threetap | drag | longpress | twodrag | pinch.
Inductive kind := gesturestart | gesturemove | gestureend.
#[global] Instance gesture_eq_dec : EqDecision gesture.
Proof. solve_decision. Defined.
(** a dispatched event: the gesture, its position and its magnitude *)
Record event := Event { type : kind; detail : gesture; clientX : Q; clientY : Q; magnitude : option (Q * Q) }.

(** updates *)
Definition with_state (v : Z) (s : handler) : handler :=
  Handler v (tracked s) (ignored s) (waitingRelease s) (releaseStart s) (longpressTimeoutId s) (twoTouchTimeoutId s)
    (longpressPending s) (twoTouchPending s).
Definition with_tracked (l : list touch) (s : handler) : handler :=
  Handler (state s) l (ignored s) (waitingRelease s) (releaseStart s) (longpressTimeoutId s) (twoTouchTimeoutId s)
    (longpressPending s) (twoTouchPending s).
Definition with_ignored (l : list Z) (s : handler) : handler :=
  Handler (state s) (tracked s) l (waitingRelease s) (releaseStart s) (longpressTimeoutId s) (twoTouchTimeoutId s)
    (longpressPending s) (twoTouchPending s).
Definition with_release (w : bool) (t : Z) (s : handler) : handler :=
  Handler (state s) (tracked s) (ignored s) w t (longpressTimeoutId s) (twoTouchTimeoutId s)
    (longpressPending s) (twoTouchPending s).
(** [this._state &= ~bits] *)
Definition clear (bits : Z) (s : handler) : handler := with_state (Z.land (state s) (Z.lnot bits)) s.
(** a timer that fires keeps its id *)
Definition stopLongpressTimeout (s : handler) : handler :=
  Handler (state s) (tracked s) (ignored s) (waitingRelease s) (releaseStart s) false (twoTouchTimeoutId s)
    false (twoTouchPending s).
Definition startLongpressTimeout (s : handler) : handler :=
  Handler (state s) (tracked s) (ignored s) (waitingRelease s) (releaseStart s) true (twoTouchTimeoutId s)
    true (twoTouchPending s).
Definition stopTwoTouchTimeout (s : handler) : handler :=
  Handler (state s) (tracked s) (ignored s) (waitingRelease s) (releaseStart s) (longpressTimeoutId s) false
    (longpressPending s) false.
Definition startTwoTouchTimeout (s : handler) : handler :=
  Handler (state s) (tracked s) (ignored s) (waitingRelease s) (releaseStart s) (longpressTimeoutId s) true
    (longpressPending s) true.
Definition isTwoTouchTimeoutRunning (s : handler) : bool := twoTouchTimeoutId s.

Definition hasDetectedGesture (s : handler) : bool :=
  if decide (state s = GH_NOGESTURE) then false
  else if decide (Z.land (state s) (state s - 1) ≠ 0) then false
  else if decide (Z.land (state s) (Z.lor GH_ONETAP (Z.lor GH_TWOTAP GH_THREETAP)) ≠ 0) then negb (existsb active (tracked s))
  else true.
(** [none]: the error of an unknown state *)
Definition stateToGesture (v : Z) : option gesture :=
  if decide (v = GH_ONETAP) then Some onetap
  else if decide (v = GH_TWOTAP) then Some twotap
  else if decide (v = GH_THREETAP) then Some threetap
  else if decide (v = GH_DRAG) then Some drag
  else if decide (v = GH_LONGPRESS) then Some longpress
  else if decide (v = GH_TWODRAG) then Some twodrag
  else if decide (v = GH_PINCH) then Some pinch
  else None.

Definition find (i : Z) (l : list touch) : option touch := List.find (λ t, Z.eqb (id t) i) l.
Definition average (f : touch → Z) (l : list touch) : Q := Qmake (foldr Z.add 0 (f <$> l)) (Pos.of_nat (length l)).
(** the averages of no touches are errors, here [None] *)
Definition getPosition (s : handler) : option ((Q * Q) * (Q * Q)) :=
  match tracked s with
  | [] => None
  | l => Some ((average firstX l, average firstY l), (average lastX l, average lastY l))
  end.
Definition getAverageMovement (s : handler) : option (Q * Q) :=
  match tracked s with
  | [] => None
  | l => Some (average (λ t, lastX t - firstX t) l, average (λ t, lastY t - firstY t) l)
  end.
Definition getAverageDistance (s : handler) : option ((Z * Z) * (Z * Z)) :=
  match tracked s with
  | [] => None
  | f :: l => let t := default f (last (f :: l)) in
              Some ((Z.abs (firstX t - firstX f), Z.abs (firstY t - firstY f)),
                    (Z.abs (lastX t - lastX f), Z.abs (lastY t - lastY f)))
  end.

(** [_pushEvent]: the event that is dispatched, or an error *)
Definition pushEvent (k : kind) (s : handler) : option event :=
  g ← stateToGesture (state s);
  '(first, lst) ← getPosition s;
  let start := match k with gesturestart => true | _ => false end in
  let pos := if start || bool_decide (state s = GH_TWODRAG) || bool_decide (state s = GH_PINCH) then first else lst in
  mag ← (if decide (state s = GH_PINCH) then
           '(f, l) ← getAverageDistance s;
           let d := if start then f else l in Some (Some (inject_Z d.1, inject_Z d.2))
         else if decide (state s = GH_TWODRAG) then
           if start then Some (Some (0%Q, 0%Q)) else m ← getAverageMovement s; Some (Some m)
         else Some None);
  Some (Event k g pos.1 pos.2 mag).

Section touches.
Context (hypot : Z → Z → Q) (atan2_degrees : Z → Z → Q).

Definition touchStart (now i x y : Z) (s : handler) : handler :=
  if hasDetectedGesture s || bool_decide (state s = GH_NOGESTURE) then with_ignored (ignored s ++ [i]) s
  else if match tracked s with t :: _ => GH_MULTITOUCH_TIMEOUT <? now - started t | [] => false end
  then with_ignored (ignored s ++ [i]) (with_state GH_NOGESTURE s)
  else if waitingRelease s then with_ignored (ignored s ++ [i]) (with_state GH_NOGESTURE s)
  else
    let s := with_tracked (tracked s ++ [Touch i now true x y x y 0]) s in
    match length (tracked s) with
    | 1%nat => startLongpressTimeout s
    | 2%nat => stopLongpressTimeout (clear (Z.lor GH_ONETAP (Z.lor GH_DRAG GH_LONGPRESS)) s)
    | 3%nat => clear (Z.lor GH_TWOTAP (Z.lor GH_TWODRAG GH_PINCH)) s
    | _ => with_state GH_NOGESTURE s
    end.

Definition moved (i x y : Z) (t : touch) : touch :=
  if decide (id t = i) then
    Touch (id t) (started t) (active t) (firstX t) (firstY t) x y
      (if decide (firstX t ≠ x ∨ firstY t ≠ y) then atan2_degrees (y - firstY t) (x - firstX t) else angle t)
  else t.
(** the remainder of a number that is not negative *)
Definition Qmod (a m : Q) : Q := a - m * inject_Z (Qfloor (a / m)).
Definition delta_angle (a b : Q) : Q := Qabs (Qmod (Qabs (a - b) + 180) 360 - 180).
(** which of the two gestures of two touches a move leaves *)
Definition decide_two_touch (i : Z) (t : touch) (s : handler) : option handler :=
  prev ← List.find (λ t', negb (Z.eqb (id t') i)) (tracked s);
  Some (if negb (Qle_bool (hypot (firstX prev - lastX prev) (firstY prev - lastY prev)) GH_MOVE_THRESHOLD) then
          let s := clear (if negb (Qle_bool (delta_angle (angle t) (angle prev)) GH_ANGLE_THRESHOLD) then GH_TWODRAG else GH_PINCH) s in
          if isTwoTouchTimeoutRunning s then stopTwoTouchTimeout s else s
        else if negb (isTwoTouchTimeoutRunning s) then startTwoTouchTimeout s else s).
Definition touchMove (i x y : Z) (s : handler) : option (handler * list event) :=
  match find i (tracked s) with
  | None => Some (s, [])
  | Some t0 =>
    (* identifiers of tracked touches are distinct *)
    let t := moved i x y t0 in
    let s := with_tracked (moved i x y <$> tracked s) s in
    if hasDetectedGesture s then e ← pushEvent gesturemove s; Some (s, [e])
    else if negb (Qle_bool GH_MOVE_THRESHOLD (hypot (x - firstX t) (y - firstY t))) then Some (s, [])
    else
      let s := stopLongpressTimeout (clear (Z.lor (Z.lor GH_ONETAP GH_TWOTAP) (Z.lor GH_THREETAP GH_LONGPRESS)) s) in
      let s := if decide (length (tracked s) ≠ 1%nat) then clear GH_DRAG s else s in
      let s := if decide (length (tracked s) ≠ 2%nat) then clear (Z.lor GH_TWODRAG GH_PINCH) s else s in
      s ← (if decide (length (tracked s) = 2%nat) then decide_two_touch i t s else Some s);
      if negb (hasDetectedGesture s) then Some (s, [])
      else e1 ← pushEvent gesturestart s; e2 ← pushEvent gesturemove s; Some (s, [e1; e2])
  end.

Definition deactivate (i : Z) (l : list touch) : list touch :=
  (λ t, if decide (id t = i) then Touch (id t) (started t) false (firstX t) (firstY t) (lastX t) (lastY t) (angle t) else t) <$> l.
(** [splice] of the first occurrence *)
Fixpoint remove_first (i : Z) (l : list Z) : list Z :=
  match l with [] => [] | x :: l => if decide (x = i) then l else x :: remove_first i l end.
(** what of a release comes before the wait for the other fingers *)
Definition release (now : Z) (s : handler) : handler :=
  let s := if negb (hasDetectedGesture s) && isTwoTouchTimeoutRunning s
           then with_state GH_NOGESTURE (stopTwoTouchTimeout s) else s in
  if negb (hasDetectedGesture s) then
    let s := stopLongpressTimeout (clear GH_LONGPRESS (clear (Z.lor GH_DRAG (Z.lor GH_TWODRAG GH_PINCH)) s)) in
    if negb (waitingRelease s) then
      let s := with_release true now s in
      match length (tracked s) with
      | 1%nat => clear (Z.lor GH_TWOTAP GH_THREETAP) s
      | 2%nat => clear (Z.lor GH_ONETAP GH_THREETAP) s
      | _ => s
      end
    else s
  else s.
(** the end of a gesture, or of a dead end *)
Definition finish (i : Z) (s : handler) : handler :=
  let s := with_ignored (ignored s ++ (id <$> List.filter active (tracked s))) s in
  let s := with_state GH_NOGESTURE (with_tracked [] s) in
  let s := with_ignored (remove_first i (ignored s)) s in
  if decide (ignored s = []) then with_release false (releaseStart s) (with_state GH_INITSTATE s) else s.
Definition ending (i : Z) (s : handler) (es : list event) : option (handler * list event) :=
  if hasDetectedGesture s then e ← pushEvent gestureend s; Some (finish i s, es ++ [e]) else Some (finish i s, es).
(** the releases or the touches took too long *)
Definition expire (now : Z) (s : handler) : handler :=
  let s := if GH_MULTITOUCH_TIMEOUT <? now - releaseStart s then with_state GH_NOGESTURE s else s in
  if existsb (λ t, GH_TAP_TIMEOUT <? now - started t) (tracked s) then with_state GH_NOGESTURE s else s.
(** a release while all touches are waited for *)
Definition waited (now i : Z) (s : handler) : option (handler * list event) :=
  let s := expire now s in
  _ ← find i (tracked s);
  let s := with_tracked (deactivate i (tracked s)) s in
  if hasDetectedGesture s then e ← pushEvent gesturestart s; ending i s [e]
  else if decide (state s ≠ GH_NOGESTURE) then Some (s, [])
  else ending i s [].
Definition touchEnd (now i : Z) (s : handler) : option (handler * list event) :=
  if bool_decide (i ∈ ignored s) then
    let s := with_ignored (remove_first i (ignored s)) s in
    Some (if decide (ignored s = [] ∧ tracked s = []) then with_release false (releaseStart s) (with_state GH_INITSTATE s) else s, [])
  else
    let s := release now s in
    if waitingRelease s then waited now i s else ending i s [].

Definition longpressTimeout (s : handler) : option (handler * list event) :=
  if hasDetectedGesture s then None
  else let s := with_state GH_LONGPRESS s in e ← pushEvent gesturestart s; Some (s, [e]).
Definition twoTouchTimeout (s : handler) : option (handler * list event) :=
  '(mx, my) ← getAverageMovement s;
  '(f, l) ← getAverageDistance s;
  let delta := Qabs (hypot f.1 f.2 - hypot l.1 l.2) in
  let small q := negb (Qle_bool delta (Qabs q)) in
  let s := with_state (if small my && small mx then GH_PINCH else GH_TWODRAG) s in
  e1 ← pushEvent gesturestart s; e2 ← pushEvent gesturemove s; Some (s, [e1; e2]).

(** [detach] stops the timers; the touches stay. *)
Definition detach (s : handler) : handler := stopTwoTouchTimeout (stopLongpressTimeout s).

(** ** The machine: touches and timers *)
Inductive input :=
  | Start (now i x y : Z) | Move (i x y : Z) | End (now i : Z)
  | LongpressTimer | TwoTouchTimer.
Definition fire_longpress (s : handler) : handler :=
  Handler (state s) (tracked s) (ignored s) (waitingRelease s) (releaseStart s) (longpressTimeoutId s) (twoTouchTimeoutId s)
    false (twoTouchPending s).
Definition fire_twoTouch (s : handler) : handler :=
  Handler (state s) (tracked s) (ignored s) (waitingRelease s) (releaseStart s) (longpressTimeoutId s) (twoTouchTimeoutId s)
    (longpressPending s) false.
Definition handle (s : handler) (e : input) : option (handler * list event) :=
  match e with
  | Start now i x y => Some (touchStart now i x y s, [])
  | Move i x y => touchMove i x y s
  | End now i => touchEnd now i s
  | LongpressTimer => longpressTimeout (fire_longpress s)
  | TwoTouchTimer => twoTouchTimeout (fire_twoTouch s)
  end.

(** The fingers that are down, and the handler; none after an error. *)
Record world := World { touching : list Z; gh : option handler }.
Definition start_world : world := World [] (Some new).
Definition fingers (e : input) (l : list Z) : list Z :=
  match e with
  | Start _ i _ _ => i :: l
  | End _ i => List.filter (λ j, negb (Z.eqb j i)) l
  | _ => l
  end.
Definition step (w : world) (e : input) : world * list event :=
  match gh w with
  | Some s => match handle s e with
              | Some (s', es) => (World (fingers e (touching w)) (Some s'), es)
              | None => (World (fingers e (touching w)) None, [])
              end
  | None => (w, [])
  end.
(** a new finger has an identifier no other finger has; a timer fires once *)
Definition enabled (w : world) (e : input) : Prop :=
  match e with
  | Start _ i _ _ => i ∉ touching w
  | Move i _ _ | End _ i => i ∈ touching w
  | LongpressTimer => option_map longpressPending (gh w) = Some true
  | TwoTouchTimer => option_map twoTouchPending (gh w) = Some true
  end.

(** ** What holds between events *)
(** the gestures during which a mouse button is down *)
Definition holding (s : handler) : option gesture :=
  if decide (state s = GH_DRAG) then Some drag else if decide (state s = GH_LONGPRESS) then Some longpress else None.
(** drag and longpress events come as a start, moves and an end, one gesture
    at a time, and nothing else comes in between *)
Definition accept (cur : option gesture) (e : event) : option (option gesture) :=
  if decide (detail e = drag ∨ detail e = longpress) then
    match type e with
    | gesturestart => if decide (cur = None) then Some (Some (detail e)) else None
    | gesturemove => if decide (cur = Some (detail e)) then Some cur else None
    | gestureend => if decide (cur = Some (detail e)) then Some None else None
    end
  else if decide (cur = None) then Some None else None.
Fixpoint accepts (cur : option gesture) (es : list event) : option (option gesture) :=
  match es with [] => Some cur | e :: es => c ← accept cur e; accepts c es end.

Definition one_bit (v : Z) : bool := negb (v =? 0) && (Z.land v (v - 1) =? 0).
Definition pair_bits (v : Z) : bool := eqb (Z.testbit v 5) (Z.testbit v 6) || (v =? 32) || (v =? 64).
Definition no_hold (v : Z) : bool := Z.land v 24 =? 0.
(** of each tracked touch its identifier and whether its finger is down *)
Definition keys (l : list touch) : list (Z * bool) := (λ t, (id t, active t)) <$> l.
(** [fs]: the fingers; [v]: the state; [ks]: the tracked touches; [ig]: the
    ignored ones; [w]: waiting for releases; [tid], [lp], [tp]: the timers *)
Record shape (fs : list Z) (v : Z) (ks : list (Z * bool)) (ig : list Z) (w tid lp tp : bool) : Prop := Shape {
  i_fingers : NoDup fs;
  i_range : 0 <= v < 128;
  i_pair : pair_bits v = true;
  i_ids : NoDup ks.*1;
  i_down : ∀ i, i ∈ fs ↔ i ∈ ig ∨ (i, true) ∈ ks;
  i_apart : ∀ i, (i, true) ∈ ks → i ∉ ig;
  i_ignored : NoDup ig;
  i_long : lp = true → w = false ∧ length ks = 1%nat ∧ (v = GH_NOGESTURE ∨ v = GH_INITSTATE);
  i_two : tp = true → tid = true ∧ (2 <= length ks)%nat ∧ (v = GH_NOGESTURE ∨ v = 96);
  i_wait : w = true → no_hold v = true;
  i_active : w = false → Forall (λ k, k.2 = true) ks;
  i_many : (2 <= length ks)%nat → no_hold v = true;
  i_empty : ks = [] → v = GH_NOGESTURE ∨ v = GH_INITSTATE }.
Definition inv (fs : list Z) (s : handler) : Prop :=
  shape fs (state s) (keys (tracked s)) (ignored s) (waitingRelease s) (twoTouchTimeoutId s) (longpressPending s) (twoTouchPending s).

(** facts about the seven bits, by looking at all states *)
Lemma all_states (P : Z → bool) : forallb P (seqZ 0 128) = true → ∀ v, 0 <= v < 128 → P v = true.
Proof. intros H v Hv. rewrite forallb_forall in H. apply H, list_elem_of_In, elem_of_seqZ. lia. Qed.
Lemma states_impl (P Q : Z → bool) :
  forallb (λ v, negb (P v) || Q v) (seqZ 0 128) = true → ∀ v, 0 <= v < 128 → P v = true → Q v = true.
Proof. intros H v Hv HP. pose proof (all_states _ H v Hv) as H'. simpl in H'. by rewrite HP in H'. Qed.
Lemma detected_one_bit s : hasDetectedGesture s = true → one_bit (state s) = true.
Proof.
  unfold hasDetectedGesture, one_bit. case_decide as H0; [done|]. case_decide as H1; [done|]. intros _.
  rewrite H1. unfold GH_NOGESTURE in H0. by apply Z.eqb_neq in H0 as ->.
Qed.
Lemma not_detected_no_hold s : hasDetectedGesture s = false → holding s = None.
Proof.
  unfold hasDetectedGesture, holding. intros H.
  destruct (decide (state s = GH_DRAG)) as [Hd|_]; [|destruct (decide (state s = GH_LONGPRESS)) as [Hl|_]; [|done]]; exfalso; revert H.
  - rewrite Hd. by vm_compute.
  - rewrite Hl. by vm_compute.
Qed.
Lemma no_hold_holding s : no_hold (state s) = true → holding s = None.
Proof.
  unfold holding, no_hold. intros H.
  destruct (decide (state s = GH_DRAG)) as [Hd|_]; [by rewrite Hd in H|].
  destruct (decide (state s = GH_LONGPRESS)) as [Hl|_]; [by rewrite Hl in H|done].
Qed.
Lemma one_bit_gesture v : 0 <= v < 128 → one_bit v = true → ∃ g, stateToGesture v = Some g
  ∧ (g = drag ↔ v = GH_DRAG) ∧ (g = longpress ↔ v = GH_LONGPRESS).
Proof.
  intros Hv H1. assert (v ∈ [1; 2; 4; 8; 16; 32; 64]) as Hin.
  { pose proof (all_states (λ v, negb (one_bit v) || bool_decide (v ∈ [1; 2; 4; 8; 16; 32; 64])) eq_refl v Hv) as H.
    simpl in H. rewrite H1 in H. by apply bool_decide_eq_true in H. }
  rewrite !elem_of_cons, elem_of_nil in Hin.
  destruct Hin as [->|[->|[->|[->|[->|[->|[->|[]]]]]]]]; eexists; (split; [reflexivity|]); split; split; by intros.
Qed.
Lemma pushEvent_ok k s :
  one_bit (state s) = true → 0 <= state s < 128 → tracked s ≠ [] →
  ∃ e, pushEvent k s = Some e ∧ type e = k ∧ stateToGesture (state s) = Some (detail e).
Proof.
  intros H1 Hr Ht. destruct (one_bit_gesture _ Hr H1) as (g & Hg & _). unfold pushEvent. rewrite Hg. simpl.
  unfold getPosition, getAverageDistance, getAverageMovement. destruct (tracked s) as [|t l]; [done|]. simpl.
  destruct k; repeat case_decide; simpl; eexists; by split_and!.
Qed.
(** an event of the state's gesture moves the acceptor with the state *)
Lemma accept_state s e cur :
  stateToGesture (state s) = Some (detail e) → one_bit (state s) = true → 0 <= state s < 128 →
  cur = (match type e with gesturestart => None | _ => holding s end) →
  accept cur e = Some (match type e with gestureend => None | _ => holding s end).
Proof.
  intros Hg H1 Hr ->. destruct (one_bit_gesture _ Hr H1) as (g & Hg' & Hd & Hl). rewrite Hg in Hg'. injection Hg' as <-.
  unfold accept, holding. case_decide as H.
  - destruct H as [H|H]; rewrite H in *.
    + rewrite (proj1 Hd eq_refl) in *. by destruct (type e).
    + rewrite (proj1 Hl eq_refl) in *. by destruct (type e).
  - rewrite (decide_False (P := state s = GH_DRAG)) by tauto. rewrite (decide_False (P := state s = GH_LONGPRESS)) by tauto.
    by destruct (type e).
Qed.

Lemma land_range n v m : 0 <= n → 0 <= v < 2 ^ n → 0 <= Z.land v m < 2 ^ n.
Proof.
  intros Hn Hv. assert (Z.land v m = Z.land v m mod 2 ^ n) as ->; [|apply Z.mod_pos_bound; lia].
  rewrite <- Z.land_ones by lia. rewrite <- Z.land_assoc, (Z.land_comm m), Z.land_assoc.
  by rewrite Z.land_ones, (Z.mod_small v) by lia.
Qed.
Lemma clear_range v m : 0 <= v < 128 → 0 <= Z.land v m < 128.
Proof. by apply (land_range 7). Qed.

(** *** Touch start *)
Lemma shape_ignore fs v ks ig w tid lp tp i v' :
  shape fs v ks ig w tid lp tp → i ∉ fs → v' = v ∨ v' = GH_NOGESTURE → shape (i :: fs) v' ks (ig ++ [i]) w tid lp tp.
Proof.
  intros [Hf Hr Hp Hi Hd Ha Hg Hl Ht Hw Hac Hm He] Hin Hv.
  assert (i ∉ ig ∧ (i, true) ∉ ks) as [Hig Hk] by (rewrite Hd in Hin; tauto).
  assert (∀ P : Z → Prop, P v → P GH_NOGESTURE → P v') as Hcase by (intros P; by destruct Hv as [->| ->]).
  split; [|by apply (Hcase (λ v, 0 <= v < 128))|by apply (Hcase (λ v, pair_bits v = true))|exact Hi| |
    | |by intros E; destruct (Hl E) as (? & ? & ?); split_and!; [..|apply Hcase; auto]
    |by intros E; destruct (Ht E) as (? & ? & ?); split_and!; [..|apply Hcase; auto]
    |by intros E; apply (Hcase (λ v, no_hold v = true)); auto|exact Hac
    |by intros E; apply (Hcase (λ v, no_hold v = true)); auto|by intros E; apply Hcase; auto].
  - by constructor.
  - intros j. rewrite elem_of_cons, elem_of_app, list_elem_of_singleton, Hd. tauto.
  - intros j Hj. rewrite elem_of_app, list_elem_of_singleton. intros [H| ->]; [by destruct (Ha j Hj)|done].
  - rewrite <- Permutation_cons_append. by constructor.
Qed.
Lemma touchStart_ok fs s now i x y :
  inv fs s → i ∉ fs → inv (i :: fs) (touchStart now i x y s) ∧ holding (touchStart now i x y s) = holding s.
Proof.
  intros H Hin. unfold touchStart. destruct (hasDetectedGesture s) eqn:Hdet; [split; [by eapply shape_ignore; eauto|done]|].
  pose proof (not_detected_no_hold s Hdet) as Hh. case_bool_decide as H0; simpl; [split; [by eapply shape_ignore; eauto|done]|].
  destruct (match tracked s with [] => false | t :: _ => GH_MULTITOUCH_TIMEOUT <? now - started t end).
  { split; [by eapply shape_ignore; eauto|by rewrite Hh]. }
  destruct (waitingRelease s) eqn:Hw; [split; [by eapply shape_ignore; eauto|by rewrite Hh]|].
  pose proof H as [Hf Hr Hp Hi Hd Ha Hg Hl Ht _ Hac Hm He]. rewrite Hw in *. specialize (Hac eq_refl).
  assert (i ∉ ignored s ∧ i ∉ (keys (tracked s)).*1) as [Hig Hk].
  { split; [rewrite Hd in Hin; tauto|]. intros ([j b] & -> & Hj)%list_elem_of_fmap. rewrite Forall_forall in Hac.
    pose proof (Hac _ Hj) as E. simpl in E. subst b. rewrite Hd in Hin. simpl in Hin. tauto. }
  rewrite Hh. set (t := Touch i now true x y x y 0).
  assert (∀ v tid lp tp, 0 <= v < 128 → pair_bits v = true →
    (lp = true → length (keys (tracked s)) = 0%nat ∧ v = GH_INITSTATE) →
    (tp = true → tid = true ∧ (2 <= length (keys (tracked s)))%nat ∧ (v = GH_NOGESTURE ∨ v = 96)) →
    ((1 <= length (keys (tracked s)))%nat → no_hold v = true) →
    shape (i :: fs) v (keys (tracked s ++ [t])) (ignored s) false tid lp tp) as Hnew.
  { intros v tid lp tp Hv1 Hv2 Hlp Htp Hno. unfold keys. rewrite fmap_app. fold (keys (tracked s)). simpl.
    split; try done.
    - by constructor.
    - rewrite fmap_app. simpl. rewrite <- Permutation_cons_append. by constructor.
    - intros j. rewrite elem_of_cons, elem_of_app, list_elem_of_singleton, Hd. naive_solver.
    - intros j [Hj|[= ->]%list_elem_of_singleton]%elem_of_app; [by apply Ha|done].
    - rewrite length_app. simpl. intros Hlp'. destruct (Hlp Hlp') as [-> ->]. auto.
    - intros Htp'. destruct (Htp Htp') as (? & ? & ?). rewrite length_app. split_and!; [done|lia|done].
    - intros _. apply Forall_app. split; [done|]. by repeat constructor.
    - rewrite length_app. simpl. intros. apply Hno. lia.
    - by destruct (keys (tracked s)). }
  cbn [tracked with_tracked]. assert (length (keys (tracked s)) = length (tracked s)) as Hlen by apply length_fmap.
  rewrite length_app. simpl length. rewrite Nat.add_1_r.
  assert (∀ m, 0 <= Z.land (state s) (Z.lnot m) < 128) as Hrange.
  { intros m. by apply clear_range. }
  assert (holding s = None) as Hold by done. unfold inv.
  destruct (tracked s) as [|t1 [|t2 [|t3 l]]] eqn:El; cbn [length] in *.
  - split; [|done]. simpl. rewrite Hw. apply Hnew; [done|done| | |simpl; lia].
    + intros _. split; [done|]. by destruct (He eq_refl).
    + intros Htp. destruct (Ht Htp) as (_ & Hlt & _). rewrite Hlen in Hlt. simpl in Hlt. lia.
  - split; [|apply no_hold_holding; by apply (all_states (λ v, no_hold (Z.land v (Z.lnot (Z.lor 1 (Z.lor 8 16))))) eq_refl)].
    simpl. rewrite Hw. apply Hnew; [apply Hrange| |done| |intros _].
    + by apply (states_impl pair_bits (λ v, pair_bits (Z.land v (Z.lnot (Z.lor 1 (Z.lor 8 16))))) eq_refl).
    + intros Htp. destruct (Ht Htp) as (? & ? & [E|E]); rewrite E; auto.
    + by apply (all_states (λ v, no_hold (Z.land v (Z.lnot (Z.lor 1 (Z.lor 8 16))))) eq_refl).
  - assert (no_hold (Z.land (state s) (Z.lnot (Z.lor 2 (Z.lor 32 64)))) = true) as Hnh.
    { apply (states_impl no_hold (λ v, no_hold (Z.land v (Z.lnot (Z.lor 2 (Z.lor 32 64))))) eq_refl); [done|]. apply Hm. simpl; lia. }
    split; [|by apply no_hold_holding]. simpl. rewrite Hw. apply Hnew; [apply Hrange| | | |done].
    + by apply (all_states (λ v, pair_bits (Z.land v (Z.lnot (Z.lor 2 (Z.lor 32 64))))) eq_refl).
    + intros Hlp. by destruct (Hl Hlp) as (_ & ? & _).
    + intros Htp. destruct (Ht Htp) as (? & ? & [E|E]); rewrite E; auto.
  - split; [|done]. simpl. rewrite Hw. apply Hnew; [done|done| | |done].
    + intros Hlp. by destruct (Hl Hlp) as (_ & ? & _).
    + intros Htp. destruct (Ht Htp) as (? & ? & _). auto.
Qed.

(** *** Touch move *)
Lemma shape_state fs v ks ig w tid lp tp v' tid' lp' tp' :
  shape fs v ks ig w tid lp tp → ks ≠ [] → 0 <= v' < 128 → pair_bits v' = true → (no_hold v = true → no_hold v' = true) →
  (lp' = true → w = false ∧ length ks = 1%nat ∧ (v' = GH_NOGESTURE ∨ v' = GH_INITSTATE)) →
  (tp' = true → tid' = true ∧ (2 <= length ks)%nat ∧ (v' = GH_NOGESTURE ∨ v' = 96)) → shape fs v' ks ig w tid' lp' tp'.
Proof. intros [Hf Hr Hp Hi Hd Ha Hg Hl Ht Hw Hac Hm He] Hk Hv Hpv Hn Hlp Htp. split; try assumption; naive_solver. Qed.

Lemma find_some i l t : find i l = Some t → t ∈ l ∧ id t = i.
Proof.
  intros H%List.find_some. rewrite list_elem_of_In. destruct H as [? H]. split; [done|]. by apply Z.eqb_eq.
Qed.
Lemma moved_keys i x y l : keys (moved i x y <$> l) = keys l.
Proof. unfold keys. rewrite <- list_fmap_compose. apply list_fmap_ext. intros k t _. unfold moved. simpl. by case_decide. Qed.
Lemma other_touch i l : length l = 2%nat → NoDup (keys l).*1 → ∃ t, List.find (λ t', negb (Z.eqb (id t') i)) l = Some t.
Proof.
  intros Hl Hn. destruct l as [|a [|b [|? ?]]]; try done. simpl in *. apply NoDup_cons in Hn as [Hn _].
  destruct (Z.eqb_spec (id a) i) as [Ea|]; simpl; [|by eexists]. destruct (Z.eqb_spec (id b) i) as [Eb|]; simpl; [|by eexists].
  destruct Hn. apply list_elem_of_singleton. congruence.
Qed.
(** what of a decision is left: one of the two gestures, or a wait *)
Lemma decide_two_touch_spec i t s :
  length (tracked s) = 2%nat → NoDup (keys (tracked s)).*1 → (twoTouchPending s = true → twoTouchTimeoutId s = true) →
  ∃ s', decide_two_touch i t s = Some s' ∧ tracked s' = tracked s ∧ ignored s' = ignored s ∧ waitingRelease s' = waitingRelease s
    ∧ longpressPending s' = longpressPending s
    ∧ ((state s' = Z.land (state s) (Z.lnot GH_TWODRAG) ∨ state s' = Z.land (state s) (Z.lnot GH_PINCH)) ∧ twoTouchPending s' = false
       ∨ state s' = state s ∧ twoTouchTimeoutId s' = true).
Proof.
  intros Hl Hn Htp. unfold decide_two_touch. destruct (other_touch i (tracked s) Hl Hn) as [prev ->]. simpl.
  assert (twoTouchTimeoutId s = false → twoTouchPending s = false) as Htp' by (destruct (twoTouchPending s); naive_solver).
  destruct (negb (Qle_bool (hypot _ _) _)); unfold isTwoTouchTimeoutRunning.
  - cbn [twoTouchTimeoutId clear with_state].
    destruct (negb (Qle_bool (delta_angle _ _) _)), (twoTouchTimeoutId s) eqn:E; eexists; (split; [reflexivity|]); simpl; split_and!; auto.
  - destruct (twoTouchTimeoutId s) eqn:E; simpl; eexists; (split; [reflexivity|]); simpl; split_and!; auto.
Qed.

Lemma push_start_move s :
  hasDetectedGesture s = true → 0 <= state s < 128 → tracked s ≠ [] →
  ∃ e1 e2, pushEvent gesturestart s = Some e1 ∧ pushEvent gesturemove s = Some e2 ∧ accepts None [e1; e2] = Some (holding s).
Proof.
  intros Hd%detected_one_bit Hr Ht.
  destruct (pushEvent_ok gesturestart s Hd Hr Ht) as (e1 & H1 & K1 & G1). destruct (pushEvent_ok gesturemove s Hd Hr Ht) as (e2 & H2 & K2 & G2).
  exists e1, e2. split_and!; [done..|]. simpl. rewrite (accept_state s e1 None G1 Hd Hr) by by rewrite K1. simpl. rewrite K1.
  rewrite (accept_state s e2 _ G2 Hd Hr) by by rewrite K2. simpl. by rewrite K2.
Qed.
Lemma move_end fs s :
  inv fs s → tracked s ≠ [] →
  ∃ es, (if negb (hasDetectedGesture s) then Some (s, [])
         else e1 ← pushEvent gesturestart s; e2 ← pushEvent gesturemove s; Some (s, [e1; e2])) = Some (s, es)
    ∧ accepts None es = Some (holding s).
Proof.
  intros H Ht. destruct (hasDetectedGesture s) eqn:Hd; simpl.
  - destruct (push_start_move s Hd (i_range _ _ _ _ _ _ _ _ H) Ht) as (e1 & e2 & -> & -> & Ha). by eexists.
  - exists []. split; [done|]. simpl. by rewrite not_detected_no_hold.
Qed.
Lemma keys_nil l : keys l ≠ [] ↔ l ≠ [].
Proof. by destruct l. Qed.

(** a move that goes far enough *)
Definition far (s : handler) : handler :=
  let s := stopLongpressTimeout (clear (Z.lor (Z.lor GH_ONETAP GH_TWOTAP) (Z.lor GH_THREETAP GH_LONGPRESS)) s) in
  let s := if decide (length (tracked s) ≠ 1%nat) then clear GH_DRAG s else s in
  if decide (length (tracked s) ≠ 2%nat) then clear (Z.lor GH_TWODRAG GH_PINCH) s else s.
Definition far_state (n : nat) (v : Z) : Z :=
  match n with 1%nat => Z.land v 8 | 2%nat => Z.land v 96 | _ => 0 end.
Lemma far_spec s :
  0 <= state s < 128 → (1 <= length (tracked s))%nat →
  tracked (far s) = tracked s ∧ ignored (far s) = ignored s ∧ waitingRelease (far s) = waitingRelease s
  ∧ twoTouchTimeoutId (far s) = twoTouchTimeoutId s ∧ longpressPending (far s) = false
  ∧ twoTouchPending (far s) = twoTouchPending s ∧ state (far s) = far_state (length (tracked s)) (state s).
Proof.
  intros Hr Hl. unfold far. simpl.
  destruct (length (tracked s)) as [|[|[|n]]] eqn:El; [lia|..]; simpl; rewrite ?El; simpl;
    (split_and!; [done..|]); apply Z.eqb_eq.
  - exact (all_states (λ v, Z.land (Z.land v (Z.lnot (Z.lor (Z.lor 1 2) (Z.lor 4 16)))) (Z.lnot (Z.lor 32 64)) =? Z.land v 8) eq_refl _ Hr).
  - exact (all_states (λ v, Z.land (Z.land v (Z.lnot (Z.lor (Z.lor 1 2) (Z.lor 4 16)))) (Z.lnot 8) =? Z.land v 96) eq_refl _ Hr).
  - exact (all_states (λ v, Z.land (Z.land (Z.land v (Z.lnot (Z.lor (Z.lor 1 2) (Z.lor 4 16)))) (Z.lnot 8)) (Z.lnot (Z.lor 32 64)) =? 0) eq_refl _ Hr).
Qed.
(** the two gestures of two touches not told apart *)
Definition both_bits (v : Z) : bool := eqb (Z.testbit v 5) (Z.testbit v 6).
Definition rest_bits (v : Z) : bool := (v =? 0) || (v =? 96).
Lemma rest_bits_cases v : rest_bits v = true ↔ v = GH_NOGESTURE ∨ v = 96.
Proof. unfold rest_bits. by rewrite orb_true_iff, !Z.eqb_eq. Qed.
Lemma not_detected_both s : pair_bits (state s) = true → hasDetectedGesture s = false → both_bits (state s) = true.
Proof.
  unfold pair_bits, both_bits. intros [[H|H%Z.eqb_eq]%orb_true_iff|H%Z.eqb_eq]%orb_true_iff; [done|..];
    unfold hasDetectedGesture; rewrite H; by vm_compute.
Qed.
Lemma far_state_bits n v :
  0 <= v < 128 → both_bits v = true →
  0 <= far_state n v < 128 ∧ pair_bits (far_state n v) = true ∧ (no_hold v = true → no_hold (far_state n v) = true)
  ∧ (n ≠ 1%nat → rest_bits (far_state n v) = true) ∧ (rest_bits v = true → rest_bits (far_state n v) = true).
Proof.
  intros Hr Hp. destruct n as [|[|[|n]]]; simpl; [done| | |done]; (split; [by apply clear_range|]); split_and!.
  - exact (all_states (λ v, pair_bits (Z.land v 8)) eq_refl v Hr).
  - exact (states_impl no_hold (λ v, no_hold (Z.land v 8)) eq_refl v Hr).
  - done.
  - exact (states_impl rest_bits (λ v, rest_bits (Z.land v 8)) eq_refl v Hr).
  - exact (states_impl both_bits (λ v, pair_bits (Z.land v 96)) eq_refl v Hr Hp).
  - intros _. exact (all_states (λ v, no_hold (Z.land v 96)) eq_refl v Hr).
  - intros _. exact (states_impl both_bits (λ v, rest_bits (Z.land v 96)) eq_refl v Hr Hp).
  - intros _. exact (states_impl both_bits (λ v, rest_bits (Z.land v 96)) eq_refl v Hr Hp).
Qed.

Lemma touchMove_ok fs s i x y :
  inv fs s → ∃ s' es, touchMove i x y s = Some (s', es) ∧ inv fs s' ∧ accepts (holding s) es = Some (holding s').
Proof.
  intros H. unfold touchMove. destruct (find i (tracked s)) as [t0|] eqn:Hf; [|by exists s, []].
  apply find_some in Hf as [Ht0 _]. set (t := moved i x y t0). set (s1 := with_tracked (moved i x y <$> tracked s) s).
  assert (inv fs s1) as H1 by (unfold inv, s1; simpl; by rewrite moved_keys).
  assert (tracked s1 ≠ []) as Hne by (intros E%fmap_nil_inv; rewrite E in Ht0; by apply not_elem_of_nil in Ht0). change (holding s) with (holding s1).
  clearbody s1. clear H Ht0. pose proof H1 as [Hfi Hr Hp Hi Hd Ha Hg Hl Ht Hw Hac Hm He].
  destruct (hasDetectedGesture s1) eqn:Hdet.
  { apply detected_one_bit in Hdet. destruct (pushEvent_ok gesturemove s1 Hdet Hr Hne) as (e & -> & K & G).
    exists s1, [e]. split; [done|]. split; [done|]. simpl. by rewrite (accept_state s1 e _ G Hdet Hr), K by by rewrite K. }
  pose proof (not_detected_no_hold s1 Hdet) as Hhold. rewrite Hhold.
  destruct (negb (Qle_bool _ _)); [exists s1, []; simpl; by rewrite Hhold|]. fold (far s1).
  pose proof (not_detected_both s1 Hp Hdet) as Hbb. assert (1 <= length (tracked s1))%nat as Hlen by (destruct (tracked s1); simpl; [done|lia]).
  destruct (far_spec s1 Hr Hlen) as (E1 & E2 & E3 & E4 & E5 & E6 & E7).
  destruct (far_state_bits (length (tracked s1)) (state s1) Hr Hbb) as (B1 & B2 & B3 & B4 & B5).
  assert (inv fs (far s1)) as H2.
  { unfold inv. rewrite E1, E2, E3, E4, E5, E6, E7. eapply shape_state; [exact H1|by apply keys_nil|done..|].
    intros Htp. destruct (Ht Htp) as (? & ? & Hv). split_and!; [done..|]. apply rest_bits_cases, B5. by apply rest_bits_cases. }
  rewrite E1. destruct (decide (length (tracked s1) = 2%nat)) as [H2t|Hn2].
  2:{ simpl. destruct (move_end fs (far s1) H2) as (es & -> & Hacc); [by rewrite E1|]. by exists (far s1), es. }
  destruct (decide_two_touch_spec i t (far s1)) as (s' & -> & F1 & F2 & F3 & F4 & F5);
    [by rewrite E1|rewrite E1; exact Hi|rewrite E6, E4; intros Htp; by destruct (Ht Htp)|]. simpl.
  assert (rest_bits (state (far s1)) = true) as Hrest by (rewrite E7; apply B4; lia).
  assert (inv fs s') as H3; [|destruct (move_end fs s' H3) as (es & -> & Hacc); [by rewrite F1, E1|]; by exists s', es].
  apply rest_bits_cases in Hrest as Hrc. unfold inv. rewrite F1, F2, F3, F4, E5.
  destruct F5 as [[F5 ->]|[F5 ->]].
  - eapply shape_state; [exact H2|rewrite E1; by apply keys_nil|..]; try done;
      destruct F5 as [->| ->]; destruct Hrc as [->| ->]; try done; intros; by vm_compute.
  - rewrite F5. eapply shape_state; [exact H2|rewrite E1; by apply keys_nil|..]; try done.
    + by destruct Hrc as [->| ->].
    + by destruct Hrc as [->| ->].
    + intros _. split_and!; [done| |done]. unfold keys. rewrite length_fmap, E1. lia.
Qed.

(** *** Touch end *)
Definition lift (i : Z) (fs : list Z) : list Z := List.filter (λ j, negb (Z.eqb j i)) fs.
Lemma elem_of_lift i j fs : j ∈ lift i fs ↔ j ≠ i ∧ j ∈ fs.
Proof. unfold lift. rewrite !list_elem_of_In, filter_In, negb_true_iff, Z.eqb_neq. tauto. Qed.
Lemma NoDup_lift i fs : NoDup fs → NoDup (lift i fs).
Proof. rewrite !NoDup_ListNoDup. apply List.NoDup_filter. Qed.
Lemma elem_of_remove_first i j l : NoDup l → j ∈ remove_first i l ↔ j ≠ i ∧ j ∈ l.
Proof.
  induction l as [|k l IH]; simpl; [set_solver|]. intros [Hk Hl]%NoDup_cons. case_decide as Hki.
  - subst. rewrite elem_of_cons. split; [|naive_solver]. intros Hj. split; [|by right]. by intros ->.
  - rewrite !elem_of_cons, (IH Hl). naive_solver.
Qed.
Lemma NoDup_remove_first i l : NoDup l → NoDup (remove_first i l).
Proof.
  induction l as [|k l IH]; simpl; [done|]. intros [Hk Hl]%NoDup_cons. case_decide; [done|].
  constructor; [|by apply IH]. rewrite elem_of_remove_first by done. tauto.
Qed.
Lemma empty_shape tid : shape [] GH_INITSTATE [] [] false tid false false.
Proof. split; try done; try constructor; simpl; try lia; set_solver. Qed.

(** an ignored finger is lifted *)
Lemma ignored_lifted fs v ks ig w tid lp tp i :
  shape fs v ks ig w tid lp tp → i ∈ ig → shape (lift i fs) v ks (remove_first i ig) w tid lp tp.
Proof.
  intros [Hf Hr Hp Hi Hd Ha Hg Hl Ht Hw Hac Hm He] Hin. split; try done.
  - by apply NoDup_lift.
  - intros j. rewrite elem_of_lift, elem_of_remove_first, Hd by done.
    split; [tauto|]. intros [[? ?]|Hj]; [tauto|]. split; [|tauto]. intros ->. by destruct (Ha i).
  - intros j Hj. rewrite elem_of_remove_first by done. intros [_ H]. by destruct (Ha j).
  - by apply NoDup_remove_first.
Qed.

Lemma active_keys j l : j ∈ (id <$> List.filter active l) ↔ (j, true) ∈ keys l.
Proof.
  unfold keys. rewrite !list_elem_of_fmap. split.
  - intros (t & -> & Ht). rewrite list_elem_of_In, filter_In, <- list_elem_of_In in Ht. destruct Ht as [Ht Ha].
    exists t. by rewrite Ha.
  - intros (t & [= -> Ha] & Ht). exists t. split; [done|]. rewrite list_elem_of_In, filter_In, <- list_elem_of_In. done.
Qed.
Lemma NoDup_active l : NoDup (keys l).*1 → NoDup (id <$> List.filter active l).
Proof.
  induction l as [|t l IH]; simpl; [constructor|]. intros [Hn Hl]%NoDup_cons. destruct (active t); [|by apply IH].
  simpl. constructor; [|by apply IH]. rewrite active_keys. intros H. destruct Hn. apply list_elem_of_fmap. by exists (id t, true).
Qed.
(** the state a gesture leaves *)
Lemma finish_inv fs i s :
  NoDup fs → (∀ j, j ∈ fs ↔ j ≠ i ∧ (j ∈ ignored s ∨ (j, true) ∈ keys (tracked s))) →
  NoDup (ignored s) → NoDup (keys (tracked s)).*1 → (∀ j, (j, true) ∈ keys (tracked s) → j ∉ ignored s) →
  longpressPending s = false → twoTouchPending s = false →
  inv fs (finish i s) ∧ holding (finish i s) = None.
Proof.
  intros Hf Hd Hg Hi Ha Hlp Htp. unfold finish. simpl.
  set (ig := remove_first i _).
  assert (NoDup (ignored s ++ (id <$> List.filter active (tracked s)))) as Hnd.
  { apply NoDup_app. split_and!; [done| |by apply NoDup_active]. intros j Hj Hj'%active_keys. by destruct (Ha j). }
  assert (NoDup ig) as Hig by by apply NoDup_remove_first.
  assert (∀ j, j ∈ fs ↔ j ∈ ig) as Hfs.
  { intros j. unfold ig. rewrite Hd, elem_of_remove_first, elem_of_app, active_keys by done. done. }
  unfold inv. case_decide as Hempty; (split; [|done]); simpl; rewrite Hlp, Htp.
  - assert (fs = []) as ->. { destruct fs as [|f fs]; [done|]. exfalso. apply (not_elem_of_nil f). rewrite <- Hempty, <- Hfs. by left. }
    rewrite Hempty. apply empty_shape.
  - split; simpl; try done.
    + apply NoDup_nil_2.
    + intros j. rewrite Hfs, elem_of_nil. tauto.
    + by intros j H%not_elem_of_nil.
    + auto.
Qed.

Definition small_state (v : Z) : bool := (0 <=? v) && (v <? 8).
Lemma small_state_ok v : small_state v = true → 0 <= v < 128 ∧ pair_bits v = true ∧ no_hold v = true.
Proof.
  unfold small_state. intros [H1%Z.leb_le H2%Z.ltb_lt]%andb_prop. assert (0 <= v < 128) as Hr by lia. split; [done|].
  assert (small_state v = true) as Hs by (unfold small_state; apply andb_true_intro; split; [by apply Z.leb_le|by apply Z.ltb_lt]).
  split; [exact (states_impl small_state pair_bits eq_refl v Hr Hs)|exact (states_impl small_state no_hold eq_refl v Hr Hs)].
Qed.
Lemma release_spec now fs s :
  inv fs s → hasDetectedGesture s = false →
  tracked (release now s) = tracked s ∧ ignored (release now s) = ignored s ∧ waitingRelease (release now s) = true
  ∧ longpressPending (release now s) = false ∧ twoTouchPending (release now s) = false
  ∧ small_state (state (release now s)) = true.
Proof.
  intros [Hf Hr Hp Hi Hd Ha Hg Hl Ht Hw Hac Hm He] Hdet. unfold release. rewrite Hdet. cbn [negb andb]. unfold isTwoTouchTimeoutRunning.
  set (s1 := if twoTouchTimeoutId s then with_state GH_NOGESTURE (stopTwoTouchTimeout s) else s).
  assert (tracked s1 = tracked s ∧ ignored s1 = ignored s ∧ waitingRelease s1 = waitingRelease s ∧ twoTouchPending s1 = false
    ∧ 0 <= state s1 < 128 ∧ hasDetectedGesture s1 = false) as (E1 & E2 & E3 & E4 & E5 & E6).
  { unfold s1. destruct (twoTouchTimeoutId s) eqn:E; simpl; [done|]. split_and!; try done; [|lia|lia].
    destruct (twoTouchPending s) eqn:Etp; [|done]. destruct (Ht eq_refl) as [? _]. congruence. }
  clearbody s1. rewrite E6. cbn [negb]. simpl. rewrite E3.
  assert (small_state (Z.land (Z.land (state s1) (Z.lnot (Z.lor 8 (Z.lor 32 64)))) (Z.lnot 16)) = true) as Hm0.
  { exact (all_states (λ v, small_state (Z.land (Z.land v (Z.lnot (Z.lor 8 (Z.lor 32 64)))) (Z.lnot 16))) eq_refl _ E5). }
  assert (∀ v m, small_state v = true → small_state (Z.land v m) = true) as Hm1.
  { unfold small_state. intros v m [H1%Z.leb_le H2%Z.ltb_lt]%andb_prop.
    destruct (land_range 3 v m); [done|done|]. apply andb_true_intro. split; [by apply Z.leb_le|by apply Z.ltb_lt]. }
  destruct (waitingRelease s) eqn:Ew; simpl; [by rewrite E1, E2, E3, E4|].
  rewrite E1. destruct (length (tracked s)) as [|[|[|n]]]; simpl; rewrite ?E1, ?E2, ?E4; split_and!; try done; by apply Hm1.
Qed.

Lemma deactivate_keys i l : keys (deactivate i l) = (λ k : Z * bool, if decide (k.1 = i) then (k.1, false) else k) <$> keys l.
Proof. unfold keys, deactivate. rewrite <- !list_fmap_compose. apply list_fmap_ext. intros k t _. simpl. by case_decide. Qed.
Lemma deactivate_ids i l : (keys (deactivate i l)).*1 = (keys l).*1.
Proof. rewrite deactivate_keys, <- list_fmap_compose. apply list_fmap_ext. intros k [] _. simpl. by case_decide. Qed.
Lemma deactivate_active i j l : (j, true) ∈ keys (deactivate i l) ↔ j ≠ i ∧ (j, true) ∈ keys l.
Proof.
  rewrite deactivate_keys, list_elem_of_fmap. split.
  - intros ([k b] & E & Hk). simpl in E. case_decide as Hd; [done|]. injection E as -> <-. done.
  - intros [Hn Hj]. exists (j, true). simpl. by rewrite decide_False.
Qed.

Lemma expire_spec now s : ∃ v, expire now s = with_state v s ∧ (v = state s ∨ v = GH_NOGESTURE).
Proof.
  unfold expire. destruct s as [v tr ig w r a b c d]. simpl.
  destruct (_ <? _); simpl; destruct (existsb _ tr); eexists; (split; [reflexivity|]); simpl; auto.
Qed.
(** the rest of a release once all fingers are waited for *)
Lemma waited_ok fs s now i :
  shape fs (state s) (keys (tracked s)) (ignored s) true (twoTouchTimeoutId s) false false →
  waitingRelease s = true → longpressPending s = false → twoTouchPending s = false →
  i ∈ fs → i ∉ ignored s →
  ∃ s' es, waited now i s = Some (s', es) ∧ inv (lift i fs) s' ∧ accepts None es = Some (holding s').
Proof.
  intros [Hf Hr Hp Hi Hd Ha Hg _ _ Hw _ Hm He] Hwr Hlp Htp Hfs Hig. specialize (Hw eq_refl).
  unfold waited. destruct (expire_spec now s) as (v' & -> & Hv). cbn [tracked with_state].
  assert (find i (tracked s) ≠ None) as Hfind.
  { intros Hnone. apply Hd in Hfs as [?|Hin]; [done|]. apply list_elem_of_fmap in Hin as (t & [= -> _] & Ht').
    pose proof (List.find_none _ _ Hnone t ltac:(by apply list_elem_of_In)) as E.
    cbv beta in E. by rewrite Z.eqb_refl in E. }
  destruct (find i (tracked s)); [|done]. simpl. set (s1 := with_tracked (deactivate i (tracked s)) (with_state v' s)).
  assert (∀ P : Z → Prop, P (state s) → P GH_NOGESTURE → P v') as Hcase by (intros P; by destruct Hv as [->| ->]).
  assert (0 <= v' < 128) as Hr' by (apply (Hcase (λ v, 0 <= v < 128)); [done|done]).
  assert (no_hold v' = true) as Hw' by by apply (Hcase (λ v, no_hold v = true)).
  assert (holding s1 = None) as Hh1 by by apply no_hold_holding.
  assert ((i, true) ∈ keys (tracked s)) as Hik by (apply Hd in Hfs; tauto).
  assert (tracked s1 ≠ []) as Hne.
  { unfold s1. simpl. intros E%fmap_nil_inv. rewrite E in Hik. by apply not_elem_of_nil in Hik. }
  assert (inv (lift i fs) (finish i s1) ∧ holding (finish i s1) = None) as [Hfin Hhf].
  { apply finish_inv; simpl; try done.
    - by apply NoDup_lift.
    - intros j. rewrite elem_of_lift, Hd, deactivate_active. tauto.
    - by rewrite deactivate_ids.
    - intros j [_ Hj]%deactivate_active. by apply Ha. }
  unfold ending. destruct (hasDetectedGesture s1) eqn:Hdet.
  - pose proof (detected_one_bit s1 Hdet) as H1.
    destruct (pushEvent_ok gesturestart s1 H1 Hr' Hne) as (e1 & -> & K1 & G1).
    destruct (pushEvent_ok gestureend s1 H1 Hr' Hne) as (e2 & -> & K2 & G2). simpl.
    exists (finish i s1), [e1; e2]. split; [done|]. split; [done|]. simpl.
    rewrite (accept_state s1 e1 None G1 H1 Hr') by by rewrite K1. rewrite K1. simpl.
    rewrite (accept_state s1 e2 _ G2 H1 Hr') by by rewrite K2. rewrite K2. simpl. by rewrite Hhf.
  - case_decide as H0.
    + exists s1, []. split; [done|]. split; [|simpl; by rewrite Hh1]. unfold inv, s1. simpl. rewrite Hwr, Hlp, Htp.
      assert (length (keys (deactivate i (tracked s))) = length (keys (tracked s))) as El.
      { unfold keys, deactivate. by rewrite !length_fmap. }
      split; try done; [by apply NoDup_lift|by apply (Hcase (λ v, pair_bits v = true))|by rewrite deactivate_ids| |
        |by intros E; apply fmap_nil_inv, fmap_nil_inv in E; rewrite E in Hik; apply not_elem_of_nil in Hik].
      * intros j. rewrite elem_of_lift, Hd, deactivate_active. split; [tauto|]. intros [Hj|?]; [|tauto].
        split; [|by left]. by intros ->.
      * intros j [_ Hj]%deactivate_active. by apply Ha.
    + exists (finish i s1), []. split; [done|]. split; [done|]. simpl. by rewrite Hhf.
Qed.
Lemma touchEnd_ok fs s now i :
  inv fs s → i ∈ fs → ∃ s' es, touchEnd now i s = Some (s', es) ∧ inv (lift i fs) s' ∧ accepts (holding s) es = Some (holding s').
Proof.
  intros H Hin. pose proof H as [Hf Hr Hp Hi Hd Ha Hg Hl Ht Hw Hac Hm He]. unfold touchEnd. case_bool_decide as Hig.
  { pose proof (ignored_lifted _ _ _ _ _ _ _ _ _ H Hig) as H'. simpl.
    destruct (decide (remove_first i (ignored s) = [] ∧ tracked s = [])) as [[Hc1 Hc2]|Hc]; [|by eexists _, []].
    eexists _, []. split; [reflexivity|]. unfold inv. simpl. rewrite Hc1, Hc2 in *.
    assert (∀ f, f ∉ lift i fs) as Hnone.
    { intros f Hfl. apply (i_down _ _ _ _ _ _ _ _ H') in Hfl as [Hx|Hx]; by apply not_elem_of_nil in Hx. }
    replace (lift i fs) with (@nil Z); [|destruct (lift i fs) as [|f l]; [done|]; destruct (Hnone f); by left].
    split.
    - replace (longpressPending s) with false; [replace (twoTouchPending s) with false; [apply empty_shape|]|].
      + destruct (twoTouchPending s); [|done]. destruct (Ht eq_refl) as (_ & Hlt & _). simpl in Hlt. lia.
      + destruct (longpressPending s); [|done]. by destruct (Hl eq_refl) as (_ & ? & _).
    - simpl. f_equal. unfold holding. simpl. by destruct (He eq_refl) as [->| ->]. }
  destruct (hasDetectedGesture s) eqn:Hdet.
  - assert (release now s = s) as -> by (unfold release; by rewrite Hdet; cbn [negb andb]; rewrite Hdet).
    pose proof (detected_one_bit s Hdet) as H1.
    assert (longpressPending s = false) as Hlp.
    { destruct (longpressPending s); [|done]. destruct (Hl eq_refl) as (_ & _ & [E|E]); rewrite E in H1; by vm_compute in H1. }
    assert (twoTouchPending s = false) as Htp.
    { destruct (twoTouchPending s); [|done]. destruct (Ht eq_refl) as (_ & _ & [E|E]); rewrite E in H1; by vm_compute in H1. }
    destruct (waitingRelease s) eqn:Hwr.
    + rewrite (no_hold_holding s (Hw eq_refl)). apply (waited_ok fs); try done. all: unfold inv in H; by rewrite Hwr, Hlp, Htp in H.
    + assert (tracked s ≠ []) as Hne.
      { intros E. rewrite E in He. by destruct (He eq_refl) as [E'|E']; rewrite E' in H1. }
      unfold ending. rewrite Hdet. destruct (pushEvent_ok gestureend s H1 Hr Hne) as (e & -> & K & G). simpl.
      assert (inv (lift i fs) (finish i s) ∧ holding (finish i s) = None) as [Hfin Hhf].
      { apply finish_inv; try done; [by apply NoDup_lift|]. intros j. rewrite elem_of_lift, Hd. tauto. }
      exists (finish i s), [e]. split; [done|]. split; [done|]. simpl.
      rewrite (accept_state s e _ G H1 Hr) by by rewrite K. rewrite K. simpl. by rewrite Hhf.
  - destruct (release_spec now fs s H Hdet) as (E1 & E2 & E3 & E4 & E5 & E6). rewrite E3, (not_detected_no_hold s Hdet).
    apply (waited_ok fs); rewrite ?E1, ?E2; try done. apply small_state_ok in E6 as (K1 & K2 & K3).
    split; try done. intros E. rewrite E in Hd. apply Hd in Hin as [?|Hx]; [done|]. by apply not_elem_of_nil in Hx.
Qed.

(** *** Timers *)
Lemma longpress_ok fs s :
  inv fs s → longpressPending s = true →
  ∃ s' es, longpressTimeout (fire_longpress s) = Some (s', es) ∧ inv fs s' ∧ accepts (holding s) es = Some (holding s').
Proof.
  intros [Hf Hr Hp Hi Hd Ha Hg Hl Ht Hw Hac Hm He] Hlp. destruct (Hl Hlp) as (Hwr & Hlen & Hv). unfold longpressTimeout.
  assert (hasDetectedGesture (fire_longpress s) = false) as ->.
  { unfold hasDetectedGesture. simpl. destruct Hv as [->| ->]; by vm_compute. }
  set (s1 := with_state GH_LONGPRESS (fire_longpress s)).
  assert (tracked s1 ≠ []) as Hne by (unfold s1; simpl; by destruct (tracked s)).
  destruct (pushEvent_ok gesturestart s1) as (e & -> & K & G); [done|done|done|]. simpl. exists s1, [e]. split; [done|]. split.
  - unfold inv, s1. simpl. split; try done; try lia.
    + intros Htp. destruct (Ht Htp) as (_ & ? & _). lia.
    + by rewrite Hwr.
    + by destruct (keys (tracked s)).
  - simpl. rewrite (accept_state s1 e); [by rewrite K|done..|]. rewrite K. unfold holding. by destruct Hv as [->| ->].
Qed.
Lemma twoTouch_ok fs s :
  inv fs s → twoTouchPending s = true →
  ∃ s' es, twoTouchTimeout (fire_twoTouch s) = Some (s', es) ∧ inv fs s' ∧ accepts (holding s) es = Some (holding s').
Proof.
  intros H Htp. pose proof H as [Hf Hr Hp Hi Hd Ha Hg Hl Ht Hw Hac Hm He]. destruct (Ht Htp) as (Hid & Hlen & Hv).
  assert (tracked s ≠ []) as Hne by (intros E; rewrite E in Hlen; simpl in Hlen; lia).
  assert (longpressPending s = false) as Hlp.
  { destruct (longpressPending s); [|done]. destruct (Hl eq_refl) as (_ & ? & _). lia. }
  assert (holding s = None) as -> by (unfold holding; by destruct Hv as [->| ->]).
  unfold twoTouchTimeout, getAverageMovement, getAverageDistance. cbn [tracked fire_twoTouch].
  destruct (tracked s) as [|t l] eqn:El; [done|]. simpl.
  set (v := if _ && _ then GH_PINCH else GH_TWODRAG). set (s1 := with_state v (fire_twoTouch s)).
  assert (v = GH_PINCH ∨ v = GH_TWODRAG) as Hvv by (unfold v; destruct (_ && _); auto).
  assert (inv fs s1) as H1.
  { unfold inv, s1. simpl. rewrite El, Hlp. eapply shape_state; [unfold inv in H; rewrite El in H; exact H|done|..]; destruct Hvv as [->| ->]; done. }
  destruct (push_start_move s1) as (e1 & e2 & E1 & E2 & Hacc).
  - unfold hasDetectedGesture, s1. simpl. by destruct Hvv as [->| ->].
  - apply H1.
  - unfold s1. simpl. by rewrite El.
  - exists s1, [e1; e2]. split; [|done]. fold s1. by rewrite E1, E2.
Qed.

(** *** All inputs *)
Lemma handle_ok fs s e :
  inv fs s → enabled (World fs (Some s)) e →
  ∃ s' es, handle s e = Some (s', es) ∧ inv (fingers e fs) s' ∧ accepts (holding s) es = Some (holding s').
Proof.
  intros H He. destruct e as [now i x y|i x y|now i| |]; simpl in *.
  - destruct (touchStart_ok fs s now i x y H He) as [Hi Hh]. eexists _, []. split; [reflexivity|]. split; [done|]. simpl. by rewrite Hh.
  - by apply touchMove_ok.
  - by apply touchEnd_ok.
  - apply longpress_ok; [done|]. by injection He.
  - apply twoTouch_ok; [done|]. by injection He.
Qed.
Lemma new_inv : inv [] new.
Proof. apply empty_shape. Qed.
Lemma accepts_app cur es1 es2 : accepts cur (es1 ++ es2) = (c ← accepts cur es1; accepts c es2).
Proof. revert cur. induction es1 as [|e es1 IH]; intros cur; [done|]. simpl. destruct (accept cur e); simpl; [apply IH|done]. Qed.
Lemma lifted_holds_nothing s : inv [] s → holding s = None.
Proof.
  intros [_ _ _ _ Hd _ _ _ _ Hw Hac _ He].
  destruct (waitingRelease s); [by apply no_hold_holding, Hw|]. specialize (Hac eq_refl).
  destruct (keys (tracked s)) as [|[i b] ks] eqn:El; [unfold holding; by destruct (He eq_refl) as [->| ->]|].
  apply Forall_cons in Hac as [Hb _]. simpl in Hb. subst b. destruct (not_elem_of_nil i). apply Hd. right. by left.
Qed.

(** A finger never leaves a mouse button down: in every sequence of touches
    and timers the handler raises no error; the drag and longpress gestures it
    reports, during which the console holds a button, come as a start, moves
    and an end, one at a time and with no other gesture in between; and when no
    finger touches the screen none is open. *)
Lemma gestures_alternate ins os w :
  trace enabled step start_world ins w os →
  ∃ s c, gh w = Some s ∧ accepts None os = Some c ∧ (touching w = [] → c = None).
Proof.
  intros Ht. cut (∃ s, gh w = Some s ∧ inv (touching w) s ∧ accepts None os = Some (holding s)).
  { intros (s & E & Hi & Ha). exists s, (holding s). split_and!; [done..|]. intros E0. rewrite E0 in Hi. by apply lifted_holds_nothing. }
  assert (∀ w0 ins w os, trace enabled step w0 ins w os → ∀ s0, gh w0 = Some s0 → inv (touching w0) s0 →
    ∃ s, gh w = Some s ∧ inv (touching w) s ∧ accepts (holding s0) os = Some (holding s)) as Hgen.
  { clear. induction 1 as [w0|w0 e ins w os He Ht IH]; intros s0 E Hi; [by exists s0|].
    destruct w0 as [fs g]. simpl in E. subst g. destruct (handle_ok fs s0 e Hi He) as (s1 & es & Eh & Hi1 & Ha).
    assert (step (World fs (Some s0)) e = (World (fingers e fs) (Some s1), es)) as Es by (unfold step; simpl; by rewrite Eh).
    rewrite Es in *.
    destruct (IH s1 eq_refl Hi1) as (s & Eg & His & Has). exists s. split_and!; [done..|]. simpl. by rewrite accepts_app, Ha. }
  apply (Hgen _ _ _ _ Ht new); [done|apply new_inv].
Qed.
End touches.
Arguments step _ _ _ _ : assert.

(** ** Runs *)
(** the coordinates' larger difference, and the direction along an axis, in
    place of [hypot] and [atan2] *)
Definition far_from (x y : Z) : Q := inject_Z (Z.max (Z.abs x) (Z.abs y)).
Definition direction (y x : Z) : Q := if 0 <=? x then 0%Q else 180%Q.
Definition play (ins : list input) : world * list (kind * gesture) :=
  let '(w, es) := run (step far_from direction) start_world ins in (w, (λ e, (type e, detail e)) <$> es).

Example gestures_of_a_drag :
  let ins := [Start 0 1 10 10; Move 1 100 10; Move 1 120 10; Start 300 2 0 0; End 400 1; End 500 2] in
  (play ins).2 = [(gesturestart, drag); (gesturemove, drag); (gesturemove, drag); (gestureend, drag)]
  ∧ ∃ s, gh (run (step far_from direction) start_world ins).1 = Some s ∧ accepts None (run (step far_from direction) start_world ins).2 = Some None.
Proof.
  intros ins. split; [by vm_compute|].
  destruct (gestures_alternate far_from direction ins (run (step far_from direction) start_world ins).2
    (run (step far_from direction) start_world ins).1) as (s & c & Hs & Ha & Hc).
  - apply run_trace. unfold ins. cbn [admissible enabled].
    split_and!; lazymatch goal with |- True => exact I | _ => apply (bool_decide_unpack _); vm_compute; exact I end.
  - exists s. rewrite Ha, Hc; [by split|]. by vm_compute.
Defined.

(** A tap and a slow pinch as they should be ... *)
Definition tap (t i : Z) : list input := [Start t i 5 5; End (t + 100) i].
Definition slow_pinch : list input :=
  [Start 0 1 0 0; Start 10 2 200 0; Move 1 (-60) 0; TwoTouchTimer; Move 2 260 0; End 400 1; End 400 2].
Example a_tap : (play (tap 0 1)).2 = [(gesturestart, onetap); (gestureend, onetap)].
Proof. by vm_compute. Qed.
Example a_slow_pinch :
  (play slow_pinch).2 = [(gesturestart, pinch); (gesturemove, pinch); (gesturemove, pinch); (gestureend, pinch)].
Proof. by vm_compute. Qed.
(** ... and the tap after it, which is lost: the timer that decided the pinch
    keeps its id, and the release of the tap takes it for one still running. *)
Example tap_after_a_slow_pinch_is_lost : (play (slow_pinch ++ tap 1000 3)).2 = (play slow_pinch).2.
Proof. by vm_compute. Qed.
(** Two fingers down, one lifted, the other dragged away and lifted late: a
    gesture of two touches starts with one finger left, and no end follows. *)
Example a_two_touch_gesture_without_end :
  (play [Start 0 1 0 0; Start 10 2 200 0; End 100 1; Move 2 300 0; TwoTouchTimer; End 600 2]).2
  = [(gesturestart, twodrag); (gesturemove, twodrag)] ∨
  (play [Start 0 1 0 0; Start 10 2 200 0; End 100 1; Move 2 300 0; TwoTouchTimer; End 600 2]).2
  = [(gesturestart, pinch); (gesturemove, pinch)].
Proof. vm_compute. auto. Qed.
End Gestures.
