(* ===== verification/Keyboard.v ===== *)
(** * noVNC: the keyboard, static/js/novnc/core/input/util.js and keyboard.js

    Module [InputUtil]: the code and the keysym of a key event.  Module
    [Keyboard]: the keys that are down and the key events the console is given,
    with the detection of AltGr on Windows. *)
From S2P Require Import Prelude JsObject JsString KeyTables Keysyms.
From Stdlib Require Import Ascii.

#[local] Open Scope Z_scope.
#[local] Open Scope string_scope.
#[local] Open Scope list_scope.

(** ** What a key event says *)
Module InputUtil.
Record platform := Platform { isMac : bool; isIOS : bool; isWindows : bool }.
(** [e.key]: one UTF-16 code unit, or another text *)
Inductive key := Char (unit : Z) | Named (name : string).
#[global] Instance key_eq_dec : EqDecision key.
Proof. solve_decision. Defined.
(** a key event; none stands for undefined, and for 0 in the numbers the code
    only tests *)
Record key_event := KeyEvent {
  e_code : option string; e_key : option key; e_keyCode : option Z; e_location : option Z; e_charCode : option Z;
  e_keyIdentifier : option string; e_metaKey : bool; e_numlock : bool; e_capslock : bool; e_timeStamp : Z }.

(** [switch] on a text *)
Definition switch {A} (s : string) (cases : list (string * A)) : option A := JsObj.get s cases.
Definition vkey (c : Z) : option string := snd <$> List.find (λ kv, Z.eqb kv.1 c) KeyTables.vkeys.
Definition right_of : list (string * string) :=
  [("ShiftLeft", "ShiftRight"); ("ControlLeft", "ControlRight"); ("AltLeft", "AltRight")].
Definition numpad_of : list (string * string) :=
  [("Delete", "NumpadDecimal"); ("Insert", "Numpad0"); ("End", "Numpad1"); ("ArrowDown", "Numpad2"); ("PageDown", "Numpad3");
   ("ArrowLeft", "Numpad4"); ("ArrowRight", "Numpad6"); ("Home", "Numpad7"); ("ArrowUp", "Numpad8"); ("PageUp", "Numpad9");
   ("Enter", "NumpadEnter")].

Section util.
Context (p : platform).
Definition getKeycode (evt : key_event) : string :=
  match e_code evt with
  | Some (String _ _ as c) => default c (switch c [("OSLeft", "MetaLeft"); ("OSRight", "MetaRight")])
  | _ =>
    match e_keyCode evt ≫= vkey with
    | Some c =>
      let c := if isMac p && bool_decide (c = "ContextMenu") then "MetaRight" else c in
      if decide (e_location evt = Some 2) then default c (switch c right_of)
      else if decide (e_location evt = Some 3) then default c (switch c numpad_of)
      else c
    | None => "Unidentified"
    end
  end.

Definition getKey (evt : key_event) : key :=
  match e_key evt with
  | Some (Named n) =>
    if decide (n = "Unidentified") then
      match switch (getKeycode evt) KeyTables.fixedkeys with
      | Some n => Named n
      | None => match e_charCode evt with Some c => Char c | None => Named "Unidentified" end
      end
    else
      Named (match switch n [("OS", "Meta"); ("LaunchMyComputer", "LaunchApplication1");
                             ("LaunchCalculator", "LaunchApplication2");
                             ("UIKeyInputUpArrow", "ArrowUp"); ("UIKeyInputDownArrow", "ArrowDown");
                             ("UIKeyInputLeftArrow", "ArrowLeft"); ("UIKeyInputRightArrow", "ArrowRight");
                             ("UIKeyInputEscape", "Escape")] with
             | Some n => n
             | None => n
             end)
  | Some (Char c) => if decide (c = 0 ∧ e_code evt = Some "NumpadDecimal") then Named "Delete" else Char c
  | None =>
    match switch (getKeycode evt) KeyTables.fixedkeys with
    | Some n => Named n
    | None => match e_charCode evt with Some c => Char c | None => Named "Unidentified" end
    end
  end.

(** the property name of a key in a table *)
Definition key_name (k : key) : string :=
  match k with
  | Named n => n
  | Char c => if decide (0 <= c < 256) then String (ascii_of_nat (Z.to_nat c)) "" else ""
  end.
Definition at_location (e : KeyTables.entry) (l : Z) : option Z :=
  let '(s, l1, r, n) := e in
  if decide (l = 0) then Some s else if decide (l = 1) then Some l1 else if decide (l = 2) then Some r
  else if decide (l = 3) then Some n else None.

Context (DOMKeyTable : KeyTables.dom_table).
(** [none]: null or undefined *)
Definition getKeysym (evt : key_event) : option Z :=
  let k := getKey evt in
  if decide (k = Named "Unidentified") then None
  else match JsObj.get (key_name k) DOMKeyTable with
  | Some entry =>
    let location := e_location evt in
    let location := if decide (k = Named "Meta" ∧ location = Some 0) then Some 2 else location in
    let code := getKeycode evt in
    let location := if decide (k = Named "Clear" ∧ location = Some 3 ∧ code = "NumLock") then Some 0 else location in
    let location := match location with Some l => if decide (3 < l) then 0 else l | None => 0 end in
    if decide (k = Named "Meta" ∧ code = "AltLeft") then KeyTables.keysym "XK_Meta_L"
    else if decide (k = Named "Meta" ∧ code = "AltRight") then KeyTables.keysym "XK_Meta_R"
    else if decide (k = Named "Clear" ∧ code = "NumLock") then KeyTables.keysym "XK_Num_Lock"
    else if isWindows p && bool_decide (k ∈ [Named "Zenkaku"; Named "Hankaku"]) then KeyTables.keysym "XK_Zenkaku_Hankaku"
    else if isWindows p && bool_decide (k ∈ [Named "Romaji"; Named "KanaMode"]) then KeyTables.keysym "XK_Romaji"
    else at_location entry location
  | None =>
    match k with
    | Char c => if decide (c ≠ 0) then Some (Keysymdef.lookup c) else None
    | Named _ => None
    end
  end.
End util.
End InputUtil.

(** ** The keys that are down *)
Module Keyboard.
Import InputUtil.
Record keyboard := Keyboard_ {
  keyDownList : obj (option Z);        (* a code's keysym; none: null *)
  altGrArmed : bool; altGrCtrlTime : Z;
  altGrTimeout : bool }.               (* the timer is running *)
(** [onkeyevent] *)
Record sent := Sent { keysym : option Z; code : string; down : bool; numlock : option bool; capslock : option bool }.
Definition new : keyboard := Keyboard_ [] false 0 false.
Definition with_keys (f : obj (option Z) → obj (option Z)) (s : keyboard) : keyboard :=
  Keyboard_ (f (keyDownList s)) (altGrArmed s) (altGrCtrlTime s) (altGrTimeout s).
Definition with_armed (a : bool) (t : Z) (s : keyboard) : keyboard := Keyboard_ (keyDownList s) a t a.
Definition is_down (c : string) (s : keyboard) : bool := JsObj.has c (keyDownList s).
(** [this._keyDownList\[code\]], null when it is not there *)
Definition down_keysym (c : string) (s : keyboard) : option Z := mjoin (JsObj.get c (keyDownList s)).

Notation M := (handler keyboard sent).
#[local] Open Scope handler_scope.
Definition sendKeyEvent (k : option Z) (c : string) (d : bool) (nl cl : option bool) : M :=
  if d then modify (with_keys (JsObj.set c k)) ▸ emit (Sent k c true nl cl)
  else with_state (λ s, if is_down c s then modify (with_keys (JsObj.del c)) ▸ emit (Sent k c false nl cl) else skip).
(** a key that is not tracked: pressed and released at once *)
Definition press_release (k : option Z) (c : string) (nl cl : option bool) : M :=
  sendKeyEvent k c true nl cl ▸ sendKeyEvent k c false nl cl.

(** [parseInt(s, 16)] of the digits a text starts with, 0 without one *)
Fixpoint hex_value (s : string) (v : Z) : Z :=
  match s with
  | EmptyString => v
  | String a r =>
    let n := Z.of_nat (nat_of_ascii a) in
    if decide (48 <= n <= 57) then hex_value r (16 * v + (n - 48))
    else if decide (65 <= n <= 70) then hex_value r (16 * v + (n - 55))
    else if decide (97 <= n <= 102) then hex_value r (16 * v + (n - 87))
    else v
  end.
(** [toUpperCase] of the ASCII letters *)
Definition upper (c : Z) : Z := if decide (97 <= c <= 122) then c - 32 else c.

(** [keyIdentifier]: a name, or a character *)
Definition legacy_code (e : key_event) : string :=
  match e_keyIdentifier e with
  | Some (String _ _ as i) =>
    if JsString.startsWith "U+" i then
      "Platform" +:+ JsString.of_int (upper (hex_value (String.substring 2 (String.length i - 2) i) 0))
    else i
  | _ => "Unidentified"
  end.

Section keyboard.
Context (p : platform) (DOMKeyTable : KeyTables.dom_table).
Definition apple : bool := isMac p || isIOS p.

Definition getKeyCode (e : key_event) : string :=
  let c := getKeycode p e in
  if decide (c ≠ "Unidentified") then c
  else match e_keyCode e with
  | Some k => if decide (k ≠ 229) then "Platform" +:+ JsString.of_int k else legacy_code e
  | None => legacy_code e
  end.
Definition XK (name : string) : option Z := KeyTables.keysym name.
Definition interruptAltGrSequence : M :=
  with_state (λ s, if altGrArmed s then
    modify (with_armed false (altGrCtrlTime s)) ▸ sendKeyEvent (XK "XK_Control_L") "ControlLeft" true None None else skip).

(** Alt and the command key are shuffled on Apple's systems *)
Definition shuffle (k : option Z) : option Z :=
  if decide (k = XK "XK_Super_L") then XK "XK_Alt_L"
  else if decide (k = XK "XK_Super_R") then XK "XK_Super_L"
  else if decide (k = XK "XK_Alt_L") then XK "XK_Mode_switch"
  else if decide (k = XK "XK_Alt_R") then XK "XK_ISO_Level3_Shift"
  else k.
Definition jpBadKeys : list (option Z) :=
  [XK "XK_Zenkaku_Hankaku"; XK "XK_Eisu_toggle"; XK "XK_Katakana"; XK "XK_Hiragana"; XK "XK_Romaji"].

(** what follows once the keysym is chosen *)
Definition press (e : key_event) (c : string) (k : option Z) (nl cl : option bool) : M :=
  if apple && e_metaKey e && negb (bool_decide (c = "MetaLeft")) && negb (bool_decide (c = "MetaRight")) then press_release k c nl cl
  else if apple && bool_decide (c = "CapsLock") then press_release (XK "XK_Caps_Lock") "CapsLock" nl cl
  else if isWindows p && bool_decide (k ∈ jpBadKeys) then press_release k c nl cl
  else with_state (λ s,
    if bool_decide (c = "ControlLeft") && isWindows p && negb (is_down "ControlLeft" s)
    then modify (with_armed true (e_timeStamp e))
    else sendKeyEvent k c true nl cl).
Definition numlock_of (e : key_event) : option bool := if apple then None else Some (e_numlock e).
(** a press whose keysym [k] the AltGr detection settled *)
Definition pressed (e : key_event) (k : option Z) : M :=
  let c := getKeyCode e in
  if decide (c = "Unidentified") then
    (* a keysym that is null or 0 is not sent *)
    match k with
    | Some v => if decide (v ≠ 0) then press_release k c (numlock_of e) (Some (e_capslock e)) else skip
    | None => skip
    end
  else
    let k := if apple then shuffle k else k in
    with_state (λ s, press e c (if is_down c s then down_keysym c s else k) (numlock_of e) (Some (e_capslock e))).
Definition handleKeyDown (e : key_event) : M :=
  let k := getKeysym p DOMKeyTable e in
  with_state (λ s,
    if altGrArmed s then
      modify (with_armed false (altGrCtrlTime s)) ▸
      (if bool_decide (getKeyCode e = "AltRight") && (e_timeStamp e - altGrCtrlTime s <? 50)%Z
       then pressed e (XK "XK_ISO_Level3_Shift")
       else sendKeyEvent (XK "XK_Control_L") "ControlLeft" true (numlock_of e) (Some (e_capslock e)) ▸ pressed e k)
    else pressed e k).

Definition release (c : string) : M := with_state (λ s, sendKeyEvent (down_keysym c s) c false None None).
Definition handleKeyUp (e : key_event) : M :=
  let c := getKeyCode e in
  interruptAltGrSequence ▸
  (if apple && bool_decide (c = "CapsLock") then press_release (XK "XK_Caps_Lock") "CapsLock" None None
   else
     release c ▸
     (if isWindows p && (bool_decide (c = "ShiftLeft") || bool_decide (c = "ShiftRight")) then
        with_state (λ s, if is_down "ShiftRight" s then release "ShiftRight" else skip) ▸
        with_state (λ s, if is_down "ShiftLeft" s then release "ShiftLeft" else skip)
      else skip)).
Definition allKeysUp : M :=
  interruptAltGrSequence ▸ with_state (λ s, for_each (JsObj.keys (keyDownList s)) release).

(** [grab] and [ungrab] are the two ends of the events' delivery *)
Inductive event := KeyDown (e : key_event) | KeyUp (e : key_event) | Blur | AltGrTimer | Ungrab.
Definition on (ev : event) : M :=
  match ev with
  | KeyDown e => handleKeyDown e
  | KeyUp e => handleKeyUp e
  | Blur | Ungrab => allKeysUp
  | AltGrTimer => interruptAltGrSequence
  end.
Definition step (s : keyboard) (ev : event) : keyboard * list sent := on ev s.
Definition enabled (s : keyboard) (ev : event) : Prop :=
  match ev with AltGrTimer => altGrTimeout s = true | _ => True end.

(** ** What the console is told *)
(** The keys the other side takes for pressed: a repeated press keeps its
    keysym, a release is of a pressed key and has the keysym of its press. *)
Definition hear (l : obj (option Z)) (e : sent) : option (obj (option Z)) :=
  if down e then
    match JsObj.get (code e) l with
    | Some k => if decide (k = keysym e) then Some (JsObj.set (code e) (keysym e) l) else None
    | None => Some (JsObj.set (code e) (keysym e) l)
    end
  else if decide (JsObj.get (code e) l = Some (keysym e)) then Some (JsObj.del (code e) l) else None.
Fixpoint hears (l : obj (option Z)) (es : list sent) : option (obj (option Z)) :=
  match es with [] => Some l | e :: es => l ← hear l e; hears l es end.
(** after [h] the other side holds the keys of [keyDownList] *)
Definition in_step (h : M) (s : keyboard) : Prop := hears (keyDownList s) (h s).2 = Some (keyDownList (h s).1).

Lemma hears_app l es1 es2 : hears l (es1 ++ es2) = (l' ← hears l es1; hears l' es2).
Proof. revert l. induction es1 as [|e es1 IH]; intros l; [done|]. simpl. destruct (hear l e); [apply IH|done]. Qed.
Lemma in_step_seq f g s : in_step f s → in_step g (f s).1 → in_step (seq f g) s.
Proof. unfold in_step. intros Hf Hg. rewrite seq_snd, seq_fst, hears_app, Hf. exact Hg. Qed.
Lemma in_step_skip s : in_step skip s.
Proof. done. Qed.
Lemma in_step_armed a t s : in_step (modify (with_armed a t)) s.
Proof. done. Qed.
Lemma in_step_press k c nl cl s :
  JsObj.get c (keyDownList s) = None ∨ JsObj.get c (keyDownList s) = Some k → in_step (sendKeyEvent k c true nl cl) s.
Proof. unfold in_step. simpl. unfold hear. simpl. intros [->| ->]; [done|]. by rewrite decide_True. Qed.
Lemma sent_press k c nl cl s : (sendKeyEvent k c true nl cl s).1 = with_keys (JsObj.set c k) s.
Proof. done. Qed.
Lemma release_eq c s :
  release c s = if is_down c s then (with_keys (JsObj.del c) s, [Sent (down_keysym c s) c false None None]) else (s, []).
Proof. unfold release, with_state, sendKeyEvent, with_state. by destruct (is_down c s). Qed.
Lemma in_step_release c s : in_step (release c) s.
Proof.
  unfold in_step. rewrite release_eq. destruct (is_down c s) eqn:Hd; [|done]. unfold is_down, JsObj.has in Hd. apply bool_decide_eq_true in Hd as [k Hk].
  simpl. unfold hear, down_keysym. simpl. rewrite Hk. by rewrite decide_True.
Qed.
Lemma in_step_press_release k c nl cl s :
  JsObj.get c (keyDownList s) = None ∨ JsObj.get c (keyDownList s) = Some k → in_step (press_release k c nl cl) s.
Proof.
  intros H. apply in_step_seq; [by apply in_step_press|]. rewrite sent_press. unfold in_step, sendKeyEvent, with_state, is_down, JsObj.has.
  simpl. rewrite JsObj.get_set_eq. simpl. unfold hear. simpl. rewrite JsObj.get_set_eq. by rewrite decide_True.
Qed.
Lemma in_step_for_release l s : in_step (for_each l release) s.
Proof. revert s. induction l as [|c l IH]; intros s; [done|]. apply in_step_seq; [apply in_step_release|apply IH]. Qed.

(** what is true between events: the left Control is not down while its press
    is held back; and on Apple's systems CapsLock is never down, nor is a key
    without a code *)
Definition rest_ok (s : keyboard) : Prop :=
  (altGrArmed s = true → JsObj.get "ControlLeft" (keyDownList s) = None)
  ∧ altGrTimeout s = altGrArmed s
  ∧ (apple = true → JsObj.get "CapsLock" (keyDownList s) = None)
  ∧ JsObj.get "Unidentified" (keyDownList s) = None.
Lemma press_release_fst k c nl cl s :
  (press_release k c nl cl s).1 = with_keys (λ l, JsObj.del c (JsObj.set c k l)) s.
Proof.
  unfold press_release. rewrite seq_fst, sent_press. unfold sendKeyEvent, with_state, is_down, JsObj.has. simpl.
  by rewrite JsObj.get_set_eq.
Qed.

Definition settled (s : keyboard) : Prop := rest_ok s ∧ altGrArmed s = false.
Definition good (h : M) (s : keyboard) : Prop := in_step h s ∧ rest_ok (h s).1.
(** ... and leaves no press held back *)
Definition good' (h : M) (s : keyboard) : Prop := in_step h s ∧ settled (h s).1.

Lemma settled_set c k s :
  settled s → c ≠ "Unidentified" → (apple = true → c ≠ "CapsLock") → settled (with_keys (JsObj.set c k) s).
Proof.
  intros [(H1 & H2 & H3 & H4) Ha] Hu Hc. split; [|done]. split_and!; simpl; [by rewrite Ha|done| |].
  - intros Hap. rewrite JsObj.get_set_ne by (by intros E; destruct (Hc Hap)). auto.
  - by rewrite JsObj.get_set_ne.
Qed.
Lemma rest_del c s : rest_ok s → rest_ok (with_keys (JsObj.del c) s).
Proof. intros (H1 & H2 & H3 & H4). split_and!; simpl; try done; intros; rewrite JsObj.get_del; case_decide; auto. Qed.
Lemma settled_del c s : settled s → settled (with_keys (JsObj.del c) s).
Proof. intros [H Ha]. split; [by apply rest_del|done]. Qed.
Lemma settled_set_del c k s : settled s → settled (with_keys (λ l, JsObj.del c (JsObj.set c k l)) s).
Proof.
  intros [(H1 & H2 & H3 & H4) Ha]. split; [|done]. split_and!; simpl; [by rewrite Ha|done|..];
    intros; rewrite JsObj.get_del; (case_decide; [done|]); rewrite JsObj.get_set_ne by done; auto.
Qed.
Lemma good_read (f : keyboard → M) s : good (f s) s → good (with_state f) s.
Proof. done. Qed.
Lemma good'_read (f : keyboard → M) s : good' (f s) s → good' (with_state f) s.
Proof. done. Qed.
Lemma good_seq f g s : good' f s → (∀ s', settled s' → good' g s') → good' (f ▸ g) s.
Proof. intros [Hf Hs] Hg. destruct (Hg _ Hs) as [Hg1 Hg2]. split; [by apply in_step_seq|]. by rewrite seq_fst. Qed.
Lemma good_seq_last f g s : good' f s → (∀ s', settled s' → good g s') → good (f ▸ g) s.
Proof. intros [Hf Hs] Hg. destruct (Hg _ Hs) as [Hg1 Hg2]. split; [by apply in_step_seq|]. by rewrite seq_fst. Qed.
Lemma good_weaken h s : good' h s → good h s.
Proof. by intros [? [? _]]. Qed.
Lemma good_press_release k c nl cl s :
  settled s → JsObj.get c (keyDownList s) = None ∨ JsObj.get c (keyDownList s) = Some k → good' (press_release k c nl cl) s.
Proof. intros Hs Hk. split; [by apply in_step_press_release|]. rewrite press_release_fst. by apply settled_set_del. Qed.
Lemma good_release c s : settled s → good' (release c) s.
Proof.
  intros Hs. split; [apply in_step_release|]. rewrite release_eq. destruct (is_down c s); [|done]. by apply settled_del.
Qed.
Lemma good_for_release l s : settled s → good' (for_each l release) s.
Proof. revert s. induction l as [|c l IH]; intros s Hs; [done|]. apply good_seq; [by apply good_release|]. apply IH. Qed.
Lemma disarm s : rest_ok s → settled (with_armed false (altGrCtrlTime s) s).
Proof. by intros (H1 & H2 & H3 & H4). Qed.
Lemma good_control s nl cl :
  rest_ok s → altGrArmed s = true →
  good' (sendKeyEvent (XK "XK_Control_L") "ControlLeft" true nl cl) (with_armed false (altGrCtrlTime s) s).
Proof.
  intros Hr Ha. split; [apply in_step_press; left; by apply Hr|]. rewrite sent_press. apply settled_set; [by apply disarm|done|done].
Qed.
Lemma good_interrupt s : rest_ok s → good' interruptAltGrSequence s.
Proof.
  intros Hr. apply good'_read. destruct (altGrArmed s) eqn:Ha; [|split; [done|by split]].
  destruct (good_control s None None Hr Ha) as [H1 H2]. split; [by apply in_step_seq|]. by rewrite seq_fst.
Qed.

Lemma good_press e c k nl cl s :
  settled s → c ≠ "Unidentified" → JsObj.get c (keyDownList s) = None ∨ JsObj.get c (keyDownList s) = Some k →
  good (press e c k nl cl) s.
Proof.
  intros Hs Hu Hk. unfold press. destruct (apple && e_metaKey e && _ && _); [by apply good_weaken, good_press_release|].
  destruct (apple && bool_decide (c = "CapsLock")) eqn:Hc.
  { apply andb_prop in Hc as [Hap _]. apply good_weaken, good_press_release; [done|]. left. by apply Hs. }
  destruct (isWindows p && _); [by apply good_weaken, good_press_release|]. apply good_read.
  destruct (bool_decide (c = "ControlLeft") && _ && _) eqn:Hctl.
  - apply andb_prop in Hctl as [_ Hd]. apply negb_true_iff in Hd. split; [done|]. destruct Hs as [(H1 & H2 & H3 & H4) Ha].
    split_and!; simpl; try done. intros _. unfold is_down, JsObj.has in Hd. apply bool_decide_eq_false in Hd.
    by apply eq_None_not_Some.
  - apply good_weaken. split; [by apply in_step_press|]. rewrite sent_press. apply settled_set; [done|done|].
    intros Hap ->. by rewrite Hap, bool_decide_eq_true_2 in Hc.
Qed.
Lemma chosen_keysym c k s :
  JsObj.get c (keyDownList s) = None ∨ JsObj.get c (keyDownList s) = Some (if is_down c s then down_keysym c s else k).
Proof.
  unfold is_down, down_keysym, JsObj.has. destruct (JsObj.get c (keyDownList s)) as [k'|]; [right|by left].
  by rewrite bool_decide_eq_true_2.
Qed.
Lemma good_pressed e k s : settled s → good (pressed e k) s.
Proof.
  intros Hs. unfold pressed. case_decide as Hu.
  - destruct k as [v|]; [|by apply good_weaken]. case_decide; [|by apply good_weaken]. apply good_weaken, good_press_release; [done|].
    rewrite Hu. left. apply Hs.
  - apply good_read, good_press; [done|done|]. apply chosen_keysym.
Qed.
Lemma good_keydown e s : rest_ok s → good (handleKeyDown e) s.
Proof.
  intros Hr. apply good_read. destruct (altGrArmed s) eqn:Ha; [|by apply good_pressed].
  assert (good' (modify (with_armed false (altGrCtrlTime s))) s) as Hm by (split; [done|]; by apply disarm).
  destruct (bool_decide _ && _); [apply good_seq_last; [done|]; intros s'; apply good_pressed|].
  destruct (good_control s (numlock_of e) (Some (e_capslock e)) Hr Ha) as [H1 H2].
  split; rewrite ?seq_fst; [|by apply good_pressed].
  apply in_step_seq; [done|]. apply in_step_seq; [done|]. by apply good_pressed.
Qed.
Lemma good_keyup e s : rest_ok s → good' (handleKeyUp e) s.
Proof.
  intros Hr. apply good_seq; [by apply good_interrupt|]. intros s1 Hs1.
  destruct (apple && bool_decide (getKeyCode e = "CapsLock")) eqn:Hc.
  { apply andb_prop in Hc as [Hap _]. apply good_press_release; [done|]. left. by apply Hs1. }
  apply good_seq; [by apply good_release|]. intros s2 Hs2. destruct (isWindows p && _); [|done].
  apply good_seq; [apply good'_read; destruct (is_down _ _); [by apply good_release|done]|]. intros s3 Hs3.
  apply good'_read. destruct (is_down _ _); [by apply good_release|done].
Qed.
Lemma good_allup s : rest_ok s → good' allKeysUp s.
Proof.
  intros Hr. apply good_seq; [by apply good_interrupt|]. intros s1 Hs1. by apply good'_read, good_for_release.
Qed.
Lemma good_on ev s : rest_ok s → good (on ev) s.
Proof.
  intros Hr. destruct ev; simpl; [by apply good_keydown|apply good_weaken..];
    [by apply good_keyup|by apply good_allup|by apply good_interrupt|by apply good_allup].
Qed.

Lemma release_all l s :
  (∀ c, is_Some (JsObj.get c (keyDownList s)) → c ∈ l) → keyDownList (for_each l release s).1 = [].
Proof.
  revert s. induction l as [|c l IH]; intros s Hl; simpl.
  - destruct (keyDownList s) as [|[c k] o] eqn:E; [done|]. destruct (not_elem_of_nil c). apply Hl. simpl. by rewrite decide_True.
  - rewrite seq_fst. apply IH. intros c' Hc'. rewrite release_eq in Hc'. destruct (is_down c s) eqn:Hd; simpl in Hc'.
    + rewrite JsObj.get_del in Hc'. case_decide as Hn; [by destruct Hc'|]. apply Hl in Hc' as [Hx|Hx]%elem_of_cons; done.
    + apply Hl in Hc' as Hx. apply elem_of_cons in Hx as [->|Hx]; [|done]. unfold is_down, JsObj.has in Hd.
      by apply bool_decide_eq_false in Hd.
Qed.
Lemma allKeysUp_empty s : keyDownList (allKeysUp s).1 = [].
Proof.
  unfold allKeysUp. rewrite seq_fst. unfold with_state. apply release_all. intros c Hc. by apply JsObj.elem_of_keys.
Qed.

(** C10: The console is told what is pressed, and a key is never left pressed:
    for every sequence of key events, timers and losses of the focus, on every
    platform, the events it is given are consistent (a release is of a pressed
    key, with the keysym of its press, a repeated press has the same keysym)
    and leave pressed exactly the keys of [keyDownList]; when the window loses
    the focus or the keyboard is let go, they leave none. *)
Theorem console_knows_the_keys evs os s :
  trace enabled step new evs s os →
  hears [] os = Some (keyDownList s)
  ∧ ∀ ev, ev = Blur ∨ ev = Ungrab → hears [] (os ++ (step s ev).2) = Some [].
Proof.
  intros Ht. assert (hears [] os = Some (keyDownList s) ∧ rest_ok s) as [Hh Hr].
  { assert (∀ s0 evs s os, trace enabled step s0 evs s os → rest_ok s0 →
      hears (keyDownList s0) os = Some (keyDownList s) ∧ rest_ok s) as Hgen.
    { clear. induction 1 as [s0|s0 e evs s os He Ht IH]; intros Hr; [done|].
      destruct (good_on e s0 Hr) as [Hi Hr']. destruct (IH Hr') as [Hh Hrs]. split; [|done].
      unfold in_step in Hi. unfold step. by rewrite hears_app, Hi. }
    apply (Hgen _ _ _ _ Ht). by split_and!. }
  split; [done|]. intros ev Hev. rewrite hears_app, Hh. simpl. destruct (good_allup s Hr) as [Ha _]. unfold in_step in Ha.
  destruct Hev as [->| ->]; unfold step, on; by rewrite Ha, allKeysUp_empty.
Qed.
End keyboard.

(** ** The tables, and a typed AltGr *)
Definition windows : platform := Platform false false true.
Definition table : KeyTables.dom_table := default [] (KeyTables.load KeyTables.dom_calls).
Definition press_of (c : string) (k : key) (t : Z) : event := KeyDown (KeyEvent (Some c) (Some k) None (Some 0) None None false false false t).
Definition release_of (c : string) (k : key) (t : Z) : event := KeyUp (KeyEvent (Some c) (Some k) None (Some 0) None None false false false t).
Definition told (es : list sent) : list (option Z * bool) := (λ e, (keysym e, down e)) <$> es.
(** AltGr+Q on Windows: the false Control is never sent *)
Definition alt_gr_q : list event :=
  [press_of "ControlLeft" (Named "Control") 0; press_of "AltRight" (Named "Alt") 1; press_of "KeyQ" (Char 64) 50;
   release_of "KeyQ" (Char 64) 90].
Lemma console_knows_the_keys_witness :
  let r := run (step windows table) new alt_gr_q in
  told r.2 = [(Some 0xfe03, true); (Some 64, true); (Some 64, false)]
  ∧ hears [] (r.2 ++ (step windows table r.1 Blur).2) = Some [].
Proof.
  intros r. split; [by vm_compute|].
  apply (console_knows_the_keys windows table alt_gr_q r.2 r.1); [|by left]. apply run_trace. by repeat split.
Defined.
(** The tables load: no keysym is undefined and no key is there twice. *)
Lemma tables_load : is_Some (KeyTables.load KeyTables.dom_calls) ∧ length table = 171%nat.
Proof. split; [|by vm_compute]. vm_compute. by eexists. Qed.
End Keyboard.
