(* ===== verification/NewVmDialog.v ===== *)
(** * The new-VM dialog's readings: static/js/new_vm_dialog.js

    The hosts' CPU bars and capacity lines, read two at a time each time the
    dialog opens. *)
From S2P Require Import Prelude JsString.
From Stdlib Require Import QArith Qround.

#[local] Open Scope string_scope.
#[local] Open Scope list_scope.
#[local] Open Scope nat_scope.

Module NewVmDialog.
(** ** What an element shows

    A host has a CPU bar and a capacity line; the capacity view answers with a
    text, the CPU view with JSON whose [cpudata] is a number or not. *)
Record element := Element { compute_capacity : bool; url : string }.
Inductive data := Text (s : string) | Json (cpudata : option Q).
Inductive reading_shown :=
  | Usage (width : Z) (valuenow : option Z) (cpu_usage_value : string)
  | Capacity (textContent : string).

Definition setCpuUsage (percent : option Z) (text : string) : reading_shown := Usage (default 0%Z percent) percent text.
(** [Math.round] *)
Definition round (q : Q) : Z := Qfloor (q + (1 # 2)).
(** [show]; none: not a capacity answer (they are texts) *)
Definition show (e : element) (d : option data) : option reading_shown :=
  if compute_capacity e then
    match d with None => Some (Capacity "") | Some (Text s) => Some (Capacity (JsString.trim s)) | Some (Json _) => None end
  else
    let usage := match d with Some (Json (Some n)) => Some (round n) | _ => None end in
    Some (setCpuUsage usage (match usage with None => "—" | Some u => JsString.of_int u +:+ "%" end)).
(** what the bars show as the dialog opens *)
Definition waiting_cell (e : element) : option (option reading_shown) :=
  if compute_capacity e then None else Some (Some (setCpuUsage None "…")).

Section dialog.
(** The queue does not look into its elements ([E]) and their answers ([A],
    none when the read failed): [shown] and [waiting] are [show] and
    [waiting_cell]. *)
Context {E A T : Type} `{EqDecision E}.
Context (shown : E → option A → T) (waiting : E → option T).

Record page := Page {
  opening : nat; queue : list E; reading : nat;
  texts : list (E * T);          (* what the elements were given to show, newest first *)
  out : list (E * nat) }.        (* the requests that are out, with the opening each is of *)

(** [readNext]: the requests it sends; [n] bounds the loop *)
Fixpoint readNext (n : nat) (s : page) : page * list E :=
  match n, queue s with
  | S n, e :: q =>
    if (reading s <? 2)%nat then
      let '(s, es) := readNext n (Page (opening s) q (S (reading s)) (texts s) ((e, opening s) :: out s)) in (s, e :: es)
    else (s, [])
  | _, _ => (s, [])
  end.
Definition read (s : page) : page * list E := readNext (length (queue s)) s.

Inductive event :=
  | Show (elements : list E)           (* show.bs.modal: the elements, host by host *)
  | Hide
  | Answered (i : nat) (data : option A).   (* the [i]-th request that is out: [done] or [fail], and [always] *)
Definition step (s : page) (ev : event) : page * list E :=
  match ev with
  | Show l =>
    read (Page (S (opening s)) l (reading s) (reverse (omap (λ e, pair e <$> waiting e) l) ++ texts s) (out s))
  | Hide => (Page (S (opening s)) [] (reading s) (texts s) (out s), [])
  | Answered i data =>
    match out s !! i with
    | Some (e, current) =>
      let t := if decide (current = opening s) then (e, shown e data) :: texts s else texts s in
      read (Page (opening s) (queue s) (pred (reading s)) t (delete i (out s)))
    | None => (s, [])
    end
  end.
Definition enabled (s : page) (ev : event) : Prop :=
  match ev with Answered i _ => i < length (out s) | _ => True end.
Definition start : page := Page 0 [] 0 [] [].

(** At most two requests are out, and two while something waits. *)
Record inv (s : page) : Prop := Inv {
  i_reading : reading s = length (out s);
  i_bound : reading s <= 2;
  i_busy : queue s ≠ [] → reading s = 2;
  i_past : ∀ e k, (e, k) ∈ out s → k <= opening s }.

Lemma readNext_inv n s :
  length (queue s) <= n → reading s = length (out s) → reading s <= 2 → (∀ e k, (e, k) ∈ out s → k <= opening s) →
  inv (readNext n s).1 ∧ opening (readNext n s).1 = opening s ∧ texts (readNext n s).1 = texts s
  ∧ queue s = (readNext n s).2 ++ queue (readNext n s).1
  ∧ out (readNext n s).1 = reverse ((λ e, (e, opening s)) <$> (readNext n s).2) ++ out s.
Proof.
  revert s. induction n as [|n IH]; intros s Hq Hr Hb Hp; simpl.
  - destruct (queue s) as [|? ?] eqn:Eq; [|simpl in Hq; lia]. simpl. split; [by split; rewrite ?Eq|done].
  - destruct (queue s) as [|e q] eqn:Eq; simpl; [split; [by split; rewrite ?Eq|done]|].
    destruct (Nat.ltb_spec (reading s) 2) as [Hlt|Hge].
    + specialize (IH (Page (opening s) q (S (reading s)) (texts s) ((e, opening s) :: out s))). simpl in IH, Hq.
      destruct IH as (Hi & Ho & Ht & Hqq & Hout); [lia|by rewrite Hr|lia| |].
      { intros e' k [[= -> ->]|H]%elem_of_cons; [done|by eapply Hp]. }
      destruct (readNext n _) as [s' es]. simpl in *. split_and!; try done; [by rewrite Hqq|].
      rewrite reverse_cons, <- app_assoc. done.
    + simpl. split; [split; try done; lia|done].
Qed.
Lemma read_inv s :
  reading s = length (out s) → reading s <= 2 → (∀ e k, (e, k) ∈ out s → k <= opening s) →
  inv (read s).1 ∧ opening (read s).1 = opening s ∧ texts (read s).1 = texts s
  ∧ queue s = (read s).2 ++ queue (read s).1 ∧ out (read s).1 = reverse ((λ e, (e, opening s)) <$> (read s).2) ++ out s.
Proof. intros. by apply readNext_inv. Qed.

(** the elements of this opening whose answer is still to come *)
Definition due (s : page) : list E := queue s ++ (fst <$> filter (λ r, r.2 = opening s) (out s)).

Lemma filter_old (l : list (E * nat)) n : (∀ e k, (e, k) ∈ l → k < n) → filter (λ r, r.2 = n) l = [].
Proof.
  induction l as [|[e k] l IH]; intros H; [done|]. rewrite filter_cons_False.
  - apply IH. intros e' k' Hk. apply (H e'). by right.
  - simpl. intros ->. pose proof (H e n ltac:(by left)). lia.
Qed.
Lemma filter_new (l : list E) n : filter (λ r : E * nat, r.2 = n) ((λ e, (e, n)) <$> l) = (λ e, (e, n)) <$> l.
Proof. induction l as [|e l IH]; [done|]. rewrite fmap_cons, filter_cons_True by done. by rewrite IH. Qed.
Lemma read_due s :
  reading s = length (out s) → reading s <= 2 → (∀ e k, (e, k) ∈ out s → k <= opening s) →
  due (read s).1 ≡ₚ due s.
Proof.
  intros Hr Hb Hp. destruct (read_inv s Hr Hb Hp) as (_ & Ho & _ & Hq & Hout). unfold due.
  rewrite Hout, Ho, Hq, filter_app, fmap_app, <- fmap_reverse, filter_new, <- list_fmap_compose.
  rewrite (list_fmap_ext (fst ∘ (λ e, (e, opening s))) id (reverse (read s).2)) by done.
  rewrite list_fmap_id, reverse_Permutation. rewrite !app_assoc. apply Permutation_app_tail. apply Permutation_app_comm.
Qed.

Lemma step_inv_reads s ev : inv s → enabled s ev → inv (step s ev).1.
Proof.
  intros [Hr Hb Hq Hp] He. destruct ev as [l| |i data]; simpl in *.
  - apply read_inv; simpl; [done|done|]. intros e k H. apply Hp in H. lia.
  - split; simpl; try done. intros e k H. apply Hp in H. lia.
  - destruct (lookup_lt_is_Some_2 _ _ He) as [[e k] Hi]. rewrite Hi. pose proof (delete_Permutation _ _ _ Hi) as Hperm.
    pose proof (Permutation_length Hperm) as Hlen. simpl in Hlen.
    apply read_inv; simpl; [lia|lia|]. intros e' k' H. eapply Hp. rewrite Hperm. by right.
Qed.

Definition is_answer (ev : event) : Prop := match ev with Answered _ _ => True | _ => False end.
Lemma answered_due s i data :
  inv s → i < length (out s) →
  ∃ got : list (E * option A),
    texts (step s (Answered i data)).1 = ((λ g, (g.1, shown g.1 g.2)) <$> got) ++ texts s
    ∧ due (step s (Answered i data)).1 ++ got.*1 ≡ₚ due s.
Proof.
  intros [Hr Hb Hq Hp] Hi. destruct (lookup_lt_is_Some_2 _ _ Hi) as [[e k] Hik]. simpl. rewrite Hik.
  pose proof (delete_Permutation _ _ _ Hik) as Hperm. pose proof (Permutation_length Hperm) as Hlen. simpl in Hlen.
  set (s1 := Page _ _ _ _ _).
  set (rest := delete i (out s)) in *. clearbody rest.
  assert (filter (λ r, r.2 = opening s) (out s) ≡ₚ filter (λ r, r.2 = opening s) ((e, k) :: rest)) as Hf by by rewrite Hperm.
  assert (∀ e' k', (e', k') ∈ out s1 → k' <= opening s1) as Hp1 by (intros e' k' H; eapply Hp; rewrite Hperm; right; exact H).
  assert (reading s1 = length (out s1)) as Hr1 by (unfold s1; simpl; lia).
  assert (reading s1 <= 2) as Hb1 by (unfold s1; simpl; lia).
  destruct (read_inv s1 Hr1 Hb1 Hp1) as (_ & _ & -> & _). pose proof (read_due s1 Hr1 Hb1 Hp1) as Hd.
  exists (if decide (k = opening s) then [(e, data)] else []). rewrite Hd. unfold s1, due. simpl. split; [by case_decide|].
  rewrite Hf. case_decide as Hk.
  - rewrite filter_cons_True by done. simpl. by rewrite <- app_assoc, <- Permutation_cons_append.
  - rewrite filter_cons_False by done. by rewrite app_nil_r.
Qed.
Lemma reachable_reads s : reachable enabled step start s → inv s.
Proof.
  revert s. apply reachable_invariant; [split; simpl; try done; try lia; by intros e k H%not_elem_of_nil|].
  intros s ev. apply step_inv_reads.
Qed.
Lemma show_due s l : inv s → due (step s (Show l)).1 ≡ₚ l.
Proof.
  intros [Hr Hb Hq Hp]. simpl. rewrite read_due; simpl; [|done|done|intros e k H; apply Hp in H; lia].
  unfold due. simpl. rewrite filter_old; [by rewrite app_nil_r|]. intros e k H. apply Hp in H. lia.
Qed.

(** Each opening of the dialog shows its own readings, all of them, and
    never with more than two requests out, those of earlier openings counted:
    once the dialog is opened and until it is opened again or closed, the
    elements whose answer was shown and those that wait or are out are the
    dialog's elements, each once, whatever came before; nothing but these
    answers is shown; and while something waits two requests are out, so that
    when none is out every element has been read. *)
Theorem each_opening_reads_its_hosts s0 l es s os :
  reachable enabled step start s0 → trace enabled step (step s0 (Show l)).1 es s os → Forall is_answer es →
  reading s = length (out s) ∧ reading s <= 2 ∧ (out s = [] → due s = [])
  ∧ ∃ got : list (E * option A),
      texts s = ((λ g, (g.1, shown g.1 g.2)) <$> got) ++ texts (step s0 (Show l)).1 ∧ due s ++ got.*1 ≡ₚ l.
Proof.
  intros Hr Ht Hes. pose proof (reachable_reads _ Hr) as H0.
  assert (∀ s1 es s os, trace enabled step s1 es s os → inv s1 → Forall is_answer es →
    inv s ∧ ∃ got : list (E * option A), texts s = ((λ g, (g.1, shown g.1 g.2)) <$> got) ++ texts s1 ∧ due s ++ got.*1 ≡ₚ due s1) as Hgen.
  { clear. induction 1 as [s1|s1 ev es s os He Ht IH]; intros Hi Hes.
    - split; [done|]. exists []. by rewrite app_nil_r.
    - apply Forall_cons in Hes as [Hev Hes]. destruct ev as [| |i data]; [done|done|].
      destruct (IH (step_inv_reads _ _ Hi He) Hes) as (Hs & got & Ht1 & Hd1).
      destruct (answered_due s1 i data Hi He) as (got' & Ht2 & Hd2). split; [done|]. exists (got ++ got').
      rewrite Ht1, Ht2, !fmap_app, !app_assoc. split; [done|]. by rewrite Hd1. }
  destruct (Hgen _ _ _ _ Ht (step_inv_reads _ (Show l) H0 I) Hes) as ([Hrs Hbs Hqs Hps] & got & Htx & Hd).
  split_and!; [done|done| |].
  - intros Ho. unfold due. rewrite Ho. destruct (queue s) as [|e q] eqn:Eq; [done|]. exfalso.
    assert (reading s = 2) as H2 by by apply Hqs. rewrite Hrs, Ho in H2. done.
  - exists got. split; [done|]. by rewrite Hd, show_due.
Qed.
End dialog.

(** ** The dialog *)
Definition dialog_step := step show waiting_cell.
Example show_usage : show (Element false "u") (Some (Json (Some (25 # 2)))) = Some (Usage 13 (Some 13%Z) "13%").
Proof. reflexivity. Qed.
Example show_capacity : show (Element true "u") (Some (Text " 3 VMs ")) = Some (Capacity "3 VMs").
Proof. reflexivity. Qed.

(** two hosts, opened twice: the answers of the first opening show nothing *)
Definition a_bar : element := Element false "/a/cpu".
Definition a_line : element := Element true "/a/capacity".
Definition b_bar : element := Element false "/b/cpu".
Definition first_opening : page (E := element) (T := option reading_shown) :=
  (run dialog_step start [Show [a_bar; a_line; b_bar]; Hide]).1.
Lemma each_opening_reads_its_hosts_witness :
  let es := [Answered 0 (Some (Text "2")); Answered 1 None; Answered 0 (Some (Text " 3 ")); Answered 0 None;
             Answered 0 (Some (Json (Some 7%Q)))] in
  let r := run dialog_step (dialog_step first_opening (Show [a_bar; a_line; b_bar])).1 es in
  take 3 (texts r.1) = [(a_bar, Some (Usage 7 (Some 7%Z) "7%")); (b_bar, Some (Usage 0 None "—")); (a_line, Some (Capacity "3"))] ∧ (out r.1 = [] → due r.1 = []).
Proof.
  intros es r. split; [by vm_compute|].
  refine (proj1 (proj2 (proj2 (each_opening_reads_its_hosts show waiting_cell first_opening [a_bar; a_line; b_bar] es r.1 r.2 _ _ _)))).
  - refine (reachable_step enabled dialog_step start (run dialog_step start [Show [a_bar; a_line; b_bar]]).1 Hide _ I).
    refine (reachable_step enabled dialog_step start start (Show [a_bar; a_line; b_bar]) (reachable_init _ _ _) I).
  - apply run_trace. unfold es. cbn [admissible enabled]. split_and!; try exact I; apply (bool_decide_unpack _); vm_compute; exact I.
  - by repeat constructor.
Defined.
End NewVmDialog.
