(* ===== verification/Confirm.v ===== *)
(** * The confirm dialog: static/js/confirm_dialog.js

    A [data-confirm] button asks in the page's one confirm dialog before it
    acts.  Dialogs are Bootstrap's modals, which do nothing when they are told
    to show or hide in the middle of a transition. *)
From S2P Require Import Prelude JsString.
From Stdlib Require Import Ascii.

#[local] Open Scope string_scope.
#[local] Open Scope list_scope.

Module Confirm.
(** ** Modals: [show], [hide] and the ends of their transitions *)
Record modal := Modal { isShown : bool; isTransitioning : bool; fading : nat (* backdrops whose [hidden] is to come *) }.
Definition hidden_modal : modal := Modal false false 0.
Definition open_modal : modal := Modal true false 0.
Definition show (m : modal) : modal := if isShown m || isTransitioning m then m else Modal true true (fading m).
Definition hide (m : modal) : modal := if negb (isShown m) || isTransitioning m then m else Modal false true (fading m).
Definition displayed (m : modal) : Prop := isShown m || isTransitioning m = true.
Definition transition_end (m : modal) : modal :=
  if isTransitioning m then Modal (isShown m) false (if isShown m then fading m else S (fading m)) else m.
(** the end of the backdrop's fading: [hidden.bs.modal] *)
Definition fade_end (m : modal) : modal := Modal (isShown m) (isTransitioning m) (pred (fading m)).

(** ** Buttons *)
Record button := Button {
  id : nat; textContent : string; aria_label : option string; title : string; className : string;
  data_confirm : string;
  parent : option nat;          (* the [.modal] it is in *)
  dropdown : option nat }.      (* the [.dropdown] it is in *)

(** [a || b] of texts *)
Definition or_else (a b : string) : string := if decide (a = "") then b else a.
Definition action (b : button) : string :=
  or_else (JsString.trim (textContent b)) (or_else (default "" (aria_label b)) (title b)).

Definition word_char (a : ascii) : bool :=
  let n := nat_of_ascii a in
  (48 <=? n)%nat && (n <=? 57)%nat || (65 <=? n)%nat && (n <=? 90)%nat || (97 <=? n)%nat && (n <=? 122)%nat || (n =? 95)%nat.
Definition ends_word (s : string) : bool := match s with String a _ => negb (word_char a) | EmptyString => true end.
(** the word [w] at the start of [s] and [\b] after it *)
Definition word_here (w s : string) : bool :=
  JsString.startsWith w s && ends_word (String.substring (String.length w) (String.length s) s).
(** [/\b(btn-|btn-outline-|text-)danger\b/]; [edge]: [\b] where [s] starts *)
Fixpoint danger_from (edge : bool) (s : string) : bool :=
  edge && existsb (λ w, word_here w s) ["btn-danger"; "btn-outline-danger"; "text-danger"]
  || match s with String a r => danger_from (negb (word_char a)) r | EmptyString => false end.
Definition danger (s : string) : bool := danger_from true s.

(** ** The page: the dialog, what it says, and who listens *)
Record page := Page {
  dialog : modal;
  parents : gmap nat modal;
  modal_title : string; modal_body : string; ok_text : string; ok_class : string; ok_disabled : bool;
  onclick : option (nat * button);        (* OK's: the question and its button *)
  questions : nat;
  confirmed : gset nat;                   (* the questions whose [confirmed] is set *)
  dialog_hidden : list (nat * button);    (* the once listeners of the dialog's [hidden] *)
  asks : gmap nat nat }.                  (* how many wait for a parent's [hidden] *)
Definition with_dialog (m : modal) (s : page) : page :=
  Page m (parents s) (modal_title s) (modal_body s) (ok_text s) (ok_class s) (ok_disabled s) (onclick s) (questions s)
    (confirmed s) (dialog_hidden s) (asks s).
Definition with_parents (ps : gmap nat modal) (s : page) : page :=
  Page (dialog s) ps (modal_title s) (modal_body s) (ok_text s) (ok_class s) (ok_disabled s) (onclick s) (questions s)
    (confirmed s) (dialog_hidden s) (asks s).

Inductive effect := Acts (b : button) | FocusButton (b : button) | FocusToggle (menu : nat).

(** the click on a button that asks *)
Definition click (b : button) (s : page) : page :=
  let q := questions s in
  let s1 := Page (dialog s) (parents s) (action b) (data_confirm b) (action b)
    ("btn " +:+ if danger (className b) then "btn-danger" else "btn-primary") false
    (Some (q, b)) (S q) (confirmed s) (dialog_hidden s ++ [(q, b)]) (asks s) in
  match parent b with
  | Some p =>
    let s2 := with_parents (alter hide p (parents s)) s1 in
    Page (dialog s2) (parents s2) (modal_title s2) (modal_body s2) (ok_text s2) (ok_class s2) (ok_disabled s2) (onclick s2)
      (questions s2) (confirmed s2) (dialog_hidden s2) (<[p := S (default 0 (asks s !! p))]> (asks s))
  | None => with_dialog (show (dialog s)) s1
  end.
(** [ok.onclick]: the button is clicked again, and acts *)
Definition ok (s : page) : page * list effect :=
  match onclick s with
  | Some (q, b) =>
    (Page (hide (dialog s)) (parents s) (modal_title s) (modal_body s) (ok_text s) (ok_class s) true (onclick s)
       (questions s) ({[q]} ∪ confirmed s) (dialog_hidden s) (asks s), [Acts b])
  | None => (s, [])
  end.
(** the once listeners, in the order they were added *)
Definition on_hidden (s : page) (r : nat * button) : page * list effect :=
  match parent r.2 with
  | Some p => (with_parents (alter show p (parents s)) s, [])
  | None =>
    (s, if decide (r.1 ∈ confirmed s) then []
        else match dropdown r.2 with Some menu => [FocusToggle menu] | None => [FocusButton r.2] end)
  end.
Fixpoint on_hiddens (l : list (nat * button)) (s : page) : page * list effect :=
  match l with
  | [] => (s, [])
  | r :: l => let '(s1, o1) := on_hidden s r in let '(s2, o2) := on_hiddens l s1 in (s2, o1 ++ o2)
  end.
Definition dialog_hidden_event (s : page) : page * list effect :=
  on_hiddens (dialog_hidden s)
    (Page (dialog s) (parents s) (modal_title s) (modal_body s) (ok_text s) (ok_class s) (ok_disabled s) (onclick s)
       (questions s) (confirmed s) [] (asks s)).
Definition parent_hidden_event (p : nat) (s : page) : page :=
  let s1 := Page (dialog s) (parents s) (modal_title s) (modal_body s) (ok_text s) (ok_class s) (ok_disabled s) (onclick s)
       (questions s) (confirmed s) (dialog_hidden s) (delete p (asks s)) in
  match asks s !! p with Some (S _) => with_dialog (show (dialog s)) s1 | _ => s1 end.

Inductive event :=
  | Click (b : button)                  (* of a button with [data-confirm], by the user *)
  | Ok                                  (* the dialog's confirming button *)
  | Dismiss                             (* Cancel, the close button, Escape *)
  | TransitionEnd | FadeEnd             (* of the dialog *)
  | Open (p : nat) | Close (p : nat)    (* a parent, opened and closed by the user *)
  | ParentTransitionEnd (p : nat) | ParentFadeEnd (p : nat).
Definition step (s : page) (e : event) : page * list effect :=
  match e with
  | Click b => (click b s, [])
  | Ok => ok s
  | Dismiss => (with_dialog (hide (dialog s)) s, [])
  | TransitionEnd => (with_dialog (transition_end (dialog s)) s, [])
  | FadeEnd => dialog_hidden_event (with_dialog (fade_end (dialog s)) s)
  | Open p => (with_parents (alter show p (parents s)) s, [])
  | Close p => (with_parents (alter hide p (parents s)) s, [])
  | ParentTransitionEnd p => (with_parents (alter transition_end p (parents s)) s, [])
  | ParentFadeEnd p => (parent_hidden_event p (with_parents (alter fade_end p (parents s)) s), [])
  end.
(** a hidden button is not clicked, and a disabled one does nothing *)
Definition enabled (s : page) (e : event) : Prop :=
  match e with
  | Ok => displayed (dialog s) ∧ ok_disabled s = false
  | FadeEnd => 0 < fading (dialog s)
  | ParentFadeEnd p => ∃ m, parents s !! p = Some m ∧ 0 < fading m
  | _ => True
  end.
Definition start (ps : gmap nat modal) : page := Page hidden_modal ps "" "" "" "" false None 0 ∅ [] ∅.

(** ** What is confirmed is what was asked *)
#[export] Instance button_dec : EqDecision button.
Proof. solve_decision. Defined.
Definition says (b : button) (s : page) : Prop :=
  modal_title s = action b ∧ modal_body s = data_confirm b ∧ ok_text s = action b
  ∧ ok_class s = "btn " +:+ if danger (className b) then "btn-danger" else "btn-primary".
Definition inv (s : page) : Prop :=
  match onclick s with
  | Some (_, b) => says b s
  | None => isShown (dialog s) = false ∧ isTransitioning (dialog s) = false ∧ asks s = ∅
  end.

Definition clicked (b : button) (e : event) : Prop := match e with Click b' => b' = b | _ => False end.
Definition acted (b : button) (o : effect) : Prop := match o with Acts b' => b' = b | _ => False end.
#[export] Instance clicked_dec b e : Decision (clicked b e).
Proof. destruct e; simpl; apply _. Defined.
#[export] Instance acted_dec b o : Decision (acted b o).
Proof. destruct o; simpl; apply _. Defined.
Definition clicks (b : button) (es : list event) : nat := length (filter (clicked b) es).
Definition acts (b : button) (os : list effect) : nat := length (filter (acted b) os).
(** 1 while OK would let [b] act *)
Definition may_act (b : button) (s : page) : nat :=
  match onclick s with Some (_, b') => if decide (b' = b) then if ok_disabled s then 0 else 1 else 0 | None => 0 end.

Lemma acts_app b os os' : acts b (os ++ os') = acts b os + acts b os'.
Proof. unfold acts. by rewrite filter_app, length_app. Qed.
Lemma clicks_cons b e es : clicks b (e :: es) = clicks b [e] + clicks b es.
Proof. unfold clicks. change (e :: es) with ([e] ++ es). by rewrite filter_app, length_app. Qed.

Lemma acts_one b b' : acts b [Acts b'] = if decide (b' = b) then 1 else 0.
Proof. unfold acts. rewrite filter_cons. simpl. by repeat case_decide. Qed.
Lemma clicks_one b b' : clicks b [Click b'] = if decide (b' = b) then 1 else 0.
Proof. unfold clicks. rewrite filter_cons. simpl. by repeat case_decide. Qed.

(** the listeners change the parents only, and act on nothing *)
Definition same_dialog (s s' : page) : Prop :=
  dialog s' = dialog s ∧ onclick s' = onclick s ∧ ok_disabled s' = ok_disabled s ∧ asks s' = asks s
  ∧ (∀ b, says b s → says b s').
Lemma on_hidden_same s r : same_dialog s (on_hidden s r).1 ∧ ∀ b, acts b (on_hidden s r).2 = 0.
Proof.
  unfold on_hidden. destruct (parent r.2) as [p|]; (split; [unfold same_dialog, says; simpl; tauto|]); [done|].
  intros b. simpl. case_decide; [done|]. by destruct (dropdown r.2).
Qed.
Lemma on_hiddens_same l s : same_dialog s (on_hiddens l s).1 ∧ ∀ b, acts b (on_hiddens l s).2 = 0.
Proof.
  revert s. induction l as [|r l IH]; intros s; simpl; [unfold same_dialog; tauto|].
  destruct (on_hidden_same s r) as [(Hd & Ho & Hk & Ha & Hs) H1]. destruct (on_hidden s r) as [s1 o1]. simpl in *.
  destruct (IH s1) as [(Hd' & Ho' & Hk' & Ha' & Hs') H2]. destruct (on_hiddens l s1) as [s2 o2]. simpl in *.
  split; [repeat split; try congruence; eauto; intros; by eapply Hs', Hs|]. intros b. by rewrite acts_app, H1, H2.
Qed.

Lemma step_inv_asked s e : inv s → enabled s e → inv (step s e).1.
Proof.
  unfold inv. intros Hi He. destruct e as [b| | | | |p|p|p|p]; simpl in *.
  - unfold click. destruct (parent b); by repeat split.
  - unfold ok. destruct (onclick s) as [[q b]|] eqn:Eo; simpl; rewrite ?Eo; done.
  - destruct (onclick s) as [[q b]|]; [done|]. destruct Hi as (Hs & Ht & Ha). unfold hide. by rewrite Hs.
  - destruct (onclick s) as [[q b]|]; [done|]. destruct Hi as (Hs & Ht & Ha). unfold transition_end. by rewrite Ht.
  - unfold dialog_hidden_event. destruct (on_hiddens_same (dialog_hidden s)
      (Page (fade_end (dialog s)) (parents s) (modal_title s) (modal_body s) (ok_text s) (ok_class s) (ok_disabled s)
         (onclick s) (questions s) (confirmed s) [] (asks s))) as [(Hd & Ho & Hk & Ha & Hs) _].
    simpl in *. rewrite Ho. destruct (onclick s) as [[q b]|]; [by apply Hs|]. by rewrite Hd, Ha.
  - done.
  - done.
  - done.
  - unfold parent_hidden_event. simpl. destruct (asks s !! p) as [[|n]|] eqn:Ep; simpl;
      (destruct (onclick s) as [[q b]|]; [done|]); destruct Hi as (Hs & Ht & Ha); rewrite Ha in *; simplify_map_eq; auto.
Qed.
Lemma reachable_asked ps s : reachable enabled step (start ps) s → inv s.
Proof. revert s. apply reachable_invariant; [done|]. intros s e. apply step_inv_asked. Qed.

(** only OK acts, and a question at most once *)
Lemma step_acts s e b : acts b (step s e).2 + may_act b (step s e).1 <= clicks b [e] + may_act b s ∨ ¬ enabled s e.
Proof.
  unfold may_act. destruct e as [b'| | | | |p|p|p|p]; simpl; try (left; unfold clicks; simpl; lia).
  - left. rewrite clicks_one. unfold click. destruct (parent b'); simpl; case_decide; destruct (onclick s) as [[q b'']|];
      repeat case_decide; simpl; lia.
  - unfold ok. destruct (onclick s) as [[q b']|] eqn:Eo; simpl; rewrite ?Eo; [|left; simpl; lia].
    destruct (ok_disabled s) eqn:Ek; [right; by intros [_ ?]|]. left. rewrite acts_one. case_decide; simpl; lia.
  - left. unfold dialog_hidden_event. destruct (on_hiddens_same (dialog_hidden s)
      (Page (fade_end (dialog s)) (parents s) (modal_title s) (modal_body s) (ok_text s) (ok_class s) (ok_disabled s)
         (onclick s) (questions s) (confirmed s) [] (asks s))) as [(_ & Ho & Hk & _ & _) Hn].
    simpl in *. rewrite Hn, Ho, Hk. lia.
  - left. unfold parent_hidden_event. simpl. destruct (asks s !! p) as [[|n]|]; simpl; lia.
Qed.
Lemma trace_acts b s es s' os :
  trace enabled step s es s' os → acts b os + may_act b s' <= clicks b es + may_act b s.
Proof.
  induction 1 as [|s e es s' os He _ IH]; [done|]. rewrite acts_app, clicks_cons.
  destruct (step_acts s e b); [lia|done].
Qed.

(** C17: No button acts without its own question having been confirmed: whatever
    is clicked, dismissed or still fading, OK can only be pressed while the
    dialog shows the title, the question and the kind of the button that will
    act, pressing it makes that button act and turns OK off, nothing else
    makes a button act, and a button acts at most as often as it was clicked. *)
Theorem confirmed_is_what_was_asked ps es s os :
  trace enabled step (start ps) es s os →
  (∀ b, acts b os <= clicks b es)
  ∧ (enabled s Ok → ∃ b, (step s Ok).2 = [Acts b] ∧ says b s ∧ ok_disabled (step s Ok).1 = true)
  ∧ (∀ e b, enabled s e → 0 < acts b (step s e).2 → e = Ok).
Proof.
  intros Ht. pose proof (reachable_asked ps s (trace_reachable _ _ _ _ _ _ _ (reachable_init _ _ _) Ht)) as Hi.
  split_and!.
  - intros b. pose proof (trace_acts b _ _ _ _ Ht) as H. assert (may_act b (start ps) = 0) as H0 by done. lia.
  - intros [Hd _]. unfold inv in Hi. simpl. unfold ok. destruct (onclick s) as [[q b]|]; [by exists b|].
    destruct Hi as (H1 & H2 & _). unfold displayed in Hd. by rewrite H1, H2 in Hd.
  - intros e b He Ha. destruct e as [b'| | | | |p|p|p|p]; simpl in Ha; try (unfold acts in Ha; simpl in Ha; lia); [done|].
    unfold dialog_hidden_event in Ha. rewrite (proj2 (on_hiddens_same _ _)) in Ha. lia.
Qed.

(** a button in a dialog: the dialog makes way for the question and comes back *)
Definition delete_button : button := Button 7 " Delete " None "" "btn btn-sm btn-outline-danger" "Delete the flavor?" (Some 1) None.
Definition asking : list event := [Click delete_button; ParentTransitionEnd 1; ParentFadeEnd 1; TransitionEnd].
Lemma confirmed_is_what_was_asked_witness :
  let r := run step (start {[1 := open_modal]}) asking in
  modal_title r.1 = "Delete" ∧ ok_class r.1 = "btn btn-danger" ∧ (∀ b, acts b r.2 <= clicks b asking)
  ∧ ∃ b, (step r.1 Ok).2 = [Acts b].
Proof.
  intros r. split; [by vm_compute|]. split; [by vm_compute|].
  destruct (confirmed_is_what_was_asked {[1 := open_modal]} asking r.1 r.2) as (H1 & H2 & _).
  - apply run_trace. unfold asking. cbn [admissible enabled]. split_and!; try exact I.
    exists (Modal false false 1). split; [by vm_compute|simpl; lia].
  - split; [exact H1|]. destruct H2 as (b & Hb & _); [by vm_compute|]. by exists b.
Defined.

(** The whole course of a question asked in an open dialog, confirmed: its
    button acts once, and the dialog is open again at the end. *)
Definition course : list event := asking ++ [Ok; TransitionEnd; FadeEnd; ParentTransitionEnd 1].
Example dialog_comes_back :
  (run step (start {[1 := open_modal]}) course).2 = [Acts delete_button]
  ∧ parents (run step (start {[1 := open_modal]}) course).1 !! 1 = Some open_modal
  ∧ isShown (dialog (run step (start {[1 := open_modal]}) course).1) = false.
Proof. split_and!; by vm_compute. Qed.

(** A button clicked while its dialog still opens: the dialog is not hidden,
    nothing is asked, and the question comes when the dialog is closed later. *)
Lemma early_click_asks_late ps p b m n :
  parent b = Some p → ps !! p = Some m → isShown m = true → isTransitioning m = true → fading m = 0 →
  let s := (run step (start ps) (Click b :: replicate n TransitionEnd)).1 in
  isShown (dialog s) = false ∧ parents s !! p = Some m
  ∧ isShown (dialog (run step s [ParentTransitionEnd p; Close p; ParentTransitionEnd p; ParentFadeEnd p]).1) = true.
Proof.
  intros Hb Hm Hs Ht Hf.
  assert (∀ n s, isTransitioning (dialog s) = false → (run step s (replicate n TransitionEnd)).1 = s) as Hn.
  { clear. induction n as [|n IH]; intros s H; [done|]. simpl.
    assert (with_dialog (transition_end (dialog s)) s = s) as -> by (unfold transition_end; rewrite H; by destruct s).
    specialize (IH s H). by destruct (run step s (replicate n TransitionEnd)). }
  intros s. assert (s = click b (start ps)) as ->.
  { unfold s. simpl. specialize (Hn n (click b (start ps))). unfold click in *. rewrite Hb in *. simpl in *.
    destruct (run step _ (replicate n TransitionEnd)). by apply Hn. }
  destruct m as [sh tr fa]. simpl in *. subst. unfold click. rewrite Hb. simpl.
  rewrite !lookup_alter_eq, Hm. simpl. split_and!; [done|done|].
  unfold parent_hidden_event. simpl. by rewrite lookup_insert_eq.
Qed.
End Confirm.
