(* ===== verification/Dialogs.v ===== *)
(** * Create dialogs: static/js/choice_dialog.js, pool_dialog.js,
    network_dialog.js, interface_dialog.js

    Module [Choice]: radio cards choose which fields a form shows and sends.
    Module [Pool]: the New pool dialog, its name, paths and erase box.
    Module [Network]: the New network dialog.  Module [Interface]: the New
    interface dialog. *)
From S2P Require Import Prelude JsString.
From Stdlib Require Import Ascii.

#[local] Open Scope string_scope.
#[local] Open Scope list_scope.

Module Choice.
Record fieldset := Fieldset { kinds : string; off : bool (* hidden and disabled *) }.
(** The form: its radios' values, which is checked, its fieldsets; [rest]: what
    [onChoose] changes. *)
Record page (S : Type) := Page { radios : list string; checked : nat; fieldsets : list fieldset; rest : S }.
Arguments Page {S}. Arguments radios {S}. Arguments checked {S}. Arguments fieldsets {S}. Arguments rest {S}.

Section choice.
Context {S : Type} (onChoose : string → S → S).
Definition includes_kind (v kinds : string) : bool := bool_decide (v ∈ JsString.split " "%char kinds).
Definition choose (value : string) (p : page S) : page S :=
  Page (radios p) (checked p) ((λ f, Fieldset (kinds f) (negb (includes_kind value (kinds f)))) <$> fieldsets p)
    (onChoose value (rest p)).
Definition value_at (p : page S) : string := default "" (radios p !! checked p).
(** the user checks the [i]-th radio *)
Definition change (i : nat) (p : page S) : page S :=
  choose (default "" (radios p !! i)) (Page (radios p) i (fieldsets p) (rest p)).
(** [choiceDialog]: the radio the server checked, or the first *)
Definition choiceDialog (radios : list string) (checked : option nat) (fs : list fieldset) (s : S) : page S :=
  change (default 0 checked) (Page radios 0 fs s).
Definition map_rest (f : S → S) (p : page S) : page S := Page (radios p) (checked p) (fieldsets p) (f (rest p)).

(** Only the fields of the checked choice are shown and sent. *)
Definition chosen_fields (p : page S) : Prop :=
  ∀ f, f ∈ fieldsets p → off f = negb (includes_kind (value_at p) (kinds f)).
Lemma change_chosen i p : chosen_fields (change i p).
Proof. by intros f (g & -> & _)%list_elem_of_fmap. Qed.
Lemma choiceDialog_chosen radios c fs s : chosen_fields (choiceDialog radios c fs s).
Proof. apply change_chosen. Qed.
Lemma map_rest_chosen f p : chosen_fields p → chosen_fields (map_rest f p).
Proof. done. Qed.
End choice.

(** A refused form's focus: the first refused field shown, else the reasons.
    [refused]: the fields with [aria-invalid], and whether their fieldset is hidden. *)
Inductive focus := Field (i : nat) | Reasons | Nowhere.
Definition refused_focus (refused : list bool) (reasons : bool) : focus :=
  match list_find (λ hidden, hidden = false) refused with
  | Some (i, _) => Field i
  | None => if reasons then Reasons else Nowhere
  end.
Lemma refused_focus_shown refused reasons i :
  refused_focus refused reasons = Field i → refused !! i = Some false ∧ ∀ j, j < i → refused !! j = Some true.
Proof.
  unfold refused_focus. destruct (list_find _ refused) as [[k b]|] eqn:E; [|by destruct reasons].
  intros [= <-]. apply list_find_Some in E as (Hk & -> & Hb). split; [done|]. intros j Hj.
  destruct (lookup_lt_is_Some_2 refused j) as [b' Hb']; [apply lookup_lt_Some in Hk; lia|].
  rewrite Hb'. destruct b'; [done|]. by destruct (Hb j false Hb' Hj).
Qed.
End Choice.

Module Pool.
Import Choice.
Record path := Path { followName : string; path_value : string; derived : string }.
Record pool := Pool_ {
  name : string; readOnly : bool; otherName : string;
  stg_type : string; create_disabled : bool;
  lvm_source : string; lvm_erase : bool;
  paths : list path }.
Notation dialog := (page pool).

Definition derive (name : string) (p : path) : string := if decide (name = "") then "" else followName p +:+ name.
Section pool.
Variable hasCephSecrets : bool.
Definition on_kind (kind : string) (s : pool) : pool :=
  let iso := bool_decide (kind = "iso") in
  let other := if readOnly s then otherName s else name s in
  Pool_ (if iso then "iso" else other) iso other (if iso then "dir" else kind)
    (bool_decide (kind = "rbd") && negb hasCephSecrets) (lvm_source s) (lvm_erase s) (paths s).
(** the name's input: the paths that were not edited follow it; the erasing is agreed to again *)
Definition follow (name : string) (p : path) : path :=
  let d := derive name p in
  Path (followName p) (if decide (path_value p = "" ∨ path_value p = derived p) then d else path_value p) d.
Definition type_name (v : string) (s : pool) : pool :=
  Pool_ v (readOnly s) (otherName s) (stg_type s) (create_disabled s) (lvm_source s) false (follow v <$> paths s).
Definition type_source (v : string) (s : pool) : pool :=
  Pool_ (name s) (readOnly s) (otherName s) (stg_type s) (create_disabled s) v false (paths s).
Definition type_path (i : nat) (v : string) (s : pool) : pool :=
  Pool_ (name s) (readOnly s) (otherName s) (stg_type s) (create_disabled s) (lvm_source s) (lvm_erase s)
    (alter (λ p, Path (followName p) v (derived p)) i (paths s)).
Definition check_erase (b : bool) (s : pool) : pool :=
  Pool_ (name s) (readOnly s) (otherName s) (stg_type s) (create_disabled s) (lvm_source s) b (paths s).

Inductive event :=
  | Kind (i : nat) | Name (v : string) | Source (v : string) | TypedPath (i : nat) (v : string) | Erase (b : bool).
Definition step (d : dialog) (e : event) : dialog * list unit :=
  (match e with
   | Kind i => change on_kind i d
   | Name v => map_rest (type_name v) d
   | Source v => map_rest (type_source v) d
   | TypedPath i v => map_rest (type_path i v) d
   | Erase b => map_rest (check_erase b) d
   end, []).
Definition kind (d : dialog) : string := value_at d.
(** a read-only field is not typed in, a hidden box not clicked *)
Definition enabled (d : dialog) (e : event) : Prop :=
  match e with
  | Kind i => i < length (radios d)
  | Name _ => readOnly (rest d) = false
  | Erase _ => kind d = "logical"
  | _ => True
  end.
(** the dialog as the server sent it: the kind it checked, the name, the device, the paths' values *)
Definition opened (radios : list string) (checked : option nat) (fs : list fieldset) (nm dev : string)
    (ps : list (string * string)) : dialog :=
  choiceDialog on_kind radios checked fs
    (Pool_ nm false nm "" false dev false
       ((λ p, let q := Path p.1 p.2 "" in Path p.1 p.2 (derive nm q)) <$> ps)).

(** the pool's own name, whatever kind is chosen *)
Definition own_name (s : pool) : string := if readOnly s then otherName s else name s.
Record inv (d : dialog) : Prop := Inv {
  i_kind : readOnly (rest d) = bool_decide (kind d = "iso");
  i_name : kind d = "iso" → name (rest d) = "iso";
  i_fields : chosen_fields d;
  i_type : stg_type (rest d) = if decide (kind d = "iso") then "dir" else kind d }.
Lemma change_inv i d : inv (change on_kind i d).
Proof.
  split; [done|..]; unfold kind, value_at, change, choose; simpl.
  - intros ->. done.
  - apply change_chosen.
  - case_bool_decide; by case_decide.
Qed.
Lemma step_inv_pool d e : inv d → enabled d e → inv (step d e).1.
Proof.
  intros [H1 H2 H3 H4] He. destruct e; [apply change_inv| |split; done..]. split; [done| |done|done].
  simpl in *. intros Hk. change (kind d = "iso") in Hk. by rewrite H1, bool_decide_true in He.
Qed.
Lemma own_name_kind i d : own_name (rest (change on_kind i d)) = own_name (rest d).
Proof. unfold own_name, change, choose. simpl. by destruct (bool_decide _). Qed.
Lemma opened_inv radios checked fs nm dev ps : inv (opened radios checked fs nm dev ps).
Proof. apply change_inv. Qed.

(** C31: The erase box that is sent was checked for what is sent: when a volume
    group is created with the box checked, the user checked it while the very
    name and device that are sent stood in the form, whatever was chosen and
    typed in between; and the fields that are sent are those of the chosen
    kind, the name [iso] and the type [dir] for the ISO pool. *)
Theorem erase_was_agreed_to radios checked fs nm dev ps es d os :
  trace enabled step (opened radios checked fs nm dev ps) es d os →
  chosen_fields d
  ∧ stg_type (rest d) = (if decide (kind d = "iso") then "dir" else kind d)
  ∧ (kind d = "iso" → name (rest d) = "iso")
  ∧ (lvm_erase (rest d) = true → kind d = "logical" →
     ∃ es1 es2, es = es1 ++ Erase true :: es2
       ∧ let s1 := rest (run step (opened radios checked fs nm dev ps) es1).1 in
         name s1 = name (rest d) ∧ lvm_source s1 = lvm_source (rest d)).
Proof.
  set (d0 := opened radios checked fs nm dev ps). intros Ht.
  assert (inv d ∧ (lvm_erase (rest d) = true →
     ∃ es1 es2, es = es1 ++ Erase true :: es2
       ∧ let s1 := rest (run step d0 es1).1 in
         name s1 = own_name (rest d) ∧ lvm_source s1 = lvm_source (rest d))) as [[Hk Hn Hf Hty] He].
  { assert (inv d0 ∧ lvm_erase (rest d0) = false) as H0 by (split; [apply opened_inv|done]). clearbody d0.
    revert es d os Ht. apply trace_snoc_ind.
    - destruct H0 as [H0 Hf]. split; [done|]. by rewrite Hf.
    - intros es d os e Ht [Hi IH] Hen. split; [by apply step_inv_pool|].
      pose proof (trace_run _ _ _ _ _ _ Ht) as Hr. destruct Hi as [Hk _ _ _].
      destruct e as [i|v|v|i v|[]]; simpl; try done.
      + intros (es1 & es2 & -> & H1 & H2)%IH. exists es1, (es2 ++ [Kind i]). rewrite <- app_assoc. split; [done|].
        simpl in *. rewrite H1, H2. split; [|done]. symmetry. apply own_name_kind.
      + intros (es1 & es2 & -> & H1 & H2)%IH. exists es1, (es2 ++ [TypedPath i v]). by rewrite <- app_assoc.
      + intros _. exists es, []. split; [done|]. simpl. rewrite Hr. simpl in *. unfold own_name. simpl.
        rewrite Hk, bool_decide_false by by rewrite Hen. done. }
  split_and!; [done|done|done|]. intros Her Hl. destruct (He Her) as (es1 & es2 & Hes & H1 & H2).
  exists es1, es2. split; [done|]. simpl in *. rewrite H1. unfold own_name.
  by rewrite Hk, bool_decide_false by by rewrite Hl.
Qed.
End pool.

(** a path that was edited stays, one that was not follows the name *)
Lemma follow_spec v p :
  path_value (follow v p) =
    if decide (path_value p = "" ∨ path_value p = derived p) then derive v p else path_value p.
Proof. done. Qed.
Lemma follow_keeps_following v w p :
  path_value p = "" ∨ path_value p = derived p → path_value (follow w (follow v p)) = derive w p.
Proof.
  intros H. unfold follow. simpl. rewrite (decide_True _ _ H). simpl.
  by rewrite decide_True by by right.
Qed.

Definition new_pool : dialog :=
  opened false ["dir"; "logical"; "rbd"; "netfs"; "iso"] None [Fieldset "dir" false; Fieldset "logical" false; Fieldset "iso" false]
    "" "" [("/var/lib/libvirt/", "")].
(** a volume group agreed to, and another kind looked at in between *)
Definition session : list event := [Name "vg0"; Kind 1; Source "/dev/sdb"; Erase true; Kind 4; Kind 1; TypedPath 0 "/x"].
Lemma erase_was_agreed_to_witness :
  let d := (run (step false) new_pool session).1 in
  lvm_erase (rest d) = true ∧ name (rest d) = "vg0" ∧ off <$> fieldsets d = [true; false; true]
  ∧ ∃ es1 es2, session = es1 ++ Erase true :: es2
      ∧ let s1 := rest (run (step false) new_pool es1).1 in name s1 = name (rest d) ∧ lvm_source s1 = lvm_source (rest d).
Proof.
  intros d. split; [by vm_compute|]. split; [by vm_compute|]. split; [by vm_compute|].
  refine (proj2 (proj2 (proj2 (erase_was_agreed_to false _ _ _ _ _ _ session d (run (step false) new_pool session).2 _))) _ _).
  - apply run_trace. unfold session. cbn [admissible enabled].
    split_and!; try exact I; try (by vm_compute); apply (bool_decide_unpack _); vm_compute; exact I.
  - by vm_compute.
  - by vm_compute.
Defined.
End Pool.

Module Network.
Import Choice.
Record network := Network_ { ipv6 : bool; fields_hidden : bool; inputs_disabled : bool; subnet6_required : bool; subnet_required : bool }.
Definition showIpv6 (s : network) : network :=
  Network_ (ipv6 s) (negb (ipv6 s)) (negb (ipv6 s)) (ipv6 s) (subnet_required s).
Definition on_mode (mode : string) (s : network) : network :=
  showIpv6 (Network_ (ipv6 s) (fields_hidden s) (inputs_disabled s) (subnet6_required s)
              (bool_decide (mode = "nat") || bool_decide (mode = "route"))).
Definition check_ipv6 (b : bool) (s : network) : network :=
  showIpv6 (Network_ b (fields_hidden s) (inputs_disabled s) (subnet6_required s) (subnet_required s)).
Inductive event := Mode (i : nat) | Ipv6 (b : bool).
Definition step (d : page network) (e : event) : page network :=
  match e with Mode i => change on_mode i d | Ipv6 b => map_rest (check_ipv6 b) d end.
Definition opened (radios : list string) (checked : option nat) (fs : list fieldset) (b : bool) : page network :=
  choiceDialog on_mode radios checked fs (Network_ b false false false false).

(** What is required is what the mode and the box ask for, whatever was chosen. *)
Definition inv (d : page network) : Prop :=
  chosen_fields d
  ∧ (subnet_required (rest d) = true ↔ value_at d = "nat" ∨ value_at d = "route")
  ∧ fields_hidden (rest d) = negb (ipv6 (rest d)) ∧ inputs_disabled (rest d) = fields_hidden (rest d)
  ∧ subnet6_required (rest d) = ipv6 (rest d).
Lemma mode_inv i d : inv (change on_mode i d).
Proof.
  split_and!; try done; [apply change_chosen|]. unfold value_at. simpl.
  by rewrite orb_true_iff, !bool_decide_eq_true.
Qed.
Lemma network_inv radios checked fs b es : inv (fold_left step es (opened radios checked fs b)).
Proof.
  assert (inv (opened radios checked fs b)) as H by apply mode_inv. revert H.
  generalize (opened radios checked fs b). induction es as [|e es IH]; intros d H; [done|]. simpl. apply IH.
  destruct e as [i|v]; [apply mode_inv|]. destruct H as (H1 & H2 & _). by split_and!.
Qed.
End Network.

Module Interface.
(** an address method and its fields: shown and sent when it is static *)
Record method := Method { value : string; off : bool }.
Definition show (m : method) : method := Method (value m) (negb (bool_decide (value m = "static"))).
Definition change_method (i : nat) (v : string) (l : list method) : list method := alter (λ m, show (Method v (off m))) i l.
Lemma methods_shown i v l :
  (∀ m, m ∈ l → off m = negb (bool_decide (value m = "static"))) →
  ∀ m, m ∈ change_method i v l → off m = negb (bool_decide (value m = "static")).
Proof.
  intros H m (j & Hj)%list_elem_of_lookup. unfold change_method in Hj. destruct (decide (i = j)) as [->|Hn].
  - rewrite list_lookup_alter_eq in Hj. destruct (l !! j); by simplify_eq/=.
  - rewrite list_lookup_alter_ne in Hj by done. by eapply H, list_elem_of_lookup_2.
Qed.
End Interface.
