(* ===== verification/PageScripts.v ===== *)
(** * Smaller page scripts

    Modules [Machines] (create_machine.js), [Serial] (console_serial.js),
    [HostGroups] (host_groups.js), [Status] (instance_status.js), [Errors]
    (error_focus.js), [Secrets] (secrets_page.js), [NetworkPage]
    (network_page.js), [UserForm] (user_form.js and login_form.js) of static/js. *)
From S2P Require Import Prelude JsObject JsString Requests.
From Stdlib Require Import Ascii.

#[local] Open Scope string_scope.
#[local] Open Scope list_scope.

(** ** The create wizard's first page *)
Module Machines.
Section machines.
(** what the server lists for an architecture; [encodeURIComponent] *)
Context (lists : string → list string → Prop) (encode : string → string).
Record page := Page {
  arch : string;                        (* [#select_archs] *)
  options : list string; chosen : option nat;   (* [#select_chipset] *)
  default_machine : string;
  next_disabled : bool;
  messages : list string;
  loads : requests unit }.

Definition load_machines (a : string) (s : page) : page :=
  Page (arch s) [] None (default_machine s) true (messages s) (load_list a tt (loads s)).
(** the default machine is selected, else the first (the browser's rule) *)
Definition preselected (d : string) (l : list string) : option nat :=
  match list_find (λ m, m = d) l with Some (i, _) => Some i | None => match l with [] => None | _ => Some 0 end end.
Definition fill_machines (data : list string) (s : page) : page :=
  Page (arch s) data (preselected (default_machine s) data) (default_machine s) (bool_decide (data = [])) (messages s) (loads s).
(** [showLoadError] of error_focus.js: an error text is added to the messages *)
Definition showLoadError (error : string) (m : list string) : list string := if decide (error = "") then m else m ++ [error].
Definition done_request (id : nat) (s : page) : page :=
  Page (arch s) (options s) (chosen s) (default_machine s) (next_disabled s) (messages s) (finish id (loads s)).

Definition create_url (template a m : string) : string :=
  JsString.replace_first "__machine__" (encode m) (JsString.replace_first "__arch__" (encode a) template).

Inductive event := Arch (a : string) | Answered (id : nat) (data : list string) | Failed (id : nat) (error : string) | Chosen (i : nat).
Definition step (s : page) (e : event) : page :=
  match e with
  | Arch a => load_machines a (Page a (options s) (chosen s) (default_machine s) (next_disabled s) (messages s) (loads s))
  | Answered id data => match out (loads s) !! id with Some (_, _, false) => fill_machines data (done_request id s) | _ => s end
  | Failed id error =>
    match out (loads s) !! id with
    | Some (_, _, aborted) =>
      let s := done_request id s in
      Page (arch s) (options s) (chosen s) (default_machine s) (next_disabled s)
        (showLoadError (if aborted : bool then "" else error) (messages s)) (loads s)
    | None => s
    end
  | Chosen i => Page (arch s) (options s) (Some i) (default_machine s) (next_disabled s) (messages s) (loads s)
  end.
Definition enabled (s : page) (e : event) : Prop :=
  match e with
  | Answered id data => ∃ a, waits id a tt (loads s) ∧ lists a data
  | Chosen i => i < length (options s)
  | _ => True
  end.
Definition opened (a d : string) : page := load_machines a (Page a [] None d true [] no_requests).

Record inv (s : page) : Prop := Inv {
  i_newest : newest (loads s);
  i_wait : ∀ id a t, waits id a t (loads s) → a = arch s;
  i_next : next_disabled s = false → lists (arch s) (options s) ∧ ∃ i, chosen s = Some i ∧ i < length (options s) }.

Lemma preselected_lt d l : l ≠ [] → ∃ i, preselected d l = Some i ∧ i < length l.
Proof.
  intros Hl. unfold preselected. destruct (list_find _ l) as [[i x]|] eqn:E.
  - exists i. split; [done|]. apply list_find_Some in E as (Hi & _ & _). by apply lookup_lt_Some in Hi.
  - destruct l; [done|]. exists 0. simpl. split; [done|lia].
Qed.
Lemma step_inv_machines s e : inv s → enabled s e → inv (step s e).
Proof.
  intros [Hn Hw Hx] He. destruct e as [a|id data|id error|i]; simpl in *.
  - split; simpl; [by apply load_newest| |done]. intros id c t H. by apply (load_waits _ _ _ _ _ _ Hn) in H as (_ & -> & _).
  - destruct He as (a & Ha & Hl). pose proof Ha as Ho. unfold waits in Ho. rewrite Ho. pose proof (Hw _ _ _ Ha) as ->.
    split; simpl; [by apply finish_newest| |].
    + intros id' c t H. by destruct (finish_waits _ _ _ _ _ _ _ Hn Ha H).
    + intros Hd%bool_decide_eq_false. split; [done|]. by apply preselected_lt.
  - destruct (out (loads s) !! id) as [[[c t] b]|]; [|by split]. split; simpl; [by apply finish_newest| |done].
    intros id' c' t' H%finish_still_waits. by eapply Hw.
  - split; simpl; [done|done|]. intros Hd. destruct (Hx Hd) as [Hl _]. split; [done|]. by exists i.
Qed.
(** Next is enabled only with a machine type of the architecture that is chosen. *)
Lemma next_goes_to_the_arch a d s :
  reachable enabled (silent step) (opened a d) s → next_disabled s = false →
  lists (arch s) (options s) ∧ ∃ i, chosen s = Some i ∧ i < length (options s).
Proof.
  intros Hr. assert (inv s) as [_ _ H]; [|exact H].
  revert s Hr. apply reachable_invariant; [|by intros s e; apply step_inv_machines].
  split; simpl; [by apply load_newest, no_requests_newest| |done].
  intros id c t H. by apply (load_waits _ _ _ _ _ _ no_requests_newest) in H as (_ & -> & _).
Qed.
End machines.
(** the placeholders of an architecture whose name contains "pc" *)
Example create_url_ppc : create_url id "/create/__arch__/__machine__/" "ppc64" "pseries" = "/create/ppc64/pseries/".
Proof. by vm_compute. Qed.
End Machines.

(** ** The serial console *)
Module Serial.
Record texts := Texts { t_connected : string; t_disconnected : string; t_takenOver : string; t_hint : string;
                        t_disconnect : string; t_reconnect : string }.
Record page := Page {
  connected : bool; output : bool; takenBy : string;
  status : string; color : string; button : string }.
Inductive effect :=
  | EmitInput (input : string) | EmitResize | Fit | Write (text : string) | Focus | HintLater | Disconnect | ReloadPage.
Definition escape (c : ascii) (s : string) : string := String c s.
Definition ESC : ascii := "027".
Definition CRLF : string := String "013" (String "010" "").
Section serial.
Variable t : texts.
Definition send (input : string) (s : page) : list effect := if connected s then [EmitInput input] else [].
Definition resize (s : page) : list effect := Fit :: if connected s then [EmitResize] else [].
Definition showStatus (text color : string) (s : page) : page :=
  Page (connected s) (output s) (takenBy s) text ("badge text-bg-" +:+ color) (if connected s then t_disconnect t else t_reconnect t).
Definition hint : string := String ESC "[2m" +:+ t_hint t +:+ String ESC "[0m" +:+ CRLF.

(** the bar's keys and what they send *)
Definition keys : list (string * string) :=
  [("ctrlc", String "003" ""); ("ctrld", String "004" ""); ("ctrlz", String "026" ""); ("ctrlbackslash", String "028" "");
   ("sendtab", String "009" ""); ("sendesc", String ESC "")].

Inductive event :=
  | Data (input : string) | Output (text : string) | Connect | HintDue | TakenOver (by_ : string) | Disconnected
  | ConnectError (message : string) | ButtonClicked | Key (id : string) | MenuHidden | Resized.
Definition step (s : page) (e : event) : page * list effect :=
  match e with
  | Data input => (s, send input s)
  | Output text => (Page (connected s) true (takenBy s) (status s) (color s) (button s), [Write text])
  | Connect =>
    let s := showStatus (t_connected t) "success" (Page true (output s) (takenBy s) (status s) (color s) (button s)) in
    (s, resize s ++ [Focus; HintLater])
  | HintDue => (s, if negb (output s) && connected s then [Write hint] else [])
  | TakenOver b => (Page (connected s) (output s) b (status s) (color s) (button s), [])
  | Disconnected =>
    let s := Page false (output s) (takenBy s) (status s) (color s) (button s) in
    if decide (takenBy s = "") then (showStatus (t_disconnected t) "danger" s, [])
    else let text := JsString.replace_first "%(name)s" (takenBy s) (t_takenOver t) in
         (showStatus text "danger" s, [Write (CRLF +:+ "[" +:+ text +:+ "]" +:+ CRLF)])
  | ConnectError m => (showStatus m "danger" s, [])
  | ButtonClicked => (s, if connected s then [Disconnect] else [ReloadPage])
  | Key id => (s, match (list_to_map keys : gmap string string) !! id with Some input => send input s | None => [] end)
  | MenuHidden => (s, [Focus])
  | Resized => (s, resize s)
  end.
(** the socket connects once (no reconnection); [takenBy] is a user's name *)
Definition enabled (s : page) (e : event) : Prop :=
  match e with
  | Connect => connected s = false ∧ button s = "" | Disconnected => connected s = true
  | ConnectError _ => connected s = false
  | _ => True
  end.
Definition start : page := Page false false "" "" "" "".

(** What is typed reaches the VM only while the session is up, and the button
    does what it says. *)
Definition inv (s : page) : Prop := button s = "" ∨ button s = if connected s then t_disconnect t else t_reconnect t.
Definition to_vm (o : effect) : Prop := match o with EmitInput _ | EmitResize => True | _ => False end.
Lemma step_inv_serial s e : inv s → enabled s e → inv (step s e).1.
Proof.
  intros Hi He. destruct e as [| | | | | | | | | |]; simpl in *; try done; try by right.
  case_decide; by right.
Qed.
Lemma sends_while_connected s e o : o ∈ (step s e).2 → to_vm o → connected s = true ∨ e = Connect.
Proof.
  intros Ho Ht. destruct (connected s) eqn:Hc; [by left|].
  destruct e; simpl in Ho; unfold send, resize in Ho; rewrite ?Hc, ?andb_false_r in Ho; simpl in Ho;
    repeat case_decide; try (destruct (_ !! _)); rewrite ?elem_of_cons, ?elem_of_nil in Ho; simpl in Ho;
    rewrite ?elem_of_cons, ?elem_of_nil in Ho; naive_solver.
Qed.
(** a session another user took over ends saying so, and the button reloads the page *)
Lemma taken_over_says_so s by_ :
  by_ ≠ "" → connected s = true →
  let r := run step s [TakenOver by_; Disconnected; ButtonClicked] in
  status r.1 = JsString.replace_first "%(name)s" by_ (t_takenOver t) ∧ button r.1 = t_reconnect t ∧ last r.2 = Some ReloadPage.
Proof. intros Hb Hc. simpl. rewrite decide_False by done. done. Qed.
End serial.
End Serial.

(** ** The VM list grouped by host *)
Module HostGroups.
Record body := Body { collapsed : bool; aria_expanded : bool; chevron_down : bool; chevron_up : bool; badge_shown : bool }.
Record page := Page { bodies : list body; all_expanded : bool (* [#hide-all-instances]'s [aria-expanded] *) }.
Definition set_body (c : bool) (b : body) : body := Body c (negb c) c (negb c) c.
Definition any_expanded (l : list body) : bool := existsb (λ b, negb (collapsed b)) l.
Definition set_host_collapsed (i : nat) (c : bool) (s : page) : page :=
  let l := alter (set_body c) i (bodies s) in Page l (any_expanded l).
Definition hide_all (s : page) : page :=
  let collapse := any_expanded (bodies s) in
  fold_left (λ s i, set_host_collapsed i collapse s) (List.seq 0 (length (bodies s))) s.
Definition host_toggle (i : nat) (s : page) : page :=
  match bodies s !! i with Some b => set_host_collapsed i (negb (collapsed b)) s | None => s end.

Lemma set_all c l n :
  n <= length l →
  bodies (fold_left (λ s i, set_host_collapsed i c s) (List.seq 0 n) (Page l (any_expanded l))) = (set_body c <$> take n l) ++ drop n l
  ∧ all_expanded (fold_left (λ s i, set_host_collapsed i c s) (List.seq 0 n) (Page l (any_expanded l)))
    = any_expanded ((set_body c <$> take n l) ++ drop n l).
Proof.
  induction n as [|n IH]; intros Hn; [done|]. rewrite List.seq_S, fold_left_app. simpl.
  destruct IH as [-> _]; [lia|]. destruct (lookup_lt_is_Some_2 l n) as [b Hb]; [lia|].
  assert (alter (set_body c) n ((set_body c <$> take n l) ++ drop n l) = (set_body c <$> take (S n) l) ++ drop (S n) l) as ->; [|done].
  rewrite (take_S_r _ _ b Hb), (drop_S _ b n Hb), fmap_app. simpl.
  replace n with (length (set_body c <$> take n l) + 0) at 1 by (rewrite length_fmap, length_take; lia).
  rewrite alter_app_r. simpl. by rewrite <- app_assoc.
Qed.
(** One click sets every host the same way: collapsed, unless all already are;
    and the button says whether a host is expanded. *)
Lemma hide_all_sets_all s :
  all_expanded s = any_expanded (bodies s) →
  bodies (hide_all s) = set_body (any_expanded (bodies s)) <$> bodies s
  ∧ all_expanded (hide_all s) = any_expanded (bodies (hide_all s)).
Proof.
  destruct s as [l a]. simpl. intros ->. unfold hide_all. simpl.
  destruct (set_all (any_expanded l) l (length l) ltac:(done)) as [H1 H2].
  rewrite H1, H2, take_ge, drop_ge, app_nil_r by done. done.
Qed.
Lemma host_toggle_says s i : all_expanded s = any_expanded (bodies s) → all_expanded (host_toggle i s) = any_expanded (bodies (host_toggle i s)).
Proof. intros H. unfold host_toggle. by destruct (bodies s !! i). Qed.
End HostGroups.

(** ** The VM page's status poll: an answer of the Poller of [Poll] *)
Module Status.
(** does the page reload?  [unsaved]: [xmlEditUnsaved], where the page has the XML editor *)
Definition get_status (vm_status backgroundJobRunning : bool) (unsaved : option bool) : bool :=
  vm_status && negb backgroundJobRunning && negb (default false unsaved).
(** [data['status'] != vm_status] *)
Definition changed (vm_status status : Z) : bool := bool_decide (status ≠ vm_status).
Definition on_status (vm_status : Z) (backgroundJobRunning : bool) (unsaved : option bool) (status : Z) : bool :=
  get_status (changed vm_status status) backgroundJobRunning unsaved.
Lemma on_status_keeps_edits v b s : on_status v b (Some true) s = false.
Proof. unfold on_status, get_status. by rewrite andb_false_r. Qed.
End Status.

(** ** After a refused submission *)
Module Errors.
Record node := Node { node_id : nat; visible : bool; control : bool (* input, select or textarea *) }.
(** The places, most specific first, each with its elements in the page's order. *)
Definition ERROR_PLACES : list string :=
  [".is-invalid"; ".form-errors"; ".modal.show .modal-messages .alert-danger"; "#messages .alert-danger"].
(** the element that is focused, and whether it is made focusable first *)
Fixpoint focusFirstError (querySelectorAll : string → list node) (places : list string) : option (node * bool) :=
  match places with
  | [] => None
  | selector :: places =>
    match list_find (λ e, visible e = true) (querySelectorAll selector) with
    | Some (_, target) => Some (target, negb (control target))
    | None => focusFirstError querySelectorAll places
    end
  end.
Lemma focusFirstError_most_specific q places n b :
  focusFirstError q places = Some (n, b) →
  ∃ p1 sel p2, places = p1 ++ sel :: p2 ∧ n ∈ q sel ∧ visible n = true
    ∧ ∀ s m, s ∈ p1 → m ∈ q s → visible m = false.
Proof.
  induction places as [|sel places IH]; [done|]. simpl. destruct (list_find _ (q sel)) as [[i x]|] eqn:E.
  - intros [= <- <-]. apply list_find_Some in E as (Hi & Hv & _). exists [], sel, places.
    split_and!; [done|by eapply list_elem_of_lookup_2|done|by intros s m H%not_elem_of_nil].
  - intros (p1 & s & p2 & -> & Hn & Hv & Hp)%IH. exists (sel :: p1), s, p2. split_and!; [done..|].
    intros s' m [->|Hs]%elem_of_cons Hm; [|by eapply Hp]. apply list_find_None in E.
    rewrite Forall_forall in E. specialize (E m Hm). by destruct (visible m).
Qed.
End Errors.

(** ** The secrets page *)
Module Secrets.
Record usage_texts := Texts { usage : string; usageHelp : string; value : string; valueHelp : string }.
Section secrets.
Context (texts : gmap string usage_texts) (later : string).
Record labels := Labels { usage_label : string; usage_help : string; value_label : string; value_help : string }.
(** none: a type without texts, a TypeError in the code *)
Definition showUsage (usage_type : string) : option labels :=
  t ← texts !! usage_type; Some (Labels (usage t) (usageHelp t) (value t) (valueHelp t +:+ " " +:+ later)).

Record row := Row { row_type : string; row_uuid : string; row_usage : string }.
Record form := Form {
  uuid : string; value_field : string; value_usage : string;
  set_value_label : string; set_value_help : string; note_hidden : bool; describedby : string }.
Definition is_passphrase (type : string) : bool := bool_decide (type ∈ ["volume"; "tls"; "vtpm"]).
(** the form after [reset()]: nothing of another secret's *)
Definition show_set_value (r : row) (f : form) : option form :=
  t ← (match texts !! row_type r with Some t => Some t | None => texts !! "none" end);
  let p := is_passphrase (row_type r) in
  Some (Form (row_uuid r) "" (row_usage r) (value t) (valueHelp t) (negb p)
          (if p then "set_value_help set_value_note" else "set_value_help")).
Lemma show_set_value_forgets r f f' : show_set_value r f = show_set_value r f'.
Proof. done. Qed.
End secrets.
End Secrets.

(** ** A network's page: the dialogs its rows open *)
Module NetworkPage.
(** a button's [data-] attributes; [data.x || ""] *)
Abbreviation dataset := (gmap string string).
Definition or_empty (v : option string) : string := default "" v.
(** [data.x || y]: an empty text counts as none *)
Definition or_else (v : option string) (y : string) : string :=
  match v with Some v => if decide (v = "") then y else v | None => y end.
Record fixed := Fixed { original : string; address : string; mac : string; fname : string; ip_index : string; subnet_row_hidden : bool }.
Definition fill_fixed (options : list string) (d : dataset) : fixed :=
  Fixed (or_empty (d !! "original")) (or_empty (d !! "address")) (or_empty (d !! "mac")) (or_empty (d !! "name"))
    (or_else (d !! "ipIndex") (default "" (head options))) (negb (bool_decide (or_empty (d !! "original") = ""))).

Record option_ := Option_ { o_value : string; taken : bool; disabled : bool }.
Record qos := Qos { direction : string; options : list option_; average : string; peak : string; burst : string }.
Definition set_option (direction : string) (o : option_) : option_ :=
  Option_ (o_value o) (taken o) (if decide (direction = "") then taken o else bool_decide (o_value o ≠ direction)).
(** none: every direction has its limit, the code then throws; the page offers no Add button *)
Definition fill_qos (l : list option_) (d : dataset) : option qos :=
  let dir := or_empty (d !! "direction") in
  let l := set_option dir <$> l in
  v ← (if decide (dir = "") then o_value <$> (snd <$> list_find (λ o, disabled o = false) l) else Some dir);
  Some (Qos v l (or_empty (d !! "average")) (or_empty (d !! "peak")) (or_empty (d !! "burst"))).
(** the direction that is sent can be chosen: an edited limit keeps its own, a
    new one takes a direction that has none *)
Lemma fill_qos_direction l d s :
  fill_qos l d = Some s →
  (or_empty (d !! "direction") = "" → ∃ o, o ∈ l ∧ taken o = false ∧ o_value o = direction s)
  ∧ (or_empty (d !! "direction") ≠ "" → direction s = or_empty (d !! "direction")
       ∧ ∀ o, o ∈ options s → disabled o = false ↔ o_value o = direction s).
Proof.
  unfold fill_qos. case_decide as Hd.
  - rewrite Hd. destruct (list_find _ _) as [[i o]|] eqn:E; simpl; [|done]. intros [= <-]. simpl. split; [|done]. intros _.
    apply list_find_Some in E as (Hi & Ho & _). apply list_lookup_fmap_Some in Hi as (x & -> & Hx).
    unfold set_option in Ho. rewrite decide_True in Ho by done. simpl in Ho. exists x. split; [|done]. by eapply list_elem_of_lookup_2.
  - simpl. intros [= <-]. simpl. split; [done|]. intros _. split; [done|].
    intros o (x & -> & Hx)%list_elem_of_fmap. unfold set_option. simpl. rewrite decide_False by done.
    rewrite bool_decide_eq_false. split; [|tauto]. intros H. by apply dec_stable.
Qed.
End NetworkPage.

(** ** The user form and the sign-in form *)
Module UserForm.
Record role_form := RoleForm { not_superuser_hidden : list bool; note_hidden : bool }.
Definition choose_role (role : string) (f : role_form) : role_form :=
  let superuser := bool_decide (role = "superuser") in
  RoleForm ((λ _, superuser) <$> not_superuser_hidden f) (negb superuser).
Record password := Password { shown_as_text : bool; eye : bool; eye_slash : bool }.
Definition toggle_password (p : password) : password :=
  let shown := negb (shown_as_text p) in Password shown (negb shown) shown.
Lemma toggle_password_twice p :
  eye p = negb (shown_as_text p) → eye_slash p = shown_as_text p → toggle_password (toggle_password p) = p.
Proof. destruct p as [[] e l]; simpl; by intros -> ->. Qed.
End UserForm.
