(* ===== verification/InstancePage.v ===== *)
(** * The VM page: static/js/instance_page.js and static/js/instance_tabs.js

    The names of a clone's disks, the freeze option of a snapshot and the tab
    the page opens on.  The boot order editor and the Migrate tab have files of
    their own. *)
From S2P Require Import Prelude JsObject JsString.
From Stdlib Require Import Ascii.

#[local] Open Scope string_scope.
#[local] Open Scope list_scope.

(** ** The disks of a clone: [update_clone_disk_name] *)
Module CloneDisks.
(** the name of a disk's copy; the names hold no dollar sign, which
    [String.replace] would read as a pattern *)
Definition image (vname new_vname disk_name : string) : string :=
  let disk_dot := JsString.split "." disk_name in
  let suffix := default "" (last disk_dot) in
  if JsString.startsWith vname disk_name then JsString.replace_first vname new_vname disk_name
  else if JsString.includes "." disk_name && (String.length suffix <=? 7)%nat then
    new_vname +:+ "-" +:+ JsString.join "-" (removelast disk_dot) +:+ "." +:+ suffix
  else if decide (new_vname ≠ disk_name) then new_vname
  else new_vname +:+ "-clone".
(** an [input\[data-image\]]: the source's image and the copy's name *)
Record disk := Disk { data_image : string; value : string }.
Definition update_clone_disk_name (vname new_vname : string) (l : list disk) : list disk :=
  (λ d, Disk (data_image d) (image vname new_vname (data_image d))) <$> l.
(** a guessed name: its part before the first dot names the clone *)
Definition guessed_name (name : string) : string := default "" (head (JsString.split "." name)).

Lemma length_app s t : String.length (s +:+ t) = (String.length s + String.length t)%nat.
Proof. induction s as [|a s IH]; simpl; [done|]. by rewrite <- IH. Qed.
Lemma app_inj_l s t u : s +:+ t = s +:+ u → t = u.
Proof. induction s as [|a s IH]; [done|]. simpl. intros [=]. auto. Qed.
Lemma app_inj_r s t u : s +:+ u = t +:+ u → s = t.
Proof.
  intros H%(f_equal chars). rewrite !JsString.chars_app in H. apply app_inv_tail in H. by apply JsString.chars_inj.
Qed.
Lemma prefix_split p s : JsString.startsWith p s = true → ∃ r, s = p +:+ r.
Proof.
  revert s. induction p as [|a p IH]; intros s; [by exists s|]. destruct s as [|b s]; simpl; [done|].
  destruct (ascii_dec a b); [|done]. subst. intros [r ->]%IH. by exists r.
Qed.
Lemma startsWith_app p r : JsString.startsWith p (p +:+ r) = true.
Proof. induction p as [|a p IH]; [by destruct r|]. simpl. by destruct (ascii_dec a a). Qed.
Lemma substring_all n s : (String.length s <= n)%nat → String.substring 0 n s = s.
Proof.
  revert n. induction s as [|a s IH]; intros [|n]; simpl; intros Hn; try done; [lia|]. f_equal. apply IH. lia.
Qed.
Lemma substring_app p r n : (String.length r <= n)%nat → String.substring (String.length p) n (p +:+ r) = r.
Proof. intros Hn. induction p as [|a p IH]; [by apply substring_all|]. done. Qed.
Lemma replace_prefix p t r : JsString.replace_first p t (p +:+ r) = t +:+ r.
Proof.
  assert (JsString.replace_first p t (p +:+ r) =
    if JsString.startsWith p (p +:+ r) then t +:+ String.substring (String.length p) (String.length (p +:+ r)) (p +:+ r)
    else match p +:+ r with EmptyString => EmptyString | String a s => String a (JsString.replace_first p t s) end) as ->
    by (by destruct (p +:+ r)).
  rewrite startsWith_app, substring_app; [done|]. rewrite length_app. lia.
Qed.

Lemma join_dash_length c l : String.length (JsString.join "-" l) = String.length (JsString.join (String c "") l).
Proof.
  induction l as [|s l IH]; [done|]. destruct l as [|s' l]; [done|].
  rewrite !JsString.join_cons2, !length_app, IH. done.
Qed.
Lemma split_dot_length s :
  JsString.includes "." s = true → String.length s
    = (String.length (JsString.join "-" (removelast (JsString.split "." s))) + 1
       + String.length (default "" (last (JsString.split "." s))))%nat.
Proof.
  intros Hi. rewrite <- (JsString.join_split "." s) at 1. rewrite (join_dash_length ".").
  assert (∀ l, (2 <= length l)%nat → String.length (JsString.join "." l)
    = (String.length (JsString.join "." (removelast l)) + 1 + String.length (default "" (last l)))%nat) as Hj.
  { induction l as [|x l IH]; [simpl; lia|]. intros Hl. destruct l as [|y l]; [simpl in Hl; lia|].
    rewrite JsString.join_cons2, !length_app. destruct l as [|z l]; [simpl; lia|].
    rewrite IH by (simpl; lia). change (removelast (x :: y :: z :: l)) with (x :: y :: removelast (z :: l)).
    change (removelast (y :: z :: l)) with (y :: removelast (z :: l)).
    rewrite JsString.join_cons2, !length_app. simpl last. simpl. lia. }
  apply Hj. clear Hj. induction s as [|a s IH]; [done|].
  simpl JsString.split. destruct (JsString.split_cons "." s) as (p & ps & E). rewrite E in *.
  case_decide as Ha; simpl; [lia|]. apply IH. revert Hi. cbn [JsString.includes].
  unfold JsString.startsWith. cbn [String.prefix]. destruct (ascii_dec "." a); [congruence|done].
Qed.

(** A clone's disk never takes its source's name: with another VM name each
    disk's copy has another name than the disk; a disk named after the VM
    keeps the rest of its name after the clone's, so that two such disks never
    get one name. *)
Theorem clone_disk_is_not_its_source vname new_vname disk :
  new_vname ≠ vname →
  image vname new_vname disk ≠ disk
  ∧ (∀ rest, disk = vname +:+ rest → image vname new_vname disk = new_vname +:+ rest)
  ∧ (∀ disk', JsString.startsWith vname disk = true → JsString.startsWith vname disk' = true →
       image vname new_vname disk = image vname new_vname disk' → disk = disk').
Proof.
  intros Hne.
  assert (∀ d rest, d = vname +:+ rest → image vname new_vname d = new_vname +:+ rest) as Hrest.
  { intros d rest ->. unfold image. by rewrite startsWith_app, replace_prefix. }
  split_and!; [|by apply Hrest|].
  - unfold image. destruct (JsString.startsWith vname disk) eqn:Hs.
    + apply prefix_split in Hs as [r ->]. rewrite replace_prefix. intros H%app_inj_r. done.
    + destruct (_ && _) eqn:Hd.
      * apply andb_prop in Hd as [Hi _]. intros H%(f_equal String.length). rewrite !length_app, (split_dot_length disk Hi) in H.
        simpl in H. lia.
      * case_decide as Hn; [done|]. intros H%(f_equal String.length). subst disk.
        rewrite length_app in H. simpl in H. lia.
  - intros disk' [r ->]%prefix_split [r' ->]%prefix_split. rewrite !(Hrest _ _ eq_refl). by intros ->%app_inj_l.
Qed.

Example clone_names :
  image "web" "web2" "web-disk1.qcow2" = "web2-disk1.qcow2" ∧ image "web" "db" "data.1.img" = "db-data-1.img"
  ∧ image "web" "db" "volume" = "db" ∧ image "web" "volume" "volume" = "volume-clone"
  ∧ guessed_name "vm7.example.org" = "vm7".
Proof. by vm_compute. Qed.
Lemma clone_disk_is_not_its_source_witness : image "web" "db" "data.img" ≠ "data.img".
Proof. by apply (clone_disk_is_not_its_source "web" "db" "data.img"). Defined.
End CloneDisks.

(** ** The freeze option of a snapshot: [#snapshot-memory], [#snapshot-quiesce] *)
Module Quiesce.
Record page := Page {
  offered : bool; memory : bool;       (* [#snapshot-memory] is checked *)
  was : option bool;                   (* [quiesce.dataset.was] *)
  checked : bool; disabled : bool }.   (* [#snapshot-quiesce] *)
Definition on_change (s : page) : page :=
  if negb (offered s) then s
  else let was' := if memory s then Some (checked s) else was s in
       Page true (memory s) was' (negb (memory s) && bool_decide (was' ≠ Some false)) (memory s).
(** the user flips one of the two switches *)
Inductive event := FlipMemory | FlipQuiesce.
Definition step (s : page) (e : event) : page :=
  match e with
  | FlipMemory => on_change (Page (offered s) (negb (memory s)) (was s) (checked s) (disabled s))
  | FlipQuiesce => Page (offered s) (memory s) (was s) (negb (checked s)) (disabled s)
  end.

(** The option waits while memory is kept and then is what the user chose. *)
Lemma quiesce_comes_back s :
  offered s = true → memory s = false →
  checked (step s FlipMemory) = false ∧ disabled (step s FlipMemory) = true
  ∧ checked (step (step s FlipMemory) FlipMemory) = checked s
  ∧ disabled (step (step s FlipMemory) FlipMemory) = false.
Proof. destruct s as [[] [] w [] d]; try done; intros _ _; by vm_compute. Qed.
End Quiesce.

(** ** The tab the page opens on: [restoreInstanceTab] *)
Module Tabs.
(** an element found by its id: is it a pane, and its ancestors, each with
    its id and whether it is a pane *)
Record element := Element { tab_pane : bool; ancestors : list (string * bool) }.
(** the tab list of [#settings]: the target of its first link that is not
    [#osinfo-tab], and whether it has that one *)
Record tablist := Tablist { first_target : option string; has_osinfo : bool }.
Inductive effect := Show (target : string) | LoadInfo.

Section tabs.
Context (getElementById : string → option element) (settings : option tablist).
(** Bootstrap's [show] decides which link is active: is one of the tab list,
    after these calls? *)
Context (active : list effect → bool).

Definition holder (l : list (string * bool)) : option string := fst <$> head (filter (λ a, a.2 = true) l).
Definition restore_pane (hash : string) : list effect :=
  if (1 <? String.length hash)%nat then
    match getElementById (String.substring 1 (String.length hash - 1) hash) with
    | Some pane =>
      if tab_pane pane then
        (match holder (ancestors pane) with Some id => [Show ("#" +:+ id)] | None => [] end)
        ++ [Show hash] ++ (if decide (hash = "#osinfo") then [LoadInfo] else [])
      else []
    | None => []
    end
  else [].
Definition restoreInstanceTab (hash : string) : list effect :=
  let shown := restore_pane hash in
  shown ++
  match settings with
  | Some tabs =>
    if active shown then []
    else match first_target tabs with
         | Some target => [Show target]
         | None => if has_osinfo tabs then [Show "#osinfo"; LoadInfo] else []
         end
  | None => []
  end.

(** The guest's details are loaded exactly when their section is opened. *)
Lemma info_loaded_when_shown hash :
  (∀ tabs, settings = Some tabs → first_target tabs ≠ Some "#osinfo") →
  (∀ i e, getElementById i = Some e → holder (ancestors e) ≠ Some "osinfo") →
  LoadInfo ∈ restoreInstanceTab hash ↔ Show "#osinfo" ∈ restoreInstanceTab hash.
Proof.
  intros Hfirst Hhold. unfold restoreInstanceTab.
  assert (LoadInfo ∈ restore_pane hash ↔ Show "#osinfo" ∈ restore_pane hash) as Hp.
  { unfold restore_pane. destruct (_ <? _)%nat; [|set_solver]. destruct (getElementById _) as [e|] eqn:He; [|set_solver].
    destruct (tab_pane e); [|set_solver]. pose proof (Hhold _ _ He) as Hh.
    destruct (holder (ancestors e)) as [id|]; case_decide; try subst hash.
    - set_solver.
    - split; [set_solver|]. rewrite !elem_of_app, !list_elem_of_singleton.
      intros [H'|[[=]|H']]; [injection H' as H'; change ("osinfo" = id) in H'; by subst id|congruence|by apply not_elem_of_nil in H'].
    - set_solver.
    - split; [set_solver|]. rewrite !elem_of_app, !list_elem_of_singleton. intros [H'|[H'|H']]; [by apply not_elem_of_nil in H'|congruence|by apply not_elem_of_nil in H']. }
  rewrite !elem_of_app, Hp. destruct settings as [tabs|]; [|set_solver]. pose proof (Hfirst _ eq_refl) as Hf.
  destruct (active _); [set_solver|]. destruct (first_target tabs) as [t|].
  - rewrite !list_elem_of_singleton. split; intros [?|H']; auto; congruence.
  - destruct (has_osinfo tabs); set_solver.
Qed.
End tabs.
End Tabs.
