(* ===== verification/Base64.v ===== *)
(** * Base64: static/js/novnc/core/base64.js

    [encode] and [decode].  Data are bytes, texts their character codes. *)
From S2P Require Import Prelude Words.
From Stdlib Require Import Ascii.

#[local] Open Scope list_scope.
#[local] Open Scope Z_scope.

Module Base64.
Definition codes (s : string) : list Z := (λ a, Z.of_N (N_of_ascii a)) <$> String.list_ascii_of_string s.
Definition toBase64Table : list Z := codes "ABCDEFGHIJKLMNOPQRSTUVWXYZabcdefghijklmnopqrstuvwxyz0123456789+/="%string.
Definition base64Pad : Z := 61.
Definition char_of (k : Z) : Z := nth (Z.to_nat k) toBase64Table 0.

(** every three bytes to four characters, the remaining one or two padded *)
Fixpoint encode (data : list Z) : list Z :=
  match data with
  | a :: b :: c :: data =>
    [char_of (Z.shiftr a 2); char_of (Z.shiftl (Z.land a 3) 4 + Z.shiftr b 4);
     char_of (Z.shiftl (Z.land b 15) 2 + Z.shiftr c 6); char_of (Z.land c 63)] ++ encode data
  | [a; b] =>
    [char_of (Z.shiftr a 2); char_of (Z.shiftl (Z.land a 3) 4 + Z.shiftr b 4); char_of (Z.shiftl (Z.land b 15) 2); char_of 64]
  | [a] => [char_of (Z.shiftr a 2); char_of (Z.shiftl (Z.land a 3) 4); char_of 64; char_of 64]
  | [] => []
  end.

Definition toBinaryTable : list Z :=
  [-1; -1; -1; -1; -1; -1; -1; -1; -1; -1; -1; -1; -1; -1; -1; -1;
   -1; -1; -1; -1; -1; -1; -1; -1; -1; -1; -1; -1; -1; -1; -1; -1;
   -1; -1; -1; -1; -1; -1; -1; -1; -1; -1; -1; 62; -1; -1; -1; 63;
   52; 53; 54; 55; 56; 57; 58; 59; 60; 61; -1; -1; -1;  0; -1; -1;
   -1;  0;  1;  2;  3;  4;  5;  6;  7;  8;  9; 10; 11; 12; 13; 14;
   15; 16; 17; 18; 19; 20; 21; 22; 23; 24; 25; -1; -1; -1; -1; -1;
   -1; 26; 27; 28; 29; 30; 31; 32; 33; 34; 35; 36; 37; 38; 39; 40;
   41; 42; 43; 44; 45; 46; 47; 48; 49; 50; 51; -1; -1; -1; -1; -1].
Definition bits_of (code : Z) : Z := nth (Z.to_nat (Z.land code 127)) toBinaryTable (-1).

Record decoding := Decoding { leftbits : Z; leftdata : Z; result : list Z (* what was appended *) }.
Definition decode_char (d : decoding) (code : Z) : decoding :=
  let c := bits_of code in
  let padding := bool_decide (code = base64Pad) in
  if decide (c = -1) then d   (* illegal characters are skipped *)
  else
    let data := Z.lor (Z.shiftl (leftdata d) 6) c in
    let bits := leftbits d + 6 in
    if decide (8 <= bits) then
      let bits := bits - 8 in
      Decoding bits (Z.land data (Z.shiftl 1 bits - 1))
        (if padding then result d else result d ++ [Z.land (Z.shiftr data bits) 255])
    else Decoding bits data (result d).
Definition indexOf (c : Z) (l : list Z) : Z := match list_find (λ x, x = c) l with Some (i, _) => Z.of_nat i | None => -1 end.
(** [Math.floor((dataLength % 4) / 1.5)]; a remainder has the dividend's sign *)
Definition resultLength (data : list Z) (offset : Z) : Z :=
  let n := indexOf base64Pad data - offset in
  let n := if decide (n < 0) then Z.of_nat (length data) - offset else n in
  Z.shiftr n 2 * 3 + Z.rem n 4 * 2 / 3.
(** the array: what was appended, then holes up to the computed length; none:
    it throws on bits that are left over *)
Definition decode (data : list Z) (offset : Z) : option (list (option Z)) :=
  let d := fold_left decode_char (drop (Z.to_nat offset) data) (Decoding 0 0 []) in
  if decide (leftbits d = 0) then
    Some ((Some <$> result d) ++ replicate (Z.to_nat (resultLength data offset) - length (result d)) None)
  else None.

Example encode_man : encode (codes "Man"%string) = codes "TWFu"%string ∧ encode (codes "Ma"%string) = codes "TWE="%string ∧ encode (codes "M"%string) = codes "TQ=="%string.
Proof. by vm_compute. Qed.
(** white space is skipped, a lone character is corrupt *)
Example decode_man : decode (codes "TW Fu"%string) 0 = Some (Some <$> codes "Man"%string) ∧ decode (codes "TWFuT"%string) 0 = None.
Proof. by vm_compute. Qed.

(** ** The tables invert each other *)
Definition is_byte (b : Z) : Prop := 0 <= b < 256.
Lemma tables k : 0 <= k < 64 → bits_of (char_of k) = k ∧ char_of k ≠ base64Pad.
Proof.
  intros Hk. assert ((bits_of (char_of k) =? k) && negb (char_of k =? base64Pad) = true) as H.
  { apply (Words.checked_below (λ k, (bits_of (char_of k) =? k) && negb (char_of k =? base64Pad)) 64); [by vm_compute|done]. }
  by apply andb_true_iff in H as [H1%Z.eqb_eq H2%negb_true_iff%Z.eqb_neq].
Qed.
Lemma three_ind (Q : list Z → Prop) :
  Q [] → (∀ a, Q [a]) → (∀ a b, Q [a; b]) → (∀ a b c l, Q l → Q (a :: b :: c :: l)) → ∀ l, Q l.
Proof.
  intros H0 H1 H2 H3 l. assert (Q l ∧ (∀ a, Q (a :: l)) ∧ ∀ a b, Q (a :: b :: l)) as [? _]; [|done].
  induction l as [|x l (IH1 & IH2 & IH3)]; split_and!; auto.
Qed.

(** ** One character *)
Lemma decode_sextet bits data out k :
  0 <= k < 64 → 0 <= data → bits = 0 ∨ bits = 2 ∨ bits = 4 ∨ bits = 6 →
  decode_char (Decoding bits data out) (char_of k) =
    if decide (bits = 0) then Decoding 6 (data * 64 + k) out
    else Decoding (bits - 2) ((data * 64 + k) mod 2 ^ (bits - 2)) (out ++ [(data * 64 + k) / 2 ^ (bits - 2) mod 256]).
Proof.
  intros Hk Hd Hb. destruct (tables k Hk) as [Ht Hp]. unfold decode_char. rewrite Ht. simpl leftdata. simpl leftbits. simpl result.
  rewrite decide_False by lia. rewrite bool_decide_false by done.
  rewrite Z.shiftl_mul_pow2 by lia. rewrite Words.lor_low by lia. change (2 ^ 6) with 64.
  destruct (decide (bits = 0)) as [->|Hz]; [by rewrite decide_False by lia|].
  rewrite decide_True by lia. replace (bits + 6 - 8) with (bits - 2) by lia.
  rewrite Z.shiftr_div_pow2, Z.shiftl_mul_pow2, Z.mul_1_l by lia.
  change 255 with (Z.ones 8). replace (2 ^ (bits - 2) - 1) with (Z.ones (bits - 2)) by (rewrite Z.ones_equiv; lia).
  by rewrite !Z.land_ones by lia.
Qed.
Lemma decode_pad bits data out :
  bits = 2 ∨ bits = 4 → data = 0 → decode_char (Decoding bits data out) (char_of 64) = Decoding (bits - 2) 0 out.
Proof. intros [->| ->] ->; by vm_compute. Qed.

(** ** Groups *)
#[local] Ltac sextets :=
  rewrite !Z.shiftr_div_pow2, !Z.shiftl_mul_pow2 by lia;
  change 3 with (Z.ones 2); change 15 with (Z.ones 4); change 63 with (Z.ones 6); rewrite !Z.land_ones by lia;
  change (2 ^ 2) with 4; change (2 ^ 4) with 16; change (2 ^ 6) with 64.
#[local] Ltac in_range := try lia; Z.to_euclidean_division_equations; lia.
Lemma decode_three a b c out :
  is_byte a → is_byte b → is_byte c →
  fold_left decode_char (encode [a; b; c]) (Decoding 0 0 out) = Decoding 0 0 (out ++ [a; b; c]).
Proof.
  unfold is_byte. intros Ha Hb Hc. unfold encode. cbn [fold_left app].
  sextets.
  rewrite (decode_sextet 0) by in_range.
  rewrite decide_True by done.
  rewrite (decode_sextet 6) by in_range.
  rewrite decide_False by lia. simpl (6 - 2). change (2 ^ 4) with 16.
  rewrite (decode_sextet 4) by in_range.
  rewrite decide_False by lia. simpl (4 - 2). change (2 ^ 2) with 4.
  rewrite (decode_sextet 2) by in_range.
  rewrite decide_False by lia. simpl (2 - 2). change (2 ^ 0) with 1. rewrite Z.mod_1_r. f_equal.
  rewrite <- !app_assoc. f_equal. cbn [app]. repeat f_equal; Z.to_euclidean_division_equations; lia.
Qed.
Lemma decode_two a b out :
  is_byte a → is_byte b → fold_left decode_char (encode [a; b]) (Decoding 0 0 out) = Decoding 0 0 (out ++ [a; b]).
Proof.
  unfold is_byte. intros Ha Hb. unfold encode. cbn [fold_left]. sextets.
  rewrite (decode_sextet 0) by in_range. rewrite decide_True by done.
  rewrite (decode_sextet 6) by in_range. rewrite decide_False by lia. simpl (6 - 2). change (2 ^ 4) with 16.
  rewrite (decode_sextet 4) by in_range. rewrite decide_False by lia. simpl (4 - 2). change (2 ^ 2) with 4.
  rewrite decode_pad; [|by left|in_range]. simpl (2 - 2). f_equal.
  rewrite <- app_assoc. f_equal. cbn [app]. repeat f_equal; in_range.
Qed.
Lemma decode_one a out :
  is_byte a → fold_left decode_char (encode [a]) (Decoding 0 0 out) = Decoding 0 0 (out ++ [a]).
Proof.
  unfold is_byte. intros Ha. unfold encode. cbn [fold_left]. sextets.
  rewrite (decode_sextet 0) by in_range. rewrite decide_True by done.
  rewrite (decode_sextet 6) by in_range. rewrite decide_False by lia. simpl (6 - 2). change (2 ^ 4) with 16.
  rewrite decode_pad; [|by right|in_range]. simpl (4 - 2). rewrite decode_pad; [|by left|done]. simpl (2 - 2). f_equal.
  f_equal. f_equal. in_range.
Qed.
Lemma encode_three a b c l : encode (a :: b :: c :: l) = encode [a; b; c] ++ encode l.
Proof. done. Qed.
Lemma decode_encoded l out :
  Forall is_byte l → fold_left decode_char (encode l) (Decoding 0 0 out) = Decoding 0 0 (out ++ l).
Proof.
  revert l out. apply (three_ind (λ l, ∀ out, Forall is_byte l → _)).
  - intros out _. by rewrite app_nil_r.
  - intros a out Ha. apply decode_one. by inversion Ha.
  - intros a b out Hab. apply decode_two; by decompose_Forall_hyps.
  - intros a b c l IH out (Ha & (Hb & (Hc & Hl)%Forall_cons)%Forall_cons)%Forall_cons.
    rewrite encode_three, fold_left_app, decode_three, IH by done.
    by rewrite <- app_assoc.
Qed.

(** ** The length that is computed *)
Lemma indexOf_app c l r : c ∉ l → indexOf c (l ++ r) = if decide (indexOf c r < 0) then -1 else Z.of_nat (length l) + indexOf c r.
Proof.
  intros Hl. unfold indexOf. rewrite list_find_app_r.
  - destruct (list_find _ r) as [[i x]|]; simpl; [|done]. rewrite decide_False by lia. lia.
  - apply list_find_None, Forall_forall. intros x Hx ->. done.
Qed.
Lemma char_not_pad k : 0 <= k < 64 → base64Pad ≠ char_of k.
Proof. intros Hk Heq. by destruct (tables k Hk) as [_ ?]. Qed.
Lemma encode_three_chars a b c :
  is_byte a → is_byte b → is_byte c → base64Pad ∉ encode [a; b; c].
Proof.
  unfold is_byte. intros Ha Hb Hc. unfold encode. cbn [app]. sextets.
  rewrite !elem_of_cons, elem_of_nil. intros [H|[H|[H|[H|[]]]]]; revert H; apply char_not_pad; in_range.
Qed.
(** characters of the table, then the padding *)
Lemma encoded l : Forall is_byte l →
  ∃ t k, encode l = t ++ replicate k base64Pad ∧ Forall (λ c, ∃ s, 0 <= s < 64 ∧ c = char_of s) t ∧ (k < 4)%nat.
Proof.
  induction l as [|a|a b|a b c l IH] using three_ind; rewrite ?Forall_cons; unfold is_byte.
  - exists [], 0%nat. split; [done|]. split; [constructor|lia].
  - intros [Ha _]. unfold encode. sextets. eexists [_; _], 2%nat. split; [done|]. split; [|lia]. repeat constructor; eexists; (split; [|done]); in_range.
  - intros (Ha & Hb & _). unfold encode. sextets. eexists [_; _; _], 1%nat. split; [done|]. split; [|lia]. repeat constructor; eexists; (split; [|done]); in_range.
  - intros (Ha & Hb & Hc & Hl). destruct (IH Hl) as (t & k & E & Ht & Hk). rewrite encode_three, E. unfold encode. cbn [app]. sextets.
    eexists (_ :: _ :: _ :: _ :: t), k. split; [done|]. split; [|done].
    repeat (apply Forall_cons; split; [eexists; (split; [|done]); in_range|]). done.
Qed.
Lemma pad_of_one a : is_byte a → indexOf base64Pad (encode [a]) = 2.
Proof.
  unfold is_byte. intros Ha. unfold encode. sextets.
  match goal with |- context [[?x; ?y; ?p; ?q]] => change [x; y; p; q] with ([x; y] ++ [p; q]) end. rewrite indexOf_app; [by vm_compute|].
  rewrite !elem_of_cons, elem_of_nil. intros [H|[H|[]]]; revert H; apply char_not_pad; in_range.
Qed.
Lemma pad_of_two a b : is_byte a → is_byte b → indexOf base64Pad (encode [a; b]) = 3.
Proof.
  unfold is_byte. intros Ha Hb. unfold encode. sextets.
  match goal with |- context [[?x; ?y; ?p; ?q]] => change [x; y; p; q] with ([x; y; p] ++ [q]) end. rewrite indexOf_app; [by vm_compute|].
  rewrite !elem_of_cons, elem_of_nil. intros [H|[H|[H|[]]]]; revert H; apply char_not_pad; in_range.
Qed.
Lemma length_encode l : Z.of_nat (length (encode l)) = (Z.of_nat (length l) + 2) / 3 * 4.
Proof.
  revert l. apply three_ind; try done. intros a b c l IH. rewrite encode_three, length_app. cbn [length encode app].
  Z.to_euclidean_division_equations. lia.
Qed.
Lemma indexOf_pad l :
  Forall is_byte l →
  indexOf base64Pad (encode l) =
    let n := Z.of_nat (length l) in if decide (n mod 3 = 0) then -1 else n / 3 * 4 + n mod 3 + 1.
Proof.
  induction l as [|a|a b|a b c l IH] using three_ind; try done.
  - intros (Ha & _)%Forall_cons. by rewrite pad_of_one.
  - intros (Ha & (Hb & _)%Forall_cons)%Forall_cons. by rewrite pad_of_two.
  - intros (Ha & (Hb & (Hc & Hl)%Forall_cons)%Forall_cons)%Forall_cons.
    rewrite encode_three, indexOf_app, IH by (try apply encode_three_chars; done).
    cbn [length encode app]. cbv zeta. repeat case_decide; Z.to_euclidean_division_equations; lia.
Qed.
Lemma resultLength_encode l : Forall is_byte l → resultLength (encode l) 0 = Z.of_nat (length l).
Proof.
  intros Hl. unfold resultLength. rewrite indexOf_pad, length_encode, Z.sub_0_r by done. cbv zeta.
  rewrite Z.shiftr_div_pow2 by lia. change (2 ^ 2) with 4.
  repeat case_decide; Z.to_euclidean_division_equations; lia.
Qed.

(** What is encoded decodes to itself: for bytes of any number, the text
    [encode] makes is decoded to an array of exactly these bytes, no bits left
    over, no hole and nothing behind them. *)
Theorem decode_encode l : Forall is_byte l → decode (encode l) 0 = Some (Some <$> l).
Proof.
  intros Hl. unfold decode. rewrite drop_0, decode_encoded by done. simpl.
  by rewrite resultLength_encode, Nat2Z.id, Nat.sub_diag, app_nil_r.
Qed.
Lemma decode_encode_witness : Forall is_byte [255; 0; 128; 7] ∧ decode (encode [255; 0; 128; 7]) 0 = Some (Some <$> [255; 0; 128; 7]).
Proof.
  split; [|apply decode_encode]; repeat constructor; by vm_compute.
Defined.

End Base64.
