(* ===== verification/Decoders.v ===== *)
(** * Decoders of the console's rectangles: static/js/novnc/core/decoders/

    raw.js, copyrect.js, rre.js and hextile.js.  A decoder reads a rectangle
    from the receive queue and draws it; when bytes are missing it returns
    [false] and is called again, with what it keeps, when more have come.
    [Buffer] is what the decoders use of the queue; its laws are proved of
    [Websock] and of plain lists of bytes. *)
From S2P Require Import Prelude Words Websock.

#[local] Open Scope list_scope.
#[local] Open Scope Z_scope.

Abbreviation bytes := (list Z).
Abbreviation len := Websock.len.

(** ** What a decoder uses of the receive queue *)
Class Buffer (W : Type) := {
  rQwait : Z → W → bool;
  rQpeek8 : W → Z;
  rQpeekBytes : Z → W → bytes;
  rQshift : nat → W → Z * W;          (* rQshift8, 16, 32: of 1, 2, 4 bytes *)
  rQshiftBytes : Z → W → bytes * W }.

(** a queue as the list of its bytes *)
#[export] Instance list_buffer : Buffer bytes := {|
  rQwait n q := bool_decide (len q < n);
  rQpeek8 q := default 0 (head q);
  rQpeekBytes n q := take (Z.to_nat n) q;
  rQshift n q := (Websock.be (take n q), drop n q);
  rQshiftBytes n q := (take (Z.to_nat n) q, drop (Z.to_nat n) q) |}.

(** [good w], [w] holding [q] and then [r]: what is read of [q] is the same, and
    what is left is [r] behind what is left of [q]. *)
Class BufferLaws (W : Type) `{Buffer W} := {
  holds : W → bytes → Prop;
  holds_bytes w q : holds w q → Forall Websock.byte q;
  wait_law w q r n : holds w (q ++ r) → n <= len q → rQwait n w = false;
  wait_more w q n : holds w q → len q < n → rQwait n w = true;
  peek8_law w b q : holds w (b :: q) → rQpeek8 w = b;
  peekBytes_law w q r n : holds w (q ++ r) → 0 <= n <= len q → rQpeekBytes n w = rQpeekBytes n q;
  shift_law w q r n : holds w (q ++ r) → (n <= 4)%nat → Z.of_nat n <= len q →
     ∃ w', rQshift n w = ((rQshift n q).1, w') ∧ holds w' ((rQshift n q).2 ++ r);
  shiftBytes_law w q r n : holds w (q ++ r) → 0 <= n <= len q →
     ∃ w', rQshiftBytes n w = ((rQshiftBytes n q).1, w') ∧ holds w' ((rQshiftBytes n q).2 ++ r) }.

Lemma len_app_ (q r : bytes) : len (q ++ r) = len q + len r.
Proof. apply Websock.len_app. Qed.
Lemma take_len (q r : bytes) n : 0 <= n <= len q → take (Z.to_nat n) (q ++ r) = take (Z.to_nat n) q.
Proof. unfold len, Websock.len. intros Hn. by rewrite take_app_le by lia. Qed.
Lemma drop_len (q r : bytes) n : 0 <= n <= len q → drop (Z.to_nat n) (q ++ r) = drop (Z.to_nat n) q ++ r.
Proof. unfold len, Websock.len. intros Hn. by rewrite drop_app_le by lia. Qed.

#[export] Instance list_laws : BufferLaws bytes.
Proof.
  refine {| holds := λ w q, w = q ∧ Forall Websock.byte q |}; simpl.
  - by intros w q [-> ?].
  - intros w q r n [-> _] Hn. apply bool_decide_eq_false. rewrite len_app_. pose proof (Websock.len_nonneg r). lia.
  - intros w q n [-> _] Hn. by apply bool_decide_eq_true.
  - by intros w b q [-> _].
  - intros w q r n [-> _] Hn. by apply take_len.
  - intros w q r n [-> Hb] _ Hn. unfold len, Websock.len in Hn. eexists. rewrite take_app_le, drop_app_le by lia.
    split_and!; [done..|]. rewrite <- drop_app_le by lia. by apply Forall_drop.
  - intros w q r n [-> Hb] Hn. eexists. rewrite take_len, drop_len by lia.
    split_and!; [done..|]. rewrite <- drop_len by lia. by apply Forall_drop.
Defined.

(** The buffered socket: [rQwait] without a goback does not throw. *)
#[export] Instance websock_buffer : Buffer Websock.websock := {|
  rQwait n w := match Websock.rQwait n 0 w with Some (b, _) => b | None => false end;
  rQpeek8 w := default 0 (Websock.rQpeek8 w);
  rQpeekBytes := Websock.rQpeekBytes;
  rQshift := Websock.rQshift;
  rQshiftBytes := Websock.rQshiftBytes |}.
#[export] Instance websock_laws : BufferLaws Websock.websock.
Proof.
  refine {| holds := λ w q, Websock.ok w ∧ Websock.unread w = q |}; simpl.
  - intros w q [Hok <-]. apply Websock.Forall_slice, Hok.
  - intros w q r n [Hok Hu] Hn. pose proof (Websock.unread_len w Hok) as Hl. rewrite Hu, len_app_ in Hl.
    pose proof (Websock.len_nonneg r). unfold Websock.rQwait, Websock.rQlen in *. by rewrite decide_False by lia.
  - intros w q n [Hok Hu] Hn. pose proof (Websock.unread_len w Hok) as Hl. rewrite Hu in Hl.
    unfold Websock.rQwait, Websock.rQlen in *. by rewrite decide_True by lia.
  - intros w b q [Hok Hu]. unfold Websock.rQpeek8. by destruct (Websock.unread_byte w b q Hok Hu) as (-> & _).
  - intros w q r n [Hok Hu] Hn. pose proof (Websock.unread_len w Hok) as Hl. rewrite Hu, len_app_ in Hl.
    pose proof (Websock.len_nonneg r). rewrite Websock.rQpeekBytes_spec, Hu by (done || lia). by apply take_len.
  - intros w q r n [Hok Hu] H4 Hn. pose proof (Websock.unread_len w Hok) as Hl. rewrite Hu, len_app_ in Hl.
    pose proof (Websock.len_nonneg r). rewrite Websock.rQshift_spec by (done || lia).
    destruct (Websock.skip_spec (Z.of_nat n) w Hok) as [Hok' Hu']; [lia|]. rewrite Hu, Nat2Z.id in *.
    unfold len, Websock.len in *. rewrite take_app_le by lia. eexists. split; [done|]. split; [done|].
    rewrite Hu'. by rewrite drop_app_le by lia.
  - intros w q r n [Hok Hu] Hn. pose proof (Websock.unread_len w Hok) as Hl. rewrite Hu, len_app_ in Hl.
    pose proof (Websock.len_nonneg r). rewrite Websock.rQshiftBytes_spec by (done || lia).
    destruct (Websock.skip_spec n w Hok) as [Hok' Hu']; [lia|]. eexists. rewrite Hu in *. rewrite take_len by lia.
    split; [done|]. split; [done|]. rewrite Hu'. by apply drop_len.
Defined.

Module Decoders.
(** What is drawn; a color and a block are bytes, four to a pixel. *)
Inductive drawing :=
  | FillRect (x y w h : Z) (color : bytes)
  | BlitImage (x y w h : Z) (data : bytes)
  | CopyImage (deltaX deltaY x y w h : Z)
  | ImageRect (x y w h : Z) (jpeg : bool) (data : bytes).   (* else a PNG image *)
(** A line, a subrectangle or a tile: it waits for its bytes, or throws, or is
    read whole. *)
Inductive outcome (S W : Type) := Waits | Throws | Steps (s : S) (w : W) (ds : list drawing).
Arguments Waits {S W}. Arguments Throws {S W}. Arguments Steps {S W}.
(** [decodeRect]: done, to be called again, or thrown; what the decoder keeps,
    the queue, what was drawn *)
Inductive verdict := Done | Again | Thrown.
Definition result (S W : Type) : Type := verdict * S * W * list drawing.
Definition behind {S W} (ds : list drawing) (r : result S W) : result S W :=
  let '(v, s, w, ds') := r in (v, s, w, ds ++ ds').

(** the decoders' [while] loops; [n]: what is left to read *)
Fixpoint loop {S W} (unit : S → W → outcome S W) (n : nat) (s : S) (w : W) : result S W :=
  match n with
  | 0%nat => (Done, s, w, [])
  | S n => match unit s w with
           | Waits => (Again, s, w, [])
           | Throws => (Thrown, s, w, [])
           | Steps s w ds => behind ds (loop unit n s w)
           end
  end.

Section decoders.
Context {W : Type} `{Buffer W}.

(** ** raw.js: line by line *)
Section raw.
Variables x y width height depth : Z.
(** three colours of two bits each *)
Definition pixel8 (d : Z) : bytes :=
  [Z.land (Z.shiftr d 0) 3 * 255 / 3; Z.land (Z.shiftr d 2) 3 * 255 / 3; Z.land (Z.shiftr d 4) 3 * 255 / 3; 255].
Definition opaque_pixels (n : Z) (data : bytes) : bytes :=
  fold_left (λ d i, <[(i * 4 + 3)%nat := 255]> d) (List.seq 0 (Z.to_nat n)) data.
Definition raw_line (lines : Z) (w : W) : outcome Z W :=
  let bytesPerLine := width * (if depth =? 8 then 1 else 4) in
  if rQwait bytesPerLine w then Waits
  else
    let curY := y + (height - lines) in
    let '(data, w) := rQshiftBytes bytesPerLine w in
    let data := if depth =? 8 then data ≫= pixel8 else data in
    Steps (lines - 1) w [BlitImage x curY width 1 (opaque_pixels width data)].
Definition raw_decodeRect (lines : Z) (w : W) : result Z W :=
  if (width =? 0) || (height =? 0) then (Done, lines, w, [])
  else let lines := if lines =? 0 then height else lines in loop raw_line (Z.to_nat lines) lines w.
End raw.

(** ** copyrect.js *)
Definition copyrect_decodeRect (x y width height : Z) (w : W) : result unit W :=
  if rQwait 4 w then (Again, tt, w, [])
  else
    let '(deltaX, w) := rQshift 2 w in
    let '(deltaY, w) := rQshift 2 w in
    (Done, tt, w, if (width =? 0) || (height =? 0) then [] else [CopyImage deltaX deltaY x y width height]).

(** ** rre.js: a background and subrectangles *)
Section rre.
Variables x y width height : Z.
Definition rre_subrect (subrects : Z) (w : W) : outcome Z W :=
  if rQwait (4 + 8) w then Waits
  else
    let '(color, w) := rQshiftBytes 4 w in
    let '(sx, w) := rQshift 2 w in
    let '(sy, w) := rQshift 2 w in
    let '(swidth, w) := rQshift 2 w in
    let '(sheight, w) := rQshift 2 w in
    Steps (subrects - 1) w [FillRect (x + sx) (y + sy) swidth sheight color].
Definition rre_decodeRect (subrects : Z) (w : W) : result Z W :=
  if subrects =? 0 then
    if rQwait (4 + 4) w then (Again, subrects, w, [])
    else
      let '(subrects, w) := rQshift 4 w in
      let '(color, w) := rQshiftBytes 4 w in
      behind [FillRect x y width height color] (loop rre_subrect (Z.to_nat subrects) subrects w)
  else loop rre_subrect (Z.to_nat subrects) subrects w.
End rre.

(** ** hextile.js: tiles of 16 by 16 *)
Record hextile := Hextile {
  tiles : Z;               (* left *)
  tilesX : Z; totalTiles : Z;
  lastsubencoding : Z;
  background : option bytes; foreground : option bytes;
  tileBuffer : bytes }.
Definition hextile_start : hextile := Hextile 0 0 0 0 None None (replicate (16 * 16 * 4) 0).

(** four bytes from [p]; what is out of the buffer is ignored *)
Definition put_pixel (p : Z) (color : bytes) (data : bytes) : bytes :=
  let c k := nth k color 0 in
  <[Z.to_nat (p + 3) := 255]> (<[Z.to_nat (p + 2) := c 2%nat]> (<[Z.to_nat (p + 1) := c 1%nat]> (<[Z.to_nat p := c 0%nat]> data))).
Definition startTile (width height : Z) (color : bytes) (data : bytes) : bytes :=
  fold_left (λ d i, put_pixel (Z.of_nat i * 4) color d) (List.seq 0 (Z.to_nat (width * height))) data.
Definition subTile (tileW x y w h : Z) (color : bytes) (data : bytes) : bytes :=
  fold_left (λ d j, fold_left (λ d i, put_pixel ((Z.of_nat i + Z.of_nat j * tileW) * 4) color d)
                      (List.seq (Z.to_nat x) (Z.to_nat w)) d)
    (List.seq (Z.to_nat y) (Z.to_nat h)) data.

(** the subrectangles of a tile; none: a TypeError, as no foreground is set *)
Fixpoint hex_subrects (n : nat) (coloured : bool) (tileW : Z) (fg : option bytes) (data : bytes) (w : W) : option (bytes * W) :=
  match n with
  | 0%nat => Some (data, w)
  | S n =>
    let '(color, w) := if coloured then let '(c, w) := rQshiftBytes 4 w in (Some c, w) else (fg, w) in
    let '(xy, w) := rQshift 1 w in
    let sx := Z.shiftr xy 4 in let sy := Z.land xy 15 in
    let '(wh, w) := rQshift 1 w in
    let sw := Z.shiftr wh 4 + 1 in let sh := Z.land wh 15 + 1 in
    match color with
    | Some color => hex_subrects n coloured tileW fg (subTile tileW sx sy sw sh color data) w
    | None => None
    end
  end.

Section hextile.
Variables x y width height : Z.
Definition bit (subencoding k : Z) : bool := negb (Z.land subencoding k =? 0).
(** a tile's place and size: [tx], [ty], [tw], [th] *)
Definition tile_of (tilesX currTile : Z) : Z * Z * Z * Z :=
  let tx := x + currTile mod tilesX * 16 in
  let ty := y + currTile / tilesX * 16 in
  (tx, ty, Z.min 16 (x + width - tx), Z.min 16 (y + height - ty)).
(** how many bytes the tile has; none: they cannot be told yet *)
Definition tile_bytes (subencoding tw th : Z) (w : W) : option Z :=
  if bit subencoding 1 then Some (1 + tw * th * 4)
  else
    let b := 1 + (if bit subencoding 2 then 4 else 0) + (if bit subencoding 4 then 4 else 0) in
    if bit subencoding 8 then
      let b := b + 1 in
      if rQwait b w then None
      else let subrects := default 0 (last (rQpeekBytes b w)) in
           Some (b + subrects * (if bit subencoding 16 then 4 + 2 else 2))
    else Some b.
(** the tile, read: what is kept, the queue, what is drawn; none: it throws (a
    blank tile before any background: at once here; in the source the drawing
    throws, so later when drawings before it wait for an image) *)
Definition tile_read (subencoding tx ty tw th : Z) (s : hextile) (w : W) : option (hextile * W * list drawing) :=
  let after bg fg buf := Hextile (tiles s - 1) (tilesX s) (totalTiles s) subencoding bg fg buf in
  let '(_, w) := rQshift 1 w in
  if subencoding =? 0 then
    if bit (lastsubencoding s) 1 then Some (after (background s) (foreground s) (tileBuffer s), w, [])
    else match background s with
         | Some c => Some (after (background s) (foreground s) (tileBuffer s), w, [FillRect tx ty tw th c])
         | None => None
         end
  else if bit subencoding 1 then
    let '(data, w) := rQshiftBytes (tw * th * 4) w in
    Some (after (background s) (foreground s) (tileBuffer s), w, [BlitImage tx ty tw th (opaque_pixels (tw * th) data)])
  else
    let '(bg, w) := if bit subencoding 2 then let '(c, w) := rQshiftBytes 4 w in (Some c, w) else (background s, w) in
    let '(fg, w) := if bit subencoding 4 then let '(c, w) := rQshiftBytes 4 w in (Some c, w) else (foreground s, w) in
    match bg with
    | None => None
    | Some color =>
      let buf := startTile tw th color (tileBuffer s) in
      match (if bit subencoding 8 then
               let '(subrects, w) := rQshift 1 w in
               hex_subrects (Z.to_nat subrects) (bit subencoding 16) tw fg buf w
             else Some (buf, w)) with
      | Some (buf, w) => Some (after bg fg buf, w, [BlitImage tx ty tw th (take (Z.to_nat (tw * th * 4)) buf)])
      | None => None
      end
    end.
Definition hextile_tile (s : hextile) (w : W) : outcome hextile W :=
  if rQwait 1 w then Waits
  else
    let subencoding := rQpeek8 w in
    if 30 <? subencoding then Throws
    else
      let '(tx, ty, tw, th) := tile_of (tilesX s) (totalTiles s - tiles s) in
      match tile_bytes subencoding tw th w with
      | None => Waits
      | Some b =>
        if rQwait b w then Waits
        else match tile_read subencoding tx ty tw th s w with
             | Some (s, w, ds) => Steps s w ds
             | None => Throws
             end
      end.
(** [Math.ceil(n / 16)] *)
Definition ceil16 (n : Z) : Z := (n + 15) / 16.
Definition hextile_setup (s : hextile) : hextile :=
  if tiles s =? 0 then
    let total := ceil16 width * ceil16 height in
    Hextile total (ceil16 width) total (lastsubencoding s) (background s) (foreground s) (tileBuffer s)
  else s.
Definition hextile_decodeRect (s : hextile) (w : W) : result hextile W :=
  let s := hextile_setup s in loop hextile_tile (Z.to_nat (tiles s)) s w.
End hextile.

(** ** rfb.js: the rectangle's decoder; what throws ends the connection *)
Inductive encoding := Raw | CopyRect | RRE | HextileEncoding.
Record rect := Rect { r_x : Z; r_y : Z; r_width : Z; r_height : Z }.
Record decoders := Decoders_ { d_raw : Z; d_rre : Z; d_hextile : hextile }.
Definition decoders_start : decoders := Decoders_ 0 0 hextile_start.
Definition with_state {S T} (f : S → T) (o : result S W) : result T W := let '(v, s, w, ds) := o in (v, f s, w, ds).
Definition handleDataRect (e : encoding) (r : rect) (depth : Z) (d : decoders) (w : W) : result decoders W :=
  match e with
  | Raw => with_state (λ n, Decoders_ n (d_rre d) (d_hextile d)) (raw_decodeRect (r_x r) (r_y r) (r_width r) (r_height r) depth (d_raw d) w)
  | CopyRect => with_state (λ _, d) (copyrect_decodeRect (r_x r) (r_y r) (r_width r) (r_height r) w)
  | RRE => with_state (λ n, Decoders_ (d_raw d) n (d_hextile d)) (rre_decodeRect (r_x r) (r_y r) (r_width r) (r_height r) (d_rre d) w)
  | HextileEncoding =>
    with_state (λ s, Decoders_ (d_raw d) (d_rre d) s) (hextile_decodeRect (r_x r) (r_y r) (r_width r) (r_height r) (d_hextile d) w)
  end.
End decoders.

(** ** A rectangle read in pieces

    A decoder on the bytes [q] that have come, and on a queue that holds [q] and
    then [r]: it does the same with [q], and goes on with [r]. *)
#[local] Ltac bounds := unfold len, Websock.len in *; rewrite ?length_drop; lia.
Section follows.
Context {W : Type} `{BufferLaws W}.
Definition unit_follows {S} (r : bytes) (l : outcome S bytes) (o : outcome S W) : Prop :=
  match l with
  | Steps s q ds => ∃ w, o = Steps s w ds ∧ holds w (q ++ r)
  | Throws => o = Throws
  | Waits => r = [] → o = Waits
  end.
Definition follows {S} (again : S → W → result S W) (r : bytes) (l : result S bytes) (o : result S W) : Prop :=
  match l with
  | (Done, s, q, ds) => ∃ w, o = (Done, s, w, ds) ∧ holds w (q ++ r)
  | (Thrown, s, _, ds) => ∃ w, o = (Thrown, s, w, ds)
  | (Again, s, q, ds) => ∃ w, o = behind ds (again s w) ∧ holds w (q ++ r) ∧ (r = [] → o = (Again, s, w, ds))
  end.

Lemma behind_behind {S} ds1 ds2 (o : result S W) : behind ds1 (behind ds2 o) = behind (ds1 ++ ds2) o.
Proof. destruct o as [[[v s] w] ds]. simpl. by rewrite app_assoc. Qed.
Lemma follows_behind {S} again r ds (l : result S bytes) (o : result S W) :
  follows again r l o → follows again r (behind ds l) (behind ds o).
Proof.
  destruct l as [[[[] s] q] ds0]; simpl.
  - intros (w & -> & Hw). by exists w.
  - intros (w & -> & Hw & Hr). exists w. split_and!; [by rewrite behind_behind|done|]. intros Hz. by rewrite (Hr Hz).
  - intros (w & ->). by exists w.
Qed.

(** a loop whose steps follow, each leaving one less *)
Lemma loop_follows {S} (I : S → Prop) (left : S → nat) (ul : S → bytes → outcome S bytes) (uw : S → W → outcome S W) r :
  (∀ s q w, I s → left s ≠ 0%nat → holds w (q ++ r) → unit_follows r (ul s q) (uw s w)) →
  (∀ s w s' w' ds, I s → left s ≠ 0%nat → uw s w = Steps s' w' ds → I s' ∧ left s' = pred (left s)) →
  ∀ s q w, I s → holds w (q ++ r) →
    follows (λ s w, loop uw (left s) s w) r (loop ul (left s) s q) (loop uw (left s) s w)
    ∧ match (loop ul (left s) s q).1.1 with (Again, s') => left s' ≠ 0%nat ∧ I s' | (_, s') => I s' end.
Proof.
  intros Hu Hl s q w. remember (left s) as n eqn:Hn. revert s q w Hn. induction n as [|n IH]; intros s q w Hn Hi Hw; simpl.
  { split; [by exists w|done]. }
  pose proof (Hu s q w Hi ltac:(lia) Hw) as Hs. destruct (ul s q) as [| |s' q' ds] eqn:E; simpl in Hs.
  - simpl. split; [|split; [lia|done]]. exists w. rewrite <- Hn. split_and!; [|done|intros Hr; by rewrite (Hs Hr)].
    simpl. destruct (uw s w) as [| |s' w' ds']; [done|done|]. by destruct (loop uw n s' w') as [[[? ?] ?] ?].
  - rewrite Hs. split; [by exists w|done].
  - destruct Hs as (w' & Hw' & Hh). rewrite Hw'. destruct (Hl _ _ _ _ _ Hi ltac:(lia) Hw') as [Hi' Hl'].
    destruct (IH s' q' w' ltac:(lia) Hi' Hh) as [H1 H2]. split; [by apply follows_behind|].
    by destruct (loop ul n s' q') as [[[v s2] q2] ds2].
Qed.

(** ** The steps of the decoders follow *)
(** the next read of the queue *)
Ltac follow_read :=
  match goal with
  | Hh : holds ?w (?q ++ ?r) |- context [rQshift ?n ?w] =>
    let w' := fresh "w" in let E := fresh "E" in let Hh' := fresh "Hh" in
    destruct (shift_law w q r n Hh) as (w' & E & Hh'); [lia|bounds|]; rewrite E; clear E Hh; cbn [rQshift list_buffer fst snd] in Hh' |- *
  | Hh : holds ?w (?q ++ ?r) |- context [rQshiftBytes ?n ?w] =>
    let w' := fresh "w" in let E := fresh "E" in let Hh' := fresh "Hh" in
    destruct (shiftBytes_law w q r n Hh) as (w' & E & Hh'); [bounds|]; rewrite E; clear E Hh; cbn [rQshiftBytes list_buffer fst snd] in Hh' |- *
  end.
(** the wait for bytes, on both queues *)
Lemma wait_follows w q r n :
  holds w (q ++ r) →
  (rQwait n q = true ∧ (r = [] → rQwait n w = true)) ∨ (rQwait n q = false ∧ n <= len q ∧ rQwait n w = false).
Proof.
  intros Hw. simpl. case_bool_decide as Hn.
  - left. split; [done|]. intros ->. rewrite app_nil_r in Hw. by eapply wait_more.
  - right. split; [done|]. split; [lia|]. eapply wait_law; [done|lia].
Qed.

Lemma raw_line_follows x y width height depth r lines q w :
  0 <= width → holds w (q ++ r) →
  unit_follows r (raw_line x y width height depth lines q) (raw_line x y width height depth lines w).
Proof.
  intros Hwd Hw. unfold raw_line. set (n := width * (if depth =? 8 then 1 else 4)).
  assert (0 <= n) by (unfold n; destruct (depth =? 8); lia). clearbody n.
  destruct (wait_follows w q r n Hw) as [[-> Hr]|(-> & Hn & ->)]; [intros Hz; by rewrite (Hr Hz)|].
  cbn [rQshiftBytes list_buffer]. follow_read. eexists. split; [done|done].
Qed.
Lemma rre_subrect_follows x y r subrects q w :
  holds w (q ++ r) → unit_follows r (rre_subrect x y subrects q) (rre_subrect x y subrects w).
Proof.
  intros Hw. unfold rre_subrect.
  destruct (wait_follows w q r (4 + 8) Hw) as [[-> Hr]|(-> & Hn & ->)]; [intros Hz; by rewrite (Hr Hz)|].
  cbn [rQshiftBytes rQshift list_buffer]. do 5 follow_read. eexists. split; [done|done].
Qed.
Lemma copyrect_follows x y width height r q w :
  holds w (q ++ r) →
  follows (λ _, copyrect_decodeRect x y width height) r (copyrect_decodeRect x y width height q) (copyrect_decodeRect x y width height w).
Proof.
  intros Hw. unfold copyrect_decodeRect at 2 3.
  destruct (wait_follows w q r 4 Hw) as [[-> Hr]|(-> & Hn & E)].
  - exists w. split_and!; [|done|].
    + fold (copyrect_decodeRect x y width height w). by destruct (copyrect_decodeRect x y width height w) as [[[? []] ?] ?].
    + intros Hz. by rewrite (Hr Hz).
  - rewrite E. cbn [rQshift list_buffer]. do 2 follow_read. by eexists.
Qed.

(** hextile *)
Lemma be_one (q : bytes) k : 0 <= k < len q → Websock.be (take 1 (drop (Z.to_nat k) q)) = default 0 (last (take (Z.to_nat (k + 1)) q)).
Proof.
  intros Hk. unfold len, Websock.len in Hk. destruct (lookup_lt_is_Some_2 q (Z.to_nat k)) as [b Hb]; [lia|].
  rewrite (drop_S _ _ _ Hb). cbn [take Websock.be]. replace (Z.to_nat (k + 1)) with (S (Z.to_nat k)) by lia.
  rewrite (take_S_r _ _ _ Hb), last_snoc. simpl default.
  destruct (drop (S (Z.to_nat k)) q); simpl; replace (2 ^ (8 * Websock.len [])) with 1 by done; lia.
Qed.
Lemma hex_subrects_follows n (coloured : bool) tw fg (r : bytes) data (q : bytes) (w : W) :
  holds w (q ++ r) → Z.of_nat n * (if coloured then 6 else 2) <= len q →
  match hex_subrects n coloured tw fg data q with
  | Some (d, q') => ∃ w', hex_subrects n coloured tw fg data w = Some (d, w') ∧ holds w' (q' ++ r)
  | None => hex_subrects n coloured tw fg data w = None
  end.
Proof.
  revert data q w. induction n as [|n IH]; intros data q w Hw Hn; cbn [hex_subrects]; [by exists w|].
  destruct coloured; cbn [rQshiftBytes rQshift list_buffer].
  - do 3 follow_read. apply IH; [done|bounds].
  - do 2 follow_read. destruct fg; [|done]. apply IH; [done|bounds].
Qed.
Lemma tile_bytes_follows sub tw th (r q : bytes) (w : W) :
  holds w (q ++ r) →
  match tile_bytes sub tw th q with
  | Some b => tile_bytes sub tw th w = Some b
  | None => r = [] → tile_bytes sub tw th w = None
  end.
Proof.
  intros Hw. unfold tile_bytes. destruct (bit sub 1); [done|]. destruct (bit sub 8); [|done].
  set (b := 1 + _ + _ + 1).
  destruct (wait_follows w q r b Hw) as [[-> Hr]|(-> & Hn & ->)]; [intros Hz; by rewrite (Hr Hz)|].
  rewrite (peekBytes_law w q r b Hw); [done|]. split; [unfold b; destruct (bit sub 2), (bit sub 4); lia|done].
Qed.
Lemma tile_read_follows sub tx ty tw th b s (r q : bytes) (w : W) :
  tile_bytes sub tw th q = Some b → b <= len q → 0 <= tw * th → holds w (q ++ r) →
  match tile_read sub tx ty tw th s q with
  | Some (s', q', ds) => ∃ w', tile_read sub tx ty tw th s w = Some (s', w', ds) ∧ holds w' (q' ++ r)
  | None => tile_read sub tx ty tw th s w = None
  end.
Proof.
  intros Hb Hq Ht Hw. unfold tile_bytes in Hb. unfold tile_read.
  assert (1 <= len q) as H1.
  { destruct (bit sub 1); [injection Hb as <-; lia|]. destruct (bit sub 8); [|injection Hb as <-; destruct (bit sub 2), (bit sub 4); lia].
    destruct (rQwait _ q) eqn:Ew; [done|]. simpl in Ew. apply bool_decide_eq_false in Ew. destruct (bit sub 2), (bit sub 4); lia. }
  cbn [rQshift list_buffer]. follow_read. destruct (sub =? 0).
  { destruct (bit (lastsubencoding s) 1); [by eexists|]. destruct (background s); [by eexists|done]. }
  destruct (bit sub 1).
  { injection Hb as <-. cbn [rQshiftBytes list_buffer]. follow_read. by eexists. }
  cbn [rQshiftBytes rQshift rQwait rQpeekBytes list_buffer] in Hb |- *.
  set (k := 1 + (if bit sub 2 then 4 else 0) + (if bit sub 4 then 4 else 0)) in *.
  assert (∀ q1 w1 bg fg, holds w1 (q1 ++ r) → q1 = drop (Z.to_nat k) q →
    match (if bit sub 8 then
             let '(n, q2) := (Websock.be (take 1 q1), drop 1 q1) in
             hex_subrects (Z.to_nat n) (bit sub 16) tw fg (startTile tw th bg (tileBuffer s)) q2
           else Some (startTile tw th bg (tileBuffer s), q1)) with
    | Some (d, q2) => ∃ w2, (if bit sub 8 then
             let '(n, w2) := rQshift 1 w1 in
             hex_subrects (Z.to_nat n) (bit sub 16) tw fg (startTile tw th bg (tileBuffer s)) w2
           else Some (startTile tw th bg (tileBuffer s), w1)) = Some (d, w2) ∧ holds w2 (q2 ++ r)
    | None => (if bit sub 8 then
             let '(n, w2) := rQshift 1 w1 in
             hex_subrects (Z.to_nat n) (bit sub 16) tw fg (startTile tw th bg (tileBuffer s)) w2
           else Some (startTile tw th bg (tileBuffer s), w1)) = None
    end) as Hsub.
  { intros q1 w1 bg fg Hw1 ->. destruct (bit sub 8); [|by eexists]. case_bool_decide as Hk; [done|]. injection Hb as <-.
    assert (0 <= k) by (unfold k; destruct (bit sub 2), (bit sub 4); lia).
    assert (0 <= Websock.be (take 1 (drop (Z.to_nat k) q))) as Hn.
    { apply Websock.be_range, Forall_take. apply holds_bytes in Hw1. by apply Forall_app in Hw1 as [? _]. }
    rewrite <- be_one in Hq by bounds. set (n := Websock.be _) in *. follow_read. apply hex_subrects_follows; [done|].
    destruct (bit sub 16); bounds. }
  assert (k <= len q) as Hk by (destruct (bit sub 8); [case_bool_decide; [done|]; lia|by injection Hb as <-]).
  assert (∀ a b, drop a (drop b q) = drop (b + a)%nat q) as Hdd by (intros; apply drop_drop).
  clear Hb. destruct (bit sub 2), (bit sub 4); subst k;
    [do 2 follow_read| follow_read |follow_read; destruct (background s); [|done]|destruct (background s); [|done]];
    (match goal with Hh : holds ?w1 (?q1 ++ _) |- context [hex_subrects _ _ _ ?fg (startTile _ _ ?bg _) (drop 1 ?q1)] =>
       specialize (Hsub q1 w1 bg fg Hh ltac:(rewrite ?Hdd; done)) end);
    (destruct (bit sub 8); [|by eexists]); cbn [rQshift list_buffer] in *;
    (match type of Hsub with match ?x with _ => _ end => destruct x as [[d q2]|] eqn:Ex end;
     [destruct Hsub as (w' & Hsub & Hw2); eexists; rewrite Hsub; done|by rewrite Hsub]).
Qed.

(** ** The tiles of a rectangle *)
Section tiles.
Variables x y width height : Z.
(** a decoder in the middle of the rectangle *)
Definition hex_ok (s : hextile) : Prop :=
  tilesX s = ceil16 width ∧ totalTiles s = ceil16 width * ceil16 height ∧ 0 <= tiles s <= totalTiles s.
Lemma ceil16_spec n : 16 * (ceil16 n - 1) < n <= 16 * ceil16 n.
Proof. unfold ceil16. Z.to_euclidean_division_equations. lia. Qed.
(** a tile is in the rectangle and has pixels *)
Lemma tile_inside t tx ty tw th :
  0 <= width → 0 <= height → 0 <= t < ceil16 width * ceil16 height →
  tile_of x y width height (ceil16 width) t = (tx, ty, tw, th) →
  x <= tx ∧ y <= ty ∧ 1 <= tw <= 16 ∧ 1 <= th <= 16 ∧ tx + tw <= x + width ∧ ty + th <= y + height.
Proof.
  intros Hw Hh Ht [= <- <- <- <-]. pose proof (ceil16_spec width). pose proof (ceil16_spec height).
  assert (0 < ceil16 width) by (assert (0 <= ceil16 width) by (unfold ceil16; Z.to_euclidean_division_equations; lia); nia).
  pose proof (Z.mod_pos_bound t (ceil16 width) ltac:(lia)).
  assert (0 <= t / ceil16 width < ceil16 height) by (split; [apply Z.div_pos; lia|apply Z.div_lt_upper_bound; lia]).
  lia.
Qed.
(** every pixel of the rectangle is in exactly one tile *)
Lemma tiles_cover i j :
  x <= i < x + width → y <= j < y + height →
  let covers t := match tile_of x y width height (ceil16 width) t with (tx, ty, tw, th) => tx <= i < tx + tw ∧ ty <= j < ty + th end in
  ∃ t, (0 <= t < ceil16 width * ceil16 height ∧ covers t)
    ∧ ∀ t', 0 <= t' < ceil16 width * ceil16 height → covers t' → t' = t.
Proof.
  intros Hi Hj covers. pose proof (ceil16_spec width). pose proof (ceil16_spec height).
  set (a := (i - x) / 16). set (b := (j - y) / 16).
  assert (16 * a <= i - x < 16 * a + 16) as Ha by (unfold a; Z.to_euclidean_division_equations; lia).
  assert (16 * b <= j - y < 16 * b + 16) as Hb by (unfold b; Z.to_euclidean_division_equations; lia).
  clearbody a b. assert (0 <= a < ceil16 width) as Ha' by lia. assert (0 <= b < ceil16 height) as Hb' by lia.
  exists (b * ceil16 width + a). unfold covers, tile_of. clear covers. split; [split; [nia|]|].
  - rewrite Z.div_add_l, Z.div_small, Z.add_0_r by lia.
    rewrite (Z.add_comm (b * _)), Z.mod_add, Z.mod_small by lia. lia.
  - intros t Ht [Hx Hy]. pose proof (Z.mod_pos_bound t (ceil16 width) ltac:(lia)). 
    pose proof (Z.div_mod t (ceil16 width) ltac:(lia)) as Hd.
    assert (t mod ceil16 width = a) as Hm by lia. assert (t / ceil16 width = b) as Hq by lia. rewrite Hm, Hq in Hd. lia.
Qed.

Lemma hextile_tile_follows r s (q : bytes) (w : W) :
  0 <= width → 0 <= height → hex_ok s → Z.to_nat (tiles s) ≠ 0%nat → holds w (q ++ r) →
  unit_follows r (hextile_tile x y width height s q) (hextile_tile x y width height s w).
Proof.
  intros Hwd Hht (HX & HT & Hn) Hz Hw. unfold hextile_tile.
  destruct (wait_follows w q r 1 Hw) as [[-> Hr]|(-> & H1 & ->)]; [intros Hz'; by rewrite (Hr Hz')|].
  destruct q as [|b q]; [by destruct H1|]. rewrite (peek8_law w b (q ++ r) Hw). cbn [rQpeek8 list_buffer head default from_option id].
  destruct (30 <? b); [done|]. destruct (tile_of x y width height (tilesX s) (totalTiles s - tiles s)) as [[[tx ty] tw] th] eqn:Et.
  rewrite HX in Et. apply tile_inside in Et as (_ & _ & Htw & Hth & _); [|lia..].
  pose proof (tile_bytes_follows b tw th r (b :: q) w Hw) as Hb. destruct (tile_bytes b tw th (b :: q)) as [n|] eqn:En.
  - rewrite Hb. destruct (wait_follows w (b :: q) r n Hw) as [[-> Hr]|(-> & Hl & ->)]; [intros Hz'; by rewrite (Hr Hz')|].
    pose proof (tile_read_follows b tx ty tw th n s r (b :: q) w En Hl ltac:(nia) Hw) as Ht.
    destruct (tile_read b tx ty tw th s (b :: q)) as [[[s' q'] ds]|]; [|by rewrite Ht].
    destruct Ht as (w' & -> & Hw'). by exists w'.
  - intros Hz'. by rewrite (Hb Hz').
Qed.
Lemma tile_read_left {V} `{Buffer V} sub tx ty tw th s (w : V) s' w' ds :
  tile_read sub tx ty tw th s w = Some (s', w', ds) →
  tiles s' = tiles s - 1 ∧ tilesX s' = tilesX s ∧ totalTiles s' = totalTiles s.
Proof. unfold tile_read. intros Ht. by repeat (case_match; simplify_eq/=). Qed.
Lemma hextile_tile_left {V} `{Buffer V} s (w : V) s' w' ds :
  hex_ok s → Z.to_nat (tiles s) ≠ 0%nat → hextile_tile x y width height s w = Steps s' w' ds →
  hex_ok s' ∧ Z.to_nat (tiles s') = pred (Z.to_nat (tiles s)).
Proof.
  intros (HX & HT & Hn) Hz. unfold hextile_tile. intros Ht. repeat (case_match; simplify_eq/=).
  match goal with Hr : tile_read _ _ _ _ _ _ _ = Some _ |- _ => apply tile_read_left in Hr as (E1 & E2 & E3) end.
  unfold hex_ok. rewrite E1, E2, E3. lia.
Qed.
End tiles.

(** ** The decoders follow *)
Lemma follows_again {S} (a1 a2 : S → W → result S W) r (l : result S bytes) (o : result S W) :
  follows a1 r l o → match l.1.1 with (Again, s) => ∀ w, a1 s w = a2 s w | _ => True end → follows a2 r l o.
Proof. destruct l as [[[[] s] q] ds]; simpl; [done| |done]. intros (w & -> & Hw & Hr) Ha. exists w. rewrite <- Ha. auto. Qed.
Lemma follows_state {S T} (f : S → T) (a : S → W → result S W) (a' : T → W → result T W) r (l : result S bytes) (o : result S W) :
  (∀ s w, a' (f s) w = with_state f (a s w)) → follows a r l o → follows a' r (with_state f l) (with_state f o).
Proof.
  intros Ha. destruct l as [[[[] s] q] ds]; simpl.
  - intros (w & -> & Hw). by exists w.
  - intros (w & -> & Hw & Hr). exists w. rewrite Ha. split_and!; [|done|].
    + by destruct (a s w) as [[[? ?] ?] ?].
    + intros Hz. by rewrite (Hr Hz).
  - intros (w & ->). by exists w.
Qed.
(** what a decoder keeps between two calls; at the end of a rectangle nothing *)
Definition kept {S} (ok : S → Prop) (idle : S → Prop) (l : result S bytes) : Prop :=
  match l.1.1 with (Done, s) => idle s | (Again, s) => ok s | _ => True end.
Lemma kept_behind {S} (ok idle : S → Prop) ds l : kept ok idle (behind ds l) ↔ kept ok idle l.
Proof. by destruct l as [[[[] s] q] ds0]. Qed.
Lemma loop_done {S} (left : S → nat) (I : S → Prop) (ul : S → bytes → outcome S bytes) :
  (∀ s w s' w' ds, I s → left s ≠ 0%nat → ul s w = Steps s' w' ds → I s' ∧ left s' = pred (left s)) →
  ∀ s q, I s → match (loop ul (left s) s q).1.1 with (Done, s') => I s' ∧ left s' = 0%nat | _ => True end.
Proof.
  intros Hl s q. remember (left s) as n eqn:Hn. revert s q Hn. induction n as [|n IH]; intros s q Hn Hi; simpl; [done|].
  destruct (ul s q) as [| |s' q' ds] eqn:E; [done|done|]. destruct (Hl _ _ _ _ _ Hi ltac:(lia) E) as [Hi' Hl'].
  specialize (IH s' q' ltac:(lia) Hi'). by destruct (loop ul n s' q') as [[[[] ?] ?] ?].
Qed.

(** no rectangle is half read *)
Definition idle (d : decoders) : Prop := d_raw d = 0 ∧ d_rre d = 0 ∧ tiles (d_hextile d) = 0.
(** only the decoder of [e] may be in a rectangle, [r] *)
Definition valid (e : encoding) (r : rect) (d : decoders) : Prop :=
  match e with
  | Raw => (0 <= d_raw d ∧ (d_raw d ≠ 0 → r_width r ≠ 0 ∧ r_height r ≠ 0)) ∧ d_rre d = 0 ∧ tiles (d_hextile d) = 0
  | CopyRect => idle d
  | RRE => d_raw d = 0 ∧ 0 <= d_rre d ∧ tiles (d_hextile d) = 0
  | HextileEncoding => d_raw d = 0 ∧ d_rre d = 0 ∧ (tiles (d_hextile d) = 0 ∨ hex_ok (r_width r) (r_height r) (d_hextile d))
  end.
Lemma idle_valid e r d : idle d → valid e r d.
Proof. intros (H1 & H2 & H3). destruct e; unfold valid, idle; rewrite ?H1, ?H2, ?H3; naive_solver lia. Qed.

Lemma raw_left x y width height depth {V} `{Buffer V} s (w : V) s' w' ds :
  0 <= s → Z.to_nat s ≠ 0%nat → raw_line x y width height depth s w = Steps s' w' ds → 0 <= s' ∧ Z.to_nat s' = pred (Z.to_nat s).
Proof. unfold raw_line. intros Hs Hz Hr. repeat (case_match; simplify_eq/=); lia. Qed.
Lemma rre_left x y {V} `{Buffer V} s (w : V) s' w' ds :
  0 <= s → Z.to_nat s ≠ 0%nat → rre_subrect x y s w = Steps s' w' ds → 0 <= s' ∧ Z.to_nat s' = pred (Z.to_nat s).
Proof. unfold rre_subrect. intros Hs Hz Hr. repeat (case_match; simplify_eq/=); lia. Qed.

Lemma raw_follows x y width height depth r lines (q : bytes) (w : W) :
  0 <= width → 0 <= height → 0 <= lines → holds w (q ++ r) →
  follows (raw_decodeRect x y width height depth) r (raw_decodeRect x y width height depth lines q) (raw_decodeRect x y width height depth lines w)
  ∧ kept (λ n, 0 <= n ∧ width ≠ 0 ∧ height ≠ 0) (λ n, n = 0 ∨ n = lines ∧ (width = 0 ∨ height = 0)) (raw_decodeRect x y width height depth lines q).
Proof.
  intros Hwd Hht Hl Hw. unfold raw_decodeRect at 2 3 4.
  destruct ((width =? 0) || (height =? 0)) eqn:Ez; [split; [by eexists|right; split; [done|]; by apply orb_true_iff in Ez as [?%Z.eqb_eq|?%Z.eqb_eq]; auto]|].
  set (n := if lines =? 0 then height else lines). assert (0 <= n) as Hn by (unfold n; destruct (lines =? 0); lia).
  destruct (loop_follows (λ n, 0 <= n) Z.to_nat (raw_line x y width height depth) (raw_line x y width height depth) r
    (λ s q w Hs _, raw_line_follows x y width height depth r s q w Hwd) (raw_left x y width height depth) n q w Hn Hw) as [H1 H2].
  pose proof (loop_done Z.to_nat (λ n, 0 <= n) _ (raw_left x y width height depth) n q Hn) as H3.
  split.
  - eapply follows_again; [exact H1|]. destruct (loop _ (Z.to_nat n) n q) as [[[[] s] q'] ds]; try done.
    intros w'. unfold raw_decodeRect. rewrite Ez. simpl in H2. replace (s =? 0) with false; [done|]. symmetry. apply Z.eqb_neq. lia.
  - apply orb_false_iff in Ez as [?%Z.eqb_neq ?%Z.eqb_neq].
    unfold kept. destruct (loop _ (Z.to_nat n) n q) as [[[[] s] q'] ds]; simpl in *; [left; lia|tauto|done].
Qed.
Lemma rre_follows x y width height r subrects (q : bytes) (w : W) :
  0 <= subrects → holds w (q ++ r) →
  follows (rre_decodeRect x y width height) r (rre_decodeRect x y width height subrects q) (rre_decodeRect x y width height subrects w)
  ∧ kept (λ n, 0 <= n) (λ n, n = 0) (rre_decodeRect x y width height subrects q).
Proof.
  intros Hs Hw.
  assert (∀ n q w, 0 <= n → holds w (q ++ r) →
    follows (rre_decodeRect x y width height) r (loop (rre_subrect x y) (Z.to_nat n) n q) (loop (rre_subrect x y) (Z.to_nat n) n w)
    ∧ kept (λ n, 0 <= n) (λ n, n = 0) (loop (rre_subrect x y) (Z.to_nat n) n q)) as Hloop.
  { clear. intros n q w Hn Hw.
    destruct (loop_follows (λ n, 0 <= n) Z.to_nat (rre_subrect x y) (rre_subrect x y) r
      (λ s q w Hs _, rre_subrect_follows x y r s q w) (rre_left x y) n q w Hn Hw) as [H1 H2].
    pose proof (loop_done Z.to_nat (λ n, 0 <= n) _ (rre_left x y) n q Hn) as H3. split.
    - eapply follows_again; [exact H1|]. destruct (loop _ (Z.to_nat n) n q) as [[[[] s] q'] ds]; try done.
      intros w'. unfold rre_decodeRect. simpl in H2. replace (s =? 0) with false; [done|]. symmetry. apply Z.eqb_neq. lia.
    - unfold kept. destruct (loop _ (Z.to_nat n) n q) as [[[[] s] q'] ds]; simpl in *; [lia|tauto|done]. }
  unfold rre_decodeRect at 2 3 4. destruct (subrects =? 0) eqn:Ez; [|by apply Hloop].
  destruct (wait_follows w q r (4 + 4) Hw) as [[-> Hr]|(-> & Hn & E)].
  - split; [|done]. exists w. split_and!; [|done|intros Hz; by rewrite (Hr Hz)].
    unfold rre_decodeRect. rewrite Ez. by destruct (if rQwait _ w then _ else _) as [[[? ?] ?] ?].
  - pose proof (holds_bytes _ _ Hw) as Hb. rewrite E. cbn [rQshift rQshiftBytes list_buffer]. follow_read. follow_read.
    rewrite kept_behind. destruct (Hloop (Websock.be (take 4 q)) (drop (Z.to_nat 4) (drop 4 q)) w1) as [H1 H2].
    + apply Websock.be_range, Forall_take. by apply Forall_app in Hb as [? _].
    + done.
    + split; [by apply follows_behind|done].
Qed.
Lemma hextile_follows x y width height r s (q : bytes) (w : W) :
  0 <= width → 0 <= height → tiles s = 0 ∨ hex_ok width height s → holds w (q ++ r) →
  follows (hextile_decodeRect x y width height) r (hextile_decodeRect x y width height s q) (hextile_decodeRect x y width height s w)
  ∧ kept (hex_ok width height) (λ s, tiles s = 0) (hextile_decodeRect x y width height s q).
Proof.
  intros Hwd Hht Hv Hw. unfold hextile_decodeRect at 2 3 4. set (s0 := hextile_setup width height s).
  assert (hex_ok width height s0) as Hs0.
  { unfold s0, hextile_setup. destruct (tiles s =? 0) eqn:Ez.
    - unfold hex_ok. simpl. split_and!; [done|done| |lia].
      pose proof (ceil16_spec width). pose proof (ceil16_spec height). nia.
    - apply Z.eqb_neq in Ez. by destruct Hv. }
  destruct (loop_follows (hex_ok width height) (λ s, Z.to_nat (tiles s)) (hextile_tile x y width height) (hextile_tile x y width height) r
    (λ s q w Hs Hz, hextile_tile_follows x y width height r s q w Hwd Hht Hs Hz)
    (hextile_tile_left x y width height) s0 q w Hs0 Hw) as [H1 H2].
  pose proof (loop_done (λ s, Z.to_nat (tiles s)) (hex_ok width height) _ (hextile_tile_left x y width height) s0 q Hs0) as H3.
  split.
  - eapply follows_again; [exact H1|]. destruct (loop _ _ s0 q) as [[[[] s'] q'] ds]; try done.
    intros w'. simpl in H2. unfold hextile_decodeRect, hextile_setup. replace (tiles s' =? 0) with false; [done|]. symmetry. apply Z.eqb_neq. lia.
  - unfold kept. destruct (loop _ _ s0 q) as [[[[] s'] q'] ds]; simpl in *; [|tauto|done]. destruct H3 as [(_ & _ & ?) ?]. lia.
Qed.

Lemma handle_follows e rc depth d r (q : bytes) (w : W) :
  0 <= r_width rc → 0 <= r_height rc → valid e rc d → holds w (q ++ r) →
  follows (handleDataRect e rc depth) r (handleDataRect e rc depth d q) (handleDataRect e rc depth d w)
  ∧ kept (valid e rc) idle (handleDataRect e rc depth d q).
Proof.
  intros Hwd Hht Hv Hw. destruct e; simpl in Hv; unfold handleDataRect at 2 3 4.
  - destruct Hv as ((Hr & Hz) & Hrre & Hhex). destruct (raw_follows (r_x rc) (r_y rc) _ _ depth r _ q w Hwd Hht Hr Hw) as [H1 H2].
    split; [by eapply follows_state, H1|]. unfold kept, idle in *. destruct (raw_decodeRect _ _ _ _ _ _ q) as [[[[] s] q'] ds]; simpl in *; [|tauto|done].
    split; [|done]. destruct H2 as [|[-> H2]]; [done|]. destruct (decide (d_raw d = 0)); [done|]. tauto.
  - pose proof (copyrect_follows (r_x rc) (r_y rc) (r_width rc) (r_height rc) r q w Hw) as H1.
    split; [|by unfold kept; destruct (copyrect_decodeRect _ _ _ _ q) as [[[[] s] q'] ds]].
    eapply (follows_state (λ _, d) (λ _, copyrect_decodeRect (r_x rc) (r_y rc) (r_width rc) (r_height rc))); [|exact H1]. done.
  - destruct Hv as (Hraw & Hr & Hhex). destruct (rre_follows (r_x rc) (r_y rc) (r_width rc) (r_height rc) r _ q w Hr Hw) as [H1 H2].
    split; [by eapply follows_state, H1|]. unfold kept, idle in *. by destruct (rre_decodeRect _ _ _ _ _ q) as [[[[] s] q'] ds].
  - destruct Hv as (Hraw & Hrre & Hh). destruct (hextile_follows (r_x rc) (r_y rc) _ _ r _ q w Hwd Hht Hh Hw) as [H1 H2].
    split; [by eapply follows_state, H1|]. unfold kept, idle in *. destruct (hextile_decodeRect _ _ _ _ _ q) as [[[[] s] q'] ds]; simpl in *; tauto.
Qed.
Lemma follows_nil {S} (a : S → W → result S W) (l : result S bytes) (o : result S W) :
  follows a [] l o →
  let '(v, s, q, ds) := l in ∃ w, o = (v, s, w, ds) ∧ (v ≠ Thrown → holds w q).
Proof.
  destruct l as [[[[] s] q] ds]; simpl.
  - intros (w & -> & Hw). rewrite app_nil_r in Hw. by exists w.
  - intros (w & _ & Hw & Hr). rewrite app_nil_r in Hw. exists w. by rewrite (Hr eq_refl).
  - intros (w & ->). by exists w.
Qed.
End follows.

(** ** Bytes are only taken *)
Lemma hex_subrects_len n coloured tw fg data (q : bytes) d q' : hex_subrects n coloured tw fg data q = Some (d, q') → len q' <= len q.
Proof.
  revert data q. induction n as [|n IH]; intros data q; cbn [hex_subrects]; [intros [= <- <-]; lia|].
  destruct coloured; [|destruct fg; [|done]]; cbn [rQshift rQshiftBytes list_buffer]; intros Hs%IH; revert Hs; bounds.
Qed.
Lemma tile_read_len sub tx ty tw th s (q : bytes) s' q' ds : tile_read sub tx ty tw th s q = Some (s', q', ds) → len q' <= len q.
Proof.
  unfold tile_read. cbn [rQshift rQshiftBytes list_buffer]. intros Ht.
  repeat (case_match; simplify_eq/=); try (revert select (hex_subrects _ _ _ _ _ _ = Some _); intros Hx%hex_subrects_len; revert Hx); bounds.
Qed.
Lemma loop_len {S} (u : S → bytes → outcome S bytes) n s q :
  (∀ s q s' q' ds, u s q = Steps s' q' ds → len q' <= len q) → len (loop u n s q).1.2 <= len q.
Proof.
  intros Hu. revert s q. induction n as [|n IH]; intros s q; simpl; [lia|]. destruct (u s q) as [| |s' q' ds] eqn:E; simpl; [lia|lia|].
  apply Hu in E. specialize (IH s' q'). destruct (loop u n s' q') as [[[v s2] q2] ds2]. simpl in *. lia.
Qed.
Lemma handle_len e rc depth d (q : bytes) : len (handleDataRect e rc depth d q).1.2 <= len q.
Proof.
  assert (∀ S T (f : S → T) (o : result S bytes), (with_state f o).1.2 = o.1.2) as Hst by (by intros S T f [[[? ?] ?] ?]).
  assert (∀ S ds (o : result S bytes), (behind ds o).1.2 = o.1.2) as Hb by (by intros S ds [[[? ?] ?] ?]).
  assert (∀ x y s q, len (loop (rre_subrect x y) (Z.to_nat s) s q).1.2 <= len q) as Hrre.
  { intros x y s q0. apply loop_len. unfold rre_subrect. cbn [rQshift rQshiftBytes list_buffer].
    intros ????? Hr. case_match; simplify_eq. bounds. }
  destruct e; unfold handleDataRect; rewrite Hst.
  - unfold raw_decodeRect. case_match; [simpl; lia|]. apply loop_len. unfold raw_line. cbn [rQshift rQshiftBytes list_buffer].
    intros ????? Hr. repeat case_match; simplify_eq; bounds.
  - unfold copyrect_decodeRect. cbn [rQshift list_buffer]. case_match; simpl; bounds.
  - unfold rre_decodeRect. cbn [rQshift rQshiftBytes list_buffer]. repeat case_match; [simpl; lia| |apply Hrre].
    rewrite Hb. etrans; [apply Hrre|]. bounds.
  - unfold hextile_decodeRect. apply loop_len. unfold hextile_tile. intros ????? Hr. repeat (case_match; simplify_eq).
    by eapply tile_read_len.
Qed.

(** ** A rectangle on the buffered socket

    A message comes: its bytes are queued, and a rectangle that waits goes on if
    there is anything to read; none: the queue cannot take them. *)
Definition arrive (e : encoding) (rc : rect) (depth : Z) (o : result decoders Websock.websock) (chunk : bytes)
  : option (result decoders Websock.websock) :=
  let '(v, d, w, ds) := o in
  match v with
  | Thrown => Some o   (* the connection has failed *)
  | _ =>
    match Websock.recvMessage chunk w with
    | None => None
    | Some (w, called) =>
      Some (match v with Again => if called : bool then behind ds (handleDataRect e rc depth d w) else (v, d, w, ds) | _ => (v, d, w, ds) end)
    end
  end.
Fixpoint arrives (e : encoding) (rc : rect) (depth : Z) (o : result decoders Websock.websock) (chunks : list bytes)
  : option (result decoders Websock.websock) :=
  match chunks with
  | [] => Some o
  | c :: chunks => match arrive e rc depth o c with Some o => arrives e rc depth o chunks | None => None end
  end.

(** where a rectangle is after the bytes [p] of the stream *)
Definition read_so_far (e : encoding) (rc : rect) (depth : Z) (d0 : decoders) (p : bytes) (o : result decoders Websock.websock) : Prop :=
  let '(v, d, w, ds) := o in
  ∃ q, handleDataRect e rc depth d0 p = (v, d, q, ds) ∧ (v ≠ Thrown → holds w q) ∧ kept (valid e rc) idle (v, d, q, ds).
Lemma arrive_reads e rc depth d0 p o c :
  0 <= r_width rc → 0 <= r_height rc → valid e rc d0 → Forall Websock.byte (p ++ c) → len (p ++ c) <= Websock.MAX_RQ_GROW_SIZE →
  read_so_far e rc depth d0 p o → ∃ o', arrive e rc depth o c = Some o' ∧ read_so_far e rc depth d0 (p ++ c) o'.
Proof.
  intros Hwd Hht Hd0 Hb Hmax. destruct o as [[[v d] w] ds]. intros (q & Hp & Hh & Hk).
  destruct (handle_follows (W := bytes) e rc depth d0 c p (p ++ c) Hwd Hht Hd0) as [Hf _]; [by split|].
  pose proof (handle_len e rc depth d0 p) as Hlen. rewrite Hp in Hf, Hlen. simpl in Hlen. rewrite len_app_ in Hmax.
  apply Forall_app in Hb as [Hbp Hbc].
  assert (v ≠ Thrown → ∃ w', Websock.recvMessage c w = Some (w', bool_decide (q ++ c ≠ [])) ∧ holds w' (q ++ c)) as Hrecv.
  { intros Hv. destruct (Hh Hv) as [Hok Hu]. pose proof (Websock.recv_spec c w Hok Hbc) as Hr. rewrite Hu in Hr.
    destruct (Websock.recvMessage c w) as [[w' called]|]; [|unfold len in *; lia].
    destruct Hr as (Hok' & Hu' & -> & _). exists w'. split; [done|]. by split. }
  destruct v; simpl in Hf.
  - destruct Hf as (wl & Hl & [-> _]). destruct Hrecv as (w' & Hr & Hw'); [done|]. unfold arrive. rewrite Hr.
    eexists. split; [done|]. by exists (q ++ c).
  - destruct Hf as (wl & Hl & [-> Hbq] & Hnil). destruct Hrecv as (w' & Hr & Hw'); [done|]. unfold arrive. rewrite Hr.
    case_bool_decide as Hc; (eexists; split; [done|]).
    + destruct (handle_follows e rc depth d [] (q ++ c) w' Hwd Hht Hk) as [Hf' Hk']; [by rewrite app_nil_r|].
      apply follows_nil in Hf'. destruct (handleDataRect e rc depth d (q ++ c)) as [[[v' d'] q'] ds'] eqn:E'.
      destruct Hf' as (w2 & -> & Hw2). simpl. exists q'. rewrite Hl. split_and!; [done|done|exact Hk'].
    + apply app_eq_nil in Hc as [-> ->]. rewrite app_nil_r in *. by exists [].
  - destruct Hf as (wl & Hl). simpl. eexists. split; [done|]. by exists wl.
Qed.

(** How the bytes come does not matter: a raw, copied, RRE or hextile
    rectangle whose bytes come in any messages, read on each of them as far as
    they go, ends with the same verdict, the same drawings in the same order
    and the same bytes left for what follows as if all of them had been there
    at once; and a rectangle that is done leaves nothing behind in its decoder. *)
Theorem chunks_do_not_matter e rc depth d w chunks :
  0 <= r_width rc → 0 <= r_height rc → idle d → Websock.ok w →
  Forall Websock.byte (concat chunks) → len (Websock.unread w) + len (concat chunks) <= Websock.MAX_RQ_GROW_SIZE →
  let '(v, d', q, ds) := handleDataRect e rc depth d (Websock.unread w ++ concat chunks) in
  ∃ w', arrives e rc depth (handleDataRect e rc depth d w) chunks = Some (v, d', w', ds)
    ∧ (v ≠ Thrown → Websock.ok w' ∧ Websock.unread w' = q) ∧ (v = Done → idle d').
Proof.
  intros Hwd Hht Hd Hok Hb Hmax. apply idle_valid with (e := e) (r := rc) in Hd.
  assert (Forall Websock.byte (Websock.unread w)) as Hbu by apply Websock.Forall_slice, Hok.
  assert (∀ chunks p o, Forall Websock.byte (p ++ concat chunks) → len (p ++ concat chunks) <= Websock.MAX_RQ_GROW_SIZE →
    read_so_far e rc depth d p o → ∃ o', arrives e rc depth o chunks = Some o' ∧ read_so_far e rc depth d (p ++ concat chunks) o') as Hall.
  { clear Hb Hmax chunks. induction chunks as [|c chunks IH]; intros p o Hb Hm Ho; simpl in *; [rewrite app_nil_r; by exists o|].
    rewrite app_assoc in Hb, Hm |- *. destruct (arrive_reads e rc depth d p o c) as (o' & -> & Ho'); try done.
    - by apply Forall_app in Hb as [? _].
    - rewrite len_app_ in Hm. pose proof (Websock.len_nonneg (concat chunks)). unfold len in *. lia.
    - by apply IH. }
  destruct (handle_follows e rc depth d [] (Websock.unread w) w Hwd Hht Hd) as [Hf Hk]; [rewrite app_nil_r; by split|].
  apply follows_nil in Hf.
  destruct (Hall chunks (Websock.unread w) (handleDataRect e rc depth d w)) as (o & Ho & Hr).
  - by apply Forall_app.
  - by rewrite len_app_.
  - destruct (handleDataRect e rc depth d (Websock.unread w)) as [[[v d'] q] ds] eqn:E. destruct Hf as (w' & -> & Hw'). exists q. split_and!; done.
  - rewrite Ho. destruct o as [[[v d'] w'] ds]. destruct Hr as (q & -> & Hh & Hk'). exists w'. split; [done|].
    split; [exact Hh|]. intros ->. exact Hk'.
Qed.

(** a hextile rectangle of 20 by 4: a tile with a background and a
    subrectangle, and a tile that keeps the background, a byte at a time *)
Definition hex_stream : bytes := [14; 1; 2; 3; 4; 9; 8; 7; 6; 1; 0; 17; 0].
Lemma chunks_do_not_matter_witness :
  let rc := Rect 5 6 20 4 in let chunks := (λ b, [b]) <$> (hex_stream ++ [77]) in
  let w := Websock.init (Websock.Websock 0 0 64 [] 64 0 [] Websock.Open []) in
  let '(v, d', q, ds) := handleDataRect HextileEncoding rc 24 decoders_start (Websock.unread w ++ concat chunks) in
  (v = Done ∧ q = [77] ∧ length ds = 2%nat ∧ last ds = Some (FillRect 21 6 4 4 [1; 2; 3; 4]))
  ∧ ∃ w', arrives HextileEncoding rc 24 (handleDataRect HextileEncoding rc 24 decoders_start w) chunks = Some (v, d', w', ds)
       ∧ (v ≠ Thrown → Websock.ok w' ∧ Websock.unread w' = q) ∧ (v = Done → idle d').
Proof.
  intros rc chunks w.
  pose proof (chunks_do_not_matter HextileEncoding rc 24 decoders_start w chunks) as H.
  destruct (handleDataRect HextileEncoding rc 24 decoders_start (Websock.unread w ++ concat chunks)) as [[[v d'] q] ds] eqn:E.
  split.
  - vm_compute in E. injection E as <- _ <- <-. by vm_compute.
  - apply H.
    + simpl. lia.
    + simpl. lia.
    + by vm_compute.
    + split; simpl; try lia; try done. apply (bool_decide_unpack _). vm_compute. exact I.
    + apply (bool_decide_unpack _). vm_compute. exact I.
    + by vm_compute.
Defined.
End Decoders.

(** ** What the server's messages need of the decoders

    [decode encoding rect depth]: [this._decoders\[encoding\].decodeRect]; none:
    there is no such decoder.  [resting]: no rectangle is half read; [reading]: a
    rectangle may be.  On more bytes a decoder does the same and goes on. *)
Import Decoders.
Class RectDecoders (D : Type) := decode : Z → rect → Z → D → bytes → option (result D bytes).
Class RectLaws (D : Type) `{RectDecoders D} := {
  resting : D → Prop;
  reading : Z → rect → D → Prop;
  resting_reading e rc d : resting d → reading e rc d;
  decode_known e rc depth d d' q q' : decode e rc depth d q = None → decode e rc depth d' q' = None;
  decode_more e rc depth d q r v d' q' ds :
    0 <= r_width rc → 0 <= r_height rc → Forall Websock.byte (q ++ r) → reading e rc d →
    decode e rc depth d q = Some (v, d', q', ds) →
    len q' <= len q ∧ (v ≠ Thrown → Forall Websock.byte q') ∧
    match v with
    | Done => decode e rc depth d (q ++ r) = Some (Done, d', q' ++ r, ds) ∧ resting d'
    | Again => decode e rc depth d (q ++ r) = behind ds <$> decode e rc depth d' (q' ++ r) ∧ reading e rc d'
    | Thrown => ∃ q2, decode e rc depth d (q ++ r) = Some (Thrown, d', q2, ds)
    end }.

(** the raw, copied, RRE and hextile decoders *)
Definition encoding_of (e : Z) : option encoding :=
  if e =? 0 then Some Raw else if e =? 1 then Some CopyRect else if e =? 2 then Some RRE else if e =? 5 then Some HextileEncoding else None.
#[export] Instance plain_decoders : RectDecoders decoders := λ e rc depth d q,
  (λ e, Decoders.handleDataRect e rc depth d q) <$> encoding_of e.
#[export] Instance plain_laws : RectLaws decoders.
Proof.
  refine {| resting := idle; reading e rc d := match encoding_of e with Some e => valid e rc d | None => idle d end |};
    unfold decode, plain_decoders.
  - intros e rc d Hd. destruct (encoding_of e); [by apply idle_valid|done].
  - intros e rc depth d d' q q'. by destruct (encoding_of e).
  - intros e rc depth d q r v d' q' ds Hw Hh Hb Hr Hd. destruct (encoding_of e) as [e'|]; [|done]. injection Hd as Hd.
    destruct (handle_follows e' rc depth d r q (q ++ r) Hw Hh Hr) as [Hf Hk]; [by split|].
    pose proof (handle_len e' rc depth d q) as Hl. rewrite Hd in Hf, Hk, Hl. simpl in Hl. split; [done|].
    destruct v; simpl in Hf, Hk |- *.
    + destruct Hf as (w & Ho & [-> Hq]). split; [intros _; by apply Forall_app in Hq as [? _]|]. by rewrite Ho.
    + destruct Hf as (w & Ho & [-> Hq] & _). split; [intros _; by apply Forall_app in Hq as [? _]|]. by rewrite Ho.
    + destruct Hf as (w & Ho). split; [done|]. exists w. by rewrite Ho.
Defined.
