(* ===== verification/Display.v ===== *)
(** * The console's screen: static/js/novnc/core/display.js

    [Display]: the hidden canvas the rectangles are drawn on, the queue that
    keeps drawings in order behind images that still load, the damaged region
    and the visible canvas.  A canvas is a function from its pixels; the 2D
    context's compositing is a parameter. *)
From S2P Require Import Prelude.
From Stdlib Require Import QArith Qround Lqa.

#[local] Open Scope list_scope.
#[local] Open Scope Z_scope.

Module Display.
(** What the browser's canvas does: a transparent pixel, source-over, a pixel
    of bytes. *)
Class Compositing (P : Type) := {
  transparent : P;
  over : P → P → P;
  rgba : Z → Z → Z → Z → P;
  opaque : P → Prop;
  over_opaque : ∀ p q, opaque p → over p q = p;
  transparent_not_opaque : ¬ opaque transparent }.

Section display.
Context {P : Type} `{Compositing P}.
Abbreviation color := (Z * Z * Z)%type.
Abbreviation canvas := (Z → Z → P).
(** an image or a video frame that is decoded: its size and its pixels *)
Record picture := Picture { p_width : Z; p_height : Z; pixels : canvas }.
(** what each loads as *)
Variable image : nat → picture.

(** [i, j] is in the rectangle *)
Definition within (x y w h i j : Z) : bool := (x <=? i) && (i <? x + w) && (y <=? j) && (j <? y + h).
(** a canvas's pixel, transparent outside *)
Definition read (w h : Z) (c : canvas) (i j : Z) : P := if within 0 0 w h i j then c i j else transparent.

Inductive action :=
  | Flip
  | Copy (oldX oldY x y width height : Z)
  | Fill (x y width height : Z) (c : color)
  | Blit (x y width height : Z) (data : list Z)
  | Img (img : nat) (x y width height : Z)
  | Frame (frame : nat) (x y width height : Z).

(** ** Drawing on a canvas of size [cw] x [ch]

    [fillRect], [drawImage] and [putImageData] of the 2D context. *)
Definition paint (cw ch x y w h : Z) (f : Z → Z → P → P) (c : canvas) : canvas :=
  λ i j, if within 0 0 cw ch i j && within x y w h i j then f i j (c i j) else c i j.
Definition byte_at (data : list Z) (k : Z) : Z := nth (Z.to_nat k) data 0.
Definition pixel_at (data : list Z) (k : Z) : P :=
  rgba (byte_at data (4 * k)) (byte_at data (4 * k + 1)) (byte_at data (4 * k + 2)) (byte_at data (4 * k + 3)).
Definition apply (cw ch : Z) (a : action) (c : canvas) : canvas :=
  match a with
  | Flip => c
  | Copy ox oy x y w h => paint cw ch x y w h (λ i j, over (read cw ch c (i - x + ox) (j - y + oy))) c
  | Fill x y w h (r, g, b) => paint cw ch x y w h (λ _ _ _, rgba r g b 255) c
  | Blit x y w h data => paint cw ch x y w h (λ i j _, pixel_at data ((j - y) * w + (i - x))) c
  | Img k x y _ _ =>
    let p := image k in
    paint cw ch x y (p_width p) (p_height p) (λ i j, over (read (p_width p) (p_height p) (pixels p) (i - x) (j - y))) c
  | Frame k x y w h =>
    let p := image k in
    paint cw ch x y w h (λ i j, over (read (p_width p) (p_height p) (pixels p) (i - x) (j - y))) c
  end.

(** ** State *)
Record bounds := Bounds { left : Z; top : Z; right : Z; bottom : Z }.
Record viewport := Viewport { vx : Z; vy : Z; vw : Z; vh : Z }.
(** the hidden canvas and its context's fill style *)
Record backbuffer := Backbuffer { cw : Z; ch : Z; px : canvas; fillStyle : color }.
Record display := Display {
  renderQ : list action;
  flushPromise : bool;          (* a promise waits for the queue to empty *)
  resolved : nat;               (* the promises that were resolved *)
  fbWidth : Z; fbHeight : Z;
  prevDrawStyle : option color; (* none: the empty text *)
  back : backbuffer;
  viewportLoc : viewport;
  damageBounds : bounds;
  target : canvas;              (* the visible canvas, of the viewport's size *)
  clipViewport : bool;
  loaded : gset nat;            (* the images and frames that are ready *)
  listening : gset nat }.       (* those whose loading scans the queue *)

Definition with_queue (q : list action) (d : display) : display :=
  Display q (flushPromise d) (resolved d) (fbWidth d) (fbHeight d) (prevDrawStyle d) (back d) (viewportLoc d)
    (damageBounds d) (target d) (clipViewport d) (loaded d) (listening d).
Definition with_back (b : backbuffer) (d : display) : display :=
  Display (renderQ d) (flushPromise d) (resolved d) (fbWidth d) (fbHeight d) (prevDrawStyle d) b (viewportLoc d)
    (damageBounds d) (target d) (clipViewport d) (loaded d) (listening d).
Definition with_bounds (b : bounds) (d : display) : display :=
  Display (renderQ d) (flushPromise d) (resolved d) (fbWidth d) (fbHeight d) (prevDrawStyle d) (back d) (viewportLoc d)
    b (target d) (clipViewport d) (loaded d) (listening d).
Definition with_style (s : option color) (d : display) : display :=
  Display (renderQ d) (flushPromise d) (resolved d) (fbWidth d) (fbHeight d) s (back d) (viewportLoc d)
    (damageBounds d) (target d) (clipViewport d) (loaded d) (listening d).
Definition with_view (v : viewport) (t : canvas) (d : display) : display :=
  Display (renderQ d) (flushPromise d) (resolved d) (fbWidth d) (fbHeight d) (prevDrawStyle d) (back d) v
    (damageBounds d) t (clipViewport d) (loaded d) (listening d).
Definition with_ready (l w : gset nat) (d : display) : display :=
  Display (renderQ d) (flushPromise d) (resolved d) (fbWidth d) (fbHeight d) (prevDrawStyle d) (back d) (viewportLoc d)
    (damageBounds d) (target d) (clipViewport d) l w.
Definition with_flush (p : bool) (n : nat) (d : display) : display :=
  Display (renderQ d) p n (fbWidth d) (fbHeight d) (prevDrawStyle d) (back d) (viewportLoc d)
    (damageBounds d) (target d) (clipViewport d) (loaded d) (listening d).

(** ** Drawing *)
Definition damage (x y w h : Z) (d : display) : display :=
  let b := damageBounds d in
  with_bounds (Bounds (Z.min (left b) x) (Z.min (top b) y) (Z.max (right b) (x + w)) (Z.max (bottom b) (y + h))) d.
Definition on_back (f : Z → Z → canvas → canvas) (d : display) : display :=
  let b := back d in with_back (Backbuffer (cw b) (ch b) (f (cw b) (ch b) (px b)) (fillStyle b)) d.
(** [_setFillColor] *)
Definition setFillColor (c : color) (d : display) : display :=
  if decide (prevDrawStyle d = Some c) then d
  else let b := back d in with_style (Some c) (with_back (Backbuffer (cw b) (ch b) (px b) c) d).

(** the part of the damage the viewport shows: [x, y, w, h, vx, vy] *)
Definition flip_region (v : viewport) (b : bounds) : Z * Z * Z * Z * Z * Z :=
  let x := left b in let y := top b in let w := right b - x in let h := bottom b - y in
  let px := x - vx v in let py := y - vy v in
  let '(w, x, px) := if px <? 0 then (w + px, x - px, 0) else (w, x, px) in
  let '(h, y, py) := if py <? 0 then (h + py, y - py, 0) else (h, y, py) in
  let w := if px + w >? vw v then vw v - px else w in
  let h := if py + h >? vh v then vh v - py else h in
  (x, y, w, h, px, py).
(** [flip], done *)
Definition flip_now (d : display) : display :=
  let '(x, y, w, h, px_, py_) := flip_region (viewportLoc d) (damageBounds d) in
  let b := back d in
  let t := if (w >? 0) && (h >? 0)
           then λ i j, if within px_ py_ w h i j then over (read (cw b) (ch b) (px b) (x + (i - px_)) (y + (j - py_))) (target d i j)
                       else target d i j
           else target d in
  with_bounds (Bounds 65535 65535 0 0) (with_view (viewportLoc d) t d).

(** one action, done: the branches of [_scanRenderQ] and the second branches of the drawing methods *)
Definition draw_now (a : action) (d : display) : display :=
  match a with
  | Flip => flip_now d
  | Fill x y w h c =>
    let d := setFillColor c d in
    damage x y w h (on_back (λ cw ch, apply cw ch (Fill x y w h (fillStyle (back d)))) d)
  | Copy ox oy x y w h => damage x y w h (on_back (λ cw ch, apply cw ch a) d)
  | Blit x y w h data => damage x y w h (on_back (λ cw ch, apply cw ch a) d)
  | Img k x y w h => damage x y (p_width (image k)) (p_height (image k)) (on_back (λ cw ch, apply cw ch a) d)
  | Frame k x y w h => damage x y w h (on_back (λ cw ch, apply cw ch a) d)
  end.
(** an image of another size than its rectangle stops the queue *)
Definition right_size (a : action) : bool :=
  match a with Img k _ _ w h => (p_width (image k) =? w) && (p_height (image k) =? h) | _ => true end.
Definition waits_for (l : gset nat) (a : action) : option nat :=
  match a with Img k _ _ _ _ | Frame k _ _ _ _ => if decide (k ∈ l) then None else Some k | _ => None end.
(** [_scanRenderQ]: the drawings that can be done, and the promise when none is left *)
Fixpoint scan (q : list action) (d : display) : display :=
  match q with
  | [] =>
    let d := with_queue [] d in
    if flushPromise d then with_flush false (S (resolved d)) d else d
  | a :: q' =>
    match waits_for (loaded d) a with
    | Some k => with_queue q (with_ready (loaded d) ({[k]} ∪ listening d) d)
    | None => if right_size a then scan q' (draw_now a d) else with_queue q d
    end
  end.
Definition scanRenderQ (d : display) : display := scan (renderQ d) d.
Definition renderQPush (a : action) (d : display) : display :=
  let d := with_queue (renderQ d ++ [a]) d in
  if decide (length (renderQ d) = 1%nat) then scanRenderQ d else d.
(** the first branches of the methods: behind what is queued *)
Definition draw (a : action) (d : display) : display :=
  if decide (renderQ d = []) then draw_now a d else renderQPush a d.

(** ** The methods *)
Definition flip := draw Flip.
Definition fillRect (x y w h : Z) (c : color) := draw (Fill x y w h c).
Definition copyImage (ox oy x y w h : Z) := draw (Copy ox oy x y w h).
(** [arr]: a view of [buffer] that starts at [byteOffset]; the queue takes the
    bytes at the start of the buffer *)
Definition slice (s n : Z) (a : list Z) : list Z := take (Z.to_nat n) (drop (Z.to_nat s) a).
Definition blitImage (x y w h : Z) (buffer : list Z) (byteOffset offset : Z) (d : display) : display :=
  if decide (renderQ d = []) then draw_now (Blit x y w h (slice (byteOffset + offset) (w * h * 4) buffer)) d
  else renderQPush (Blit x y w h (slice 0 (w * h * 4) buffer)) d.
(** [img]: the new image, which loads when it will *)
Definition imageRect (x y w h : Z) (img : nat) (d : display) : display :=
  if decide (w = 0 ∨ h = 0) then d else renderQPush (Img img x y w h) d.
Definition videoFrame (x y w h : Z) (frame : nat) (d : display) : display := renderQPush (Frame frame x y w h) d.
Definition flush (d : display) : display :=
  if decide (renderQ d = []) then with_flush (flushPromise d) (S (resolved d)) d else with_flush true (resolved d) d.
(** an image's [load] event, a frame's promise *)
Definition ready (k : nat) (d : display) : display :=
  let scans := bool_decide (k ∈ listening d) in
  let d := with_ready ({[k]} ∪ loaded d) (listening d ∖ {[k]}) d in
  if scans then scanRenderQ d else d.

(** ** Viewport *)
Definition clamp (pos size fb delta : Z) : Z :=
  let last := pos + size - 1 in
  let delta := if pos + delta <? 0 then - pos else delta in
  if last + delta >=? fb then delta - (last + delta - fb + 1) else delta.
Definition viewportChangePos (deltaX deltaY : Q) (d : display) : display :=
  let v := viewportLoc d in
  let dx := if clipViewport d then Qfloor deltaX else - vw v in
  let dy := if clipViewport d then Qfloor deltaY else - vh v in
  let last := vx v + vw v - 1 in
  let dx := if (dx <? 0) && (vx v + dx <? 0) then - vx v else dx in
  let dx := if last + dx >=? fbWidth d then dx - (last + dx - fbWidth d + 1) else dx in
  let dy := clamp (vy v) (vh v) (fbHeight d) dy in
  if (dx =? 0) && (dy =? 0) then d
  else let v := Viewport (vx v + dx) (vy v + dy) (vw v) (vh v) in
       flip (damage (vx v) (vy v) (vw v) (vh v) (with_view v (target d) d)).
(** [size]: none, a size that is not given *)
Definition viewportChangeSize (size : option (Q * Q)) (d : display) : display :=
  let '(w, h) := match size with Some (w, h) => if clipViewport d then (Qfloor w, Qfloor h) else (fbWidth d, fbHeight d)
                 | None => (fbWidth d, fbHeight d) end in
  let w := Z.min w (fbWidth d) in
  let h := Z.min h (fbHeight d) in
  let v := viewportLoc d in
  if (vw v =? w) && (vh v =? h) then d
  else
    let d := with_view (Viewport (vx v) (vy v) w h) (λ _ _, transparent) d in   (* a canvas that is resized is cleared *)
    let d := viewportChangePos 0 0 d in
    let v := viewportLoc d in
    flip (damage (vx v) (vy v) (vw v) (vh v) d).
Definition refit (d : display) : display :=
  let v := viewportLoc d in
  viewportChangePos 0 0 (viewportChangeSize (Some (inject_Z (vw v), inject_Z (vh v))) d).
Definition set_clipViewport (b : bool) (d : display) : display :=
  refit (Display (renderQ d) (flushPromise d) (resolved d) (fbWidth d) (fbHeight d) (prevDrawStyle d) (back d) (viewportLoc d)
    (damageBounds d) (target d) b (loaded d) (listening d)).
(** the hidden canvas keeps what fits and is cleared where it grew, its context starts anew *)
Definition resize_back (w h : Z) (b : backbuffer) : backbuffer :=
  if (cw b =? w) && (ch b =? h) then b
  else Backbuffer w h (λ i j, if within 0 0 w h i j && within 0 0 (cw b) (ch b) i j then px b i j else transparent) (0, 0, 0).
Definition resize (w h : Z) (d : display) : display :=
  refit (Display (renderQ d) (flushPromise d) (resolved d) w h None (resize_back w h (back d)) (viewportLoc d)
    (damageBounds d) (target d) (clipViewport d) (loaded d) (listening d)).
(** [constructor]: the hidden canvas has the default size, the target its own *)
Definition constructor (w h : Z) (t : canvas) : display :=
  Display [] false 0 0 0 None (Backbuffer 300 150 (λ _ _, transparent) (0, 0, 0)) (Viewport 0 0 w h) (Bounds 0 0 300 150)
    t false ∅ ∅.

(** ** The calls of the client *)
Inductive call :=
  | CFlip | CFill (x y w h : Z) (c : color) | CCopy (ox oy x y w h : Z)
  | CBlit (x y w h : Z) (buffer : list Z) (byteOffset offset : Z)
  | CImage (x y w h : Z) (img : nat) | CFrame (x y w h : Z) (frame : nat)
  | CFlush | CReady (k : nat)
  | CResize (w h : Z) | CPos (deltaX deltaY : Q) | CSize (size : option (Q * Q)) | CClip (b : bool).
Definition step (d : display) (c : call) : display :=
  match c with
  | CFlip => flip d
  | CFill x y w h c => fillRect x y w h c d
  | CCopy ox oy x y w h => copyImage ox oy x y w h d
  | CBlit x y w h b bo o => blitImage x y w h b bo o d
  | CImage x y w h k => imageRect x y w h k d
  | CFrame x y w h k => videoFrame x y w h k d
  | CFlush => flush d
  | CReady k => ready k d
  | CResize w h => resize w h d
  | CPos dx dy => viewportChangePos dx dy d
  | CSize s => viewportChangeSize s d
  | CClip b => set_clipViewport b d
  end.
(** The canvas throws for an image without pixels or data that is too short. *)
Definition enabled (d : display) (c : call) : Prop :=
  match c with
  | CBlit _ _ w h b bo o => 0 < w ∧ 0 < h ∧ 0 <= bo + o ∧ bo + o + w * h * 4 <= Z.of_nat (length b)
  | CResize w h => 0 <= w ∧ 0 <= h
  | CSize (Some (w, h)) => (0 <= w)%Q ∧ (0 <= h)%Q
  | _ => True
  end.

(** ** Drawing in order

    What is on the canvas once everything that is queued is done. *)
Definition draws (w h : Z) (c : canvas) (q : list action) : canvas := fold_left (λ c a, apply w h a c) q c.
Definition settled (d : display) : Z * Z * canvas := (cw (back d), ch (back d), draws (cw (back d)) (ch (back d)) (px (back d)) (renderQ d)).
(** The same calls on a canvas that draws at once. *)
Definition ideal (f : Z * Z * canvas) (c : call) : Z * Z * canvas :=
  let '(w0, h0, p) := f in
  match c with
  | CFill x y w h c => (w0, h0, apply w0 h0 (Fill x y w h c) p)
  | CCopy ox oy x y w h => (w0, h0, apply w0 h0 (Copy ox oy x y w h) p)
  | CBlit x y w h b bo o => (w0, h0, apply w0 h0 (Blit x y w h (slice (bo + o) (w * h * 4) b)) p)
  | CImage x y w h k => if decide (w = 0 ∨ h = 0) then f else (w0, h0, apply w0 h0 (Img k x y w h) p)
  | CFrame x y w h k => (w0, h0, apply w0 h0 (Frame k x y w h) p)
  | CResize w h =>
    let b := resize_back w h (Backbuffer w0 h0 p (0, 0, 0)) in (cw b, ch b, px b)
  | _ => f
  end.
(** a queued block's data starts its buffer, and the canvas is resized when
    nothing is queued, as at the start of an update *)
Definition orderly (d : display) (c : call) : Prop :=
  match c with
  | CBlit _ _ _ _ _ bo o => renderQ d = [] ∨ bo + o = 0
  | CResize _ _ => renderQ d = []
  | _ => True
  end.

(** The first queued drawing waits for its image, or has the wrong size. *)
Definition stuck (l w : gset nat) (a : action) : Prop :=
  (∃ k, waits_for l a = Some k ∧ k ∈ w) ∨ waits_for l a = None ∧ right_size a = false.
Record queue_inv (d : display) : Prop := QueueInv {
  q_style : ∀ c, prevDrawStyle d = Some c → fillStyle (back d) = c;
  q_head : match renderQ d with [] => True | a :: _ => stuck (loaded d) (listening d) a end;
  q_flush : flushPromise d = true → renderQ d ≠ [] }.

Lemma settled_split w h c q a : draws w h c (q ++ [a]) = apply w h a (draws w h c q).
Proof. unfold draws. by rewrite fold_left_app. Qed.

(** what a drawing done leaves alone *)
Definition same_queue (d d' : display) : Prop :=
  renderQ d' = renderQ d ∧ flushPromise d' = flushPromise d ∧ loaded d' = loaded d ∧ listening d' = listening d
  ∧ cw (back d') = cw (back d) ∧ ch (back d') = ch (back d).
Lemma flip_now_back d : back (flip_now d) = back d ∧ prevDrawStyle (flip_now d) = prevDrawStyle d ∧ same_queue d (flip_now d).
Proof. unfold flip_now. destruct (flip_region _ _) as [[[[[x y] w] h] a] b]. by repeat split. Qed.
Lemma draw_now_spec a d :
  (∀ c, prevDrawStyle d = Some c → fillStyle (back d) = c) →
  same_queue d (draw_now a d)
  ∧ px (back (draw_now a d)) = apply (cw (back d)) (ch (back d)) a (px (back d))
  ∧ (∀ c, prevDrawStyle (draw_now a d) = Some c → fillStyle (back (draw_now a d)) = c).
Proof.
  intros Hs. destruct a; try by repeat split.
  - destruct (flip_now_back d) as (Hb & Hp & Hq). simpl. split_and!; [done|by rewrite Hb|]. by rewrite Hb, Hp.
  - simpl. unfold setFillColor. case_decide as Hc.
    + rewrite (Hs _ Hc). split; [by repeat split|]. split; [done|]. simpl. intros c0 Hc0. congruence.
    + split; [by repeat split|]. split; [done|]. simpl. by intros c0 [= ->].
Qed.
Lemma scan_spec q d :
  (∀ c, prevDrawStyle d = Some c → fillStyle (back d) = c) →
  settled (scan q d) = (cw (back d), ch (back d), draws (cw (back d)) (ch (back d)) (px (back d)) q)
  ∧ queue_inv (scan q d).
Proof.
  revert d. induction q as [|a q IH]; intros d Hs; simpl.
  - destruct (flushPromise d) eqn:Hf; (split; [done|]); split; simpl; try done. by rewrite Hf.
  - destruct (waits_for (loaded d) a) as [k|] eqn:Hw.
    + split; [done|]. split; simpl; [done| |done]. left. exists k. split; [done|set_solver].
    + destruct (right_size a) eqn:Hr.
      * destruct (draw_now_spec a d Hs) as ((_ & _ & _ & _ & Hcw & Hch) & Hp & Hs').
        destruct (IH _ Hs') as [H1 H2]. split; [|done]. by rewrite H1, Hcw, Hch, Hp.
      * split; [done|]. split; simpl; [done|by right|done].
Qed.
Lemma push_spec a d :
  queue_inv d →
  settled (renderQPush a d) = (cw (back d), ch (back d), draws (cw (back d)) (ch (back d)) (px (back d)) (renderQ d ++ [a]))
  ∧ queue_inv (renderQPush a d).
Proof.
  intros [Hs Hh Hf]. unfold renderQPush. simpl. case_decide as Hl.
  - exact (scan_spec (renderQ d ++ [a]) (with_queue (renderQ d ++ [a]) d) Hs).
  - split; [done|]. split; simpl; [done| |intros _; by destruct (renderQ d)]. destruct (renderQ d); [done|]. exact Hh.
Qed.
Lemma draw_spec a d :
  queue_inv d →
  settled (draw a d) = (let '(w, h, c) := settled d in (w, h, apply w h a c)) ∧ queue_inv (draw a d).
Proof.
  intros Hq. unfold draw. case_decide as He.
  - destruct (draw_now_spec a d (q_style _ Hq)) as ((H1 & H2 & H3 & H4 & H5 & H6) & Hp & Hs). split.
    + unfold settled. by rewrite H1, H5, H6, Hp, He.
    + split; [done|by rewrite H1, He|]. rewrite H1, H2. apply (q_flush _ Hq).
  - destruct (push_spec a d Hq) as [H1 H2]. split; [|done]. rewrite H1. simpl. by rewrite settled_split.
Qed.

(** the calls that only move the viewport or damage *)
Definition same_drawing (d d' : display) : Prop := queue_inv d → settled d' = settled d ∧ queue_inv d'.
Lemma same_drawing_trans d1 d2 d3 : same_drawing d1 d2 → same_drawing d2 d3 → same_drawing d1 d3.
Proof. intros H1 H2 Hq. destruct (H1 Hq) as [E1 Hq2]. destruct (H2 Hq2) as [-> ?]. by rewrite E1. Qed.
Lemma flip_same d : same_drawing d (flip d).
Proof. intros Hq. unfold flip. destruct (draw_spec Flip d Hq) as [-> ?]. by destruct (settled d) as [[]]. Qed.
Lemma damage_same x y w h d : same_drawing d (damage x y w h d).
Proof. intros [H1 H2 H3]. by split. Qed.
Lemma view_same v t d : same_drawing d (with_view v t d).
Proof. intros [H1 H2 H3]. by split. Qed.
Lemma pos_same dx dy d : same_drawing d (viewportChangePos dx dy d).
Proof.
  unfold viewportChangePos. case_match; [by intros ?|].
  eapply same_drawing_trans; [|apply flip_same]. eapply same_drawing_trans; [apply view_same|apply damage_same].
Qed.
Lemma size_same s d : same_drawing d (viewportChangeSize s d).
Proof.
  unfold viewportChangeSize. destruct (match s with Some _ => _ | None => _ end) as [w h]. case_match; [by intros ?|].
  eapply same_drawing_trans; [|apply flip_same]. eapply same_drawing_trans; [|apply damage_same].
  eapply same_drawing_trans; [apply view_same|apply pos_same].
Qed.
Lemma refit_same d : same_drawing d (refit d).
Proof. unfold refit. eapply same_drawing_trans; [apply size_same|apply pos_same]. Qed.
Lemma clip_same b d : same_drawing d (set_clipViewport b d).
Proof.
  intros [H1 H2 H3]. unfold set_clipViewport. set (d1 := Display _ _ _ _ _ _ _ _ _ _ _ _ _).
  destruct (refit_same d1) as [-> Hq]; by split.
Qed.
Lemma flush_same d : same_drawing d (flush d).
Proof. intros [H1 H2 H3]. unfold flush. case_decide; by split. Qed.
Lemma ready_same k d : same_drawing d (ready k d).
Proof.
  intros [H1 H2 H3]. unfold ready. case_bool_decide as Hk.
  - unfold scanRenderQ. by apply scan_spec.
  - split; [done|]. split; simpl; [done| |done]. destruct (renderQ d) as [|a q]; [done|].
    destruct H2 as [(k' & Hw & Hl)|[Hw Hr]].
    + left. exists k'. split; [|set_solver]. assert (k' ≠ k) by (intros ->; done).
      destruct a; simpl in *; try done; case_decide; try done; rewrite decide_False by set_solver; done.
    + right. split; [|done]. destruct a; simpl in *; try done; case_decide; try done; by rewrite decide_True by set_solver.
Qed.
Lemma blit_spec x y w h b bo o d :
  queue_inv d → renderQ d = [] ∨ bo + o = 0 →
  settled (blitImage x y w h b bo o d) = ideal (settled d) (CBlit x y w h b bo o) ∧ queue_inv (blitImage x y w h b bo o d).
Proof.
  intros Hq Ho. pose proof (draw_spec (Blit x y w h (slice (bo + o) (w * h * 4) b)) d Hq) as Hd.
  replace (blitImage x y w h b bo o d) with (draw (Blit x y w h (slice (bo + o) (w * h * 4) b)) d); [exact Hd|].
  unfold draw, blitImage. case_decide; [done|]. destruct Ho as [?| ->]; done.
Qed.
Lemma resize_spec w h d :
  queue_inv d → renderQ d = [] →
  settled (resize w h d) = ideal (settled d) (CResize w h) ∧ queue_inv (resize w h d).
Proof.
  intros [H1 H2 H3] He. unfold resize. set (d1 := Display _ _ _ _ _ _ _ _ _ _ _ _ _).
  destruct (refit_same d1) as [-> Hq]; [by split|]. split; [|done].
  unfold settled, draws, d1. simpl. rewrite He. simpl. unfold resize_back. simpl.
  by destruct ((cw (back d) =? w) && (ch (back d) =? h)).
Qed.
Lemma step_orderly d c :
  queue_inv d → orderly d c → settled (step d c) = ideal (settled d) c ∧ queue_inv (step d c).
Proof.
  intros Hq Ho.
  assert (∀ d', same_drawing d d' → settled d' = settled d ∧ queue_inv d') as Hsame by (intros d' Hd; by apply Hd).
  destruct c; unfold step.
  - destruct (Hsame _ (flip_same d)) as [-> ?]. by destruct (settled d) as [[]].
  - unfold fillRect. destruct (draw_spec (Fill x y w h c) d Hq) as [-> ?]. by destruct (settled d) as [[]].
  - unfold copyImage. destruct (draw_spec (Copy ox oy x y w h) d Hq) as [-> ?]. by destruct (settled d) as [[]].
  - by apply blit_spec.
  - unfold imageRect, ideal. case_decide as Hz; [by destruct (settled d) as [[]]|].
    destruct (push_spec (Img img x y w h) d Hq) as [-> ?]. simpl. by rewrite settled_split.
  - unfold videoFrame. destruct (push_spec (Frame frame x y w h) d Hq) as [-> ?]. simpl. by rewrite settled_split.
  - destruct (Hsame _ (flush_same d)) as [-> ?]. by destruct (settled d) as [[]].
  - destruct (Hsame _ (ready_same k d)) as [-> ?]. by destruct (settled d) as [[]].
  - by apply resize_spec.
  - destruct (Hsame _ (pos_same deltaX deltaY d)) as [-> ?]. by destruct (settled d) as [[]].
  - destruct (Hsame _ (size_same size d)) as [-> ?]. by destruct (settled d) as [[]].
  - destruct (Hsame _ (clip_same b d)) as [-> ?]. by destruct (settled d) as [[]].
Qed.

(** C18: Queueing changes nothing but the time: whatever is drawn, flipped,
    flushed or scrolled while images and video frames load, the canvas with the
    queued drawings done is the canvas a screen that draws at once would have;
    only drawings behind an image that is still loading (whose loading will go
    on with the queue) or that has the wrong size wait, so once the images are
    there the canvas is that one, and no promise of [flush] is left waiting.
    Queued blocks must start their buffer: see [queued_blit_reads_the_start]. *)
Theorem drawings_are_done_in_order w h t es d os :
  trace (λ d c, enabled d c ∧ orderly d c) (silent step) (constructor w h t) es d os →
  settled d = fold_left ideal es (300, 150, λ _ _, transparent)
  ∧ match renderQ d with [] => True | a :: _ => stuck (loaded d) (listening d) a end
  ∧ (Forall (λ a, waits_for (loaded d) a = None ∧ right_size a = true) (renderQ d) →
     (cw (back d), ch (back d), px (back d)) = fold_left ideal es (300, 150, λ _ _, transparent) ∧ flushPromise d = false).
Proof.
  intros Ht.
  assert (∀ d0 es d os, trace (λ d c, enabled d c ∧ orderly d c) (silent step) d0 es d os → queue_inv d0 →
    settled d = fold_left ideal es (settled d0) ∧ queue_inv d) as Hg.
  { clear. induction 1 as [d|d c es d' os [_ Ho] Ht IH]; intros Hq; [done|].
    destruct (step_orderly d c Hq Ho) as [H1 H2]. destruct (IH H2) as [-> ?]. simpl. by rewrite H1. }
  destruct (Hg _ _ _ _ Ht) as [Hs [H1 H2 H3]]; [by split|]. split_and!; [exact Hs|exact H2|].
  intros Hr. assert (renderQ d = []) as He.
  { destruct (renderQ d) as [|a q]; [done|]. apply Forall_cons in Hr as [[Hw Hz] _].
    destruct H2 as [(k & Hk & _)|[_ ?]]; congruence. }
  unfold settled in Hs. rewrite He in Hs. split; [exact Hs|]. destruct (flushPromise d); [by destruct (H3 eq_refl)|done].
Qed.

(** ** What is seen *)
Definition damaged (b : bounds) (i j : Z) : Prop := left b <= i < right b ∧ top b <= j < bottom b.
Definition screen (d : display) (i j : Z) : P := read (cw (back d)) (ch (back d)) (px (back d)) (vx (viewportLoc d) + i) (vy (viewportLoc d) + j).
Definition in_view (d : display) (i j : Z) : Prop := 0 <= i < vw (viewportLoc d) ∧ 0 <= j < vh (viewportLoc d).
(** outside the damage the visible canvas is right *)
Definition shows (d : display) : Prop :=
  ∀ i j, in_view d i j → ¬ damaged (damageBounds d) (vx (viewportLoc d) + i) (vy (viewportLoc d) + j) →
    opaque (screen d i j) → target d i j = screen d i j.
(** the viewport is inside the screen, and all of it when it is not clipped *)
Definition view_inside (d : display) : Prop :=
  let v := viewportLoc d in
  0 <= vx v ∧ 0 <= vy v ∧ 0 <= vw v ∧ 0 <= vh v ∧ vx v + vw v <= fbWidth d ∧ vy v + vh v <= fbHeight d
  ∧ (clipViewport d = false → vw v = fbWidth d ∧ vh v = fbHeight d).

Lemma within_spec x y w h i j : within x y w h i j = true ↔ x <= i < x + w ∧ y <= j < y + h.
Proof. unfold within. rewrite !andb_true_iff, !Z.leb_le, !Z.ltb_lt. lia. Qed.
(** the region that is copied is the damage inside the viewport, at its place *)
Lemma flip_region_spec v b x y w h px_ py_ :
  flip_region v b = (x, y, w, h, px_, py_) →
  x - px_ = vx v ∧ y - py_ = vy v
  ∧ ∀ i j, 0 <= i < vw v → 0 <= j < vh v → damaged b (vx v + i) (vy v + j) → px_ <= i < px_ + w ∧ py_ <= j < py_ + h.
Proof.
  unfold flip_region, damaged. intros Hf.
  destruct (Z.ltb_spec (left b - vx v) 0), (Z.ltb_spec (top b - vy v) 0); simpl in Hf;
    repeat match type of Hf with context [?a >? ?c] => destruct (Z.gtb_spec a c) end; simplify_eq;
    (split_and!; [lia|lia|intros; lia]).
Qed.
Lemma flip_now_target d i j :
  shows d → in_view d i j → opaque (screen d i j) → target (flip_now d) i j = screen d i j.
Proof.
  intros Hs Hv Ho. unfold flip_now. destruct (flip_region _ _) as [[[[[x y] w] h] a] b] eqn:E.
  apply flip_region_spec in E as (Hx & Hy & Hin). simpl.
  assert (damaged (damageBounds d) (vx (viewportLoc d) + i) (vy (viewportLoc d) + j) → within a b w h i j = true) as Hd.
  { intros Hd. apply within_spec. destruct Hv. by apply Hin. }
  assert (read (cw (back d)) (ch (back d)) (px (back d)) (x + (i - a)) (y + (j - b)) = screen d i j) as Hr.
  { unfold screen. f_equal; lia. }
  destruct (within a b w h i j) eqn:Ew.
  - apply within_spec in Ew as Ew'. assert ((w >? 0) && (h >? 0) = true) as -> by (apply andb_true_iff; lia).
    rewrite Ew, Hr. by apply over_opaque.
  - assert (target d i j = screen d i j) as Ht; [apply Hs; auto; intros H'; by apply Hd in H'|].
    destruct ((w >? 0) && (h >? 0)); [by rewrite Ew|done].
Qed.
Definition same_view (d d' : display) : Prop :=
  viewportLoc d' = viewportLoc d ∧ fbWidth d' = fbWidth d ∧ fbHeight d' = fbHeight d ∧ clipViewport d' = clipViewport d.
Lemma flip_now_view d : same_view d (flip_now d).
Proof. unfold flip_now. destruct (flip_region _ _) as [[[[[x y] w] h] a] b]. by repeat split. Qed.
Lemma flip_now_shows d : shows d → shows (flip_now d).
Proof.
  intros Hs i j Hv _ Ho. destruct (flip_now_back d) as (Hb & _ & _). destruct (flip_now_view d) as (Hl & _).
  unfold in_view, screen in *. rewrite Hl, Hb in *. by apply flip_now_target.
Qed.
(** a drawing changes its rectangle, which is damaged *)
Lemma paint_shows f x y w h d d' :
  shows d → same_view d d' → target d' = target d →
  back d' = Backbuffer (cw (back d)) (ch (back d)) (paint (cw (back d)) (ch (back d)) x y w h f (px (back d))) (fillStyle (back d')) →
  damageBounds d' = Bounds (Z.min (left (damageBounds d)) x) (Z.min (top (damageBounds d)) y)
                      (Z.max (right (damageBounds d)) (x + w)) (Z.max (bottom (damageBounds d)) (y + h)) →
  shows d'.
Proof.
  intros Hs (Hl & _) Ht Hb Hd i j Hv Hn Ho. unfold in_view, screen in *. rewrite Hl, Hb, Ht, Hd in *. simpl in *.
  assert (within x y w h (vx (viewportLoc d) + i) (vy (viewportLoc d) + j) = false) as Hw.
  { apply not_true_is_false. intros Hw%within_spec. apply Hn. unfold damaged. simpl. lia. }
  assert (¬ damaged (damageBounds d) (vx (viewportLoc d) + i) (vy (viewportLoc d) + j)) as Hn'.
  { intros Hd'. apply Hn. unfold damaged in *. simpl. lia. }
  assert (read (cw (back d)) (ch (back d)) (paint (cw (back d)) (ch (back d)) x y w h f (px (back d)))
            (vx (viewportLoc d) + i) (vy (viewportLoc d) + j) = screen d i j) as Hr.
  { unfold screen, read, paint. by rewrite Hw, andb_false_r. }
  rewrite Hr in *. by apply Hs.
Qed.
Lemma draw_now_shows a d : shows d → shows (draw_now a d) ∧ same_view d (draw_now a d).
Proof.
  intros Hs. destruct a as [|ox oy x y w h|x y w h c|x y w h data|k x y w h|k x y w h]; simpl.
  - split; [by apply flip_now_shows|apply flip_now_view].
  - split; [|by repeat split]. by eapply paint_shows.
  - assert (back (setFillColor c d) = Backbuffer (cw (back d)) (ch (back d)) (px (back d)) (fillStyle (back (setFillColor c d)))
      ∧ target (setFillColor c d) = target d ∧ damageBounds (setFillColor c d) = damageBounds d
      ∧ same_view d (setFillColor c d)) as (Hb & Ht & Hd & Hv).
    { unfold setFillColor. case_decide; repeat split. by destruct (back d). }
    split; [|done]. destruct (fillStyle (back (setFillColor c d))) as [[r g] b] eqn:Ef.
    eapply (paint_shows (λ _ _ _, rgba r g b 255) x y w h d); try done.
    + simpl. rewrite Ef. by rewrite Hb.
    + simpl. by rewrite Hd.
  - split; [|by repeat split]. by eapply paint_shows.
  - split; [|by repeat split]. by eapply paint_shows.
  - split; [|by repeat split]. by eapply paint_shows.
Qed.

(** everything a call to draw keeps: what is shown, and where the viewport is *)
Definition keeps_view (f : display → display) : Prop := ∀ d, shows d → shows (f d) ∧ same_view d (f d).
Lemma same_view_trans d1 d2 d3 : same_view d1 d2 → same_view d2 d3 → same_view d1 d3.
Proof. intros (?&?&?&?) (?&?&?&?). repeat split; congruence. Qed.
Lemma scan_keeps q : keeps_view (scan q).
Proof.
  induction q as [|a q IH]; intros d Hs; simpl; [by destruct (flushPromise d)|].
  destruct (waits_for _ a); [done|]. destruct (right_size a); [|done].
  destruct (draw_now_shows a d Hs) as [H1 H2]. destruct (IH _ H1) as [H3 H4]. split; [done|]. by eapply same_view_trans.
Qed.
Lemma push_keeps a : keeps_view (renderQPush a).
Proof. intros d Hs. unfold renderQPush. case_decide; [by apply (scan_keeps _ (with_queue (renderQ d ++ [a]) d))|done]. Qed.
Lemma draw_keeps a : keeps_view (draw a).
Proof. intros d Hs. unfold draw. case_decide; [by apply draw_now_shows|by apply push_keeps]. Qed.
Lemma blit_keeps x y w h b bo o : keeps_view (blitImage x y w h b bo o).
Proof. intros d Hs. unfold blitImage. case_decide; [by apply draw_now_shows|by apply push_keeps]. Qed.
Lemma image_keeps x y w h k : keeps_view (imageRect x y w h k).
Proof. intros d Hs. unfold imageRect. case_decide; [done|by apply push_keeps]. Qed.
Lemma flush_keeps : keeps_view flush.
Proof. intros d Hs. unfold flush. by case_decide. Qed.
Lemma ready_keeps k : keeps_view (ready k).
Proof.
  intros d Hs. unfold ready. case_bool_decide; [|done].
  by apply (scan_keeps _ (with_ready ({[k]} ∪ loaded d) (listening d ∖ {[k]}) d)).
Qed.

Lemma shows_damage_all d :
  let v := viewportLoc d in shows (damage (vx v) (vy v) (vw v) (vh v) d).
Proof.
  intros v i j Hv Hn. destruct Hn. unfold in_view, damaged in *. simpl in *. subst v. lia.
Qed.
(** before the position is clamped *)
Definition view_sized (d : display) : Prop :=
  let v := viewportLoc d in
  0 <= vx v ∧ 0 <= vy v ∧ 0 <= vw v <= fbWidth d ∧ 0 <= vh v <= fbHeight d
  ∧ (clipViewport d = false → vw v = fbWidth d ∧ vh v = fbHeight d).
Lemma inside_sized d : view_inside d → view_sized d.
Proof. unfold view_inside, view_sized. intros. naive_solver lia. Qed.
Definition same_size (d d' : display) : Prop :=
  vw (viewportLoc d') = vw (viewportLoc d) ∧ vh (viewportLoc d') = vh (viewportLoc d)
  ∧ fbWidth d' = fbWidth d ∧ fbHeight d' = fbHeight d ∧ clipViewport d' = clipViewport d.
Lemma same_view_inside d d' : same_view d d' → view_inside d → view_inside d'.
Proof. intros (Hl & Hw & Hh & Hc). unfold view_inside. by rewrite Hl, Hw, Hh, Hc. Qed.
Lemma pos_keeps dx dy d :
  view_sized d →
  view_inside (viewportChangePos dx dy d) ∧ (shows d → shows (viewportChangePos dx dy d)).
Proof.
  intros Hv. unfold viewportChangePos, clamp.
  set (dx0 := if clipViewport d then _ else _). set (dy0 := if clipViewport d then _ else _).
  set (dx1 := if (dx0 <? 0) && _ then _ else _). set (dx2 := if _ >=? fbWidth d then _ else _).
  set (dy1 := if vy (viewportLoc d) + dy0 <? 0 then _ else _). set (dy2 := if _ >=? fbHeight d then _ else _).
  assert (0 <= vx (viewportLoc d) + dx2 ∧ vx (viewportLoc d) + dx2 + vw (viewportLoc d) <= fbWidth d) as Hx.
  { unfold view_sized in Hv. clearbody dx0. unfold dx2, dx1.
    destruct (Z.ltb_spec dx0 0), (Z.ltb_spec (vx (viewportLoc d) + dx0) 0); simpl;
      match goal with |- context [?a >=? ?b] => destruct (Z.geb_spec a b) end; lia. }
  assert (0 <= vy (viewportLoc d) + dy2 ∧ vy (viewportLoc d) + dy2 + vh (viewportLoc d) <= fbHeight d) as Hy.
  { unfold view_sized in Hv. clearbody dy0. unfold dy2, dy1.
    destruct (Z.ltb_spec (vy (viewportLoc d) + dy0) 0); simpl;
      match goal with |- context [?a >=? ?b] => destruct (Z.geb_spec a b) end; lia. }
  clearbody dx2 dy2. destruct ((dx2 =? 0) && (dy2 =? 0)) eqn:E.
  - apply andb_true_iff in E as [->%Z.eqb_eq ->%Z.eqb_eq]. rewrite !Z.add_0_r in *. split; [|done].
    unfold view_inside, view_sized in *. naive_solver lia.
  - set (d1 := with_view _ _ d). pose proof (draw_keeps Flip _ (shows_damage_all d1)) as [H1 H2]. split; [|done].
    eapply same_view_inside; [exact H2|]. unfold view_inside, view_sized, d1 in *. simpl in *. naive_solver lia.
Qed.
(** a size: what is stored is sized, and right unless the size is the same *)
Lemma size_keeps s d :
  0 <= vx (viewportLoc d) → 0 <= vy (viewportLoc d) → 0 <= fbWidth d → 0 <= fbHeight d →
  match s with Some (w, h) => (0 <= w)%Q ∧ (0 <= h)%Q | None => True end →
  view_sized (viewportChangeSize s d) ∧ (view_inside d → view_inside (viewportChangeSize s d))
  ∧ (shows d → shows (viewportChangeSize s d)).
Proof.
  intros Hx Hy Hw Hh Hs. unfold viewportChangeSize.
  destruct (match s with Some _ => _ | None => _ end) as [w h] eqn:Es.
  assert (0 <= w ∧ 0 <= h ∧ (clipViewport d = false → w = fbWidth d ∧ h = fbHeight d)) as (Hw0 & Hh0 & Hc).
  { destruct s as [[w' h']|]; [|by simplify_eq]. destruct Hs as [Hs1 Hs2].
    destruct (clipViewport d); simplify_eq; [|done]. split_and!; [..|done];
      apply (Qfloor_resp_le 0) in Hs1, Hs2; by rewrite ?(Qfloor_Z 0) in *. }
  destruct ((vw (viewportLoc d) =? _) && _) eqn:E.
  - apply andb_true_iff in E as [E1%Z.eqb_eq E2%Z.eqb_eq]. split; [|done]. unfold view_sized. rewrite E1, E2. naive_solver lia.
  - set (d1 := with_view _ _ d).
    assert (view_sized d1) as Hd1 by (unfold view_sized, d1; simpl; naive_solver lia).
    destruct (pos_keeps 0 0 d1 Hd1) as [Hi _]. set (d2 := viewportChangePos 0 0 d1) in *.
    pose proof (draw_keeps Flip _ (shows_damage_all d2)) as [H1 H2].
    assert (view_inside (draw Flip (damage (vx (viewportLoc d2)) (vy (viewportLoc d2)) (vw (viewportLoc d2)) (vh (viewportLoc d2)) d2))) as H3.
    { eapply same_view_inside; [exact H2|exact Hi]. }
    split; [by apply inside_sized|]. split; [done|]. done.
Qed.
Lemma refit_keeps d :
  0 <= vx (viewportLoc d) → 0 <= vy (viewportLoc d) → 0 <= vw (viewportLoc d) → 0 <= vh (viewportLoc d) →
  0 <= fbWidth d → 0 <= fbHeight d →
  view_inside (refit d) ∧ (shows d → shows (refit d)).
Proof.
  intros Hx Hy Hvw Hvh Hw Hh. unfold refit.
  destruct (size_keeps (Some (inject_Z (vw (viewportLoc d)), inject_Z (vh (viewportLoc d)))) d) as (H1 & _ & H2); try done.
  { split; change 0%Q with (inject_Z 0); by rewrite <- Zle_Qle. }
  destruct (pos_keeps 0 0 _ H1) as [H3 H4]. split; [done|]. auto.
Qed.
Lemma clip_keeps b d : view_inside d → shows d → view_inside (set_clipViewport b d) ∧ shows (set_clipViewport b d).
Proof.
  intros Hi Hs. unfold set_clipViewport. set (d1 := Display _ _ _ _ _ _ _ _ _ _ _ _ _).
  unfold view_inside in Hi. destruct (refit_keeps d1) as [H1 H2]; simpl; try lia. split; [done|]. by apply H2.
Qed.
Lemma read_resized w h b i j :
  let b' := resize_back w h b in
  read (cw b') (ch b') (px b') i j = transparent ∨ read (cw b') (ch b') (px b') i j = read (cw b) (ch b) (px b) i j.
Proof.
  unfold resize_back. case_match; [by right|]. simpl. unfold read.
  destruct (within 0 0 w h i j); simpl; [|by left]. destruct (within 0 0 (cw b) (ch b) i j); auto.
Qed.
Lemma resize_keeps w h d :
  0 <= vx (viewportLoc d) → 0 <= vy (viewportLoc d) → 0 <= vw (viewportLoc d) → 0 <= vh (viewportLoc d) → 0 <= w → 0 <= h →
  shows d → view_inside (resize w h d) ∧ shows (resize w h d).
Proof.
  intros ?????? Hs. unfold resize. set (d1 := Display _ _ _ _ _ _ _ _ _ _ _ _ _).
  destruct (refit_keeps d1) as [H1' H2']; simpl; try lia. split; [done|]. apply H2'.
  intros i j Hv Hn Ho. unfold screen in *. simpl in *.
  destruct (read_resized w h (back d) (vx (viewportLoc d) + i) (vy (viewportLoc d) + j)) as [Hr|Hr].
  - rewrite Hr in Ho. by apply transparent_not_opaque in Ho.
  - rewrite Hr in *. by apply Hs.
Qed.
Lemma step_keeps_screen d c : enabled d c → view_inside d → shows d → view_inside (step d c) ∧ shows (step d c).
Proof.
  intros He Hi Hs.
  assert (∀ f : display → display, keeps_view f → view_inside (f d) ∧ shows (f d)) as Hk.
  { intros f Hf. destruct (Hf d Hs) as [H1 H2]. split; [|done]. by eapply same_view_inside. }
  destruct c; unfold step.
  - by apply Hk, draw_keeps.
  - by apply Hk, draw_keeps.
  - by apply Hk, draw_keeps.
  - by apply Hk, blit_keeps.
  - by apply Hk, image_keeps.
  - by apply Hk, push_keeps.
  - by apply Hk, flush_keeps.
  - by apply Hk, ready_keeps.
  - unfold view_inside in Hi. destruct He. apply resize_keeps; [lia..|done].
  - destruct (pos_keeps deltaX deltaY d (inside_sized d Hi)) as [H1 H2]. auto.
  - pose proof Hi as Hi'. unfold view_inside in Hi'. destruct (size_keeps size d) as (_ & H1 & H2); [lia..| |auto].
    by destruct size as [[]|].
  - by apply clip_keeps.
Qed.

(** C38: The visible canvas shows the screen: once it has its size, whatever is
    drawn, scrolled, clipped or resized, the viewport lies inside the screen
    (and is all of it when it is not clipped), and a [flip] with nothing queued
    leaves every opaque pixel of the screen that is in the viewport at its
    place on the visible canvas, though only the damaged part is copied. *)
Theorem flip_shows_the_screen tw th t w h d :
  0 <= tw → 0 <= th → 0 <= w → 0 <= h →
  reachable enabled (silent step) (resize w h (constructor tw th t)) d →
  view_inside d
  ∧ (renderQ d = [] → ∀ i j, in_view d i j → opaque (screen d i j) → target (flip d) i j = screen d i j).
Proof.
  intros ???? Hr. assert (view_inside d ∧ shows d) as [Hi Hs].
  { revert d Hr. apply reachable_invariant.
    - apply resize_keeps; simpl; try lia. intros i j _ _ Ho. unfold screen, read in Ho. simpl in Ho.
      destruct (within _ _ _ _ _ _); by apply transparent_not_opaque in Ho.
    - intros d c [Hi Hs] He. by apply step_keeps_screen. }
  split; [done|]. intros Hq i j Hv Ho. unfold flip, draw. rewrite decide_True by done. by apply flip_now_target.
Qed.
End display.

(** ** A screen of bytes *)
#[export] Instance bytes_canvas : Compositing (option (Z * Z * Z * Z)).
Proof.
  refine {| transparent := None; over := λ p q, match p with Some _ => p | None => q end;
            rgba := λ r g b a, Some (r, g, b, a); opaque := λ p, p ≠ None |}; [by intros []|naive_solver].
Defined.
Definition two_by_two : picture := Picture 2 2 (λ i j, Some (i, j, 7, 255)).

(** an image that is waited for, a fill and a flip behind it, then the image *)
Definition pictures (k : nat) : picture (P := option (Z * Z * Z * Z)) := two_by_two.
Definition update : list call :=
  [CResize 4 4; CImage 0 0 2 2 0; CFill 1 1 2 2 (1, 2, 3); CBlit 3 3 1 1 [9; 8; 7; 255] 0 0; CFlip; CReady 0].
Lemma drawings_are_done_in_order_witness :
  let d := fold_left (step pictures) update (constructor 4 4 (λ _ _, None)) in
  (renderQ d = [] ∧ px (back d) 0 0 = Some (0, 0, 7, 255) ∧ px (back d) 1 1 = Some (1, 2, 3, 255)
   ∧ target d 3 3 = Some (9, 8, 7, 255))
  ∧ settled pictures d = fold_left (ideal pictures) update (300, 150, λ _ _, None).
Proof.
  intros d. split; [by vm_compute|].
  refine (proj1 (drawings_are_done_in_order pictures 4 4 (λ _ _, None) update d (run (silent (step pictures)) (constructor 4 4 (λ _ _, None)) update).2 _)).
  apply (run_trace (λ d c, enabled d c ∧ orderly d c)). unfold update. cbn [admissible enabled orderly].
  split_and!; try exact I; try (by vm_compute); try (by right); simpl; lia.
Defined.
Lemma flip_shows_the_screen_witness :
  let d := foldl (step pictures) (resize pictures 4 4 (constructor 4 4 (λ _ _, None))) [CClip true; CSize (Some (2 # 1, 2 # 1)%Q); CFill 1 1 3 3 (1, 2, 3); CPos (3 # 2) 1] in
  viewportLoc d = Viewport 1 1 2 2 ∧ target (flip pictures d) 1 1 = screen d 1 1.
Proof.
  intros d. split; [by vm_compute|].
  refine (proj2 (flip_shows_the_screen pictures 4 4 (λ _ _, None) 4 4 d _ _ _ _ _) _ 1 1 _ _); try lia.
  - apply reachable_allowed. cbn [allowed enabled]. split_and!; try exact I; by vm_compute.
  - by vm_compute.
  - vm_compute. intuition discriminate.
  - by vm_compute.
Defined.

(** A block that is queued behind an image shows the bytes at the start of its
    buffer, not those it was given: here the second pixel of a buffer. *)
Example queued_blit_reads_the_start :
  let d := fold_left (step pictures) [CResize 4 4; CImage 0 0 2 2 0] (constructor 4 4 (λ _ _, None)) in
  let at_once := step pictures (fold_left (step pictures) [CReady 0] d) (CBlit 3 3 1 1 [1; 1; 1; 255; 2; 2; 2; 255] 4 0) in
  let queued := fold_left (step pictures) [CBlit 3 3 1 1 [1; 1; 1; 255; 2; 2; 2; 255] 4 0; CReady 0] d in
  px (back at_once) 3 3 = Some (2, 2, 2, 255) ∧ px (back queued) 3 3 = Some (1, 1, 1, 255).
Proof. by vm_compute. Qed.
End Display.

(** ** The scale: [autoscale], [absX], [absY]; numbers are exact rationals *)
Module Scale.
(** [a | 0]: the integer part, of 32 bits *)
Definition toSigned32bit (q : Q) : Z :=
  let n := if (0 <=? Qnum q)%Z then Qfloor q else - Qfloor (- q)%Q in
  (n + 2 ^ 31) mod 2 ^ 32 - 2 ^ 31.
Definition abs_ (x : Q) (scale : Q) (loc : Z) : Z :=
  if Qeq_bool scale 0 then 0 else toSigned32bit (x / scale + inject_Z loc)%Q.
(** of a viewport with pixels *)
Definition autoscale (containerWidth containerHeight : Q) (vw vh : Z) : Q :=
  if Qeq_bool containerWidth 0 || Qeq_bool containerHeight 0 then 0%Q
  else
    let targetAspectRatio := (containerWidth / containerHeight)%Q in
    let fbAspectRatio := (inject_Z vw / inject_Z vh)%Q in
    if Qle_bool targetAspectRatio fbAspectRatio then (containerWidth / inject_Z vw)%Q else (containerHeight / inject_Z vh)%Q.

(** The scaled viewport fits the container, and fills it in one direction. *)
Lemma autoscale_fits cw ch vw vh :
  (0 < cw)%Q → (0 < ch)%Q → 0 < vw → 0 < vh →
  let s := autoscale cw ch vw vh in
  ((s * inject_Z vw <= cw)%Q ∧ (s * inject_Z vh <= ch)%Q)
  ∧ ((s * inject_Z vw == cw)%Q ∨ (s * inject_Z vh == ch)%Q).
Proof.
  intros Hcw Hch Hvw Hvh s.
  assert (0 < inject_Z vw)%Q as Hw by (unfold Qlt; simpl; lia). assert (0 < inject_Z vh)%Q as Hh by (unfold Qlt; simpl; lia).
  unfold s, autoscale.
  destruct (Qeq_bool cw 0) eqn:E1; [apply Qeq_bool_iff in E1; lra|].
  destruct (Qeq_bool ch 0) eqn:E2; [apply Qeq_bool_iff in E2; lra|]. simpl.
  destruct (Qle_bool _ _) eqn:E.
  - apply Qle_bool_iff in E. assert (cw / inject_Z vw * inject_Z vw == cw)%Q as Hq by (field; lra).
    split; [split; [lra|]|by left].
    assert (cw * inject_Z vh <= inject_Z vw * ch)%Q as Hm.
    { apply (Qmult_le_r _ _ (inject_Z vh * ch)%Q) in E; [|nra].
      assert (inject_Z vw / inject_Z vh * (inject_Z vh * ch) == inject_Z vw * ch)%Q as Hx by (field; lra); rewrite Hx in E; clear Hx.
      assert (cw / ch * (inject_Z vh * ch) == cw * inject_Z vh)%Q as Hx by (field; lra); rewrite Hx in E; clear Hx. done. }
    apply (Qmult_le_l _ _ (inject_Z vw)); [done|].
    assert (inject_Z vw * (cw / inject_Z vw * inject_Z vh) == cw * inject_Z vh)%Q as Hx by (field; lra); rewrite Hx. lra.
  - assert (inject_Z vw / inject_Z vh < cw / ch)%Q as Hlt.
    { apply Qnot_le_lt. intros Hle. apply Qle_bool_iff in Hle. congruence. }
    assert (ch / inject_Z vh * inject_Z vh == ch)%Q as Hq by (field; lra).
    split; [split; [|lra]|by right].
    assert (inject_Z vw * ch < cw * inject_Z vh)%Q as Hm.
    { apply (Qmult_lt_r _ _ (inject_Z vh * ch)%Q) in Hlt; [|nra].
      assert (inject_Z vw / inject_Z vh * (inject_Z vh * ch) == inject_Z vw * ch)%Q as Hx by (field; lra); rewrite Hx in Hlt; clear Hx.
      assert (cw / ch * (inject_Z vh * ch) == cw * inject_Z vh)%Q as Hx by (field; lra); rewrite Hx in Hlt; clear Hx. done. }
    apply (Qmult_le_l _ _ (inject_Z vh)); [done|].
    assert (inject_Z vh * (ch / inject_Z vh * inject_Z vw) == inject_Z vw * ch)%Q as Hx by (field; lra); rewrite Hx. lra.
Qed.
End Scale.
