(* ===== verification/Messages.v ===== *)
(** * noVNC: the messages of the client, static/js/novnc/core/rfb.js

    [RFB.messages] as the pushes they make on the send queue of [Websock], the
    list of encodings the client asks for (encodings.js), and the methods that
    send keys, the clipboard and the mouse's state. *)
From Stdlib Require Import QArith.
From S2P Require Import Prelude JsObject Words Websock KeyTables Display.

#[local] Open Scope list_scope.
#[local] Open Scope Z_scope.

Module Messages.
Import Websock.
(** [RFB.messages]; an extended cut text is flagged by its negative length *)
Inductive message :=
  | KeyEvent (keysym down : Z)
  | QEMUExtendedKeyEvent (keysym down keycode : Z)
  | PointerEvent (x y mask : Z)
  | ExtendedPointerEvent (x y mask : Z)
  | ClientCutText (data : bytes) (extended : bool)
  | SetDesktopSize (width height id flags : Z)
  | ClientFence (flags : Z) (payload : bytes)
  | EnableContinuousUpdates (enable x y width height : Z)
  | PixelFormat (depth : Z) (trueColor : bool)
  | ClientEncodings (encs : list Z)
  | FbUpdateRequest (incremental : bool) (x y w h : Z)
  | XvpOp (ver op : Z).

Definition getRFBkeycode (keycode : Z) : Z :=
  let upperByte := Z.shiftr keycode 8 in
  let lowerByte := Z.land keycode 255 in
  if (upperByte =? 224) && (lowerByte <? 127) then Z.lor lowerByte 128 else keycode.
(** the bits a server would not understand: the message is begun, then thrown *)
Definition throws (m : message) : bool :=
  match m with
  | ExtendedPointerEvent x y mask => negb (Z.land (Z.land (Z.shiftr mask 7) 255) 252 =? 0)
  | _ => false
  end.
Definition pushes_of (m : message) : list push :=
  match m with
  | KeyEvent keysym down => [P8 4; P8 down; P16 0; P32 keysym; PFlush]
  | QEMUExtendedKeyEvent keysym down keycode => [P8 255; P8 0; P16 down; P32 keysym; P32 (getRFBkeycode keycode); PFlush]
  | PointerEvent x y mask => [P8 5; P8 (Z.land mask 127); P16 x; P16 y; PFlush]
  | ExtendedPointerEvent x y mask =>
    let higherBits := Z.land (Z.shiftr mask 7) 255 in
    if negb (Z.land higherBits 252 =? 0) then [P8 5]
    else [P8 5; P8 (Z.lor (Z.land mask 127) 128); P16 x; P16 y; P8 higherBits; PFlush]
  | ClientCutText data extended =>
    [P8 6; P8 0; P8 0; P8 0; P32 (if extended then (- len data) mod 2 ^ 32 else len data); PBytes data; PFlush]
  | SetDesktopSize width height id flags =>
    [P8 251; P8 0; P16 width; P16 height; P8 1; P8 0; P32 id; P16 0; P16 0; P16 width; P16 height; P32 flags; PFlush]
  | ClientFence flags payload => [P8 248; P8 0; P8 0; P8 0; P32 flags; P8 (len payload); PString payload; PFlush]
  | EnableContinuousUpdates enable x y width height =>
    [P8 150; P8 enable; P16 x; P16 y; P16 width; P16 height; PFlush]
  | PixelFormat depth trueColor =>
    let bpp := if 16 <? depth then 32 else if 8 <? depth then 16 else 8 in
    let bits := depth / 3 in
    let max := Z.shiftl 1 bits - 1 in
    [P8 0; P8 0; P8 0; P8 0; P8 bpp; P8 depth; P8 0; P8 (if trueColor then 1 else 0); P16 max; P16 max; P16 max;
          P8 (bits * 0); P8 (bits * 1); P8 (bits * 2); P8 0; P8 0; P8 0; PFlush]
  | ClientEncodings encs => [P8 2; P8 0; P16 (Z.of_nat (length encs))] ++ (P32 <$> encs) ++ [PFlush]
  | FbUpdateRequest incremental x y w h => [P8 3; P8 (if incremental then 1 else 0); P16 x; P16 y; P16 w; P16 h; PFlush]
  | XvpOp ver op => [P8 250; P8 0; P8 ver; P8 op; PFlush]
  end.
Definition wire (ps : list push) : bytes := mjoin (pushed <$> ps).
(** a message on the socket; none: it never ends (a channel that is not open, with a full queue) *)
Definition send_message (m : message) (w : websock) : option websock := do_pushes (pushes_of m) w.

(** A message leaves at once and whole, behind what was pushed before. *)
Lemma do_pushes_spec ps w :
  sok w → ready w = Open →
  ∃ w', do_pushes ps w = Some w' ∧ sok w' ∧ ready w' = Open ∧ stream w' = stream w ++ wire ps.
Proof.
  unfold wire. revert w. induction ps as [|p ps IH]; intros w Hw Ho; cbn [do_pushes].
  - exists w. by rewrite app_nil_r.
  - destruct (do_push_spec p w Hw Ho) as (w1 & -> & H1 & H2 & H3 & H4). destruct (IH w1 H1 H3) as (w' & -> & H5 & H6 & H7).
    exists w'. split_and!; [done..|]. rewrite H7, H2, <- (assoc_L (++)). done.
Qed.
Lemma do_pushes_app ps qs w : do_pushes (ps ++ qs) w = (w' ← do_pushes ps w; do_pushes qs w').
Proof. revert w. induction ps as [|p ps IH]; intros w; simpl; [done|]. by destruct (do_push p w). Qed.
Lemma ends_with_flush m : throws m = false → ∃ qs, pushes_of m = qs ++ [PFlush].
Proof.
  destruct m as [| | | | | | | | |encs| |]; cbn [pushes_of throws];
    try match goal with |- _ → ∃ qs, _ :: _ = _ => intros _; match goal with |- ∃ qs, ?l = _ => by exists (removelast l) end end.
  - intros ->. match goal with |- ∃ qs, ?l = _ => by exists (removelast l) end.
  - intros _. exists ([P8 2; P8 0; P16 (Z.of_nat (length encs))] ++ (P32 <$> encs)). by rewrite <- app_assoc.
Qed.
Lemma message_leaves_whole m w :
  sok w → ready w = Open → throws m = false →
  ∃ w', send_message m w = Some w' ∧ sok w' ∧ ready w' = Open ∧ sQlen w' = 0 ∧ mjoin (sent w') = stream w ++ wire (pushes_of m).
Proof.
  intros Hw Ho Hm. unfold send_message. destruct (ends_with_flush m Hm) as [qs ->].
  rewrite do_pushes_app. destruct (do_pushes_spec qs w Hw Ho) as (w1 & -> & H1 & H2 & H3). simpl.
  destruct (flush_spec w1 H1 H2) as (H4 & H5 & H6 & H7 & _). eexists. split_and!; [done..|].
  unfold stream in H5 at 1. rewrite H6, slice_empty, app_nil_r in H5. rewrite H5, H3. unfold wire.
  rewrite fmap_app, join_app. simpl. by rewrite !app_nil_r.
Qed.

(** ** What makes the messages *)
Record rfb := Rfb {
  connected : bool; viewOnly : bool;
  qemuExtKeyEventSupported : bool; extendedPointerEventSupported : bool;
  rfbXvpVer : Z; fbDepth : Z; qualityLevel : Z; compressionLevel : Z;
  remoteCapsLock : option bool; remoteNumLock : option bool;
  (* the flags the server gave of its extended clipboard; the text kept for it *)
  clipboardFormats : list Z; clipboardActions : list Z; clipboardText : option (list Z) }.
Definition with_locks (caps num : option bool) (s : rfb) : rfb :=
  Rfb (connected s) (viewOnly s) (qemuExtKeyEventSupported s) (extendedPointerEventSupported s) (rfbXvpVer s) (fbDepth s)
    (qualityLevel s) (compressionLevel s) caps num (clipboardFormats s) (clipboardActions s) (clipboardText s).

(** *** Keys *)
Definition number (down : bool) : Z := if down then 1 else 0.
(** with a direction; a keysym of 0 is none *)
Definition sendKey1 (s : rfb) (keysym : option Z) (code : string) (down : bool) : list message :=
  if negb (connected s) || viewOnly s then []
  else
    match (if qemuExtKeyEventSupported s then JsObj.get code KeyTables.XtScancode else None) with
    | Some scancode => [QEMUExtendedKeyEvent (default 0 keysym) (number down) scancode]
    | None => match keysym with Some k => if k =? 0 then [] else [KeyEvent k (number down)] | None => [] end
    end.
Definition sendKey (s : rfb) (keysym : option Z) (code : string) (down : option bool) : list message :=
  match down with
  | Some d => sendKey1 s keysym code d
  | None => sendKey1 s keysym code true ++ sendKey1 s keysym code false
  end.
(** a lock that is known to differ is pressed once before a key goes down *)
Definition fix_lock (s : rfb) (name code : string) (remote lock : option bool) (key_code : string) (down : bool)
  : option bool * list message :=
  let remote := if bool_decide (key_code = code) && down then None else remote in
  match remote, lock with
  | Some r, Some l =>
    if negb (eqb r l) && down
    then (None, sendKey1 s (KeyTables.keysym name) code true ++ sendKey1 s (KeyTables.keysym name) code false)
    else (remote, [])
  | _, _ => (remote, [])
  end.
Definition handleKeyEvent (s : rfb) (keysym : option Z) (code : string) (down : bool) (numlock capslock : option bool)
  : rfb * list message :=
  let '(caps, m1) := fix_lock s "XK_Caps_Lock" "CapsLock" (remoteCapsLock s) capslock code down in
  let '(num, m2) := fix_lock s "XK_Num_Lock" "NumLock" (remoteNumLock s) numlock code down in
  (with_locks caps num s, m1 ++ m2 ++ sendKey1 s keysym code down).
Definition sendCtrlAltDel (s : rfb) : list message :=
  if negb (connected s) || viewOnly s then []
  else
    let key name code d := sendKey1 s (KeyTables.keysym name) code d in
    key "XK_Control_L" "ControlLeft" true ++ key "XK_Alt_L" "AltLeft" true ++ key "XK_Delete" "Delete" true
    ++ key "XK_Delete" "Delete" false ++ key "XK_Alt_L" "AltLeft" false ++ key "XK_Control_L" "ControlLeft" false.

Definition is_key (m : message) : Prop := match m with KeyEvent _ _ | QEMUExtendedKeyEvent _ _ _ => True | _ => False end.
Lemma sendKey1_quiet s k c d : connected s = false ∨ viewOnly s = true → sendKey1 s k c d = [].
Proof. unfold sendKey1. by intros [-> | ->]; rewrite ?orb_true_r. Qed.
(** Once a lock was pressed for the user, nothing is pressed again until the
    server says what it is. *)
Lemma locks_are_fixed_once s k c nl cl k' c' nl' cl' d :
  let s1 := (handleKeyEvent s k c true nl cl).1 in
  (remoteCapsLock s1 = remoteCapsLock s ∨ remoteCapsLock s1 = None)
  ∧ (remoteCapsLock s = Some true → cl = Some false → remoteCapsLock s1 = None)
  ∧ (remoteCapsLock s1 = None → remoteNumLock s1 = None →
     (handleKeyEvent s1 k' c' d nl' cl').2 = sendKey1 s1 k' c' d).
Proof.
  unfold handleKeyEvent. destruct (fix_lock s "XK_Caps_Lock" _ _ _ _ _) as [caps m1] eqn:E1.
  destruct (fix_lock s "XK_Num_Lock" _ _ _ _ _) as [num m2] eqn:E2. simpl. split_and!.
  - unfold fix_lock in E1. revert E1. destruct (bool_decide (c = "CapsLock")); simpl; [intros [= <- _]; by right|].
    destruct (remoteCapsLock s) as [r|], cl as [l|]; simpl; try (intros [= <- _]; by left).
    destruct (negb (eqb r l)); simpl; intros [= <- _]; auto.
  - intros Hr ->. unfold fix_lock in E1. rewrite Hr in E1. by destruct (bool_decide (c = "CapsLock")); simplify_eq/=.
  - intros -> ->. unfold fix_lock. by destruct (bool_decide (c' = "CapsLock") && d), (bool_decide (c' = "NumLock") && d).
Qed.

(** *** The mouse *)
Definition buttonMaskMap : list (Z * Z) := [(0, 1); (1, 4); (2, 2); (3, 128); (4, 256)].
Definition convertButtonMask (buttons : Z) : Z :=
  fold_left (λ bmask im, if Z.land buttons (Z.shiftl 1 im.1) =? 0 then bmask else Z.lor bmask im.2) buttonMaskMap 0.
(** the place is one of the canvas, seen at a scale and from a corner; none:
    the mask is illegal, and it throws *)
Definition sendMouse (s : rfb) (scale : Q) (left top : Z) (x y : Q) (mask : Z) : option (list message) :=
  if negb (connected s) || viewOnly s then Some []
  else if negb (Z.land mask 32768 =? 0) then None
  else
    let extendedMouseButtons := Z.land mask 32640 in
    let absX := Scale.abs_ x scale left in
    let absY := Scale.abs_ y scale top in
    if extendedPointerEventSupported s && negb (extendedMouseButtons =? 0)
    then Some [ExtendedPointerEvent absX absY mask] else Some [PointerEvent absX absY mask].
(** The buttons of a mouse are never an illegal mask. *)
Lemma mouse_buttons_are_legal s scale left top x y buttons :
  0 <= buttons < 32 →
  ∃ ms, sendMouse s scale left top x y (convertButtonMask buttons) = Some ms ∧ Forall (λ m, throws m = false) ms.
Proof.
  intros Hb. assert (Z.land (Z.land (Z.shiftr (convertButtonMask buttons) 7) 255) 252 = 0) as Hl.
  { apply Z.eqb_eq, (Words.checked_below (λ b, Z.land (Z.land (Z.shiftr (convertButtonMask b) 7) 255) 252 =? 0) 32); [by vm_compute|done]. }
  assert (Z.land (convertButtonMask buttons) 32768 = 0) as Hh.
  { apply Z.eqb_eq, (Words.checked_below (λ b, Z.land (convertButtonMask b) 32768 =? 0) 32); [by vm_compute|done]. }
  unfold sendMouse. rewrite Hh. simpl. repeat case_match; eexists; (split; [done|]); repeat constructor; simpl; by rewrite ?Hl.
Qed.
(** the server reads the buttons from the two bytes *)
Lemma extended_mask_reads_back mask :
  0 <= mask < 512 → Z.land (Z.lor (Z.land mask 127) 128) 127 + Z.shiftl (Z.land (Z.shiftr mask 7) 255) 7 = mask.
Proof.
  intros Hm. apply Z.eqb_eq,
    (Words.checked_below (λ m, Z.land (Z.lor (Z.land m 127) 128) 127 + Z.shiftl (Z.land (Z.shiftr m 7) 255) 7 =? m) 512); [by vm_compute|done].
Qed.

(** *** Power, clipboard, encodings *)
Definition xvpOp (s : rfb) (ver op : Z) : list message := if rfbXvpVer s <? ver then [] else [XvpOp ver op].
Definition machineShutdown (s : rfb) := xvpOp s 1 2.
Definition machineReboot (s : rfb) := xvpOp s 1 3.
Definition machineReset (s : rfb) := xvpOp s 1 4.

(** [_buildExtendedClipboardFlags] *)
Definition clipboardFlags (actions formats : list Z) : bytes :=
  let actionFlag := fold_left Z.lor actions 0 in
  let formatFlag := fold_left Z.lor formats 0 in
  [Z.shiftr actionFlag 24 mod 256; 0; 0; formatFlag mod 256].
Definition extendedClipboardFormatText : Z := 1.
Definition extendedClipboardActionRequest : Z := Z.shiftl 1 25.
Definition extendedClipboardActionNotify : Z := Z.shiftl 1 27.
Definition extendedClipboardNotify (formats : list Z) : message :=
  ClientCutText (clipboardFlags [extendedClipboardActionNotify] formats) true.
Definition extendedClipboardRequest (formats : list Z) : message :=
  ClientCutText (clipboardFlags [extendedClipboardActionRequest] formats) true.
Definition with_clipboard (formats actions : list Z) (text : option (list Z)) (s : rfb) : rfb :=
  Rfb (connected s) (viewOnly s) (qemuExtKeyEventSupported s) (extendedPointerEventSupported s) (rfbXvpVer s) (fbDepth s)
    (qualityLevel s) (compressionLevel s) (remoteCapsLock s) (remoteNumLock s) formats actions text.
(** a text is its code points; only ISO 8859-1 can be sent *)
Definition clipboardPasteFrom (text : list Z) (s : rfb) : rfb * list message :=
  if negb (connected s) || viewOnly s then (s, [])
  else if bool_decide (extendedClipboardFormatText ∈ clipboardFormats s)
          && bool_decide (extendedClipboardActionNotify ∈ clipboardActions s) then
    (with_clipboard (clipboardFormats s) (clipboardActions s) (Some text) s,
     [extendedClipboardNotify [extendedClipboardFormatText]])
  else (s, [ClientCutText ((λ c, if 255 <? c then 63 else c) <$> text) false]).
Lemma pasted_text_is_bytes text s m d e :
  Forall (λ c, 0 <= c) text → m ∈ (clipboardPasteFrom text s).2 → m = ClientCutText d e → Forall byte d.
Proof.
  intros Ht. unfold clipboardPasteFrom. repeat case_match; simpl; intros Hm ->.
  - by apply not_elem_of_nil in Hm.
  - apply list_elem_of_singleton in Hm as [= -> _]. repeat constructor; by vm_compute.
  - apply list_elem_of_singleton in Hm as [= -> _]. apply Forall_fmap. eapply Forall_impl; [exact Ht|].
    intros c Hc. unfold byte. simpl in *. destruct (Z.ltb_spec 255 c); lia.
Qed.

Definition encodings : list (string * Z) :=
  [("encodingRaw", 0); ("encodingCopyRect", 1); ("encodingRRE", 2); ("encodingHextile", 5); ("encodingZlib", 6);
   ("encodingTight", 7); ("encodingZRLE", 16); ("encodingTightPNG", -260); ("encodingJPEG", 21); ("encodingH264", 50);
   ("pseudoEncodingQualityLevel9", -23); ("pseudoEncodingQualityLevel0", -32); ("pseudoEncodingDesktopSize", -223);
   ("pseudoEncodingLastRect", -224); ("pseudoEncodingCursor", -239); ("pseudoEncodingQEMUExtendedKeyEvent", -258);
   ("pseudoEncodingQEMULedEvent", -261); ("pseudoEncodingDesktopName", -307); ("pseudoEncodingExtendedDesktopSize", -308);
   ("pseudoEncodingXvp", -309); ("pseudoEncodingFence", -312); ("pseudoEncodingContinuousUpdates", -313);
   ("pseudoEncodingExtendedMouseButtons", -316); ("pseudoEncodingCompressLevel9", -247); ("pseudoEncodingCompressLevel0", -256);
   ("pseudoEncodingVMwareCursor", 1464686180); ("pseudoEncodingExtendedClipboard", 3231835598)].
Definition enc (name : string) : Z := default 0 (JsObj.get name encodings).
(** [_sendEncodings], in the order of preference *)
Definition sendEncodings (h264 : bool) (s : rfb) : message :=
  let full := fbDepth s =? 24 in
  ClientEncodings
    ([enc "encodingCopyRect"]
     ++ (if full then
           (if h264 then [enc "encodingH264"] else [])
           ++ (enc <$> ["encodingTight"; "encodingTightPNG"; "encodingZRLE"; "encodingJPEG"; "encodingHextile"; "encodingRRE"; "encodingZlib"])
         else [])
     ++ [enc "encodingRaw"; enc "pseudoEncodingQualityLevel0" + qualityLevel s; enc "pseudoEncodingCompressLevel0" + compressionLevel s]
     ++ (enc <$> ["pseudoEncodingDesktopSize"; "pseudoEncodingLastRect"; "pseudoEncodingQEMUExtendedKeyEvent"; "pseudoEncodingQEMULedEvent";
                  "pseudoEncodingExtendedDesktopSize"; "pseudoEncodingXvp"; "pseudoEncodingFence"; "pseudoEncodingContinuousUpdates";
                  "pseudoEncodingDesktopName"; "pseudoEncodingExtendedClipboard"; "pseudoEncodingExtendedMouseButtons"])
     ++ (if full then enc <$> ["pseudoEncodingVMwareCursor"; "pseudoEncodingCursor"] else [])).
(** every number asked for is a different one, and fits its field *)
Lemma encodings_are_different h264 s :
  0 <= qualityLevel s <= 9 → 0 <= compressionLevel s <= 9 →
  match sendEncodings h264 s with ClientEncodings l => NoDup l ∧ (length l <= 26)%nat | _ => False end.
Proof.
  intros Hq Hc.
  assert (∀ full, match (sendEncodings h264 (Rfb true false false false 0 (if full : bool then 24 else 8) (qualityLevel s) (compressionLevel s) None None [] [] None)) with
    ClientEncodings l => NoDup l ∧ (length l <= 26)%nat | _ => False end) as Hfull.
  { assert (qualityLevel s ∈ seqZ 0 10) as Hq' by (apply elem_of_seqZ; lia). assert (compressionLevel s ∈ seqZ 0 10) as Hc' by (apply elem_of_seqZ; lia).
    clear Hq Hc. set (q := qualityLevel s) in *. set (c := compressionLevel s) in *. clearbody q c.
    assert (∀ full, Forall (λ q, Forall (λ c, match (sendEncodings h264 (Rfb true false false false 0 (if full : bool then 24 else 8) q c None None [] [] None)) with
      ClientEncodings l => NoDup l ∧ (length l <= 26)%nat | _ => False end) (seqZ 0 10)) (seqZ 0 10)) as H.
    { intros full. apply (bool_decide_unpack _). destruct h264, full; vm_compute; exact I. }
    intros full. specialize (H full). rewrite Forall_forall in H. specialize (H q Hq'). rewrite Forall_forall in H. exact (H c Hc'). }
  destruct (Z.eqb_spec (fbDepth s) 24) as [E|E].
  - specialize (Hfull true). unfold sendEncodings in *. rewrite E. exact Hfull.
  - specialize (Hfull false). unfold sendEncodings in *. simpl in *. by rewrite (proj2 (Z.eqb_neq _ _) E).
Qed.
End Messages.
