(* ===== verification/BootOrder.v ===== *)
(** * The boot order editor of the VM page: static/js/instance_page.js

    The devices of the chain and the spare ones, the buttons that move them and
    the form's field. *)
From S2P Require Import Prelude JsObject JsString.

#[local] Open Scope string_scope.
#[local] Open Scope list_scope.

(** ** The boot order editor: [#boot-chain] and [#boot-spare] *)
Module BootOrder.
(** a device's row: its element, its value and whether its buttons are disabled *)
Record node := Node { element : nat; boot_value : string; up_disabled : bool; down_disabled : bool }.
Record page := Page {
  chain : list node; spare : list node;
  bootorder : string;       (* the form's field *)
  empty_hidden : bool;      (* the note of an empty chain *)
  focused : option (nat * string) }.
Inductive action := Up | Down | Remove | Add.
Definition data_boot (a : action) : string :=
  match a with Up => "up" | Down => "down" | Remove => "remove" | Add => "add" end.
Inductive effect := Throws.

#[global] Instance node_eq_dec : EqDecision node.
Proof. solve_decision. Defined.

(** the children of a parent: [previousElementSibling] and [nextElementSibling] *)
Fixpoint next_sibling (n : nat) (l : list node) : option nat :=
  match l with
  | [] => None
  | x :: l => if decide (element x = n) then head (element <$> l) else next_sibling n l
  end.
Definition previous_sibling (n : nat) (l : list node) : option nat := next_sibling n (reverse l).
Definition has (n : nat) (l : list node) : bool := bool_decide (n ∈ element <$> l).
Definition without (n : nat) (l : list node) : list node := filter (λ x, element x ≠ n) l.
Definition the_node (n : nat) (s : page) : option node :=
  head (filter (λ x, element x = n) (chain s ++ spare s)).
Fixpoint before (x : node) (r : nat) (l : list node) : list node :=
  match l with
  | [] => []
  | y :: l => if decide (element y = r) then x :: y :: l else y :: before x r l
  end.

Definition place (x : node) (c : list node) (s : page) : page :=
  Page c (without (element x) (spare s)) (bootorder s) (empty_hidden s) (focused s).
(** [chain.insertBefore(node, ref)]: at the end without a reference, an error
    when the reference is no child of the chain *)
Definition insertBefore (x : node) (ref : option nat) (s : page) : option page :=
  match ref with
  | None => Some (place x (without (element x) (chain s) ++ [x]) s)
  | Some r => if has r (chain s) then Some (place x (before x r (without (element x) (chain s))) s) else None
  end.
(** the siblings of a node, in the parent that holds it *)
Definition siblings (n : nat) (s : page) : list node := if has n (chain s) then chain s else spare s.

Definition with_buttons (i len : nat) (x : node) : node :=
  Node (element x) (boot_value x) (bool_decide (i = 0)) (bool_decide (i = len - 1)).
Definition refresh (s : page) : page :=
  Page (imap (λ i x, with_buttons i (length (chain s)) x) (chain s)) (spare s)
       (JsString.join "," (boot_value <$> chain s)) (bool_decide (0 < length (chain s))) (focused s).

Definition move (a : action) (x : node) (s : page) : option page :=
  let n := element x in
  match a with
  | Up => insertBefore x (previous_sibling n (siblings n s)) s
  | Down => match next_sibling n (siblings n s) with
            | Some m => match the_node m s with Some y => insertBefore y (Some n) s | None => None end
            | None => None   (* [insertBefore(null, node)] *)
            end
  | Remove => Some (Page (without n (chain s)) (x :: without n (spare s)) (bootorder s) (empty_hidden s) (focused s))
  | Add => Some (place x (without n (chain s) ++ [x]) s)
  end.
(** the keyboard stays on the device: on the same button, or on its first one
    that is not disabled *)
Definition same (a : action) : action := match a with Up => Up | Down => Down | Remove => Add | Add => Remove end.
Definition focus_target (a : action) (x : node) : action :=
  let disabled b := match b with Up => up_disabled x | Down => down_disabled x | _ => false end in
  if disabled (same a) then (if negb (up_disabled x) then Up else if negb (down_disabled x) then Down else Remove)
  else same a.
Definition focus (a : action) (n : nat) (s : page) : page :=
  Page (chain s) (spare s) (bootorder s) (empty_hidden s)
    (match the_node n s with Some x => Some (n, data_boot (focus_target a x)) | None => focused s end).

(** The click of a node's button: an error leaves the page as it was. *)
Inductive event := Click (a : action) (n : nat).
Definition step (s : page) (e : event) : page * list effect :=
  let '(Click a n) := e in
  match the_node n s with
  | Some x => match move a x s with Some s' => (focus a n (refresh s'), []) | None => (s, [Throws]) end
  | None => (s, [])
  end.
Definition load (c sp : list (nat * string)) : page :=
  let rows := fmap (λ d : nat * string, Node d.1 d.2 false false) in refresh (Page (rows c) (rows sp) "" false None).

(** The buttons a user can click: those the stylesheet shows in the node's
    list, when they are not disabled. *)
Definition enabled (s : page) (e : event) : Prop :=
  let '(Click a n) := e in
  match a with
  | Up => ∃ x, x ∈ chain s ∧ element x = n ∧ up_disabled x = false
  | Down => ∃ x, x ∈ chain s ∧ element x = n ∧ down_disabled x = false
  | Remove => n ∈ element <$> chain s
  | Add => n ∈ element <$> spare s
  end.

(** *** Lists of distinct rows *)
Lemma without_free n l : n ∉ element <$> l → without n l = l.
Proof.
  induction l as [|x l IH]; [done|]. unfold without in *. rewrite fmap_cons. intros [Hx Hl]%not_elem_of_cons.
  rewrite filter_cons_True by congruence. by rewrite IH.
Qed.
Lemma without_mid x l r :
  element x ∉ element <$> l → element x ∉ element <$> r → without (element x) (l ++ x :: r) = l ++ r.
Proof.
  intros Hl Hr. unfold without. rewrite filter_app, filter_cons_False by (by intros []).
  fold (without (element x) l) (without (element x) r). by rewrite !without_free.
Qed.
Lemma next_sibling_mid x l r :
  element x ∉ element <$> l → next_sibling (element x) (l ++ x :: r) = head (element <$> r).
Proof.
  induction l as [|y l IH]; simpl; [by rewrite decide_True|]. intros [Hy Hl]%not_elem_of_cons.
  rewrite decide_False by congruence. auto.
Qed.
Lemma previous_sibling_mid x l p r :
  element x ∉ element <$> r → previous_sibling (element x) (l ++ p :: x :: r) = Some (element p).
Proof.
  intros Hr. unfold previous_sibling. rewrite reverse_app, !reverse_cons, <- !app_assoc.
  simpl. rewrite next_sibling_mid; [done|]. rewrite fmap_reverse. by rewrite elem_of_reverse.
Qed.
Lemma before_mid x y l r :
  element y ∉ element <$> l → before x (element y) (l ++ y :: r) = l ++ x :: y :: r.
Proof.
  induction l as [|z l IH]; simpl; [by rewrite decide_True|]. intros [Hz Hl]%not_elem_of_cons.
  rewrite decide_False by congruence. by rewrite IH.
Qed.
Lemma has_mid x l r : has (element x) (l ++ x :: r) = true.
Proof. apply bool_decide_eq_true. rewrite fmap_app, fmap_cons. set_solver. Qed.
Lemma the_node_mid x l r s :
  chain s ++ spare s = l ++ x :: r → element x ∉ element <$> l → the_node (element x) s = Some x.
Proof.
  intros E Hl. unfold the_node. rewrite E, filter_app, filter_cons_True by done.
  assert (filter (λ y, element y = element x) l = []) as ->; [|done].
  clear E. induction l as [|y l IH]; [done|]. apply not_elem_of_cons in Hl as [Hy Hl].
  rewrite filter_cons_False by congruence. auto.
Qed.

Definition ids (s : page) : list nat := element <$> chain s ++ spare s.
Definition device (x : node) : nat * string := (element x, boot_value x).

(** *** What each move does *)
Lemma distinct l x r (sp : list node) :
  NoDup (element <$> (l ++ x :: r) ++ sp) →
  element x ∉ element <$> l ∧ element x ∉ element <$> r ∧ element x ∉ element <$> sp.
Proof.
  rewrite <- app_assoc, <- app_comm_cons, fmap_app, fmap_cons, fmap_app. intros (_ & H1 & H2)%NoDup_app.
  apply NoDup_cons in H2 as [H2 _]. specialize (H1 (element x)). set_solver.
Qed.

Lemma up_moves s l p x r :
  NoDup (ids s) → chain s = l ++ p :: x :: r →
  move Up x s = Some (Page (l ++ x :: p :: r) (spare s) (bootorder s) (empty_hidden s) (focused s)).
Proof.
  intros Hd E. unfold ids in Hd. rewrite E in Hd.
  pose proof (distinct _ _ _ _ Hd) as (Hp1 & Hp2 & Hp3).
  replace (l ++ p :: x :: r) with ((l ++ [p]) ++ x :: r) in Hd by by rewrite <- app_assoc.
  pose proof (distinct _ _ _ _ Hd) as (Hx1 & Hx2 & Hx3).
  unfold move, siblings. assert (has (element x) (chain s) = true) as ->.
  { rewrite E. replace (l ++ p :: x :: r) with ((l ++ [p]) ++ x :: r) by by rewrite <- app_assoc. apply has_mid. }
  rewrite E, previous_sibling_mid by done. unfold insertBefore. rewrite E, has_mid.
  replace (l ++ p :: x :: r) with ((l ++ [p]) ++ x :: r) by by rewrite <- app_assoc.
  rewrite without_mid by done. rewrite <- app_assoc. simpl. unfold place. by rewrite before_mid, without_free.
Qed.
Lemma down_moves s l x y r :
  NoDup (ids s) → chain s = l ++ x :: y :: r →
  move Down x s = Some (Page (l ++ y :: x :: r) (spare s) (bootorder s) (empty_hidden s) (focused s)).
Proof.
  intros Hd E. unfold ids in Hd. rewrite E in Hd.
  pose proof (distinct _ _ _ _ Hd) as (Hx1 & Hx2 & Hx3).
  replace (l ++ x :: y :: r) with ((l ++ [x]) ++ y :: r) in Hd by by rewrite <- app_assoc.
  pose proof (distinct _ _ _ _ Hd) as (Hy1 & Hy2 & Hy3).
  unfold move, siblings. assert (has (element x) (chain s) = true) as -> by (rewrite E; apply has_mid).
  rewrite E, next_sibling_mid by done. simpl.
  rewrite (the_node_mid y (l ++ [x]) (r ++ spare s)) by (rewrite ?E, <- ?app_assoc; done).
  rewrite E, has_mid. replace (l ++ x :: y :: r) with ((l ++ [x]) ++ y :: r) by by rewrite <- app_assoc.
  rewrite without_mid by done. rewrite <- app_assoc. simpl. unfold place. by rewrite before_mid, without_free.
Qed.
Lemma remove_moves s l x r :
  NoDup (ids s) → chain s = l ++ x :: r →
  move Remove x s = Some (Page (l ++ r) (x :: spare s) (bootorder s) (empty_hidden s) (focused s)).
Proof.
  intros Hd E. unfold ids in Hd. rewrite E in Hd. pose proof (distinct _ _ _ _ Hd) as (Hx1 & Hx2 & Hx3).
  unfold move. by rewrite E, without_mid, without_free by done.
Qed.
Lemma add_moves s l x r :
  NoDup (ids s) → spare s = l ++ x :: r →
  move Add x s = Some (Page (chain s ++ [x]) (l ++ r) (bootorder s) (empty_hidden s) (focused s)).
Proof.
  intros Hd E. unfold ids in Hd. rewrite E in Hd.
  assert (element x ∉ element <$> chain s ∧ element x ∉ element <$> l ∧ element x ∉ element <$> r) as (H1 & H2 & H3).
  { rewrite app_assoc in Hd. rewrite <- (app_nil_r (_ ++ _ :: _)) in Hd.
    pose proof (distinct _ _ _ _ Hd) as (Hx1 & Hx2 & _). rewrite fmap_app in Hx1. set_solver. }
  unfold move, place. rewrite E. by rewrite without_free, without_mid.
Qed.

(** What a click does to the two lists of devices. *)
Definition moved (a : action) (n : nat) (c sp c' sp' : list nat) : Prop :=
  match a with
  | Up => ∃ l p r, c = l ++ p :: n :: r ∧ c' = l ++ n :: p :: r ∧ sp' = sp
  | Down => ∃ l m r, c = l ++ n :: m :: r ∧ c' = l ++ m :: n :: r ∧ sp' = sp
  | Remove => ∃ l r, c = l ++ n :: r ∧ c' = l ++ r ∧ sp' = n :: sp
  | Add => ∃ l r, sp = l ++ n :: r ∧ sp' = l ++ r ∧ c' = c ++ [n]
  end.
(** the form as it is shown and sent *)
Definition shown (ds : list (nat * string)) (s : page) : Prop :=
  device <$> chain s ++ spare s ≡ₚ ds
  ∧ bootorder s = JsString.join "," (boot_value <$> chain s)
  ∧ empty_hidden s = bool_decide (0 < length (chain s))
  ∧ ∀ i x, chain s !! i = Some x →
      up_disabled x = bool_decide (i = 0) ∧ down_disabled x = bool_decide (i = length (chain s) - 1).

Lemma shown_ids ds s : shown ds s → NoDup ds.*1 → NoDup (ids s).
Proof.
  intros [Hp _] Hd. unfold ids. assert (element <$> chain s ++ spare s = (device <$> chain s ++ spare s).*1) as ->.
  { by rewrite <- list_fmap_compose. }
  by rewrite Hp.
Qed.
Lemma buttons_keep {B} (f : node → B) (g : nat → node → node) (l : list node) :
  (∀ i x, f (g i x) = f x) → f <$> imap g l = f <$> l.
Proof. intros H. rewrite fmap_imap. revert g H. induction l as [|x l IH]; intros g H; [done|]. cbn. f_equal; [apply H|]. apply IH. intros i. apply (H (S i)). Qed.
Lemma refresh_shown ds s : device <$> chain s ++ spare s ≡ₚ ds → shown ds (refresh s).
Proof.
  intros Hp. unfold refresh. repeat split; simpl.
  - by rewrite fmap_app, buttons_keep, <- fmap_app.
  - by rewrite buttons_keep.
  - by rewrite length_imap.
  - apply list_lookup_imap_Some in H as (y & Hy & ->). done.
  - apply list_lookup_imap_Some in H as (y & Hy & ->). by rewrite length_imap.
Qed.
Lemma focus_shown ds a n s : shown ds s → shown ds (focus a n s).
Proof. done. Qed.
Lemma refresh_elements s : element <$> chain (refresh s) = element <$> chain s ∧ spare (refresh s) = spare s.
Proof. split; [|done]. by apply buttons_keep. Qed.

(** *** A click a user can make *)
Lemma the_node_in x s : NoDup (ids s) → x ∈ chain s ++ spare s → the_node (element x) s = Some x.
Proof.
  unfold ids. intros Hd [l [r E]]%list_elem_of_split. apply (the_node_mid x l r); [done|].
  rewrite E, <- (app_nil_r (l ++ _)) in Hd. by apply distinct in Hd as (? & _).
Qed.
Lemma not_first l i (x : node) :
  l !! i = Some x → i ≠ 0 → ∃ k p r, l = k ++ p :: x :: r.
Proof.
  intros Hi H0. destruct i as [|i]; [done|]. destruct (lookup_lt_is_Some_2 l i) as [p Hp].
  { apply lookup_lt_Some in Hi. lia. }
  exists (take i l), p, (drop (S (S i)) l).
  by rewrite <- (drop_S _ _ _ Hi), <- (drop_S _ _ _ Hp), take_drop.
Qed.
Lemma not_last l i (x : node) :
  l !! i = Some x → i ≠ length l - 1 → ∃ k y r, l = k ++ x :: y :: r.
Proof.
  intros Hi H0. pose proof (lookup_lt_Some _ _ _ Hi). destruct (lookup_lt_is_Some_2 l (S i)) as [y Hy]; [lia|].
  exists (take i l), y, (drop (S (S i)) l).
  by rewrite <- (drop_S _ _ _ Hy), <- (drop_S _ _ _ Hi), take_drop.
Qed.

Lemma click_moves ds s a n :
  NoDup ds.*1 → shown ds s → enabled s (Click a n) →
  ∃ x s', the_node n s = Some x ∧ move a x s = Some s' ∧ device <$> chain s' ++ spare s' ≡ₚ ds
    ∧ moved a n (element <$> chain s) (element <$> spare s) (element <$> chain s') (element <$> spare s').
Proof.
  intros Hd Hs He. pose proof (shown_ids ds s Hs Hd) as Hn. destruct Hs as (Hp & _ & _ & Hb).
  destruct a; simpl in He.
  - destruct He as (x & Hx & <- & Hu). pose proof Hx as [i Hi]%list_elem_of_lookup.
    destruct (Hb i x Hi) as [Hb' _]. rewrite Hu in Hb'. symmetry in Hb'. apply bool_decide_eq_false in Hb'.
    destruct (not_first _ _ _ Hi Hb') as (l & p & r & E).
    exists x. eexists. split; [apply the_node_in; set_solver|]. split; [by apply (up_moves s l p x r)|]. split; simpl.
    + rewrite <- Hp, E. by rewrite (perm_swap x p r).
    + exists (element <$> l), (element p), (element <$> r). rewrite E. by rewrite !fmap_app, !fmap_cons.
  - destruct He as (x & Hx & <- & Hu). pose proof Hx as [i Hi]%list_elem_of_lookup.
    destruct (Hb i x Hi) as [_ Hb']. rewrite Hu in Hb'. symmetry in Hb'. apply bool_decide_eq_false in Hb'.
    destruct (not_last _ _ _ Hi Hb') as (l & y & r & E).
    exists x. eexists. split; [apply the_node_in; set_solver|]. split; [by apply (down_moves s l x y r)|]. split; simpl.
    + rewrite <- Hp, E. by rewrite (perm_swap y x r).
    + exists (element <$> l), (element y), (element <$> r). rewrite E. by rewrite !fmap_app, !fmap_cons.
  - apply list_elem_of_fmap in He as (x & -> & Hx). pose proof Hx as [l [r E]]%list_elem_of_split.
    exists x. eexists. split; [apply the_node_in; set_solver|]. split; [by apply (remove_moves s l x r)|]. split; simpl.
    + rewrite <- Hp, E. apply fmap_Permutation. solve_Permutation.
    + exists (element <$> l), (element <$> r). rewrite E. by rewrite !fmap_app, !fmap_cons.
  - apply list_elem_of_fmap in He as (x & -> & Hx). pose proof Hx as [l [r E]]%list_elem_of_split.
    exists x. eexists. split; [apply the_node_in; set_solver|]. split; [by apply (add_moves s l x r)|]. split; simpl.
    + rewrite <- Hp, E. apply fmap_Permutation. solve_Permutation.
    + exists (element <$> l), (element <$> r). rewrite E. by rewrite !fmap_app, !fmap_cons.
Qed.
Lemma step_click ds s a n :
  NoDup ds.*1 → shown ds s → enabled s (Click a n) →
  (step s (Click a n)).2 = [] ∧ shown ds (step s (Click a n)).1
  ∧ moved a n (element <$> chain s) (element <$> spare s)
      (element <$> chain (step s (Click a n)).1) (element <$> spare (step s (Click a n)).1).
Proof.
  intros Hd Hs He. destruct (click_moves ds s a n Hd Hs He) as (x & s' & Hx & Hm & Hp & Hmv).
  unfold step. rewrite Hx, Hm. split; [done|]. split; [by apply focus_shown, refresh_shown|].
  unfold focus. simpl. destruct (refresh_elements s') as [<- <-] in Hmv. done.
Qed.

(** The boot order that is sent is the one that is shown: whatever the user
    clicks, the two lists together hold the VM's devices, each once; the field
    is the chain's values in its order, and the note of an empty chain shows
    exactly when it is empty.  No click a user can make is an error: up swaps
    the device with the one before it, down with the one after it, remove and
    add move it between the lists, and nothing else changes its place. *)
Theorem boot_order_sent_is_shown c sp s :
  NoDup (c ++ sp).*1 → reachable enabled step (load c sp) s →
  shown (c ++ sp) s
  ∧ ∀ a n, enabled s (Click a n) →
      (step s (Click a n)).2 = []
      ∧ moved a n (element <$> chain s) (element <$> spare s)
          (element <$> chain (step s (Click a n)).1) (element <$> spare (step s (Click a n)).1).
Proof.
  intros Hd Hr. assert (shown (c ++ sp) s) as Hs.
  - revert s Hr. apply reachable_invariant.
    + apply refresh_shown. simpl. rewrite <- fmap_app, <- list_fmap_compose.
      replace (_ <$> c ++ sp) with (c ++ sp); [done|]. symmetry. rewrite <- (list_fmap_id (c ++ sp)) at 2.
      apply list_fmap_ext. by intros i [].
    + intros s [a n] Hs He. by apply step_click.
  - split; [done|]. intros a n He. by destruct (step_click _ _ _ _ Hd Hs He) as (? & _ & ?).
Qed.
Definition sample : page := load [(0, "disk:vda"); (1, "cdrom:sda")] [(2, "network:0")].
Lemma boot_order_sent_is_shown_witness :
  let s := (run step sample [Click Add 2; Click Up 2; Click Remove 0]).1 in
  bootorder s = "network:0,cdrom:sda"
  ∧ shown [(0, "disk:vda"); (1, "cdrom:sda"); (2, "network:0")] s.
Proof.
  intros s. split; [by vm_compute|].
  apply (boot_order_sent_is_shown [(0, "disk:vda"); (1, "cdrom:sda")] [(2, "network:0")]).
  - apply (bool_decide_unpack _). by vm_compute.
  - refine (reachable_step enabled step _ (run step sample [Click Add 2; Click Up 2]).1 (Click Remove 0) _ _).
    + refine (reachable_step enabled step _ (run step sample [Click Add 2]).1 (Click Up 2) _ _).
      * refine (reachable_step enabled step _ sample (Click Add 2) (reachable_init _ _ _) _).
        simpl. apply (bool_decide_unpack _). by vm_compute.
      * exists (Node 2 "network:0" false true). split; [apply (bool_decide_unpack _)|]; by vm_compute.
    + simpl. apply (bool_decide_unpack _). by vm_compute.
Defined.
End BootOrder.
