(* ===== verification/Migrate.v ===== *)
(** * The Migrate tab of the VM page: static/js/instance_page.js

    The destinations, the load of the chosen one's disks and the button that
    sends the form. *)
From S2P Require Import Prelude JsObject JsString.

#[local] Open Scope string_scope.
#[local] Open Scope list_scope.

(** ** The Migrate tab: [loadMigratePlan] and [loadMigrateTargets] *)
Module Migrate.
Record option_ := Option_ { value_ : string; disabled : bool; textContent : string }.
(** what [#migrate-plan] shows: a message, or the disks of a destination with
    whether a disk is refused there *)
Inductive plan_content :=
  | NoPlan | CheckingHosts | CheckingDisks | NoHost | HostsFailed
  | Disks (destination : string) (refused : bool)
  | DisksFailed (destination : string).
Record page := Page {
  loaded : bool;                       (* [migratePlan.dataset.loaded] *)
  options : list option_;              (* [migrateCompute] *)
  selected : nat;
  compute_disabled : bool;
  submit_disabled : bool;
  plan : plan_content;
  migrateLoading : option nat;         (* the newest load's [AbortController] *)
  next_load : nat;
  loads : gmap nat (string * bool);    (* a load in flight: its destination, aborted? *)
  hosts_loading : bool }.              (* the request of the targets is in flight *)
Definition load (l : list option_) (sel : nat) : page := Page false l sel false true NoPlan None 0 ∅ false.

Definition value (s : page) : option string := value_ <$> options s !! selected s.
Definition abort (id : option nat) (l : gmap nat (string * bool)) : gmap nat (string * bool) :=
  match id with Some id => alter (λ f, (f.1, true)) id l | None => l end.
Definition loadMigratePlan (s : page) : page :=
  match value s with
  | Some v =>
    if decide (v = "") then s
    else Page (loaded s) (options s) (selected s) (compute_disabled s) true CheckingDisks
           (Some (next_load s)) (S (next_load s)) (<[next_load s := (v, false)]> (abort (migrateLoading s) (loads s)))
           (hosts_loading s)
  | None => s
  end.
Definition loadMigrateTargets (s : page) : page :=
  Page (loaded s) (options s) (selected s) true true CheckingHosts (migrateLoading s) (next_load s) (loads s) true.
Definition with_plan (p : plan_content) (sub : bool) (ls : gmap nat (string * bool)) (s : page) : page :=
  Page (loaded s) (options s) (selected s) (compute_disabled s) sub p (migrateLoading s) (next_load s) ls (hosts_loading s).
Definition with_targets (l : list option_) (sel : nat) (dis : bool) (p : plan_content) (s : page) : page :=
  Page (loaded s) l sel dis (submit_disabled s) p (migrateLoading s) (next_load s) (loads s) false.

(** the answer's hosts that cannot be chosen, each with why *)
Definition mark (refused : obj string) (o : option_) : option_ :=
  match JsObj.get (value_ o) refused with
  | Some why => if decide (why = "") then o else Option_ (value_ o) true why
  | None => o
  end.
(** [select.value = v] *)
Definition select (v : string) (l : list option_) (sel : nat) : nat :=
  match list_find (λ o, value_ o = v) l with Some (i, _) => i | None => sel end.
Definition targets_answered (refused : obj string) (s : page) : page :=
  let l := mark refused <$> options s in
  match list_find (λ o, disabled o = false) l with
  | None => with_targets l (selected s) false NoHost s
  | Some (_, first) =>
    let sel := if default false (disabled <$> l !! selected s) then select (value_ first) l (selected s) else selected s in
    loadMigratePlan (with_targets l sel false (plan s) s)
  end.

Inductive event :=
  | TabShown                                   (* shown.bs.tab *)
  | Change (i : nat)                           (* another option is chosen *)
  | TargetsAnswered (refused : obj string) | TargetsFailed
  | PlanAnswered (id : nat) (refused : bool)   (* refused: the answer holds a [data-refused] *)
  | PlanFailed (id : nat).                     (* also the error of an aborted load *)
Definition step (s : page) (e : event) : page :=
  match e with
  | TabShown =>
    if loaded s then s
    else loadMigrateTargets (Page true (options s) (selected s) (compute_disabled s) (submit_disabled s) (plan s)
           (migrateLoading s) (next_load s) (loads s) (hosts_loading s))
  | Change i =>
    loadMigratePlan (Page (loaded s) (options s) i (compute_disabled s) (submit_disabled s) (plan s)
      (migrateLoading s) (next_load s) (loads s) (hosts_loading s))
  | TargetsAnswered refused => targets_answered refused s
  | TargetsFailed => with_targets (options s) (selected s) (compute_disabled s) HostsFailed s
  | PlanAnswered id refused =>
    match loads s !! id with
    | Some (v, _) => with_plan (Disks v refused) refused (delete id (loads s)) s
    | None => s
    end
  | PlanFailed id =>
    match loads s !! id with
    | Some (_, true) => with_plan (plan s) (submit_disabled s) (delete id (loads s)) s
    | Some (v, false) => with_plan (DisksFailed v) false (delete id (loads s)) s
    | None => s
    end
  end.
(** the select is used on its tab, when it and the option can be used; an
    aborted load only fails *)
Definition enabled (s : page) (e : event) : Prop :=
  match e with
  | TabShown => True
  | Change i => loaded s = true ∧ compute_disabled s = false ∧ disabled <$> options s !! i = Some false
  | TargetsAnswered _ | TargetsFailed => hosts_loading s = true
  | PlanAnswered id _ => ∃ v, loads s !! id = Some (v, false)
  | PlanFailed id => is_Some (loads s !! id)
  end.

(** The chosen destination can take the VM as far as the hosts said. *)
Definition chosen (v : string) (s : page) : Prop :=
  ∃ o, options s !! selected s = Some o ∧ value_ o = v ∧ disabled o = false.
(** The load that is not aborted, if any, is for the chosen destination. *)
Record inv (s : page) : Prop := Inv {
  i_values : Forall (λ o, value_ o ≠ "") (options s);
  i_selected : options s ≠ [] → selected s < length (options s);
  i_fresh : ∀ id f, loads s !! id = Some f → id < next_load s;
  i_before : loaded s = false → Forall (λ o, disabled o = false) (options s) ∧ compute_disabled s = false
      ∧ hosts_loading s = false ∧ plan s = NoPlan ∧ submit_disabled s = true ∧ loads s = ∅;
  i_hosts : hosts_loading s = true → Forall (λ o, disabled o = false) (options s) ∧ compute_disabled s = true
      ∧ loaded s = true ∧ plan s = CheckingHosts ∧ submit_disabled s = true ∧ loads s = ∅;
  i_load : ∀ id v, loads s !! id = Some (v, false) →
      migrateLoading s = Some id ∧ plan s = CheckingDisks ∧ submit_disabled s = true ∧ chosen v s;
  i_checking : plan s = CheckingDisks → ∃ id v, loads s !! id = Some (v, false);
  i_submit : submit_disabled s = false → ∃ v, chosen v s ∧ (plan s = Disks v false ∨ plan s = DisksFailed v) }.

Lemma abort_live id l i v : abort id l !! i = Some (v, false) → l !! i = Some (v, false) ∧ id ≠ Some i.
Proof.
  destruct id as [id|]; [|done]. simpl. destruct (decide (id = i)) as [->|Hn].
  - rewrite lookup_alter_eq. destruct (l !! i) as [[]|]; simpl; by intros [=].
  - rewrite lookup_alter_ne by done. split; [done|congruence].
Qed.
Lemma abort_some id l i f : abort id l !! i = Some f → is_Some (l !! i).
Proof.
  destruct id as [id|]; [|done]. simpl. destruct (decide (id = i)) as [->|Hn].
  - rewrite lookup_alter_eq. by destruct (l !! i).
  - by rewrite lookup_alter_ne.
Qed.

(** A load for a destination that can be chosen: the load before it is aborted. *)
Lemma load_inv s v :
  Forall (λ o, value_ o ≠ "") (options s) → chosen v s → loaded s = true → hosts_loading s = false →
  (∀ id f, loads s !! id = Some f → id < next_load s) →
  (∀ id v, loads s !! id = Some (v, false) → migrateLoading s = Some id) →
  inv (loadMigratePlan s).
Proof.
  intros Hv (o & Ho & <- & Hd) Hl Hh Hf Hlive. unfold loadMigratePlan, value. rewrite Ho. simpl.
  rewrite Forall_forall in Hv. rewrite decide_False by (apply Hv, list_elem_of_lookup; eauto).
  split; simpl; try congruence.
  - by apply Forall_forall.
  - intros _. by eapply lookup_lt_Some.
  - intros id f [[<- _]|[_ Ha]]%lookup_insert_Some; [lia|]. apply abort_some in Ha as [f' Ha]. apply Hf in Ha. lia.
  - intros id v [[<- [=<-]]|[_ [Ha Hid]%abort_live]]%lookup_insert_Some; [|by apply Hlive in Ha].
    split_and!; [done..|]. by exists o.
  - intros _. exists (next_load s). eexists. by rewrite lookup_insert_eq.
Qed.

Lemma mark_value refused o : value_ (mark refused o) = value_ o.
Proof. unfold mark. destruct (JsObj.get _ _); [|done]. by case_decide. Qed.
Lemma select_enabled refused l first sel :
  Forall (λ o, disabled o = false) l → first ∈ mark refused <$> l → disabled first = false →
  ∃ o, (mark refused <$> l) !! select (value_ first) (mark refused <$> l) sel = Some o ∧ value_ o = value_ first ∧ disabled o = false.
Proof.
  intros Hl Hin Hd. unfold select. destruct (list_find _ _) as [[i o]|] eqn:Hf.
  - apply list_find_Some in Hf as (Hi & Hv & _). exists o. split_and!; [done..|].
    apply list_lookup_fmap_Some in Hi as (o' & -> & Ho'). apply list_elem_of_fmap in Hin as (f' & -> & Hf').
    rewrite Forall_forall in Hl. pose proof (Hl o' ltac:(apply list_elem_of_lookup; eauto)) as H1.
    pose proof (Hl f' Hf') as H2. rewrite !mark_value in Hv. revert Hd. unfold mark. rewrite Hv.
    destruct (JsObj.get _ _); [by case_decide|]. done.
  - apply list_find_None in Hf. rewrite Forall_forall in Hf. by destruct (Hf first Hin).
Qed.
Lemma targets_inv refused s :
  inv s → hosts_loading s = true → inv (targets_answered refused s).
Proof.
  intros [Hv Hsel Hf _ Hh _ _ _] Hhl. destruct (Hh Hhl) as (Hd & Hc & Hl & Hp & Hs & Hls). unfold targets_answered.
  assert (Forall (λ o, value_ o ≠ "") (mark refused <$> options s)) as Hv'.
  { apply Forall_fmap. eapply Forall_impl; [exact Hv|]. intros o Ho. unfold compose. by rewrite mark_value. }
  destruct (list_find _ _) as [[i first]|] eqn:Hfind.
  - apply list_find_Some in Hfind as (Hi & Hdi & _).
    assert (∃ v, chosen v (with_targets (mark refused <$> options s)
      (if default false (disabled <$> (mark refused <$> options s) !! selected s)
       then select (value_ first) (mark refused <$> options s) (selected s) else selected s) false (plan s) s)) as [v Hch].
    { unfold chosen. simpl. destruct (lookup_lt_is_Some_2 (mark refused <$> options s) (selected s)) as [o Ho];
        [rewrite length_fmap; apply Hsel; intros E; by rewrite E in Hi|]. rewrite Ho. simpl. destruct (disabled o) eqn:Ed.
      - destruct (select_enabled refused (options s) first (selected s)) as (o' & ? & ? & ?); [done| |done|by eauto].
        apply list_elem_of_lookup. eauto.
      - by eauto. }
    apply (load_inv _ v); simpl; [done|done|done|done| |]; rewrite Hls; intros ??; by rewrite lookup_empty.
  - split; simpl; try congruence; rewrite ?Hls, ?length_fmap; try (intros ??; by rewrite lookup_empty).
    intros Hn. apply Hsel. intros E. apply Hn. by rewrite E.
Qed.

(** A load's end: only it showed that the disks were being checked. *)
Lemma plan_end id p sub v s :
  inv s → loads s !! id = Some (v, false) → p = Disks v sub ∨ p = DisksFailed v ∧ sub = false →
  inv (with_plan p sub (delete id (loads s)) s).
Proof.
  intros [Hv Hsel Hf Hb Hh Hl Hc Hs] Hid Hp. destruct (Hl _ _ Hid) as (Hm & Hplan & Hsub & Hch).
  assert (∀ i f, delete id (loads s) !! i = Some (f, false) → False) as Hnone.
  { intros i f [Hn Hi]%lookup_delete_Some. apply Hl in Hi as [Hi _]. congruence. }
  split; simpl; try done.
  - intros i f [_ Hi]%lookup_delete_Some. eauto.
  - intros Hlo. destruct (Hb Hlo) as (_ & _ & _ & _ & _ & E). by rewrite E, lookup_empty in Hid.
  - intros Hlo. destruct (Hh Hlo) as (_ & _ & _ & _ & _ & E). by rewrite E, lookup_empty in Hid.
  - intros i f Hi. by destruct (Hnone i f).
  - intros ->. by destruct Hp as [|[]].
  - intros ->. exists v. split; [done|]. by destruct Hp as [->|[-> _]]; [left|right].
Qed.

Lemma step_keeps s e : inv s → enabled s e → inv (step s e).
Proof.
  intros Hi He. pose proof Hi as [Hv Hsel Hf Hb Hh Hl Hc Hs]. destruct e as [|i|refused| |id refused|id]; simpl in *.
  - destruct (loaded s) eqn:El; [done|]. destruct (Hb eq_refl) as (Hd & _ & _ & _ & _ & E).
    split; simpl; try congruence; try done; rewrite ?E; intros ??; by rewrite lookup_empty.
  - destruct He as (Hlo & Hcd & Ho). destruct (options s !! i) as [o|] eqn:Hoi; [|done]. injection Ho as Ho.
    apply (load_inv _ (value_ o)); simpl; try done.
    + by exists o.
    + destruct (hosts_loading s); [|done]. destruct (Hh eq_refl) as (_ & ? & _). congruence.
    + intros id v Hid. by apply Hl in Hid as [? _].
  - by apply targets_inv.
  - destruct (Hh He) as (Hd & Hcd & Hlo & Hp & Hsub & E).
    split; simpl; try congruence; try done; rewrite ?E; intros ??; by rewrite lookup_empty.
  - destruct He as [v Hid]. rewrite Hid. apply (plan_end id _ _ v); auto.
  - destruct He as [[v []] Hid]; rewrite Hid; [|apply (plan_end id _ _ v); auto].
    assert (∀ j w, delete id (loads s) !! j = Some (w, false) ↔ loads s !! j = Some (w, false)) as Hdel.
    { intros j w. rewrite lookup_delete_Some. split; [by intros []|]. intros Hj. split; [congruence|done]. }
    split; simpl; try done.
    + intros j f [_ Hj]%lookup_delete_Some. eauto.
    + intros Hlo. destruct (Hb Hlo) as (? & ? & ? & ? & ? & E). by rewrite E, lookup_empty in Hid.
    + intros Hlo. destruct (Hh Hlo) as (? & ? & ? & ? & ? & E). by rewrite E, lookup_empty in Hid.
    + intros j w Hj%Hdel. by apply Hl.
    + intros Hp. destruct (Hc Hp) as (j & w & Hj). exists j, w. by apply Hdel.
Qed.

(** C34: The VM is only sent where its disks were checked: in every order in
    which the tab is opened, destinations are chosen and requests are answered,
    the Migrate button works only while the disks shown are those of the chosen
    destination and none is refused there (or their check failed for it, and
    the job repeats it), a destination the hosts did not refuse.  While disks
    are being checked, the one load that is not aborted is for the chosen
    destination, so that an older answer never comes in between. *)
Theorem migrate_sends_what_was_checked l sel s :
  Forall (λ o, value_ o ≠ "" ∧ disabled o = false) l → (l ≠ [] → sel < length l) →
  reachable enabled (silent step) (load l sel) s →
  (submit_disabled s = false → ∃ v, chosen v s ∧ (plan s = Disks v false ∨ plan s = DisksFailed v))
  ∧ (plan s = CheckingDisks → ∃ id v, loads s !! id = Some (v, false))
  ∧ ∀ id v, loads s !! id = Some (v, false) →
      chosen v s ∧ ∀ id' v', loads s !! id' = Some (v', false) → id' = id.
Proof.
  intros Hl Hsel Hr. assert (inv s) as [_ _ _ _ _ Hld Hc Hs].
  { revert s Hr. apply reachable_invariant; [|by intros s e; apply step_keeps].
    apply Forall_and in Hl as [Hv Hd]. split; simpl; try done; intros ??; by rewrite lookup_empty. }
  split_and!; [done..|]. intros id v Hid. destruct (Hld _ _ Hid) as (Hm & _ & _ & Hch). split; [done|].
  intros id' v' Hid'. destruct (Hld _ _ Hid') as (Hm' & _). congruence.
Qed.
Definition hosts : list option_ := [Option_ "1" false "kvm1"; Option_ "2" false "kvm2"; Option_ "3" false "kvm3"].
(** the first host is down; the answer for the second comes after the third was chosen *)
Lemma migrate_sends_what_was_checked_witness :
  ∃ s, reachable enabled (silent step) (load hosts 0) s ∧ submit_disabled s = false
    ∧ ∃ v, chosen v s ∧ (plan s = Disks v false ∨ plan s = DisksFailed v).
Proof.
  assert (∃ s, reachable enabled (silent step) (load hosts 0) s ∧ submit_disabled s = false) as (s & Hr & Hs).
  { eexists. split.
    - eapply reachable_silent; [eapply reachable_silent; [eapply reachable_silent; [eapply reachable_silent;
        [eapply reachable_silent; [apply reachable_init| |]| |]| |]| |]| |].
      + instantiate (1 := TabShown). done.
      + reflexivity.
      + instantiate (1 := TargetsAnswered [("1", "kvm1: not reachable")]). done.
      + reflexivity.
      + instantiate (1 := Change 2). by split.
      + reflexivity.
      + instantiate (1 := PlanFailed 0). vm_compute. by eexists.
      + reflexivity.
      + instantiate (1 := PlanAnswered 1 false). exists "3". by vm_compute.
      + reflexivity.
    - by vm_compute. }
  exists s. split; [done|]. split; [done|].
  apply (migrate_sends_what_was_checked hosts 0); [|simpl; lia|done|done].
  repeat constructor; simpl; done.
Defined.
End Migrate.
