(* ===== verification/Connection.v ===== *)
(** * noVNC: the connection, static/js/novnc/core/rfb.js

    The states of an [RFB] object, what moves it from one to the next, and the
    events it gives the page.  The socket's [open], [message] and [close] events,
    the timer of the disconnection, [disconnect()] and the handlers' [_fail] and
    end of the handshake are the machine's events. *)
From S2P Require Import Prelude.

#[local] Open Scope list_scope.

Module Connection.
(** [_rfbConnectionState]; the first is [''] *)
Inductive state := Initial | Connecting | Connected | Disconnecting | Disconnected.
#[export] Instance state_eq_dec : EqDecision state.
Proof. solve_decision. Defined.

Record connection := Connection_ {
  rfbConnectionState : state;
  handshaking : bool;              (* [_rfbInitState] is not [''] any more *)
  cleanDisconnect : bool;
  disconnTimer : bool;
  on_open : bool; on_message : bool; on_close : bool;   (* the socket's handlers *)
  attached : bool }.               (* the screen's listeners, the keyboard *)
Inductive effect :=
  | OpenSocket | CloseSocket
  | Connect | Disconnect (clean : bool).   (* dispatched to the page *)
#[export] Instance effect_eq_dec : EqDecision effect.
Proof. solve_decision. Defined.

Definition set_state (st : state) (c : connection) : connection :=
  Connection_ st (handshaking c) (cleanDisconnect c) (disconnTimer c) (on_open c) (on_message c) (on_close c) (attached c).
Definition set_timer (t : bool) (c : connection) : connection :=
  Connection_ (rfbConnectionState c) (handshaking c) (cleanDisconnect c) t (on_open c) (on_message c) (on_close c) (attached c).
Definition set_attached (a : bool) (c : connection) : connection :=
  Connection_ (rfbConnectionState c) (handshaking c) (cleanDisconnect c) (disconnTimer c) (on_open c) (on_message c) (on_close c) a.
Definition set_handshaking (c : connection) : connection :=
  Connection_ (rfbConnectionState c) true (cleanDisconnect c) (disconnTimer c) (on_open c) (on_message c) (on_close c) (attached c).
Definition set_unclean (c : connection) : connection :=
  Connection_ (rfbConnectionState c) (handshaking c) false (disconnTimer c) (on_open c) (on_message c) (on_close c) (attached c).
Definition off_messages (c : connection) : connection :=
  Connection_ (rfbConnectionState c) (handshaking c) (cleanDisconnect c) (disconnTimer c) false false (on_close c) (attached c).
Definition off_close (c : connection) : connection :=
  Connection_ (rfbConnectionState c) (handshaking c) (cleanDisconnect c) (disconnTimer c) (on_open c) (on_message c) false (attached c).

#[local] Open Scope handler_scope.
(** the transitions [_updateConnectionState] makes; it refuses the others *)
Definition proper (old new : state) : bool :=
  match new, old with
  | Connected, Connecting | Disconnected, Disconnecting | Connecting, Initial
  | Disconnecting, Connected | Disconnecting, Connecting => true
  | _, _ => false
  end.
(** [_connect] to a URL; [_disconnect] *)
Definition connect : handler connection effect := emit OpenSocket ▸ modify (set_attached true).
Definition disconnect_ : handler connection effect := modify (set_attached false) ▸ emit CloseSocket.
Definition updateConnectionState (new : state) : handler connection effect := with_state (λ c,
  if negb (proper (rfbConnectionState c) new) then skip
  else
    modify (set_state new) ▸
    (if disconnTimer c && negb (bool_decide (new = Disconnecting))
     then modify (set_timer false) ▸ modify off_close else skip) ▸
    match new with
    | Initial => skip
    | Connecting => connect
    | Connected => emit Connect
    | Disconnecting => disconnect_ ▸ modify (set_timer true)
    | Disconnected => with_state (λ c, emit (Disconnect (cleanDisconnect c)))
    end).
Definition fail : handler connection effect :=
  modify set_unclean ▸ updateConnectionState Disconnecting ▸ updateConnectionState Disconnected.
Definition socketOpen : handler connection effect := with_state (λ c,
  if bool_decide (rfbConnectionState c = Connecting) && negb (handshaking c)
  then modify set_handshaking else fail).
Definition socketClose : handler connection effect := with_state (λ c,
  match rfbConnectionState c with
  | Connecting => fail
  | Connected => updateConnectionState Disconnecting ▸ updateConnectionState Disconnected
  | Disconnecting => updateConnectionState Disconnected
  | Disconnected | Initial => fail
  end ▸ modify off_close).
Definition disconnect : handler connection effect :=
  updateConnectionState Disconnecting ▸ modify off_messages.
Definition constructor : connection * list effect :=
  updateConnectionState Connecting (Connection_ Initial false true false true true true false).

(** [Established]: the handshake ends; [Failure]: a handler calls [_fail] *)
Inductive event := Open | Close | UserDisconnect | Timeout | Established | Failure.
Definition enabled (c : connection) (e : event) : Prop :=
  match e with
  | Open => on_open c = true
  | Close => on_close c = true
  | Timeout => disconnTimer c = true
  | UserDisconnect | Established | Failure => True
  end.
Definition step (c : connection) (e : event) : connection * list effect :=
  match e with
  | Open => socketOpen c
  | Close => socketClose c
  | UserDisconnect => disconnect c
  | Timeout => updateConnectionState Disconnected c
  | Established => updateConnectionState Connected c
  | Failure => fail c
  end.

(** What the page is told in the state [c]. *)
Definition is_told (o : effect) : bool := match o with Connect | Disconnect _ => true | _ => false end.
Definition told (os : list effect) : list effect := filter is_told os.
(** whether an event runs [_fail] while the page still waits for the end *)
Definition fails (c : connection) (e : event) : bool :=
  match e with
  | Failure => true
  | Open => negb (bool_decide (rfbConnectionState c = Connecting) && negb (handshaking c))
  | Close => match rfbConnectionState c with Connected | Disconnecting => false | _ => true end
  | _ => false
  end.
Fixpoint failed (c : connection) (es : list event) : bool :=
  match es with [] => false | e :: es => fails c e || failed (step c e).1 es end.
(** the timer, the socket and the screen in each state, and what the page was told *)
Record good (c : connection) (os : list effect) : Prop := Good {
  timer_disconnecting : disconnTimer c = bool_decide (rfbConnectionState c = Disconnecting);
  told_once : match rfbConnectionState c with
    | Initial => False
    | Connecting => told os = []
    | Connected => told os = [Connect]
    | Disconnecting => told os = [] ∨ told os = [Connect]
    | Disconnected => ∃ b, told os = [Disconnect b] ∨ told os = [Connect; Disconnect b]
    end;
  screen_attached : attached c = bool_decide (rfbConnectionState c = Connecting ∨ rfbConnectionState c = Connected);
  socket_closed : bool_decide (CloseSocket ∈ os) = negb (attached c);
  close_heard : on_close c = negb (bool_decide (rfbConnectionState c = Disconnected)) }.

Lemma told_app os1 os2 : told (os1 ++ os2) = told os1 ++ told os2.
Proof. apply filter_app. Qed.
Lemma closed_app os1 os2 : bool_decide (CloseSocket ∈ os1 ++ os2) = bool_decide (CloseSocket ∈ os1) || bool_decide (CloseSocket ∈ os2).
Proof. rewrite <- bool_decide_or. apply bool_decide_ext. by rewrite elem_of_app. Qed.
Lemma connection_step_good c os e : good c os → enabled c e → good (step c e).1 (os ++ (step c e).2).
Proof.
  destruct c as [st h cl t o m k a]. intros [H1 H2 H3 H4 H5] He. simpl in *. subst t a k.
  destruct st; try done; destruct e; simpl in He |- *;
    try discriminate; destruct h, cl, o; split; simpl;
    rewrite ?told_app, ?closed_app, ?app_nil_r; simpl; try rewrite H4; try done;
    try (destruct H2 as [H2|H2]); try (destruct H2 as (b & [H2|H2])); rewrite ?H2; simpl; eauto.
Qed.
Lemma connection_step_over c os e : good c os → enabled c e → rfbConnectionState c = Disconnected →
  (step c e).2 = [] ∧ rfbConnectionState (step c e).1 = Disconnected.
Proof.
  destruct c as [st h cl t o m k a]. intros [H1 H2 H3 H4 H5] He ?. simpl in *. subst st t a k.
  destruct e; simpl in He |- *; try discriminate; by destruct h, o.
Qed.
Lemma connection_step_clean c os e : good c os → enabled c e →
  (∀ b, Disconnect b ∈ (step c e).2 → b = cleanDisconnect (step c e).1)
  ∧ cleanDisconnect (step c e).1 = cleanDisconnect c && negb (fails c e).
Proof.
  destruct c as [st h cl t o m k a]. intros [H1 H2 H3 H4 H5] He. simpl in *. subst t a k.
  destruct st; try done; destruct e; simpl in He; try discriminate; destruct h, cl, o; simpl;
    (split; [intros b; set_solver|done]).
Qed.
Lemma connection_step_timeout c os : good c os → rfbConnectionState c = Disconnecting →
  enabled c Timeout ∧ (step c Timeout).2 = [Disconnect (cleanDisconnect c)].
Proof.
  destruct c as [st h cl t o m k a]. intros [H1 H2 H3 H4 H5] ?. simpl in *. subst. by split.
Qed.
Lemma connection_failed_snoc c es e : failed c (es ++ [e]) = failed c es || fails (run step c es).1 e.
Proof.
  revert c. induction es as [|e' es IH]; intros c; simpl; [by rewrite orb_false_r|].
  rewrite IH, orb_assoc. destruct (step c e') as [c1 o1]; simpl. by destruct (run step c1 es).
Qed.

(** C27: Whatever the socket, the timer, the page and the handlers do: a
    connection tells the page [connect] at most once and [disconnect] exactly
    once, when it comes to [Disconnected], a state it does not leave, in which
    it opens and closes no socket and tells neither again; the end is [clean]
    exactly when nothing failed; the socket is closed and the screen detached
    from the moment it disconnects, and a disconnecting connection has the
    timer that ends it if the socket never says that it closed.  (These are the
    transitions' own effects.  What the message loop still tells the page about
    messages left in the queue when a handler fails is ServerCases'
    [messages_after_a_failure].) *)
Theorem connection_ends_once es c os :
  trace enabled step constructor.1 es c os →
  good c (constructor.2 ++ os)
  ∧ (rfbConnectionState c = Disconnecting → enabled c Timeout ∧ ∃ b, (step c Timeout).2 = [Disconnect b])
  ∧ ∀ e, enabled c e →
    (rfbConnectionState c = Disconnected → (step c e).2 = [] ∧ rfbConnectionState (step c e).1 = Disconnected)
    ∧ ∀ b, Disconnect b ∈ (step c e).2 → b = negb (failed constructor.1 (es ++ [e])).
Proof.
  intros Ht.
  assert (good c (constructor.2 ++ os) ∧ cleanDisconnect c = negb (failed constructor.1 es)) as [Hg Hc].
  { revert es c os Ht. apply trace_snoc_ind; [split; [split|]; by vm_compute|].
    intros es c os e Ht [Hg Hc] He. rewrite app_assoc. split; [by apply connection_step_good|].
    rewrite connection_failed_snoc, (trace_run _ _ _ _ _ _ Ht). simpl. rewrite (proj2 (connection_step_clean _ _ _ Hg He)), Hc. by rewrite negb_orb. }
  split; [done|]. split; [intros Hd; destruct (connection_step_timeout _ _ Hg Hd) as [? ?]; eauto|].
  intros e He. split; [by eapply connection_step_over|].
  intros b Hb. rewrite (proj1 (connection_step_clean _ _ _ Hg He) b Hb). rewrite connection_failed_snoc, (trace_run _ _ _ _ _ _ Ht). simpl.
  by rewrite (proj2 (connection_step_clean _ _ _ Hg He)), Hc, negb_orb.
Qed.
(** the server goes away in the handshake; the page closes a connection that works *)
Lemma connection_ends_once_witness :
  let es := [Open; Established; UserDisconnect; Failure] in
  let c := (run step constructor.1 es).1 in let os := (run step constructor.1 es).2 in
  good c (constructor.2 ++ os) ∧ told os = [Connect; Disconnect false].
Proof.
  intros es c os. split; [|by vm_compute].
  apply (connection_ends_once es c os).
  exact (run_trace enabled step constructor.1 es ltac:(by vm_compute)).
Defined.
End Connection.
