(* ===== verification/Utf8.v ===== *)
(** * Texts and their bytes: static/js/novnc/core/util/strings.js

    A text is the list of its code points; a lone surrogate is one of its own.
    A string of bytes is the list of them. *)
From S2P Require Import Prelude.

#[local] Open Scope list_scope.
#[local] Open Scope Z_scope.

Module Utf8.
(** [encodeURIComponent] of one character; none: a surrogate, it throws *)
Definition encode_char (c : Z) : option (list Z) :=
  if c <? 128 then Some [c]
  else if c <? 2048 then Some [192 + c / 64; 128 + c mod 64]
  else if (55296 <=? c) && (c <? 57344) then None
  else if c <? 65536 then Some [224 + c / 4096; 128 + c / 64 mod 64; 128 + c mod 64]
  else Some [240 + c / 262144; 128 + c / 4096 mod 64; 128 + c / 64 mod 64; 128 + c mod 64].
Fixpoint encodeUTF8 (text : list Z) : option (list Z) :=
  match text with
  | [] => Some []
  | c :: text => b ← encode_char c; bs ← encodeUTF8 text; Some (b ++ bs)
  end.
(** [decodeURIComponent] of the bytes, escaped; none: it throws *)
Definition cont (b : Z) : bool := (128 <=? b) && (b <? 192).
Fixpoint decode (bytes : list Z) : option (list Z) :=
  match bytes with
  | [] => Some []
  | b0 :: l =>
    if b0 <? 128 then cons b0 <$> decode l
    else if (192 <=? b0) && (b0 <? 224) then
      match l with
      | b1 :: l =>
        let c := (b0 - 192) * 64 + (b1 - 128) in
        if cont b1 && (128 <=? c) then cons c <$> decode l else None
      | _ => None
      end
    else if (224 <=? b0) && (b0 <? 240) then
      match l with
      | b1 :: b2 :: l =>
        let c := (b0 - 224) * 4096 + (b1 - 128) * 64 + (b2 - 128) in
        if cont b1 && cont b2 && (2048 <=? c) && negb ((55296 <=? c) && (c <? 57344)) then cons c <$> decode l else None
      | _ => None
      end
    else if (240 <=? b0) && (b0 <? 248) then
      match l with
      | b1 :: b2 :: b3 :: l =>
        let c := (b0 - 240) * 262144 + (b1 - 128) * 4096 + (b2 - 128) * 64 + (b3 - 128) in
        if cont b1 && cont b2 && cont b3 && (65536 <=? c) && (c <? 1114112) then cons c <$> decode l else None
      | _ => None
      end
    else None
  end.
(** a name that is not UTF-8 may be kept as it is; none: it throws *)
Definition decodeUTF8 (utf8string : list Z) (allowLatin1 : bool) : option (list Z) :=
  match decode utf8string with
  | Some t => Some t
  | None => if allowLatin1 then Some utf8string else None
  end.

Definition scalar (c : Z) : Prop := 0 <= c < 1114112 ∧ ¬ 55296 <= c < 57344.
#[local] Ltac arith := Z.to_euclidean_division_equations; lia.
#[local] Ltac by_tests := repeat match goal with
  | |- context [?a <? ?b] => destruct (Z.ltb_spec a b); try lia
  | |- context [?a <=? ?b] => destruct (Z.leb_spec a b); try lia
  end; cbn [andb negb].

Lemma decode_char c bs l : scalar c → encode_char c = Some bs → decode (bs ++ l) = cons c <$> decode l.
Proof.
  intros [Hc Hs]. unfold encode_char.
  destruct (Z.ltb_spec c 128); [intros [= <-]; simpl; by rewrite (proj2 (Z.ltb_lt _ _))|].
  destruct (Z.ltb_spec c 2048); [|destruct ((55296 <=? c) && (c <? 57344)) eqn:E; [done|]; destruct (Z.ltb_spec c 65536)];
    intros [= <-]; cbn [app decode]; unfold cont.
  - replace ((192 + c / 64 - 192) * 64 + (128 + c mod 64 - 128)) with c by arith.
    assert (0 <= c / 64 < 32) by arith. pose proof (Z.mod_pos_bound c 64 eq_refl).
    generalize dependent (c / 64). generalize dependent (c mod 64). intros. by_tests. done.
  - replace ((224 + c / 4096 - 224) * 4096 + (128 + c / 64 mod 64 - 128) * 64 + (128 + c mod 64 - 128)) with c by arith.
    assert (0 <= c / 4096 < 16) by arith. pose proof (Z.mod_pos_bound c 64 eq_refl). pose proof (Z.mod_pos_bound (c / 64) 64 eq_refl).
    generalize dependent (c / 4096). generalize dependent (c mod 64). generalize dependent (c / 64 mod 64). intros. by_tests; done.
  - replace ((240 + c / 262144 - 240) * 262144 + (128 + c / 4096 mod 64 - 128) * 4096 + (128 + c / 64 mod 64 - 128) * 64 + (128 + c mod 64 - 128))
      with c by arith.
    assert (0 <= c / 262144 < 5) by arith. pose proof (Z.mod_pos_bound c 64 eq_refl). pose proof (Z.mod_pos_bound (c / 64) 64 eq_refl).
    pose proof (Z.mod_pos_bound (c / 4096) 64 eq_refl).
    generalize dependent (c / 262144). generalize dependent (c mod 64). generalize dependent (c / 64 mod 64).
    generalize dependent (c / 4096 mod 64). intros. by_tests; done.
Qed.
Lemma encode_scalar c : scalar c → ∃ bs, encode_char c = Some bs ∧ Forall (λ b, 0 <= b < 256) bs ∧ bs ≠ [].
Proof.
  intros [Hc Hs]. unfold encode_char. 
  destruct (Z.ltb_spec c 128); [|destruct (Z.ltb_spec c 2048); [|destruct ((55296 <=? c) && (c <? 57344)) eqn:E; [lia|]; destruct (Z.ltb_spec c 65536)]];
    (eexists; split_and!; [done| |done]); repeat constructor; arith.
Qed.
(** only the encoding of a text decodes to it *)
Lemma decode_is_encoded bs text :
  Forall (λ b, 0 <= b < 256) bs → decodeUTF8 bs false = Some text → encodeUTF8 text = Some bs.
Proof.
  intros Hb Hd. assert (decode bs = Some text) as Hd' by (revert Hd; unfold decodeUTF8; by destruct (decode bs)). clear Hd.
  remember (length bs) as n eqn:Hn. revert bs text Hn Hb Hd'. induction (lt_wf n) as [n _ IH]. intros bs text -> Hb Hd.
  assert (∀ c cs l, bs = cs ++ l → cs ≠ [] → cons c <$> decode l = Some text → encode_char c = Some cs → encodeUTF8 text = Some bs) as Hstep.
  { intros c cs l -> Hne Hl Hc. destruct (decode l) as [t|] eqn:El; [|done]. injection Hl as <-. simpl. rewrite Hc. simpl.
    rewrite (IH (length l)) with (bs := l) (text := t); [done| |done| |done].
    - rewrite length_app. destruct cs; [done|simpl; lia].
    - by apply Forall_app in Hb as [_ ?]. }
  destruct bs as [|b0 l]; simpl in Hd; [by injection Hd as <-|].
  apply Forall_cons in Hb as [Hb0 Hb]. unfold cont in Hd.
  destruct (Z.ltb_spec b0 128).
  { apply (Hstep b0 [b0] l); [done..|]. unfold encode_char. by rewrite (proj2 (Z.ltb_lt _ _)). }
  destruct ((192 <=? b0) && (b0 <? 224)) eqn:E2; [|destruct ((224 <=? b0) && (b0 <? 240)) eqn:E3;
    [|destruct ((240 <=? b0) && (b0 <? 248)) eqn:E4; [|done]]].
  - destruct l as [|b1 l]; [done|]. apply Forall_cons in Hb as [Hb1 Hb].
    match type of Hd with (if ?t then _ else _) = _ => destruct t eqn:Et end; [|done].
    refine (Hstep _ [b0; b1] l eq_refl ltac:(done) Hd _). set (c := _ + _). assert (128 <= c < 2048) by (unfold c; lia).
    unfold encode_char. rewrite (proj2 (Z.ltb_ge c 128)), (proj2 (Z.ltb_lt c 2048)) by lia. do 2 f_equal; [|f_equal]; unfold c; arith.
  - destruct l as [|b1 [|b2 l]]; [done|done|]. apply Forall_cons in Hb as [Hb1 Hb]. apply Forall_cons in Hb as [Hb2 Hb].
    match type of Hd with (if ?t then _ else _) = _ => destruct t eqn:Et end; [|done].
    refine (Hstep _ [b0; b1; b2] l eq_refl ltac:(done) Hd _). set (c := _ + _ + _) in *. assert (c < 65536) by (unfold c; lia).
    unfold encode_char. rewrite (proj2 (Z.ltb_ge c 128)), (proj2 (Z.ltb_ge c 2048)), (proj2 (Z.ltb_lt c 65536)) by lia.
    destruct ((55296 <=? c) && (c <? 57344)) eqn:Es; [lia|]. do 2 f_equal; [|f_equal; [|f_equal]]; unfold c; arith.
  - destruct l as [|b1 [|b2 [|b3 l]]]; [done|done|done|].
    apply Forall_cons in Hb as [Hb1 Hb]. apply Forall_cons in Hb as [Hb2 Hb]. apply Forall_cons in Hb as [Hb3 Hb].
    match type of Hd with (if ?t then _ else _) = _ => destruct t eqn:Et end; [|done].
    refine (Hstep _ [b0; b1; b2; b3] l eq_refl ltac:(done) Hd _). set (c := _ + _ + _ + _) in *. assert (65536 <= c < 1114112) by lia.
    unfold encode_char. rewrite (proj2 (Z.ltb_ge c 128)), (proj2 (Z.ltb_ge c 2048)), (proj2 (Z.ltb_ge c 65536)) by lia.
    destruct ((55296 <=? c) && (c <? 57344)) eqn:Es; [lia|]. do 2 f_equal; [|f_equal; [|f_equal; [|f_equal]]]; unfold c; arith.
Qed.
(** C33: A text survives its bytes: every text without lone surrogates is
    encoded, in bytes, and they decode to it; and bytes that decode are the
    encoding of what they decode to, so no two ways to write a character are
    accepted. *)
Theorem utf8_round_trip text :
  Forall scalar text →
  ∃ bs, encodeUTF8 text = Some bs ∧ Forall (λ b, 0 <= b < 256) bs ∧ decodeUTF8 bs false = Some text
    ∧ ∀ bs', Forall (λ b, 0 <= b < 256) bs' → decodeUTF8 bs' false = Some text → bs' = bs.
Proof.
  intros Ht. induction Ht as [|c text Hc Ht (bs & He & Hb & Hd & Hu)].
  { exists []. split_and!; [done..|]. intros bs' Hbs Hd. by apply decode_is_encoded in Hd as [= ->]. }
  destruct (encode_scalar c Hc) as (cs & Hcs & Hcb & Hne). exists (cs ++ bs). simpl. rewrite Hcs, He. simpl.
  assert (decode bs = Some text) as Hd' by (revert Hd; unfold decodeUTF8; by destruct (decode bs) as [?|]).
  split_and!; [done|by apply Forall_app| |].
  - unfold decodeUTF8. by rewrite (decode_char c cs bs Hc Hcs), Hd'.
  - intros bs' Hbs Hd2. apply decode_is_encoded in Hd2; [|done]. simpl in Hd2. rewrite Hcs, He in Hd2. by injection Hd2.
Qed.
Lemma utf8_round_trip_witness :
  let text := [72; 233; 8364; 128512] in
  Forall scalar text ∧ encodeUTF8 text = Some [72; 195; 169; 226; 130; 172; 240; 159; 152; 128]
  ∧ ∃ bs, encodeUTF8 text = Some bs ∧ Forall (λ b, 0 <= b < 256) bs ∧ decodeUTF8 bs false = Some text
    ∧ ∀ bs', Forall (λ b, 0 <= b < 256) bs' → decodeUTF8 bs' false = Some text → bs' = bs.
Proof.
  intros text. assert (Forall scalar text) as Ht by (repeat constructor; lia).
  split; [done|]. split; [by vm_compute|]. by apply (utf8_round_trip text).
Defined.
(** a character in more bytes than it needs, a surrogate, a byte alone *)
Lemma malformed_is_refused : decodeUTF8 [192; 128] false = None ∧ decodeUTF8 [237; 160; 128] false = None
  ∧ decodeUTF8 [233] false = None ∧ decodeUTF8 [233] true = Some [233].
Proof. by vm_compute. Qed.
End Utf8.
