(* ===== verification/Inflator.v ===== *)
(** * Compressed data: static/js/novnc/core/inflator.js and deflator.js

    The streams around pako, the vendored zlib, which is a parameter: a call
    takes what input there is and room for some output, and gives its return
    code, the input it left and the output it made. *)
From S2P Require Import Prelude Words Websock.

#[local] Open Scope list_scope.
#[local] Open Scope Z_scope.

Abbreviation bytes := (list Z).

Class Pako := {
  zstream : Type;
  inflateInit : zstream;
  inflateReset : zstream → zstream;
  (* [inflate(strm)]: the stream, its input, [avail_out] *)
  pako_inflate : zstream → bytes → Z → Z * bytes * bytes * zstream;
  zdeflate : Type;
  deflateInit : zdeflate;
  (* [deflate(strm, Z_FULL_FLUSH)], with room for as many bytes *)
  pako_deflate : zdeflate → bytes → Z → Z * bytes * bytes * zdeflate }.

Module Inflator.
Section inflator.
Context `{Pako}.
(** [output] is a buffer that is used again: what [inflate] returns is a view of
    it.  [buffers]: the ones allocated, in order; the last is [strm.output]. *)
Record inflator := Inflator_ { strm : zstream; input : bytes; buffers : list bytes }.
Record view := View { buffer : nat; view_len : Z }.
Definition chunk : Z := 1024 * 10 * 10.
Definition fresh : inflator := Inflator_ inflateInit [] [replicate (Z.to_nat chunk) 0].
Definition setInput (data : option bytes) (s : inflator) : inflator := Inflator_ (strm s) (default [] data) (buffers s).
(** [chunkSize], the size of the last buffer *)
Definition chunkSize (s : inflator) : Z := Websock.len (default [] (last (buffers s))).
(** none: it throws *)
Definition inflate (expected : Z) (s : inflator) : option (view * inflator) :=
  let buffers := if chunkSize s <? expected then buffers s ++ [replicate (Z.to_nat expected) 0] else buffers s in
  let '(ret, rest, out, z) := pako_inflate (strm s) (input s) expected in
  if ret <? 0 then None
  else if Websock.len out =? expected then
    let b := pred (length buffers) in
    Some (View b expected, Inflator_ z rest (alter (λ o, out ++ drop (length out) o) b buffers))
  else None.
(** what a view shows now *)
Definition shows (v : view) (s : inflator) : bytes := take (Z.to_nat (view_len v)) (default [] (buffers s !! buffer v)).
Definition reset (s : inflator) : inflator := Inflator_ (inflateReset (strm s)) (input s) (buffers s).
(** the bytes as they are when [inflate] returns *)
Definition inflate_bytes (expected : Z) (s : inflator) : option (bytes * inflator) :=
  '(v, s) ← inflate expected s; Some (shows v s, s).

(** [deflate] of all of [inData]: output in chunks while input is left.  None:
    it throws, or it does not end ([fuel]: the calls it may make). *)
Fixpoint deflate_more (fuel : nat) (z : zdeflate) (left : bytes) : option (bytes * zdeflate) :=
  match left with
  | [] => Some ([], z)
  | _ =>
    match fuel with
    | 0%nat => None
    | S fuel =>
      let '(ret, rest, out, z) := pako_deflate z left chunk in
      if ret <? 0 then None else '(more, z) ← deflate_more fuel z rest; Some (out ++ more, z)
    end
  end.
Definition deflate (inData : bytes) (z : zdeflate) : option (bytes * zdeflate) :=
  let '(ret, rest, out, z) := pako_deflate z inData chunk in
  if ret <? 0 then None else '(more, z) ← deflate_more (length inData) z rest; Some (out ++ more, z).
(** when each call takes some of the input, that many calls are enough *)
Lemma deflate_ends inData z :
  (∀ z l, let '(ret, rest, _, _) := pako_deflate z l chunk in 0 <= ret ∧ (l ≠ [] → length rest < length l)%nat ∧ (l = [] → rest = [])) →
  is_Some (deflate inData z).
Proof.
  intros Hp.
  assert (∀ n z l, (length l <= n)%nat → is_Some (deflate_more n z l)) as Hm.
  { induction n as [|n IH]; intros z' l Hl; (destruct l as [|b l]; [by eexists|]); [simpl in Hl; lia|]. cbn [deflate_more].
    specialize (Hp z' (b :: l)). destruct (pako_deflate z' (b :: l) chunk) as [[[ret rest] out] z''].
    destruct Hp as (Hr & Hlt & _). rewrite (proj2 (Z.ltb_ge _ _) Hr).
    destruct (IH z'' rest) as [[more z3] ->]; [specialize (Hlt ltac:(done)); simpl in *; lia|]. by eexists. }
  unfold deflate. specialize (Hp z inData). destruct (pako_deflate z inData chunk) as [[[ret rest] out] z''].
  destruct Hp as (Hr & Hlt & Hz). rewrite (proj2 (Z.ltb_ge _ _) Hr).
  destruct (Hm (length inData) z'' rest) as [[more z3] ->]; [|by eexists].
  destruct inData; [by rewrite Hz|]. specialize (Hlt ltac:(done)). lia.
Qed.
End inflator.
End Inflator.
