(* ===== verification/ServerMessages.v ===== *)
(** * noVNC: the messages of the server, static/js/novnc/core/rfb.js

    [_normalMsg] and its handlers on the bytes of the receive queue, the loop of
    [_handleMessage], and the pauses while the screen is still drawn.  The
    queue is the list of its bytes (the FIFO [Websock] is proved to be): a wait
    that goes back leaves it as it was before the reads.  The decoders of the
    rectangles are behind the interface [RectDecoders] of [Decoders.v]. *)
From S2P Require Import Prelude Words Websock Decoders Messages Inflator Utf8.

#[local] Open Scope list_scope.
#[local] Open Scope Z_scope.

Import Decoders.
Module ServerMessages.
Import Messages.
Section server.
Context `{Pako} {D : Type} `{RectDecoders D}.

Record cursor := Cursor { rgbaPixels : bytes; hotx : Z; hoty : Z; c_w : Z; c_h : Z }.
Definition no_cursor : cursor := Cursor [] 0 0 0 0.
(** [f_rects], [f_rect], [f_encoding]: [_FBU]; [answers]: what [display.pending()]
    will say while the message at hand is handled, then [false] *)
Record server := Server {
  base : rfb;
  f_rects : Z;
  f_rect : rect;
  f_encoding : option Z;
  dec : D;
  fbWidth : Z;
  fbHeight : Z;
  fbName : list Z;
  supportsFence : bool;
  supportsContinuousUpdates : bool;
  enabledContinuousUpdates : bool;
  supportsSetDesktopSize : bool;
  screenID : Z;
  screenFlags : Z;
  cursorImage : cursor;
  power : bool;
  flushing : bool;
  answers : list bool }.
Definition with_base (b : rfb) (s : server) : server :=
  Server b (f_rects s) (f_rect s) (f_encoding s) (dec s) (fbWidth s) (fbHeight s) (fbName s) (supportsFence s) (supportsContinuousUpdates s) (enabledContinuousUpdates s) (supportsSetDesktopSize s) (screenID s) (screenFlags s) (cursorImage s) (power s) (flushing s) (answers s).
Definition with_rects (n : Z) (s : server) : server :=
  Server (base s) n (f_rect s) (f_encoding s) (dec s) (fbWidth s) (fbHeight s) (fbName s) (supportsFence s) (supportsContinuousUpdates s) (enabledContinuousUpdates s) (supportsSetDesktopSize s) (screenID s) (screenFlags s) (cursorImage s) (power s) (flushing s) (answers s).
Definition with_rect (rc : rect) (e : option Z) (s : server) : server :=
  Server (base s) (f_rects s) rc e (dec s) (fbWidth s) (fbHeight s) (fbName s) (supportsFence s) (supportsContinuousUpdates s) (enabledContinuousUpdates s) (supportsSetDesktopSize s) (screenID s) (screenFlags s) (cursorImage s) (power s) (flushing s) (answers s).
Definition rect_done  (s : server) : server :=
  Server (base s) (f_rects s - 1) (f_rect s) None (dec s) (fbWidth s) (fbHeight s) (fbName s) (supportsFence s) (supportsContinuousUpdates s) (enabledContinuousUpdates s) (supportsSetDesktopSize s) (screenID s) (screenFlags s) (cursorImage s) (power s) (flushing s) (answers s).
Definition with_dec (d : D) (s : server) : server :=
  Server (base s) (f_rects s) (f_rect s) (f_encoding s) d (fbWidth s) (fbHeight s) (fbName s) (supportsFence s) (supportsContinuousUpdates s) (enabledContinuousUpdates s) (supportsSetDesktopSize s) (screenID s) (screenFlags s) (cursorImage s) (power s) (flushing s) (answers s).
Definition with_size (w h : Z) (s : server) : server :=
  Server (base s) (f_rects s) (f_rect s) (f_encoding s) (dec s) w h (fbName s) (supportsFence s) (supportsContinuousUpdates s) (enabledContinuousUpdates s) (supportsSetDesktopSize s) (screenID s) (screenFlags s) (cursorImage s) (power s) (flushing s) (answers s).
Definition with_name (n : list Z) (s : server) : server :=
  Server (base s) (f_rects s) (f_rect s) (f_encoding s) (dec s) (fbWidth s) (fbHeight s) n (supportsFence s) (supportsContinuousUpdates s) (enabledContinuousUpdates s) (supportsSetDesktopSize s) (screenID s) (screenFlags s) (cursorImage s) (power s) (flushing s) (answers s).
Definition with_fence  (s : server) : server :=
  Server (base s) (f_rects s) (f_rect s) (f_encoding s) (dec s) (fbWidth s) (fbHeight s) (fbName s) true (supportsContinuousUpdates s) (enabledContinuousUpdates s) (supportsSetDesktopSize s) (screenID s) (screenFlags s) (cursorImage s) (power s) (flushing s) (answers s).
Definition with_updates (supported enabled : bool) (s : server) : server :=
  Server (base s) (f_rects s) (f_rect s) (f_encoding s) (dec s) (fbWidth s) (fbHeight s) (fbName s) (supportsFence s) supported enabled (supportsSetDesktopSize s) (screenID s) (screenFlags s) (cursorImage s) (power s) (flushing s) (answers s).
Definition with_desktop (id flags : Z) (s : server) : server :=
  Server (base s) (f_rects s) (f_rect s) (f_encoding s) (dec s) (fbWidth s) (fbHeight s) (fbName s) (supportsFence s) (supportsContinuousUpdates s) (enabledContinuousUpdates s) true id flags (cursorImage s) (power s) (flushing s) (answers s).
Definition with_cursor (c : cursor) (s : server) : server :=
  Server (base s) (f_rects s) (f_rect s) (f_encoding s) (dec s) (fbWidth s) (fbHeight s) (fbName s) (supportsFence s) (supportsContinuousUpdates s) (enabledContinuousUpdates s) (supportsSetDesktopSize s) (screenID s) (screenFlags s) c (power s) (flushing s) (answers s).
Definition with_power  (s : server) : server :=
  Server (base s) (f_rects s) (f_rect s) (f_encoding s) (dec s) (fbWidth s) (fbHeight s) (fbName s) (supportsFence s) (supportsContinuousUpdates s) (enabledContinuousUpdates s) (supportsSetDesktopSize s) (screenID s) (screenFlags s) (cursorImage s) true (flushing s) (answers s).
Definition with_flush (f : bool) (a : list bool) (s : server) : server :=
  Server (base s) (f_rects s) (f_rect s) (f_encoding s) (dec s) (fbWidth s) (fbHeight s) (fbName s) (supportsFence s) (supportsContinuousUpdates s) (enabledContinuousUpdates s) (supportsSetDesktopSize s) (screenID s) (screenFlags s) (cursorImage s) (power s) f a.

(** what the handlers do, in order *)
Inductive told := Bell | Clipboard (text : list Z) | DesktopName (name : list Z) | Capabilities (power : bool).
Inductive effect :=
  | Send (m : message)
  | Tell (t : told)              (* an event for the page *)
  | Draw (d : drawing)
  | ResizeScreen (w h : Z)       (* the screen, its clipping and scale: [_resize] *)
  | Flip | FlushScreen
  | ChangeCursor (c : cursor)    (* [_refreshCursor] *)
  | ResizeAnswered               (* [_pendingRemoteResize] is false again *)
  | RequestRemoteResize
  | Fail.                        (* [_fail]: the connection ends *)
(** What a handler returns: [Done] is [true]; the others are [false]: it waits
    for bytes, waits for the screen, has failed, does not know the cursor; or it
    throws, or reads where the message has no bytes.  [Spins]: no fuel is left. *)
Inductive verdict := Done | Waits | Flushes | Fails | Unknown | Throws | Astray | Spins.
Definition reply : Type := verdict * server * bytes * list effect.
Definition after (fx : list effect) (r : reply) : reply := let '(v, s, q, fx') := r in (v, s, q, fx ++ fx').
(** [return this._fail(...)] *)
Definition disconnected (s : server) : server :=
  let b := base s in
  with_base (Rfb false (viewOnly b) (qemuExtKeyEventSupported b) (extendedPointerEventSupported b) (rfbXvpVer b) (fbDepth b)
    (qualityLevel b) (compressionLevel b) (remoteCapsLock b) (remoteNumLock b) (clipboardFormats b) (clipboardActions b) (clipboardText b)) s.
Definition fail (s : server) (q : bytes) : reply := (Fails, disconnected s, q, [Fail]).
Definition with_text (t : option (list Z)) (s : server) : server :=
  with_base (with_clipboard (clipboardFormats (base s)) (clipboardActions (base s)) t (base s)) s.

(** ** The clipboard *)
Definition flag (n k : Z) : bool := Z.testbit n k.
(** [replace(/\r\n|\r|\n/gm, "\r\n")] *)
Fixpoint crlf (t : list Z) : list Z :=
  match t with
  | [] => []
  | c :: t' =>
    if c =? 13 then
      match t' with
      | d :: t'' => if d =? 10 then 13 :: 10 :: crlf t'' else 13 :: 10 :: crlf t'
      | [] => [13; 10]
      end
    else if c =? 10 then 13 :: 10 :: crlf t' else c :: crlf t'
  end.
(** [replaceAll("\r\n", "\n")] *)
Fixpoint lf (t : list Z) : list Z :=
  match t with
  | c :: ((d :: t'') as t') => if (c =? 13) && (d =? 10) then 10 :: lf t'' else c :: lf t'
  | t => t
  end.
Definition be32 (n : Z) : bytes := [Z.land (Z.shiftr n 24) 255; Z.land (Z.shiftr n 16) 255; Z.land (Z.shiftr n 8) 255; Z.land n 255].
Definition extendedClipboardActionCaps : Z := Z.shiftl 1 24.
Definition extendedClipboardActionPeek : Z := Z.shiftl 1 26.
Definition extendedClipboardActionProvide : Z := Z.shiftl 1 28.
(** none: it throws *)
Definition extendedClipboardProvide (text : list Z) : option message :=
  data ← Utf8.encodeUTF8 (crlf text ++ [0]);
  '(deflated, _) ← Inflator.deflate (be32 (Websock.len data) ++ data) deflateInit;
  Some (ClientCutText (clipboardFlags [extendedClipboardActionProvide] [extendedClipboardFormatText] ++ deflated) true).
(** a format is the number its key is as a shift, and its size *)
Definition extendedClipboardCaps (actions : list Z) (formats : list (Z * Z)) : message :=
  let flags := clipboardFlags actions [] in
  let formatFlag := fold_left (λ f kv, Z.lor f (Z.shiftl 1 (kv.1 mod 32) mod 256)) formats 0 in
  ClientCutText (take 3 flags ++ [formatFlag] ++ (formats ≫= λ kv, be32 kv.2)) true.
(** the text of a Provide message: the stream has a size and a text per format *)
Fixpoint provided (idx : list Z) (formats : Z) (inf : Inflator.inflator) (textData : option Inflator.view)
  : option (option Inflator.view * Inflator.inflator) :=
  match idx with
  | [] => Some (textData, inf)
  | i :: idx =>
    if flag formats i then
      '(sizeArray, inf) ← Inflator.inflate_bytes 4 inf;
      let size := Websock.int32 (Websock.be sizeArray) in
      '(chunk, inf) ← Inflator.inflate size inf;
      provided idx formats inf (if i =? 0 then Some chunk else textData)
    else provided idx formats inf textData
  end.
Definition provided_text (zlibStream : bytes) (formats : Z) : option (list Z) :=
  '(view, inf) ← provided (seqZ 0 16) formats (Inflator.setInput (Some zlibStream) Inflator.fresh) None;
  let textData := match view with Some v => Inflator.shows v inf | None => [] end in
  text ← Utf8.decodeUTF8 textData false;
  Some (lf (if bool_decide (last text = Some 0) then removelast text else text)).

(** what is left of a message of an extended clipboard: [q] is behind its flags *)
Definition extended_clipboard (length flags : Z) (s : server) (q : bytes) : reply :=
  let b := base s in
  let formats := Z.land flags 65535 in
  let actions := Z.land flags 4278190080 in
  if flag actions 24 then
    let present := filter (λ i, flag formats i) (seqZ 0 16) in
    let s := with_base (with_clipboard (Z.shiftl 1 <$> present) (Z.shiftl 1 <$> filter (λ i, flag actions i) (seqZ 24 8)) (clipboardText b) b) s in
    let sizes := 4 * Z.of_nat (List.length present) in
    if rQwait sizes q then (Astray, s, q, [])
    else
      let '(_, q) := rQshiftBytes sizes q in
      (Done, s, q, [Send (extendedClipboardCaps
         [extendedClipboardActionCaps; extendedClipboardActionRequest; extendedClipboardActionPeek;
          extendedClipboardActionNotify; extendedClipboardActionProvide] [(0, 0)])])
  else if actions =? extendedClipboardActionRequest then
    if viewOnly b then (Done, s, q, [])
    else match clipboardText b with
         | Some text =>
           if bool_decide (extendedClipboardActionProvide ∈ clipboardActions b) && flag formats 0
           then match extendedClipboardProvide text with
                | Some m => (Done, s, q, [Send m])
                | None => (Throws, s, q, [])
                end
           else (Done, s, q, [])
         | None => (Done, s, q, [])
         end
  else if actions =? extendedClipboardActionPeek then
    if viewOnly b then (Done, s, q, [])
    else if bool_decide (extendedClipboardActionNotify ∈ clipboardActions b)
    then (Done, s, q, [Send (extendedClipboardNotify (match clipboardText b with Some _ => [extendedClipboardFormatText] | None => [] end))])
    else (Done, s, q, [])
  else if actions =? extendedClipboardActionNotify then
    if viewOnly b then (Done, s, q, [])
    else if bool_decide (extendedClipboardActionRequest ∈ clipboardActions b) && flag formats 0
    then (Done, s, q, [Send (extendedClipboardRequest [extendedClipboardFormatText])])
    else (Done, s, q, [])
  else if actions =? extendedClipboardActionProvide then
    if viewOnly b then (Done, s, q, [])
    else if negb (flag formats 0) then (Done, s, q, [])
    else
      let s := with_text None s in
      if length <? 4 then (Astray, s, q, [])
      else
        let '(zlibStream, q) := rQshiftBytes (length - 4) q in
        match provided_text zlibStream formats with
        | Some text => (Done, s, q, [Tell (Clipboard text)])
        | None => (Throws, s, q, [])
        end
  else fail s q.
(** [q0]: with the type of the message, which a wait puts back *)
Definition handleServerCutText (s : server) (q0 q : bytes) : reply :=
  if rQwait 7 q then (Waits, s, q0, [])
  else
    let '(_, q) := rQshiftBytes 3 q in
    let '(n, q) := rQshift 4 q in
    let length := Websock.int32 n in
    if rQwait (Z.abs length) q then (Waits, s, q0, [])
    else if 0 <=? length then
      let '(text, q) := rQshiftBytes length q in
      (Done, s, q, if viewOnly (base s) then [] else [Tell (Clipboard text)])
    else if rQwait 4 q then (Astray, s, q, [])
    else
      let '(flags, q) := rQshift 4 q in
      extended_clipboard (Z.abs length) flags s q.

(** ** Fences, power operations *)
Definition handleServerFenceMsg (s : server) (q0 q : bytes) : reply :=
  if rQwait 8 q then (Waits, s, q0, [])
  else
    let '(_, q) := rQshiftBytes 3 q in
    let '(flags, q) := rQshift 4 q in
    let '(length, q) := rQshift 1 q in
    if rQwait length q then (Waits, s, q0, [])
    else
      let length := if 64 <? length then 64 else length in
      let '(payload, q) := rQshiftBytes length q in
      let s := with_fence s in
      if negb (flag flags 31) then fail s q
      else (Done, s, q, [Send (ClientFence (Z.land flags 3) payload)]).
Definition handleXvpMsg (s : server) (q0 q : bytes) : reply :=
  if rQwait 3 q then (Waits, s, q0, [])
  else
    let '(_, q) := rQshiftBytes 1 q in
    let '(xvpVer, q) := rQshift 1 q in
    let '(xvpMsg, q) := rQshift 1 q in
    if xvpMsg =? 0 then (Done, s, q, [])
    else if xvpMsg =? 1 then
      let b := base s in
      (Done, with_power (with_base (Rfb (connected b) (viewOnly b) (qemuExtKeyEventSupported b) (extendedPointerEventSupported b)
         xvpVer (fbDepth b) (qualityLevel b) (compressionLevel b) (remoteCapsLock b) (remoteNumLock b) (clipboardFormats b)
         (clipboardActions b) (clipboardText b)) s), q, [Tell (Capabilities true)])
    else (Done, disconnected s, q, [Fail]).

(** ** The screen *)
Definition updateContinuousUpdates (s : server) : list effect :=
  if enabledContinuousUpdates s then [Send (EnableContinuousUpdates 1 0 0 (fbWidth s) (fbHeight s))] else [].
Definition resize (w h : Z) (s : server) : server * list effect :=
  let s := with_size w h s in (s, ResizeScreen w h :: updateContinuousUpdates s).
Definition updateCursor (rgba : bytes) (s : server) : server * list effect :=
  let rc := f_rect s in
  let c := Cursor rgba (r_x rc) (r_y rc) (r_width rc) (r_height rc) in (with_cursor c s, [ChangeCursor c]).
(** one pixel of the classic cursor *)
Definition classic_pixel (andMask xorMask : Z) : bytes :=
  if andMask =? 0 then
    [Z.land (Z.shiftr xorMask 8) 255; Z.land (Z.shiftr xorMask 16) 255; Z.land (Z.shiftr xorMask 24) 255; 255]
  else if Z.land andMask 4294967040 =? 4294967040 then
    if xorMask =? 0 then [0; 0; 0; 0]
    else if Z.land xorMask 4294967040 =? 4294967040 then [0; 0; 0; 255] else [0; 0; 0; 255]
  else [0; 0; 0; 255].
(** [n] numbers of four bytes *)
Fixpoint words (n : nat) (q : bytes) : list Z * bytes :=
  match n with 0%nat => ([], q) | S n => let '(x, q) := rQshift 4 q in let '(l, q) := words n q in (x :: l, q) end.
(** two bytes are read where one is waited for: [rQlen] may be -1 *)
Definition handleVMwareCursor (s : server) (q : bytes) : reply :=
  let pixels := r_width (f_rect s) * r_height (f_rect s) in
  if rQwait 1 q then (Waits, s, q, [])
  else
    let cursorType := rQpeek8 q in
    let rQlen := Websock.len q - 2 in
    let q1 := drop 2 q in
    if cursorType =? 0 then
      if rQlen <? pixels * 4 * 2 then (Waits, s, q, [])
      else
        let '(andMask, q1) := words (Z.to_nat pixels) q1 in
        let '(xorMask, q1) := words (Z.to_nat pixels) q1 in
        let '(s, fx) := updateCursor (mjoin (zip_with classic_pixel andMask xorMask)) s in (Done, s, q1, fx)
    else if cursorType =? 1 then
      if rQlen <? pixels * 4 then (Waits, s, q, [])
      else
        let '(data, q1) := words (Z.to_nat pixels) q1 in
        let '(s, fx) := updateCursor (data ≫= be32) s in (Done, s, q1, fx)
    else (Unknown, s, q1, []).
(** BGRX pixels and a mask to RGBA *)
Definition cursor_pixel (w : Z) (pixels mask : bytes) (i : Z) : bytes :=
  let x := i mod w in let y := i / w in
  let at_ l k := nth (Z.to_nat k) l 0 in
  let maskIdx := y * ((w + 7) / 8) + x / 8 in
  let alpha := if Z.land (Z.shiftl (at_ mask maskIdx) (x mod 8)) 128 =? 0 then 0 else 255 in
  [at_ pixels (i * 4 + 2); at_ pixels (i * 4 + 1); at_ pixels (i * 4); alpha].
Definition handleCursor (s : server) (q : bytes) : reply :=
  let w := r_width (f_rect s) in let h := r_height (f_rect s) in
  let pixelslength := w * h * 4 in
  let masklength := (w + 7) / 8 * h in
  if rQwait (pixelslength + masklength) q then (Waits, s, q, [])
  else
    let '(pixels, q) := rQshiftBytes pixelslength q in
    let '(mask, q) := rQshiftBytes masklength q in
    let '(s, fx) := updateCursor (seqZ 0 (w * h) ≫= cursor_pixel w pixels mask) s in (Done, s, q, fx).
Definition handleDesktopName (s : server) (q : bytes) : reply :=
  if rQwait 4 q then (Waits, s, q, [])
  else
    let '(length, q1) := rQshift 4 q in
    if rQwait length q1 then (Waits, s, q, [])
    else
      let '(name, q1) := rQshiftBytes length q1 in
      let name := default [] (Utf8.decodeUTF8 name true) in
      (Done, with_name name s, q1, [Tell (DesktopName name)]).
Definition handleLedEvent (s : server) (q : bytes) : reply :=
  if rQwait 1 q then (Waits, s, q, [])
  else
    let '(data, q) := rQshift 1 q in
    (Done, with_base (with_locks (Some (flag data 2)) (Some (flag data 1)) (base s)) s, q, []).
(** only the first screen is kept *)
Definition first_screen (numberOfScreens : Z) (s : server) (q : bytes) : Z * Z :=
  if numberOfScreens =? 0 then (screenID s, screenFlags s)
  else (Websock.be (take 4 q), Websock.be (take 4 (drop 12 q))).
Definition handleExtendedDesktopSize (s : server) (q : bytes) : reply :=
  if rQwait 4 q then (Waits, s, q, [])
  else
    let numberOfScreens := rQpeek8 q in
    if rQwait (4 + numberOfScreens * 16) q then (Waits, s, q, [])
    else
      let firstUpdate := negb (supportsSetDesktopSize s) in
      let '(_, q) := rQshiftBytes 4 q in
      let '(id, flags) := first_screen numberOfScreens s q in
      let '(_, q) := rQshiftBytes (numberOfScreens * 16) q in
      let s := with_desktop id flags s in
      let x := r_x (f_rect s) in let y := r_y (f_rect s) in
      let answered := if x =? 1 then [ResizeAnswered] else [] in
      let '(s, fx) := if (x =? 1) && negb (y =? 0) then (s, []) else resize (r_width (f_rect s)) (r_height (f_rect s)) s in
      (Done, s, q, answered ++ fx ++ (if firstUpdate then [RequestRemoteResize] else [])
                   ++ (if (x =? 1) && (y =? 0) then [RequestRemoteResize] else [])).

(** ** Rectangles *)
Definition handleDataRect (e : Z) (s : server) (q : bytes) : reply :=
  match decode e (f_rect s) (fbDepth (base s)) (dec s) q with
  | None => fail s q
  | Some (v, d, q, ds) =>
    let s := with_dec d s in
    match v with
    | Decoders.Done => (Done, s, q, Draw <$> ds)
    | Decoders.Again => (Waits, s, q, Draw <$> ds)
    | Decoders.Thrown => after (Draw <$> ds) (fail s q)
    end
  end.
Definition with_qemu (s : server) : server :=
  let b := base s in
  with_base (Rfb (connected b) (viewOnly b) true (extendedPointerEventSupported b) (rfbXvpVer b) (fbDepth b) (qualityLevel b)
    (compressionLevel b) (remoteCapsLock b) (remoteNumLock b) (clipboardFormats b) (clipboardActions b) (clipboardText b)) s.
Definition with_buttons (s : server) : server :=
  let b := base s in
  with_base (Rfb (connected b) (viewOnly b) (qemuExtKeyEventSupported b) true (rfbXvpVer b) (fbDepth b) (qualityLevel b)
    (compressionLevel b) (remoteCapsLock b) (remoteNumLock b) (clipboardFormats b) (clipboardActions b) (clipboardText b)) s.
Definition handleRect (e : Z) (s : server) (q : bytes) : reply :=
  if e =? enc "pseudoEncodingLastRect" then (Done, with_rects 1 s, q, [])
  else if e =? enc "pseudoEncodingVMwareCursor" then handleVMwareCursor s q
  else if e =? enc "pseudoEncodingCursor" then handleCursor s q
  else if e =? enc "pseudoEncodingQEMUExtendedKeyEvent" then (Done, with_qemu s, q, [])
  else if e =? enc "pseudoEncodingDesktopName" then handleDesktopName s q
  else if e =? enc "pseudoEncodingDesktopSize" then
    let '(s, fx) := resize (r_width (f_rect s)) (r_height (f_rect s)) s in (Done, s, q, fx)
  else if e =? enc "pseudoEncodingExtendedDesktopSize" then handleExtendedDesktopSize s q
  else if e =? enc "pseudoEncodingExtendedMouseButtons" then (Done, with_buttons s, q, [])
  else if e =? enc "pseudoEncodingQEMULedEvent" then handleLedEvent s q
  else handleDataRect e s q.
(** the header of a rectangle: its encoding is signed *)
Definition rect_header (s : server) (q : bytes) : option (Z * server * bytes) :=
  match f_encoding s with
  | Some e => Some (e, s, q)
  | None =>
    if rQwait 12 q then None
    else
      let '(x, q) := rQshift 2 q in
      let '(y, q) := rQshift 2 q in
      let '(w, q) := rQshift 2 q in
      let '(h, q) := rQshift 2 q in
      let '(n, q) := rQshift 4 q in
      let e := Websock.int32 n in
      Some (e, with_rect (Rect x y w h) (Some e) s, q)
  end.
(** the loop over the rectangles, at most [n] of them *)
Fixpoint rects_loop (n : nat) (s : server) (q : bytes) : reply :=
  if f_rects s <=? 0 then (Done, s, q, [Flip])
  else
    match n with
    | 0%nat => (Done, s, q, [Flip])
    | S n =>
      match rect_header s q with
      | None => (Waits, s, q, [])
      | Some (e, s, q) =>
        let '(v, s, q, fx) := handleRect e s q in
        match v with
        | Done => after fx (rects_loop n (rect_done s) q)
        | _ => (v, s, q, fx)
        end
      end
    end.
Definition framebufferUpdate (s : server) (q0 q : bytes) : reply :=
  if f_rects s =? 0 then
    if rQwait 3 q then (Waits, s, q0, [])
    else
      let '(_, q) := rQshiftBytes 1 q in
      let '(n, q) := rQshift 2 q in
      let s := with_rects n s in
      match answers s with
      | true :: a => (Flushes, with_flush true a s, q, [FlushScreen])
      | a => let s := with_flush (flushing s) (tail a) s in rects_loop (Z.to_nat (f_rects s)) s q
      end
  else rects_loop (Z.to_nat (f_rects s)) s q.

(** ** A message, and all there are *)
Definition normalMsg (s : server) (q : bytes) : reply :=
  let '(msgType, q1) := if 0 <? f_rects s then (0, q) else rQshift 1 q in
  if msgType =? 0 then
    let '(v, s, q, fx) := framebufferUpdate s q q1 in
    (v, s, q, fx ++ match v with
                    | Done => if enabledContinuousUpdates s then [] else [Send (FbUpdateRequest true 0 0 (fbWidth s) (fbHeight s))]
                    | _ => []
                    end)
  else if msgType =? 1 then fail s q1
  else if msgType =? 2 then (Done, s, q1, [Tell Bell])
  else if msgType =? 3 then handleServerCutText s q q1
  else if msgType =? 150 then
    let first := negb (supportsContinuousUpdates s) in
    let s := with_updates true first s in
    (Done, s, q1, updateContinuousUpdates s)
  else if msgType =? 248 then handleServerFenceMsg s q q1
  else if msgType =? 250 then handleXvpMsg s q q1
  else (Done, disconnected s, q1, [Fail]).
(** the loop of [_handleMessage]; the first message has come.  [Spins] is not
    reached with the fuel [handleMessage] gives. *)
Fixpoint message_loop (fuel : nat) (s : server) (q : bytes) : reply :=
  match fuel with
  | 0%nat => (Spins, s, q, [])
  | S fuel =>
    if flushing s then (Flushes, s, q, [])
    else
      let '(v, s, q, fx) := normalMsg s q in
      match v with
      | Done => if rQwait 1 q then (Done, s, q, fx) else after fx (message_loop fuel s q)
      | _ => (v, s, q, fx)
      end
  end.
Definition handleMessage (s : server) (q : bytes) : reply :=
  if rQwait 1 q || negb (connected (base s)) then (Done, s, q, [])
  else message_loop (S (S (length q))) s q.
End server.
End ServerMessages.
