(* ===== verification/ServerRuns.v ===== *)
(** * noVNC: the server's messages as they come

    The messages of [ServerMessages] on a queue that is filled chunk by chunk
    and paused while the screen is drawn: what is handled does not depend on
    it, and the loop over the messages ends. *)
From S2P Require Import Prelude Words Websock Decoders Messages Inflator Utf8 ServerMessages.

#[local] Open Scope list_scope.
#[local] Open Scope Z_scope.
Import Decoders Messages ServerMessages.

Module ServerRuns.
(** ** More bytes

    A handler on the bytes [q] of the queue, and on [q] and then [r]. *)
Section more.
Context `{Pako} {D : Type} `{RectDecoders D} `{!RectLaws D}.
#[local] Abbreviation server := (ServerMessages.server (D := D)).
#[local] Abbreviation reply := (ServerMessages.reply (D := D)).
Implicit Types (s : server) (q r : bytes) (fx : list effect).

Lemma wait_false n q : rQwait n q = false → n <= len q.
Proof. simpl. intros Hw%bool_decide_eq_false. lia. Qed.
Lemma wait_app n q r : n <= len q → rQwait n (q ++ r) = false.
Proof. intros Hn. apply bool_decide_eq_false. rewrite len_app_. pose proof (Websock.len_nonneg r). unfold len in *. lia. Qed.
Lemma shift_app n q r : Z.of_nat n <= len q → rQshift n (q ++ r) = ((rQshift n q).1, (rQshift n q).2 ++ r).
Proof. unfold len, Websock.len. intros Hn. simpl. by rewrite take_app_le, drop_app_le by lia. Qed.
Lemma shiftBytes_app n q r : 0 <= n <= len q → rQshiftBytes n (q ++ r) = ((rQshiftBytes n q).1, (rQshiftBytes n q).2 ++ r).
Proof. unfold len, Websock.len. intros Hn. simpl. by rewrite take_app_le, drop_app_le by lia. Qed.
Lemma be_take n q : Forall Websock.byte q → 0 <= Websock.be (take n q).
Proof. intros Hq. apply Websock.be_range. by apply Forall_take. Qed.

(** what [h] does with [q] is what it does with [q] and [r]; it waits as it was *)
Definition extends (h : server → bytes → reply) s q : Prop :=
  let '(v, s', q', fx) := h s q in
  match v with
  | Done => len q' <= len q ∧ Forall Websock.byte q' ∧ ∀ r, h s (q ++ r) = (Done, s', q' ++ r, fx)
  | Waits => s' = s ∧ q' = q ∧ fx = []
  | Fails => connected (base s') = false
  | Unknown | Throws | Astray => True
  | Flushes | Spins => False
  end.

#[local] Ltac bounds := unfold len, Websock.len in *; simpl List.length in *; rewrite ?length_drop in *; lia.
#[local] Ltac reads r := cbn [rQshift rQshiftBytes list_buffer fst snd];
  repeat (first [rewrite (wait_app _ _ r) by bounds | rewrite take_app_le by bounds | rewrite drop_app_le by bounds]).
(** the next wait of a handler *)
#[local] Ltac waits := match goal with |- context [rQwait ?n ?q] =>
  let E := fresh "E" in destruct (rQwait n q) eqn:E; [done|apply wait_false in E];
  cbn [rQshift rQshiftBytes list_buffer fst snd] in E |- * end.
#[local] Ltac bytes_left := repeat apply Forall_drop; first [done | by eapply Forall_inv_tail].
(** a handler of a whole message, behind its type [t] *)
Lemma fence_extends s t q : Forall Websock.byte (t :: q) → extends (λ s q, handleServerFenceMsg s q (tail q)) s (t :: q).
Proof.
  intros Hq. unfold extends, handleServerFenceMsg. cbn [tail app]. waits. waits.
  pose proof (be_take 1 (drop 4 (drop (Z.to_nat 3) q)) ltac:(bytes_left)) as Hn.
  set (n := Websock.be _) in *. set (m := if 64 <? n then 64 else n).
  assert (0 <= m <= n) by (unfold m; destruct (Z.ltb_spec 64 n); lia).
  destruct (negb (flag _ 31)) eqn:Ef; [done|].
  split; [bounds|]. split; [bytes_left|].
  intros r. reads r. fold n. reads r. fold m. reads r. by rewrite Ef.
Qed.
Lemma xvp_extends s t q : Forall Websock.byte (t :: q) → extends (λ s q, handleXvpMsg s q (tail q)) s (t :: q).
Proof.
  intros Hq. unfold extends, handleXvpMsg. cbn [tail app]. waits.
  destruct (_ =? 0) eqn:E0; [|destruct (_ =? 1) eqn:E1];
    (split; [bounds|]; split; [bytes_left|]); intros r; reads r; by rewrite ?E0, ?E1.
Qed.
Lemma extended_clipboard_extends s n flags q r v s' q' fx :
  Forall Websock.byte q → n - 4 <= len q → extended_clipboard n flags s q = (v, s', q', fx) →
  match v with
  | Done => len q' <= len q ∧ Forall Websock.byte q' ∧ extended_clipboard n flags s (q ++ r) = (Done, s', q' ++ r, fx)
  | Fails => connected (base s') = false
  | Unknown | Throws | Astray => True
  | Flushes | Spins | Waits => False
  end.
Proof.
  intros Hq Hn. unfold extended_clipboard. cbn zeta.
  destruct (flag _ 24).
  { destruct (rQwait _ q) eqn:E; [by intros [= <- <- <- <-]|]. apply wait_false in E. reads r.
    intros [= <- <- <- <-]. split; [bounds|]. split; [bytes_left|done]. }
  destruct (Z.ltb_spec n 4); cbn [rQshiftBytes list_buffer];
  [|rewrite take_app_le, drop_app_le by bounds];
    repeat match goal with |- match ?b with _ => _ end = _ → _ => destruct b end;
    intros [= <- <- <- <-]; try done; (split; [bounds|]; split; [bytes_left|done]).
Qed.
Lemma cut_text_extends s t q : Forall Websock.byte (t :: q) → extends (λ s q, handleServerCutText s q (tail q)) s (t :: q).
Proof.
  intros Hq. unfold extends, handleServerCutText. cbn [tail app]. waits. 
  set (n := Websock.int32 (Websock.be _)). destruct (rQwait (Z.abs n) _) eqn:E0; [done|]. apply wait_false in E0.
  destruct (Z.leb_spec 0 n).
  - cbn [rQshift rQshiftBytes list_buffer]. split; [bounds|]. split; [bytes_left|]. intros r. reads r. fold n. reads r.
    by rewrite (proj2 (Z.leb_le 0 n)).
  - destruct (rQwait 4 (drop 4 _)) eqn:E1; [done|]. apply wait_false in E1. cbn [rQshift list_buffer].
    pose proof (λ r, extended_clipboard_extends s (Z.abs n) (Websock.be (take 4 (drop 4 (drop (Z.to_nat 3) q))))
      (drop 4 (drop 4 (drop (Z.to_nat 3) q))) r) as Hext.
    destruct (extended_clipboard _ _ _ _) as [[[v s'] q'] fx]. 
    assert (Forall Websock.byte (drop 4 (drop 4 (drop (Z.to_nat 3) q)))) as Hb by bytes_left.
    assert (Z.abs n - 4 <= len (drop 4 (drop 4 (drop (Z.to_nat 3) q)))) as Hl by bounds.
    pose proof (Hext [] v s' q' fx Hb Hl eq_refl) as Hv. destruct v; try done.
    destruct Hv as (Hv1 & Hv2 & _). split; [bounds|]. split; [done|]. intros r. reads r. fold n. reads r.
    rewrite (proj2 (Z.leb_gt 0 n)) by done. reads r. by destruct (Hext r Done s' q' fx Hb Hl eq_refl) as (_ & _ & ->).
Qed.

Lemma words_app n q r : 4 * Z.of_nat n <= len q → words n (q ++ r) = ((words n q).1, (words n q).2 ++ r).
Proof.
  revert q. induction n as [|n IH]; intros q Hn; [done|]. cbn [words]. reads r.
  rewrite IH by bounds. by destruct (words n (drop 4 q)).
Qed.
Lemma words_left n q : (words n q).2 = drop (4 * n) q.
Proof.
  revert q. induction n as [|n IH]; intros q; [done|]. cbn [words rQshift list_buffer]. specialize (IH (drop 4 q)).
  destruct (words n (drop 4 q)). simpl in *. rewrite IH, drop_drop. f_equal. lia.
Qed.
Lemma words_spec n q a q' : words n q = (a, q') → 4 * Z.of_nat n <= len q → q' = drop (4 * n) q ∧ ∀ r, words n (q ++ r) = (a, q' ++ r).
Proof.
  intros E Hn. pose proof (words_left n q) as Hl. rewrite E in Hl. split; [done|]. intros r. by rewrite words_app, E by done.
Qed.
Section rect.
Variable s : server.
Hypotheses (Hw : 0 <= r_width (f_rect s)) (Hh : 0 <= r_height (f_rect s)).
Lemma vmware_extends q : Forall Websock.byte q → extends handleVMwareCursor s q.
Proof using Hw Hh.
  intros Hq. unfold extends, handleVMwareCursor. waits. destruct q as [|t q]; [by bounds|].
  cbn [rQpeek8 list_buffer head default from_option id app drop].
  set (n := r_width _ * _). assert (0 <= n) as Hn by (unfold n; nia).
  assert (∀ r, Websock.len (t :: q ++ r) - 2 = Websock.len (t :: q) - 2 + Websock.len r) as Hr by (intros r; unfold Websock.len; simpl; rewrite length_app; lia).
  assert (Websock.len (t :: q) - 2 <= len (drop 1 q)) as Hd by bounds.
  assert (∀ r, 0 <= n → 0 <= Websock.len (t :: q) - 2 → drop 1 (q ++ r) = drop 1 q ++ r) as Hda by (intros r _ ?; rewrite drop_app_le by bounds; done).
  destruct (t =? 0) eqn:Et; [|destruct (t =? 1) eqn:Et1; [|done]].
  - destruct (Z.ltb_spec (Websock.len (t :: q) - 2) (n * 4 * 2)) as [|Hl]; [done|].
    destruct (words _ (drop 1 q)) as [a q1] eqn:E1. apply words_spec in E1 as [-> E1]; [|lia].
    destruct (words _ (drop _ (drop 1 q))) as [x q2] eqn:E2. apply words_spec in E2 as [-> E2]; [|bounds].
    split; [bounds|]. split; [bytes_left|]. intros r.
    rewrite (wait_app 1 (t :: q) r ltac:(bounds) : rQwait 1 (t :: q ++ r) = false).
    rewrite Hr, Hda by lia. pose proof (Websock.len_nonneg r). rewrite (proj2 (Z.ltb_ge _ _)) by lia. by rewrite E1, E2.
  - destruct (Z.ltb_spec (Websock.len (t :: q) - 2) (n * 4)) as [|Hl]; [done|].
    destruct (words _ (drop 1 q)) as [a q1] eqn:E1. apply words_spec in E1 as [-> E1]; [|lia].
    split; [bounds|]. split; [bytes_left|]. intros r.
    rewrite (wait_app 1 (t :: q) r ltac:(bounds) : rQwait 1 (t :: q ++ r) = false).
    rewrite Hr, Hda by lia. pose proof (Websock.len_nonneg r). rewrite (proj2 (Z.ltb_ge _ _)) by lia. by rewrite E1.
Qed.
Lemma cursor_extends q : Forall Websock.byte q → extends handleCursor s q.
Proof using Hw Hh.
  intros Hq. unfold extends, handleCursor.
  assert (0 <= r_width (f_rect s) * r_height (f_rect s) * 4) by nia.
  assert (0 <= (r_width (f_rect s) + 7) / 8 * r_height (f_rect s)) by (apply Z.mul_nonneg_nonneg; [apply Z.div_pos; lia|done]).
  waits. split; [bounds|]. split; [bytes_left|]. intros r. by reads r.
Qed.
Lemma name_extends q : Forall Websock.byte q → extends handleDesktopName s q.
Proof using.
  intros Hq. unfold extends, handleDesktopName. waits. pose proof (be_take 4 q Hq).
  set (n := Websock.be _) in *. waits. split; [bounds|]. split; [bytes_left|]. intros r. reads r. fold n. by reads r.
Qed.
Lemma led_extends q : Forall Websock.byte q → extends handleLedEvent s q.
Proof using. intros Hq. unfold extends, handleLedEvent. waits. split; [bounds|]. split; [bytes_left|]. intros r. by reads r. Qed.
Lemma desktop_extends q : Forall Websock.byte q → extends handleExtendedDesktopSize s q.
Proof using.
  intros Hq. unfold extends, handleExtendedDesktopSize. waits. destruct q as [|t q]; [by bounds|].
  cbn [rQpeek8 list_buffer head default from_option id app]. assert (0 <= t) by (apply Forall_inv in Hq; unfold Websock.byte in Hq; lia).
  waits. destruct (first_screen _ _ _) as [i f] eqn:Ef. 
  assert (∀ r, first_screen t s (drop (Z.to_nat 4) (t :: q) ++ r) = (i, f)) as Hf.
  { intros r. rewrite <- Ef. unfold first_screen. destruct (Z.eqb_spec t 0); [done|]. by reads r. }
  destruct (_ && _) eqn:Ex; [|destruct (resize _ _ _) as [s1 fx1] eqn:Er]; (split; [bounds|]; split; [bytes_left|]); intros r;
    rewrite (wait_app 4 (t :: q) r ltac:(bounds) : rQwait 4 (t :: q ++ r) = false),
      (wait_app (4 + t * 16) (t :: q) r ltac:(bounds) : rQwait _ (t :: q ++ r) = false);
    change (t :: q ++ r) with ((t :: q) ++ r); rewrite drop_app_le by bounds; rewrite Hf; simpl f_rect in *;
    rewrite ?Ex, ?Er; rewrite drop_app_le by bounds; done.
Qed.
End rect.

(** ** Rectangles on more bytes

    No handler of a rectangle looks at the screen's pauses. *)
Definition on_server (f : server → server) (x : reply) : reply := let '(v, s, q, fx) := x in (v, f s, q, fx).
Lemma rect_flush e f a s q : handleRect e (with_flush f a s) q = on_server (with_flush f a) (handleRect e s q).
Proof.
  unfold handleRect. repeat (match goal with |- (if ?b then _ else _) = _ => destruct b end); try done.
  - unfold handleVMwareCursor. cbn [f_rect with_flush]. destruct (rQwait 1 q); [done|].
    repeat (match goal with |- (if ?b then _ else _) = _ => destruct b end); try done; by repeat (destruct (words _ _)).
  - unfold handleCursor. cbn [f_rect with_flush]. by destruct (rQwait _ q).
  - unfold handleDesktopName. destruct (rQwait 4 q); [done|]. cbn [rQshift list_buffer]. by destruct (rQwait _ _).
  - unfold handleExtendedDesktopSize. cbn [f_rect with_flush supportsSetDesktopSize].
    destruct (rQwait 4 q); [done|]. destruct (rQwait _ q); [done|]. cbn [rQshiftBytes list_buffer].
    change (first_screen ?n (with_flush f a s)) with (first_screen n s). destruct (first_screen _ _ _) as [i g]. cbn [f_rect with_flush with_desktop].
    by destruct (_ && _).
  - unfold handleLedEvent. by destruct (rQwait 1 q).
  - unfold handleDataRect. cbn [f_rect with_flush base dec]. by destruct (decode _ _ _ _ _) as [[[[[] ?] ?] ?]|].
Qed.
Lemma rects_flush n f a s q : rects_loop n (with_flush f a s) q = on_server (with_flush f a) (rects_loop n s q).
Proof.
  revert s q. induction n as [|n IH]; intros s q; cbn [rects_loop]; cbn [f_rects with_flush]; destruct (f_rects s <=? 0); try done.
  unfold rect_header. cbn [f_encoding with_flush]. destruct (f_encoding s) as [e|].
  - rewrite rect_flush. destruct (handleRect e s q) as [[[v s1] q1] fx1]. cbn [on_server]. destruct v; try done.
    change (rect_done (with_flush f a s1)) with (with_flush f a (rect_done s1)). rewrite IH. by destruct (rects_loop n (rect_done s1) q1) as [[[? ?] ?] ?].
  - destruct (rQwait 12 q); [done|]. cbn [rQshift list_buffer]. set (e := Websock.int32 _). set (s2 := with_rect _ _ s).
    change (with_rect _ _ (with_flush f a s)) with (with_flush f a s2).
    rewrite rect_flush. destruct (handleRect e s2 _) as [[[v s1] q1] fx1]. cbn [on_server]. destruct v; try done.
    change (rect_done (with_flush f a s1)) with (with_flush f a (rect_done s1)). rewrite IH. by destruct (rects_loop n (rect_done s1) q1) as [[[? ?] ?] ?].
Qed.

Definition pseudo (e : Z) : bool := existsb (λ k, e =? enc k) ["pseudoEncodingLastRect"; "pseudoEncodingVMwareCursor"; "pseudoEncodingCursor";
  "pseudoEncodingQEMUExtendedKeyEvent"; "pseudoEncodingDesktopName"; "pseudoEncodingDesktopSize"; "pseudoEncodingExtendedDesktopSize";
  "pseudoEncodingExtendedMouseButtons"; "pseudoEncodingQEMULedEvent"]%string.
(** where the console may be between two messages of the socket *)
Record inv (s : server) (q : bytes) : Prop := Inv {
  i_bytes : Forall Websock.byte q;
  i_rects : 0 <= f_rects s;
  i_rect : 0 <= r_width (f_rect s) ∧ 0 <= r_height (f_rect s);
  i_decoder : match f_encoding s with
    | None => resting (dec s)
    | Some e => 0 < f_rects s ∧ (if pseudo e then resting (dec s) else reading e (f_rect s) (dec s))
    end }.
Lemma inv_bytes s q q' : inv s q → Forall Websock.byte q' → inv s q'.
Proof. by intros []. Qed.
(** the rectangle of the state [s], on more bytes *)
Definition rect_result (e : Z) s q : Prop :=
  let '(v, s', q', fx) := handleRect e s q in
  match v with
  | Done => f_rect s' = f_rect s ∧ 1 <= f_rects s' <= f_rects s ∧ resting (dec s') ∧ len q' <= len q ∧ Forall Websock.byte q'
      ∧ ∀ r, Forall Websock.byte r → handleRect e s (q ++ r) = (Done, s', q' ++ r, fx)
  | Waits => inv s' q' ∧ f_encoding s' = Some e ∧ f_rects s' = f_rects s ∧ len q' <= len q
      ∧ ∀ r, Forall Websock.byte r → handleRect e s (q ++ r) = after fx (handleRect e s' (q' ++ r))
  | Fails => connected (base s') = false
  | Unknown | Throws | Astray => True
  | Flushes | Spins => False
  end.
Lemma pseudo_more e s q (h : server → bytes → reply) :
  f_encoding s = Some e → inv s q → pseudo e = true → (∀ s q, handleRect e s q = h s q) → extends h s q →
  (let '(v, s', q', fx) := h s q in v = Done → f_rect s' = f_rect s ∧ 1 <= f_rects s' <= f_rects s ∧ dec s' = dec s) →
  rect_result e s q.
Proof.
  intros He Hi Hp Hh Hx Hf. pose proof Hi as [Hb Hr [Hw Hh'] Hd]. rewrite He, Hp in Hd. destruct Hd as [Hpos Hd].
  unfold rect_result, extends in *. rewrite Hh. destruct (h s q) as [[[v s'] q'] fx] eqn:Eh. destruct v; try done.
  - destruct (Hf eq_refl) as (H1 & H2 & H3). destruct Hx as (H4 & H5 & H6). rewrite H3. split_and!; try done; try lia.
    intros r _. by rewrite Hh, H6.
  - destruct Hx as (-> & -> & ->). split_and!; try done. intros r _. by destruct (handleRect e s (q ++ r)) as [[[? ?] ?] ?].
Qed.
Lemma data_more e s q : f_encoding s = Some e → inv s q → pseudo e = false → rect_result e s q.
Proof.
  intros He Hi Hp. pose proof Hi as [Hb Hr [Hw Hh] Hd]. rewrite He, Hp in Hd. destruct Hd as [Hpos Hd].
  assert (∀ s q, handleRect e s q = handleDataRect e s q) as Hdata.
  { intros s0 q0. unfold pseudo in Hp. cbn [existsb] in Hp. unfold handleRect.
    repeat (match type of Hp with (?b || _) = false => apply orb_false_iff in Hp as [-> Hp] end). done. }
  unfold rect_result. rewrite Hdata. unfold handleDataRect.
  destruct (decode e (f_rect s) (fbDepth (base s)) (dec s) q) as [[[[v d] q'] ds]|] eqn:E; [|done].
  assert (∀ r, Forall Websock.byte r → Forall Websock.byte (q ++ r)) as Hbr by (intros r Hrb; by apply Forall_app).
  pose proof (λ r Hrb, decode_more e _ _ _ _ r _ _ _ _ Hw Hh (Hbr r Hrb) Hd E) as Hm.
  pose proof (Hm [] ltac:(constructor)) as (Hl & Hq' & Hv). destruct v; [| |done].
  - destruct Hv as [_ Hrest]. split_and!; try done; try (simpl; lia); [by apply Hq'|].
    intros r Hrb. rewrite Hdata. unfold handleDataRect. by destruct (Hm r Hrb) as (_ & _ & -> & _).
  - destruct Hv as [_ Hread]. split_and!; [|done|done|done|].
    + split; [by apply Hq'|done|done|]. simpl. rewrite He, Hp. done.
    + intros r Hrb. rewrite !Hdata. unfold handleDataRect. cbn [f_rect with_dec base dec].
      destruct (Hm r Hrb) as (_ & _ & -> & _).
      destruct (decode e (f_rect s) (fbDepth (base s)) d (q' ++ r)) as [[[[v' d'] q''] ds']|] eqn:E'; simpl.
      * destruct v'; simpl; rewrite fmap_app, <- ?(assoc_L (++)); done.
      * exfalso. by rewrite (decode_known e _ _ _ (dec s) _ q E') in E.
Qed.
#[local] Ltac same := unfold extends; simpl; split_and!; [lia|done|done].
#[local] Ltac frame := simpl; try (intros _; split_and!; try done; lia).
Lemma rect_more e s q : f_encoding s = Some e → inv s q → rect_result e s q.
Proof.
  intros He Hi. destruct (pseudo e) eqn:Hp; [|by apply data_more].
  pose proof Hi as [Hb Hr [Hw Hh] Hd]. rewrite He in Hd. destruct Hd as [Hpos _].
  pose proof (pseudo_more e s q) as Hps. specialize (λ h, Hps h He Hi Hp).
  unfold pseudo in Hp. cbn [existsb] in Hp.
  repeat (apply orb_true_iff in Hp as [Hp|Hp]); try done; apply Z.eqb_eq in Hp; subst e; vm_compute in He.
  - apply (Hps (λ s q, (Done, with_rects 1 s, q, []))); [done|by same|by frame].
  - apply (Hps handleVMwareCursor); [done|by apply vmware_extends|].
    unfold handleVMwareCursor, updateCursor. destruct (rQwait 1 q); [done|].
    repeat (match goal with |- context [if ?b then _ else _] => destruct b end); try done; repeat (destruct (words _ _)); by frame.
  - apply (Hps handleCursor); [done|by apply cursor_extends|].
    unfold handleCursor, updateCursor. destruct (rQwait _ q); [done|]. by frame.
  - apply (Hps (λ s q, (Done, with_qemu s, q, []))); [done|by same|by frame].
  - apply (Hps handleDesktopName); [done|by apply name_extends|].
    unfold handleDesktopName. destruct (rQwait 4 q); [done|]. cbn [rQshift list_buffer]. destruct (rQwait _ _); [done|]. by frame.
  - apply (Hps (λ s q, let '(s, fx) := resize (r_width (f_rect s)) (r_height (f_rect s)) s in (Done, s, q, fx)));
      [done|by same|by frame].
  - apply (Hps handleExtendedDesktopSize); [done|by apply desktop_extends|].
    unfold handleExtendedDesktopSize. destruct (rQwait 4 q); [done|]. destruct (rQwait _ q); [done|]. cbn [rQshiftBytes list_buffer].
    destruct (first_screen _ _ _). destruct (_ && _); by frame.
  - apply (Hps (λ s q, (Done, with_buttons s, q, []))); [done|by same|by frame].
  - apply (Hps handleLedEvent); [done|by apply led_extends|].
    unfold handleLedEvent. destruct (rQwait 1 q); [done|]. by frame.
Qed.

(** ** All the rectangles of an update *)
Lemma header_inv e s q s' q' : inv s q → 0 < f_rects s → rect_header s q = Some (e, s', q') →
  f_encoding s' = Some e ∧ inv s' q' ∧ f_rects s' = f_rects s ∧ len q' <= len q
  ∧ ∀ r, rect_header s (q ++ r) = Some (e, s', q' ++ r).
Proof.
  intros Hi Hp. pose proof Hi as [Hb Hr [Hw Hh] Hd]. unfold rect_header. destruct (f_encoding s) as [e'|] eqn:He.
  { intros [= -> -> ->]. split_and!; try done; lia. }
  waits. intros [= <- <- <-]. cbn [f_encoding with_rect f_rects]. split_and!; try done; try bounds.
  - split; [bytes_left|done| |].
    + simpl. split; apply be_take; bytes_left.
    + simpl. split; [done|]. by destruct (pseudo _); [|apply resting_reading].
  - intros r. by reads r.
Qed.
Lemma rect_done_inv s' q' rc : resting (dec s') → 1 <= f_rects s' → f_rect s' = rc → 0 <= r_width rc ∧ 0 <= r_height rc →
  Forall Websock.byte q' → inv (rect_done s') q'.
Proof. intros Hd Hr Hrc Hdim Hb. split; [done|simpl; lia|simpl; by rewrite Hrc|done]. Qed.
Lemma rects_fuel n m s q : inv s q → f_rects s <= Z.of_nat n → f_rects s <= Z.of_nat m → rects_loop n s q = rects_loop m s q.
Proof.
  revert m s q. induction n as [|n IH]; intros m s q Hi Hn Hm.
  { destruct m as [|m]; [done|]. cbn [rects_loop]. by rewrite (proj2 (Z.leb_le (f_rects s) 0)) by lia. }
  destruct m as [|m]; cbn [rects_loop]; destruct (Z.leb_spec (f_rects s) 0); try done; [lia|].
  destruct (rect_header s q) as [[[e s1] q1]|] eqn:E1; [|done].
  apply header_inv in E1 as (He & Hi1 & Hr1 & _); [|done..]. pose proof (rect_more e s1 q1 He Hi1) as Hm1. unfold rect_result in Hm1.
  destruct (handleRect e s1 q1) as [[[v s2] q2] fx]. destruct v; try done. destruct Hm1 as (G1 & G2 & G3 & G4 & G5 & _).
  rewrite (IH m); [done| |simpl; lia..]. eapply rect_done_inv; [done|lia|done|by destruct Hi1|done].
Qed.
Lemma after_nil (x : reply) : after [] x = x.
Proof. by destruct x as [[[? ?] ?] ?]. Qed.
Lemma after_after fx1 fx2 (x : reply) : after fx1 (after fx2 x) = after (fx1 ++ fx2) x.
Proof. destruct x as [[[v s] q] fx]. simpl. by rewrite app_assoc. Qed.
(** the rectangles of an update, on more bytes *)
Definition rects_result n s q : Prop :=
  let '(v, s', q', fx) := rects_loop n s q in
  match v with
  | Done => inv s' q' ∧ f_rects s' = 0 ∧ len q' <= len q ∧ ∀ r, Forall Websock.byte r → rects_loop n s (q ++ r) = (Done, s', q' ++ r, fx)
  | Waits => inv s' q' ∧ 0 < f_rects s' ∧ len q' <= len q
      ∧ ∀ r, Forall Websock.byte r → rects_loop n s (q ++ r) = after fx (rects_loop (Z.to_nat (f_rects s')) s' (q' ++ r))
  | Fails => connected (base s') = false
  | Unknown | Throws | Astray => True
  | Flushes | Spins => False
  end.
Lemma rects_more n s q : inv s q → f_rects s <= Z.of_nat n → rects_result n s q.
Proof.
  revert s q. induction n as [|n IH]; intros s q Hi Hn; unfold rects_result; cbn [rects_loop];
    (destruct (Z.leb_spec (f_rects s) 0) as [Hz|Hz]; [split_and!; [done|pose proof (i_rects _ _ Hi); lia|lia|done]|]); [lia|].
  destruct (rect_header s q) as [[[e s1] q1]|] eqn:E1.
  - apply header_inv in E1 as (He & Hi1 & Hr1 & Hl1 & Hm1); [|done..]. pose proof (rect_more e s1 q1 He Hi1) as Hx. unfold rect_result in Hx.
    destruct (handleRect e s1 q1) as [[[v s2] q2] fx] eqn:E2. destruct v; try done.
    + destruct Hx as (G1 & G2 & G3 & G4 & G5 & G6).
      assert (inv (rect_done s2) q2) as Hi2 by (eapply rect_done_inv; [done|lia|done|by destruct Hi1|done]).
      pose proof (IH (rect_done s2) q2 Hi2 ltac:(simpl; lia)) as Hl. unfold rects_result in Hl.
      destruct (rects_loop n (rect_done s2) q2) as [[[v' s3] q3] fx'] eqn:E3. simpl. destruct v'; try done.
      * destruct Hl as (? & ? & ? & Hl). split_and!; try done; [lia|]. intros r Hr. rewrite Hm1, G6 by done. by rewrite Hl.
      * destruct Hl as (? & ? & ? & Hl). split_and!; try done; [lia|]. intros r Hr. rewrite Hm1, G6 by done. rewrite Hl by done.
        apply after_after.
    + destruct Hx as (Hi2 & He2 & Hr2 & Hl2 & Hx). split_and!; [done|lia| |].
      { lia. }
      intros r Hr. rewrite Hm1, (Hx r Hr).
      assert (0 < f_rects s2) as Hp2 by lia. destruct (Z.to_nat (f_rects s2)) as [|k] eqn:Ek; [lia|]. cbn [rects_loop].
      rewrite (proj2 (Z.leb_gt (f_rects s2) 0)) by done. unfold rect_header. rewrite He2.
      pose proof (rect_more e s2 (q2 ++ r) He2 (inv_bytes _ _ _ Hi2 ltac:(apply Forall_app; split; [apply Hi2|done]))) as Hy. unfold rect_result in Hy.
      destruct (handleRect e s2 (q2 ++ r)) as [[[v' s4] q4] fx4] eqn:E4. simpl. destruct v'; try done.
      rewrite after_after. f_equal. destruct Hy as (G1 & G2 & G3 & G4 & G5 & _).
      apply rects_fuel; [|simpl; lia..]. eapply rect_done_inv; [done|lia|done|by destruct Hi2|done].
  - split_and!; [done|done|lia|]. intros r Hr. 
    destruct (Z.to_nat (f_rects s)) as [|k] eqn:Ek; [lia|].
    assert (inv s (q ++ r)) as Hi' by (eapply inv_bytes; [done|]; apply Forall_app; split; [apply Hi|done]).
    rewrite <- (rects_fuel (S n) (S k) s (q ++ r) Hi') by lia. cbn [rects_loop]. rewrite (proj2 (Z.leb_gt (f_rects s) 0)) by done.
    symmetry. apply after_nil.
Qed.

(** ** A message, on more bytes *)
Definition calm : server → server := with_flush false [].
Definition is_flush (o : effect) : bool := match o with FlushScreen => true | _ => false end.
Definition quiet (fx : list effect) : list effect := filter (λ o, is_flush o = false) fx.
Lemma quiet_app fx1 fx2 : quiet (fx1 ++ fx2) = quiet fx1 ++ quiet fx2.
Proof. apply filter_app. Qed.
(** the message of the state [s], on more bytes and without pauses *)
Definition message_result s q : Prop :=
  let '(v, s', q', fx) := normalMsg s q in
  match v with
  | Done => inv s' q' ∧ f_rects s' = 0 ∧ flushing s' = flushing s ∧ len q' <= len q - (if f_rects s =? 0 then 1 else 0)
      ∧ ∀ r, Forall Websock.byte r → normalMsg (calm s) (q ++ r) = (Done, calm s', q' ++ r, quiet fx)
  | Waits => inv s' q' ∧ (f_rects s' = 0 → q' ≠ []) ∧ flushing s' = flushing s ∧ normalMsg (calm s') q' = (Waits, calm s', q', [])
      ∧ ∀ r, Forall Websock.byte r → normalMsg (calm s) (q ++ r) = after (quiet fx) (normalMsg (calm s') (q' ++ r))
  | Flushes => f_rects s' ≠ 0 → inv s' q' ∧ flushing s' = true ∧ f_encoding s' = None
      ∧ ∀ r, Forall Websock.byte r → normalMsg (calm s) (q ++ r) = after (quiet fx) (normalMsg (calm s') (q' ++ r))
  | Fails => connected (base s') = false
  | Unknown | Throws | Astray => True
  | Spins => False
  end.

Lemma calm_with_flush s f a : calm (with_flush f a s) = calm s.
Proof. done. Qed.
(** a handler that leaves the screen and the rectangles alone *)
Definition same_screen s s' : Prop :=
  f_rects s' = f_rects s ∧ f_encoding s' = f_encoding s ∧ f_rect s' = f_rect s ∧ dec s' = dec s ∧ flushing s' = flushing s.
Definition plain (h : server → bytes → bytes → reply) : Prop := ∀ s q0 q,
  (∀ f a, h (with_flush f a s) q0 q = on_server (with_flush f a) (h s q0 q))
  ∧ (∀ v s' q' fx, h s q0 q = (v, s', q', fx) → same_screen s s' ∧ quiet fx = fx ∧ (v = Done → len q' <= len q)).
#[local] Ltac same_plain :=
  split; [intros f a; repeat match goal with |- match ?b with _ => _ end = _ => destruct b end; done|];
  intros v s' q' fx;
  repeat match goal with |- match ?b with _ => _ end = _ → _ => destruct b end; intros [= <- <- <- <-];
  (split; [split_and!; done|split; [first [done|by destruct (viewOnly _)]|first [done|intros _; bounds]]]).
Lemma plain_fence : plain handleServerFenceMsg.
Proof. intros s q0 q. unfold handleServerFenceMsg. cbn [rQshift rQshiftBytes list_buffer]. same_plain. Qed.
Lemma plain_xvp : plain handleXvpMsg.
Proof. intros s q0 q. unfold handleXvpMsg. cbn [rQshift rQshiftBytes list_buffer]. same_plain. Qed.
Lemma plain_cut_text : plain handleServerCutText.
Proof.
  intros s q0 q. unfold handleServerCutText, extended_clipboard. cbn [rQshift rQshiftBytes list_buffer base with_flush]. same_plain.
Qed.
Lemma same_screen_inv s s' q q' : inv s q → same_screen s s' → Forall Websock.byte q' → inv s' q'.
Proof. intros [Hb Hr Hd Hx] (E1 & E2 & E3 & E4 & E5) Hq. split; [done|by rewrite E1|by rewrite E3|by rewrite E1, E2, E3, E4]. Qed.
Lemma plain_message t h s q :
  plain h → Forall Websock.byte (t :: q) → inv s (t :: q) → f_rects s = 0 →
  extends (λ s q, h s q (tail q)) s (t :: q) → (∀ s q, f_rects s = 0 → normalMsg s (t :: q) = h s (t :: q) q) →
  message_result s (t :: q).
Proof.
  intros Hp Hq Hi Hr Hx Hn. unfold message_result. rewrite Hn by done. unfold extends in Hx. cbn [tail] in Hx.
  destruct (Hp s (t :: q) q) as [_ Hs]. destruct (h s (t :: q) q) as [[[v s'] q'] fx] eqn:E. destruct (Hs _ _ _ _ eq_refl) as (Hs' & Hfx & Hlen).
  rewrite Hfx, Hr. destruct v; try done.
  - destruct Hx as (Hl & Hb & Hm). split_and!; [by eapply same_screen_inv|by destruct Hs' as (-> & _)|apply Hs'| |].
    { specialize (Hlen eq_refl). unfold len, Websock.len in *. simpl. lia. }
    intros r _. change ((t :: q) ++ r) with (t :: q ++ r). rewrite Hn by done.
    destruct (Hp s (t :: q ++ r) (q ++ r)) as [Hc _]. unfold calm. rewrite Hc. specialize (Hm r). cbn [app tail] in Hm. by rewrite Hm.
  - destruct Hx as (-> & -> & ->). split_and!; [done|done|done| |intros r _; by rewrite after_nil].
    rewrite Hn by done. destruct (Hp s (t :: q) q) as [Hc _]. unfold calm. by rewrite Hc, E.
Qed.
Lemma quiet_draw (ds : list drawing) : quiet (Draw <$> ds) = Draw <$> ds.
Proof. induction ds; [done|]. cbn [fmap list_fmap quiet]. unfold quiet in *. rewrite filter_cons_True by done. by f_equal. Qed.
Lemma rect_quiet e s q : quiet (handleRect e s q).2 = (handleRect e s q).2.
Proof.
  unfold handleRect. repeat (match goal with |- context [if ?b then _ else _] => destruct b end); try done.
  - unfold handleVMwareCursor. destruct (rQwait 1 q); [done|].
    repeat (match goal with |- context [if ?b then _ else _] => destruct b end); try done; by repeat (destruct (words _ _)).
  - unfold handleCursor. by destruct (rQwait _ q).
  - unfold handleDesktopName. destruct (rQwait 4 q); [done|]. cbn [rQshift list_buffer]. by destruct (rQwait _ _).
  - simpl. unfold updateContinuousUpdates. by destruct (enabledContinuousUpdates _).
  - unfold handleExtendedDesktopSize. destruct (rQwait 4 q); [done|]. destruct (rQwait _ q); [done|]. cbn [rQshiftBytes list_buffer].
    destruct (first_screen _ _ _) as [i g]. simpl. unfold resize, updateContinuousUpdates.
    repeat (match goal with |- context [if ?b then _ else _] => destruct b end); simpl; by destruct (enabledContinuousUpdates s).
  - unfold handleLedEvent. by destruct (rQwait 1 q).
  - unfold handleDataRect. destruct (decode _ _ _ _ _) as [[[[[] ?] ?] ?]|]; simpl; rewrite ?quiet_app, ?quiet_draw; done.
Qed.
Lemma rects_quiet n s q : quiet (rects_loop n s q).2 = (rects_loop n s q).2.
Proof.
  revert s q. induction n as [|n IH]; intros s q; cbn [rects_loop]; destruct (f_rects s <=? 0); try done.
  destruct (rect_header s q) as [[[e s1] q1]|]; [|done]. pose proof (rect_quiet e s1 q1) as Hq.
  destruct (handleRect e s1 q1) as [[[v s2] q2] fx]. destruct v; try done. specialize (IH (rect_done s2) q2).
  destruct (rects_loop n (rect_done s2) q2) as [[[? ?] ?] ?]. simpl in *. by rewrite quiet_app, Hq, IH.
Qed.
(** an update whose rectangles are at hand *)
Definition request (s : server) : list effect :=
  if enabledContinuousUpdates s then [] else [Send (FbUpdateRequest true 0 0 (fbWidth s) (fbHeight s))].
Definition update s q : reply :=
  let '(v, s', q', fx) := rects_loop (Z.to_nat (f_rects s)) s q in (v, s', q', fx ++ match v with Done => request s' | _ => [] end).
Lemma normal_rects s q : 0 < f_rects s → normalMsg s q = update s q.
Proof.
  intros Hr. unfold normalMsg. rewrite (proj2 (Z.ltb_lt _ _) Hr). cbn. unfold framebufferUpdate. rewrite (proj2 (Z.eqb_neq _ _)) by lia. done.
Qed.
Lemma update_flush f a s q : update (with_flush f a s) q = on_server (with_flush f a) (update s q).
Proof.
  unfold update. cbn [f_rects with_flush]. rewrite rects_flush. by destruct (rects_loop _ s q) as [[[[] s'] q'] fx].
Qed.
Lemma update_flushing s q : flushing (update s q).1.1.2 = flushing s.
Proof.
  assert (with_flush (flushing s) (answers s) s = s) as Hs by (by destruct s).
  rewrite <- Hs at 1. rewrite update_flush. by destruct (update s q) as [[[? ?] ?] ?].
Qed.
Lemma quiet_request s : quiet (request s) = request s.
Proof. unfold request. by destruct (enabledContinuousUpdates s). Qed.
Lemma update_quiet s q : quiet (update s q).2 = (update s q).2.
Proof.
  unfold update. pose proof (rects_quiet (Z.to_nat (f_rects s)) s q) as Hq. destruct (rects_loop _ s q) as [[[v s'] q'] fx]. simpl in *.
  rewrite quiet_app, Hq. f_equal. destruct v; try done. apply quiet_request.
Qed.
Lemma update_more s q : inv s q →
  let '(v, s', q', fx) := update s q in
  match v with
  | Done => inv s' q' ∧ f_rects s' = 0 ∧ len q' <= len q ∧ ∀ r, Forall Websock.byte r → update s (q ++ r) = (Done, s', q' ++ r, fx)
  | Waits => inv s' q' ∧ 0 < f_rects s' ∧ update s' q' = (Waits, s', q', [])
      ∧ ∀ r, Forall Websock.byte r → update s (q ++ r) = after fx (normalMsg s' (q' ++ r))
  | Fails => connected (base s') = false
  | Unknown | Throws | Astray => True
  | Flushes | Spins => False
  end.
Proof.
  intros Hi. pose proof (i_rects _ _ Hi). pose proof (rects_more (Z.to_nat (f_rects s)) s q Hi ltac:(lia)) as Hm. unfold rects_result in Hm.
  unfold update at 1. destruct (rects_loop _ s q) as [[[v s'] q'] fx] eqn:E. destruct v; try done.
  - destruct Hm as (? & ? & ? & Hm). split_and!; try done. intros r Hr. unfold update. by rewrite Hm.
  - destruct Hm as (Hi' & Hp & _ & Hm).
    assert (∀ r, Forall Websock.byte r → update s (q ++ r) = after fx (update s' (q' ++ r))) as Hup.
    { intros r Hr. unfold update. rewrite Hm by done. 
      destruct (rects_loop _ s' (q' ++ r)) as [[[v2 s2] q2] fx2]. simpl. destruct v2; simpl; by rewrite <- ?(assoc_L (++)). }
    rewrite app_nil_r. split_and!; [done|done| |intros r Hr; rewrite Hup by done; by rewrite normal_rects].
    specialize (Hup [] ltac:(constructor)). rewrite !app_nil_r in Hup. unfold update at 1 in Hup. rewrite E, app_nil_r in Hup.
    destruct (update s' q') as [[[v2 s2] q2] fx2]. simpl in Hup. injection Hup as -> -> -> Hfx.
    rewrite <- (app_nil_r fx) in Hfx at 1. by apply app_inv_head in Hfx as <-.
Qed.
(** the update [s] is in the middle of, or has the header of, by [message_result] *)
Lemma update_message s q s1 q1 :
  inv s1 q1 → f_rects s1 = f_rects s1 → flushing s1 = flushing s →
  len q1 <= len q - (if f_rects s =? 0 then 1 else 0) →
  (∀ r, Forall Websock.byte r → normalMsg (calm s) (q ++ r) = update (calm s1) (q1 ++ r)) →
  normalMsg s q = update s1 q1 →
  message_result s q.
Proof.
  intros Hi _ Hf Hl Hm Hn. unfold message_result. rewrite Hn. pose proof (update_more s1 q1 Hi) as Hu.
  pose proof (update_quiet s1 q1) as Hq. pose proof (update_flushing s1 q1) as Hfl.
  destruct (update s1 q1) as [[[v s'] q'] fx]. simpl in Hq, Hfl. rewrite Hq. destruct v; try done.
  - destruct Hu as (? & ? & ? & Hu). split_and!; try done; [congruence|lia|]. intros r Hr. rewrite Hm by done.
    unfold calm at 1. by rewrite update_flush, Hu.
  - destruct Hu as (? & ? & Hrest & Hu). split_and!; [done|lia|congruence| |].
    { rewrite normal_rects by (unfold calm; done). unfold calm. by rewrite update_flush, Hrest. }
    intros r Hr. rewrite Hm by done.
    unfold calm at 1. rewrite update_flush, Hu by done. rewrite normal_rects by done. rewrite normal_rects by (unfold calm; done).
    unfold calm. rewrite update_flush. by destruct (update s' (q' ++ r)) as [[[? ?] ?] ?].
Qed.
Lemma message_more s q : inv s q → (f_rects s = 0 → q ≠ []) → message_result s q.
Proof.
  intros Hi Hq. pose proof (i_rects _ _ Hi). destruct (decide (f_rects s = 0)) as [Hr|Hr].
  2: { apply (update_message s q s q); try done; [by rewrite (proj2 (Z.eqb_neq _ _)) by done; lia| |by apply normal_rects; lia].
       intros r _. rewrite normal_rects; [done|unfold calm; simpl; lia]. }
  specialize (Hq Hr). destruct q as [|t q]; [done|]. pose proof (i_bytes _ _ Hi) as Hb.
  assert (∀ s q, f_rects s = 0 → (if 0 <? f_rects s then (0, t :: q) else rQshift 1 (t :: q)) = (t, q)) as Hty.
  { intros s0 q0 ->. simpl. by rewrite Z.mul_1_r, Z.add_0_r. }
  destruct (Z.eqb_spec t 3) as [->|N3].
  { eapply plain_message; [apply plain_cut_text|done..|by apply cut_text_extends|]. intros s0 q0 H0'. unfold normalMsg. by rewrite Hty. }
  destruct (Z.eqb_spec t 248) as [->|N248].
  { eapply plain_message; [apply plain_fence|done..|by apply fence_extends|]. intros s0 q0 H0'. unfold normalMsg. by rewrite Hty. }
  destruct (Z.eqb_spec t 250) as [->|N250].
  { eapply plain_message; [apply plain_xvp|done..|by apply xvp_extends|]. intros s0 q0 H0'. unfold normalMsg. by rewrite Hty. }
  assert (∀ f s' fx, inv s' q → f_rects s' = 0 → flushing s' = flushing s → quiet fx = fx →
    (∀ s q, f_rects s = 0 → normalMsg s (t :: q) = (Done, f s, q, fx)) → f s = s' → f (calm s) = calm s' → message_result s (t :: q)) as Hsimple.
  { intros f s' fx Hi' Hr' Hf' Hq' Hn Hs Hc. unfold message_result. rewrite Hn, Hs by done. split_and!; try done.
    - rewrite Hr. simpl. unfold len, Websock.len. simpl. lia.
    - intros r _. cbn [app]. by rewrite Hn, Hc, Hq' by done. }
  assert (Forall Websock.byte q) as Hbq by by eapply Forall_inv_tail.
  destruct (Z.eqb_spec t 0) as [->|N0].
  { assert (∀ s q, f_rects s = 0 → normalMsg s (0 :: q) = let '(v, s', q', fx) := framebufferUpdate s (0 :: q) q in
      (v, s', q', fx ++ match v with Done => request s' | _ => [] end)) as Hn by (intros s0 q0 H0'; unfold normalMsg; by rewrite Hty).
    unfold framebufferUpdate in Hn. destruct (rQwait 3 q) eqn:E3.
    { unfold message_result. rewrite Hn, Hr by done. cbn [Z.eqb]. rewrite E3.
      split_and!; try done; [by rewrite Hn by done; simpl; rewrite Hr; simpl in E3 |- *; rewrite E3|intros r _; by rewrite after_nil]. }
    pose proof E3 as E3'. apply wait_false in E3'. cbn [rQshift rQshiftBytes list_buffer] in Hn.
    set (n := Websock.be (take 2 (drop (Z.to_nat 1) q))). assert (0 <= n) as Hn0 by (apply be_take; bytes_left).
    set (q1 := drop 2 (drop (Z.to_nat 1) q)).
    assert (inv (with_rects n s) q1) as Hi1.
    { destruct Hi as [_ _ Hdim Hd]. split; [unfold q1; bytes_left|done|done|]. simpl. by destruct (f_encoding s) as [e|]; [lia|]. }
    assert (∀ f a r, normalMsg (with_flush f a s) (0 :: q ++ r) = match a with
      | true :: a => (Flushes, with_flush true a (with_rects n s), q1 ++ r, [FlushScreen])
      | _ => update (with_flush f (tail a) (with_rects n s)) (q1 ++ r) end) as Hmsg.
    { intros f a r. rewrite Hn by done. cbn [f_rects with_flush answers with_rects flushing]. rewrite Hr. cbn [Z.eqb].
      rewrite (wait_app 3 q r) by done. reads r. fold n q1. by destruct a as [|[] a]. }
    assert (with_flush (flushing s) (answers s) s = s) as Hs by (by destruct s).
    pose proof (Hmsg (flushing s) (answers s) []) as Hm0. rewrite !app_nil_r, Hs in Hm0.
    assert (∀ r, normalMsg (calm s) (0 :: q ++ r) = update (calm (with_rects n s)) (q1 ++ r)) as Hcalm by (intros r; apply Hmsg).
    assert (match answers s with true :: _ => True | _ => False end ∨
            normalMsg s (0 :: q) = update (with_flush (flushing s) (tail (answers s)) (with_rects n s)) q1) as [Hp|Hp].
    { destruct (answers s) as [|[] a]; auto. }
    - unfold message_result. destruct (answers s) as [|[] a]; try done. rewrite Hm0. simpl. intros Hnz.
      split_and!; [|done|by destruct Hi as [_ _ _ Hx]; destruct (f_encoding s); [lia|]|].
      + destruct Hi1. by split.
      + intros r Hrb. rewrite Hcalm. rewrite normal_rects by (simpl; lia). by rewrite after_nil.
    - apply (update_message s (0 :: q) (with_flush (flushing s) (tail (answers s)) (with_rects n s)) q1); try done.
      + destruct Hi1. by split.
      + rewrite Hr. simpl. unfold q1. bounds.
      + intros r _. apply Hcalm. }
  destruct (Z.eqb_spec t 1) as [->|N1]; [by unfold message_result, normalMsg; rewrite Hty|].
  destruct (Z.eqb_spec t 2) as [->|N2].
  { apply (Hsimple (λ s, s) s [Tell Bell]); try done; [by eapply inv_bytes|]. intros s0 q0 H0'. unfold normalMsg. by rewrite Hty. }
  destruct (Z.eqb_spec t 150) as [->|N150].
  { set (b := negb (supportsContinuousUpdates s)). set (s' := with_updates true b s).
    assert (∀ s q, f_rects s = 0 → normalMsg s (150 :: q) = let s := with_updates true (negb (supportsContinuousUpdates s)) s in
      (Done, s, q, updateContinuousUpdates s)) as Hn by (intros s0 q0 H0'; unfold normalMsg; by rewrite Hty).
    unfold message_result. rewrite Hn by done. cbn zeta. fold b s'. destruct Hi as [_ Hr0 Hd Hx]. split_and!; try done.
    - rewrite Hr. simpl. unfold len, Websock.len. simpl. lia.
    - intros r _. cbn [app]. rewrite Hn by done. cbn zeta.
      change (supportsContinuousUpdates (calm s)) with (supportsContinuousUpdates s). fold b.
      unfold s', updateContinuousUpdates. simpl. by destruct b. }
  apply (Hsimple disconnected (disconnected s) [Fail]); try done; [by destruct Hi|].
  intros s0 q0 H0'. unfold normalMsg. rewrite Hty by done.
  by rewrite !(proj2 (Z.eqb_neq t _)) by done.
Qed.

(** ** The loop ends *)
Definition measure s q : nat := length q + (if f_rects s =? 0 then 0 else 1).
Lemma message_measure s q s' q' fx : inv s q → (f_rects s = 0 → q ≠ []) → normalMsg s q = (Done, s', q', fx) →
  inv s' q' ∧ f_rects s' = 0 ∧ flushing s' = flushing s ∧ (measure s' q' < measure s q)%nat.
Proof.
  intros Hi Hq Hn. pose proof (message_more s q Hi Hq) as Hm. unfold message_result in Hm. rewrite Hn in Hm.
  destruct Hm as (? & Hr & ? & Hl & _). split_and!; try done. unfold measure, len, Websock.len in *. rewrite Hr. simpl.
  destruct (Z.eqb_spec (f_rects s) 0) as [E|E]; [|lia]. specialize (Hq E). destruct q; [done|]. simpl in *. lia.
Qed.
Lemma wait1 q : rQwait 1 q = bool_decide (q = []).
Proof. apply bool_decide_ext. destruct q; unfold len, Websock.len; simpl; split; intros; try done; lia. Qed.
Lemma loop_fuel n m s q : inv s q → (f_rects s = 0 → q ≠ []) → (measure s q < n)%nat → (measure s q < m)%nat →
  message_loop n s q = message_loop m s q.
Proof.
  revert m s q. induction n as [|n IH]; intros m s q Hi Hq Hn Hm; [lia|]. destruct m as [|m]; [lia|]. cbn [message_loop].
  destruct (flushing s); [done|]. destruct (normalMsg s q) as [[[v s'] q'] fx] eqn:E. destruct v; try done.
  apply message_measure in E as (Hi' & Hr & _ & Hl); [|done..]. rewrite wait1. case_bool_decide; [done|].
  by rewrite (IH m) by (done || lia).
Qed.
Lemma loop_ends n s q : inv s q → (f_rects s = 0 → q ≠ []) → (measure s q < n)%nat → (message_loop n s q).1.1.1 ≠ Spins.
Proof.
  revert s q. induction n as [|n IH]; intros s q Hi Hq Hn; [lia|]. cbn [message_loop].
  destruct (flushing s); [done|]. pose proof (message_more s q Hi Hq) as Hm. unfold message_result in Hm.
  destruct (normalMsg s q) as [[[v s'] q'] fx] eqn:E. destruct v; try done.
  apply message_measure in E as (Hi' & Hr & _ & Hl); [|done..]. rewrite wait1. case_bool_decide; [done|].
  specialize (IH s' q' Hi' ltac:(done) ltac:(lia)). by destruct (message_loop n s' q') as [[[? ?] ?] ?].
Qed.

(** ** All the messages of a queue *)
Definition total s q : reply :=
  if bool_decide (q = []) && (f_rects s =? 0) then (Done, s, q, []) else message_loop (S (S (length q))) s q.
Lemma inv_calm s q : inv s q → inv (calm s) q.
Proof. by intros []. Qed.
Lemma loop_eq n s q : message_loop (S n) s q =
  if flushing s then (Flushes, s, q, [])
  else let '(v, s, q, fx) := normalMsg s q in
    match v with Done => if rQwait 1 q then (Done, s, q, fx) else after fx (message_loop n s q) | _ => (v, s, q, fx) end.
Proof. done. Qed.
Lemma total_step s q : inv s q → (f_rects s = 0 → q ≠ []) → flushing s = false →
  total s q = match normalMsg s q with (Done, s', q', fx) => after fx (total s' q') | x => x end.
Proof.
  intros Hi Hq Hf. unfold total at 1. replace (bool_decide (q = []) && (f_rects s =? 0)) with false.
  2: { symmetry. destruct (Z.eqb_spec (f_rects s) 0) as [E|E]; [|apply andb_false_r]. rewrite bool_decide_false by by apply Hq. done. }
  rewrite loop_eq, Hf. destruct (normalMsg s q) as [[[v s'] q'] fx] eqn:E. destruct v; try done.
  apply message_measure in E as (Hi' & Hr & _ & Hl); [|done..]. rewrite wait1. unfold total. rewrite Hr. cbn [Z.eqb].
  case_bool_decide as Hz; cbn [andb after]; [by rewrite app_nil_r|].
  unfold measure in Hl. rewrite Hr in Hl. cbn [Z.eqb] in Hl.
  rewrite (loop_fuel (S (length q)) (S (S (length q'))) s' q'); [done|done|done|unfold measure; rewrite Hr; cbn [Z.eqb]..];
    destruct (f_rects s =? 0); lia.
Qed.
Lemma loop_more n s q : inv s q → (f_rects s = 0 → q ≠ []) → flushing s = false → (measure s q < n)%nat →
  let '(v, s', q', fx) := message_loop n s q in
  let more := ∀ r, Forall Websock.byte r → total (calm s) (q ++ r) = after (quiet fx) (total (calm s') (q' ++ r)) in
  match v with
  | Done => q' = [] ∧ inv s' q' ∧ f_rects s' = 0 ∧ flushing s' = false ∧ more
  | Waits => inv s' q' ∧ (f_rects s' = 0 → q' ≠ []) ∧ flushing s' = false ∧ normalMsg (calm s') q' = (Waits, calm s', q', []) ∧ more
  | Flushes => f_rects s' ≠ 0 → inv s' q' ∧ flushing s' = true ∧ f_encoding s' = None ∧ more
  | Fails => connected (base s') = false
  | Unknown | Throws | Astray => True
  | Spins => False
  end.
Proof.
  revert s q. induction n as [|n IH]; intros s q Hi Hq Hf Hn; [lia|]. cbn [message_loop]. rewrite Hf.
  pose proof (message_more s q Hi Hq) as Hm. unfold message_result in Hm.
  assert (∀ r, Forall Websock.byte r → inv (calm s) (q ++ r)) as Hir.
  { intros r Hr. apply inv_calm. eapply inv_bytes; [done|]. apply Forall_app. split; [apply Hi|done]. }
  assert (∀ r, f_rects (calm s) = 0 → q ++ r ≠ []) as Hqr by (intros r E [??]%app_eq_nil; by apply Hq).
  assert (∀ s' q' fx, inv s' q' → (f_rects s' = 0 → q' ≠ []) →
     (∀ r, Forall Websock.byte r → normalMsg (calm s) (q ++ r) = after (quiet fx) (normalMsg (calm s') (q' ++ r))) →
     ∀ r, Forall Websock.byte r → total (calm s) (q ++ r) = after (quiet fx) (total (calm s') (q' ++ r))) as Hcut.
  { intros s' q' fx Hi' Hq' Hx r Hr. rewrite total_step by auto. rewrite Hx by done. rewrite (total_step (calm s')).
    - destruct (normalMsg (calm s') (q' ++ r)) as [[[[] ?] ?] ?]; simpl; rewrite ?after_after; done.
    - apply inv_calm. eapply inv_bytes; [done|]. apply Forall_app. split; [apply Hi'|done].
    - intros E [??]%app_eq_nil. by apply Hq'.
    - done. }
  destruct (normalMsg s q) as [[[v s1] q1] fx] eqn:E1. destruct v; try done.
  - destruct Hm as (Hi1 & Hr1 & Hf1 & Hl & Hm).
    assert (∀ r, Forall Websock.byte r → total (calm s) (q ++ r) = after (quiet fx) (total (calm s1) (q1 ++ r))) as Hone.
    { intros r Hr. rewrite total_step by auto. by rewrite Hm. }
    rewrite wait1. case_bool_decide as Hz; [split_and!; try done; congruence|].
    assert (measure s1 q1 < n)%nat as Hn1 by (apply message_measure in E1; [|done..]; destruct E1 as (_ & _ & _ & ?); lia).
    specialize (IH s1 q1 Hi1 ltac:(done) ltac:(congruence) Hn1). destruct (message_loop n s1 q1) as [[[v s2] q2] fx2]. simpl in *.
    assert ((∀ r, Forall Websock.byte r → total (calm s1) (q1 ++ r) = after (quiet fx2) (total (calm s2) (q2 ++ r))) →
      ∀ r, Forall Websock.byte r → total (calm s) (q ++ r) = after (quiet (fx ++ fx2)) (total (calm s2) (q2 ++ r))) as Htwo.
    { intros H2 r Hr. by rewrite Hone, H2, after_after, quiet_app by done. }
    destruct v; try done; [naive_solver..|]. intros Hz2. naive_solver.
  - destruct Hm as (? & ? & ? & ? & Hm). split_and!; try done; [congruence|]. by apply Hcut.
  - intros Hz. destruct (Hm Hz) as (? & ? & ? & Hm'). split_and!; try done. by apply Hcut.
Qed.

(** ** The console between the events of its socket and its screen

    A message of the socket brings bytes; [_handleMessage] runs if there is
    anything to read.  The screen, when it was waited for, is drawn at some time.
    [a]: what the screen says when it is asked whether it still draws. *)
Record console := Console { sv : server; queue : bytes }.
Inductive event := Arrives (chunk : bytes) (a : list bool) | Drawn (a : list bool).
Definition answers_to (a : list bool) (s : server) : server := with_flush (flushing s) a s.
Definition handled (m : console) (e : event) : reply :=
  match e with
  | Arrives chunk a => handleMessage (answers_to a (sv m)) (queue m ++ chunk)
  | Drawn a => handleMessage (with_flush false a (sv m)) (queue m)
  end.
Definition step (m : console) (e : event) : console * list effect :=
  let '(v, s, q, fx) := handled m e in (Console (answers_to [] s) q, fx).
(** nothing throws, no message is read past its end, no cursor is of an unknown
    type, and the screen is not waited for by an update without rectangles *)
Definition orderly (m : console) (e : event) : Prop :=
  match e with Arrives chunk _ => Forall Websock.byte chunk | Drawn _ => flushing (sv m) = true end
  ∧ let '(v, s, q, fx) := handled m e in
    match v with Unknown | Throws | Astray => False | Flushes => f_rects s ≠ 0 | _ => True end.
(** the same in two parts: the event and its messages are in order; the screen
    is waited for by an update without rectangles *)
Definition in_order (m : console) (e : event) : Prop :=
  match e with Arrives chunk _ => Forall Websock.byte chunk | Drawn _ => flushing (sv m) = true end
  ∧ match (handled m e).1.1.1 with Unknown | Throws | Astray => False | _ => True end.
Definition empty_update_waits (m : console) (e : event) : Prop :=
  (handled m e).1.1.1 = Flushes ∧ f_rects (handled m e).1.1.2 = 0.
Lemma orderly_parts m e : in_order m e → ¬ empty_update_waits m e → orderly m e.
Proof.
  unfold in_order, empty_update_waits, orderly. destruct (handled m e) as [[[v s] q] fx]. simpl.
  intros [He Hv] Hn. split; [done|]. destruct v; try done. intros Hz. by apply Hn.
Qed.
Definition received (es : list event) : bytes := es ≫= λ e, match e with Arrives chunk _ => chunk | Drawn _ => [] end.
(** no message is half read *)
Definition between_messages s : Prop :=
  connected (base s) = true ∧ f_rects s = 0 ∧ f_encoding s = None ∧ resting (dec s) ∧ flushing s = false ∧ answers s = []
  ∧ 0 <= r_width (f_rect s) ∧ 0 <= r_height (f_rect s).

(** what has been handled is what all the bytes would have had handled first *)
Record so_far (s0 : server) (es : list event) (m : console) (os : list effect) : Prop := SoFar {
  sf_inv : inv (sv m) (queue m);
  sf_answers : answers (sv m) = [];
  sf_rest : flushing (sv m) = false → queue m = [] ∧ f_rects (sv m) = 0 ∨ normalMsg (sv m) (queue m) = (Waits, sv m, queue m, []);
  sf_pause : flushing (sv m) = true → f_rects (sv m) ≠ 0 ∧ f_encoding (sv m) = None;
  sf_more r : Forall Websock.byte r → total s0 (received es ++ r) = after (quiet os) (total (calm (sv m)) (queue m ++ r)) }.
Lemma calm_answers s : calm (answers_to [] s) = calm s.
Proof. done. Qed.
Lemma calm_id s : flushing s = false → answers s = [] → calm s = s.
Proof. destruct s. simpl. by intros -> ->. Qed.
Lemma handle_so_far (s0 : server) (P : bytes) (os : list effect) s q :
  inv s q → flushing s = false → connected (base s) = true → (q = [] → f_rects s = 0 ∨ normalMsg (calm s) q = (Waits, calm s, q, [])) →
  (∀ r, Forall Websock.byte r → total s0 (P ++ r) = after (quiet os) (total (calm s) (q ++ r))) →
  let '(v, s', q', fx) := handleMessage s q in
  match v with Unknown | Throws | Astray => False | Flushes => f_rects s' ≠ 0 | _ => True end →
  connected (base s') = true →
  v ≠ Spins ∧ ∀ es, received es = P → so_far s0 es (Console (answers_to [] s') q') (os ++ fx).
Proof.
  intros Hi Hf Hc Hq Hm. unfold handleMessage. rewrite wait1, Hc. cbn [negb]. rewrite orb_false_r.
  assert (∀ es s' q' fx, received es = P → (∀ r, Forall Websock.byte r → total (calm s) (q ++ r) = after (quiet fx) (total (calm s') (q' ++ r))) →
    ∀ r, Forall Websock.byte r → total s0 (received es ++ r) = after (quiet (os ++ fx)) (total (calm s') (q' ++ r))) as Hmore.
  { intros es s' q' fx -> Hx r Hr. by rewrite Hm, Hx, after_after, quiet_app by done. }
  case_bool_decide as Hz.
  { intros _ _. split; [done|]. intros es He. split; cbn [sv queue answers_to]; try done.
    - by destruct Hi.
    - intros _. change (answers_to [] s) with (with_flush (flushing s) [] s). rewrite Hf. destruct (Hq Hz); auto.
    - cbn. congruence.
    - rewrite calm_answers. apply (Hmore es s q []); [done|]. intros r _. by rewrite after_nil. }
  pose proof (loop_more (S (S (length q))) s q Hi ltac:(done) Hf) as Hl.
  specialize (Hl ltac:(unfold measure; destruct (f_rects s =? 0); lia)).
  destruct (message_loop _ s q) as [[[v s'] q'] fx]. intros Hv Hc'. destruct v; try done; try congruence.
  - destruct Hl as (-> & Hi' & Hr' & Hf' & Hx). split; [done|]. intros es He. split; cbn [sv queue]; try done.
    + by destruct Hi'.
    + intros _. left. by split.
    + cbn. congruence.
    + rewrite calm_answers. by apply (Hmore es s' [] fx).
  - destruct Hl as (Hi' & Hr' & Hf' & Hw & Hx). split; [done|]. intros es He. split; cbn [sv queue]; try done.
    + by destruct Hi'.
    + intros _. right. change (answers_to [] s') with (with_flush (flushing s') [] s'). by rewrite Hf'.
    + cbn. congruence.
    + rewrite calm_answers. by apply (Hmore es s' q' fx).
  - destruct (Hl Hv) as (Hi' & Hf' & He' & Hx). split; [done|]. intros es He. split; cbn [sv queue]; try done.
    + by destruct Hi'.
    + cbn. congruence.
    + rewrite calm_answers. by apply (Hmore es s' q' fx).
Qed.
Lemma paused_rest s : inv s [] → f_rects s ≠ 0 → f_encoding s = None → normalMsg s [] = (Waits, s, [], []).
Proof.
  intros Hi Hr He. pose proof (i_rects _ _ Hi). rewrite normal_rects by lia. unfold update.
  destruct (Z.to_nat (f_rects s)) as [|k] eqn:Ek; [lia|]. cbn [rects_loop]. rewrite (proj2 (Z.leb_gt _ _)) by lia.
  unfold rect_header. by rewrite He.
Qed.
Lemma answers_id s : answers s = [] → answers_to [] s = s.
Proof. destruct s. simpl. by intros ->. Qed.
Lemma step_so_far s0 es m os e :
  connected (base (sv m)) = true → so_far s0 es m os → orderly m e → connected (base (sv (step m e).1)) = true →
  (handled m e).1.1.1 ≠ Spins ∧ so_far s0 (es ++ [e]) (step m e).1 (os ++ (step m e).2).
Proof.
  intros Hc [Hi Ha Hr Hp Hm] [He Ho]. unfold step. destruct m as [s q]. cbn [sv queue] in *. destruct e as [chunk a|a]; simpl handled in *.
  - assert (received (es ++ [Arrives chunk a]) = received es ++ chunk) as Hrec by (unfold received; rewrite bind_app; simpl; by rewrite app_nil_r).
    assert (inv s (q ++ chunk)) as Hi' by (eapply inv_bytes; [done|]; apply Forall_app; split; [apply Hi|done]).
    assert (∀ r, Forall Websock.byte r → total s0 ((received es ++ chunk) ++ r) = after (quiet os) (total (calm s) ((q ++ chunk) ++ r))) as Hm'.
    { intros r Hrb. rewrite <- !(assoc_L (++)). apply Hm. by apply Forall_app. }
    destruct (flushing s) eqn:Hf.
    + unfold handleMessage in *. rewrite wait1 in *. simpl in Ho |- *. rewrite Hc, orb_false_r in *.
      assert (so_far s0 (es ++ [Arrives chunk a]) (Console s (q ++ chunk)) (os ++ [])) as Hdone.
      { rewrite app_nil_r. split; cbn [sv queue]; try done; [congruence|intros _; by apply Hp|by rewrite Hrec]. }
      case_bool_decide as Hz; simpl in *; [|rewrite Hf in *]; intros _; (split; [done|]);
        change (answers_to [] (answers_to a s)) with (answers_to [] s); by rewrite answers_id.
    + pose proof (handle_so_far s0 (received es ++ chunk) os (answers_to a s) (q ++ chunk)) as Hh.
      specialize (Hh ltac:(by destruct Hi') Hf Hc). destruct (handleMessage _ _) as [[[v s'] q'] fx]. intros Hc'.
      apply Hh in Ho as [Hsp Hes]; [|intros [-> ->]%app_eq_nil|exact Hm'|done]; [split; [done|by apply Hes]|].
      destruct (Hr eq_refl) as [[_ ?]|Hw]; [by left|right]. change (calm (answers_to a s)) with (calm s).
      by rewrite calm_id by done.
  - assert (received (es ++ [Drawn a]) = received es) as Hrec by (unfold received; rewrite bind_app; simpl; by rewrite app_nil_r).
    destruct (Hp He) as [Hz Hn]. pose proof (handle_so_far s0 (received es) os (with_flush false a s) q) as Hh.
    specialize (Hh ltac:(by destruct Hi) eq_refl Hc). destruct (handleMessage _ _) as [[[v s'] q'] fx]. intros Hc'.
    apply Hh in Ho as [Hsp Hes]; [split; [done|by apply Hes]| |exact Hm|done].
    intros ->. right. change (calm (with_flush false a s)) with (calm s). apply paused_rest; [by apply inv_calm|done|done].
Qed.
Lemma disconnected_stays m e : connected (base (sv m)) = false → connected (base (sv (step m e).1)) = false.
Proof.
  intros Hc. unfold step. destruct e; simpl; unfold handleMessage; simpl; rewrite Hc, orb_true_r; done.
Qed.
Lemma between_inv s : between_messages s → inv s [].
Proof. intros (? & Hr & He & ? & ? & ? & ? & ?). split; [done|by rewrite Hr|done|by rewrite He]. Qed.
Lemma handle_total s q : connected (base s) = true → f_rects s = 0 → handleMessage s q = total s q.
Proof.
  intros Hc Hr. unfold handleMessage, total. rewrite wait1, Hc, Hr. cbn [negb Z.eqb]. rewrite orb_false_r, andb_true_r.
  by case_bool_decide.
Qed.

(** C20: How the server's bytes come does not matter, nor when the screen is
    waited for: a console that has been given its bytes in any chunks, with any
    pauses for the screen before an update's rectangles, has done exactly what it
    would have done had all of them come at once with no pause, in the same
    order, and is in the same state with the same bytes left.  This holds as
    long as the connection lasts, the messages are [in_order] (nothing throws, no
    message is read past its end, no cursor is of an unknown type), and no update
    without rectangles has to wait for the screen.  The last is a true exception,
    of a message that is not malformed: with the pause the flip and the next
    request never follow ([ServerCases.empty_update_while_drawing]). *)
Theorem chunks_and_pauses_do_not_matter s0 es m os :
  between_messages s0 → trace (λ m e, in_order m e ∧ ¬ empty_update_waits m e) step (Console s0 []) es m os →
  connected (base (sv m)) = true → flushing (sv m) = false →
  ∃ v, handleMessage s0 (received es) = (v, sv m, queue m, quiet os).
Proof.
  intros Hs0 Ht. pose proof Hs0 as (Hc0 & Hr0 & _ & _ & Hf0 & Ha0 & _).
  assert (inv s0 []) as Hi0 by by apply between_inv.
  assert (connected (base (sv m)) = true → so_far s0 es m os) as Hso.
  { clear Hs0. intros Hc. revert es m os Ht Hc.
    apply (trace_snoc_ind (λ m e, in_order m e ∧ ¬ empty_update_waits m e) step (Console s0 []) (λ es m os, connected (base (sv m)) = true → so_far s0 es m os)).
    - intros _. split; cbn [sv queue]; try done; [by left|congruence|].
      intros r _. by rewrite after_nil, calm_id.
    - intros es m os e Ht IH He Hc. destruct (connected (base (sv m))) eqn:Hcm; [|by rewrite disconnected_stays in Hc].
      destruct He. by apply step_so_far; [|apply IH|apply orderly_parts|]. }
  intros Hc Hf. destruct (Hso Hc) as [Hi Ha Hr _ Hm]. specialize (Hm [] ltac:(constructor)). rewrite !app_nil_r, calm_id in Hm by done.
  rewrite handle_total, Hm by done.
  assert (∃ v, total (sv m) (queue m) = (v, sv m, queue m, [])) as [v ->]; [|exists v; simpl; by rewrite app_nil_r].
  destruct (decide (queue m = [] ∧ f_rects (sv m) = 0)) as [[Hq Hz]|Hn].
  - exists Done. unfold total. by rewrite Hq, Hz.
  - destruct (Hr Hf) as [?|Hw]; [done|]. exists Waits. rewrite total_step, Hw; [done|done|naive_solver|done].
Qed.
(** C23: The loop over the messages ends: in whatever state the console is between
    two events of its socket, there are numbers of turns that are enough for the
    messages at hand, more give the same, and [handleMessage] has so many. *)
Theorem message_loop_ends s q :
  inv s q → q ≠ [] →
  (∀ n, (S (length q) < n)%nat → message_loop n s q = message_loop (S (S (length q))) s q)
  ∧ (handleMessage s q).1.1.1 ≠ Spins.
Proof.
  intros Hi Hq. assert (measure s q <= S (length q))%nat as Hm by (unfold measure; destruct (f_rects s =? 0); lia).
  split; [intros n Hn; apply loop_fuel; [done|done|lia|lia]|].
  unfold handleMessage. destruct (_ || _); [done|]. apply loop_ends; [done|done|lia].
Qed.
End more.

(** ** A console that is sent an update, a bell and a fence

    A raw rectangle of one pixel, in three messages, the second while the screen
    still draws. *)
#[export] Instance no_pako : Pako := {|
  zstream := unit; inflateInit := tt; inflateReset z := z; pako_inflate z i n := (-1, i, [], z);
  zdeflate := unit; deflateInit := tt; pako_deflate z i n := (-1, i, [], z) |}.
Definition fresh : server (D := decoders) :=
  Server (Rfb true false false false 0 24 6 2 None None [] [] None) 0 (Rect 0 0 0 0) None decoders_start 640 480 []
    false false false false 0 0 no_cursor false false [].
Definition update_bytes : bytes := [0; 0; 0; 1] ++ [0; 5; 0; 6; 0; 1; 0; 1; 0; 0; 0; 0] ++ [10; 20; 30; 0].
Definition fence_bytes : bytes := [248; 0; 0; 0; 128; 0; 0; 1; 2; 7; 8].
Definition session : list event :=
  [Arrives (take 9 update_bytes) [true]; Arrives (drop 9 update_bytes ++ [2] ++ take 3 fence_bytes) []; Drawn []; Arrives (drop 3 fence_bytes) []].
Lemma chunks_and_pauses_do_not_matter_witness :
  let m := (run step (Console fresh []) session).1 in let os := (run step (Console fresh []) session).2 in
  os = [FlushScreen; Draw (BlitImage 5 6 1 1 [10; 20; 30; 255]); Flip; Send (FbUpdateRequest true 0 0 640 480); Tell Bell; Send (ClientFence 1 [7; 8])]
  ∧ ∃ v, handleMessage fresh (received session) = (v, sv m, queue m, quiet os).
Proof.
  intros m os. split; [by vm_compute|].
  apply (chunks_and_pauses_do_not_matter fresh session m os).
  - split_and!; done.
  - assert (admissible (λ m e, in_order m e ∧ ¬ empty_update_waits m e) step (Console fresh []) session) as Ha.
    { vm_compute. split_and!; try done; try (intros [H1 H2]; first [discriminate H1|discriminate H2]); repeat constructor; done. }
    exact (run_trace _ step (Console fresh []) session Ha).
  - by vm_compute.
  - by vm_compute.
Defined.
Lemma message_loop_ends_witness :
  (handleMessage fresh update_bytes).1.1.1 = Done ∧
  (∀ n, (S (length update_bytes) < n)%nat → message_loop n fresh update_bytes = message_loop (S (S (length update_bytes))) fresh update_bytes)
  ∧ (handleMessage fresh update_bytes).1.1.1 ≠ Spins.
Proof.
  split; [by vm_compute|]. apply message_loop_ends; [|done].
  split; simpl; try lia; [|split_and!; done]. apply (bool_decide_unpack _). by vm_compute.
Defined.
End ServerRuns.
