(* ===== verification/ServerTypes.v ===== *)
(** * noVNC: the types of the console's state, static/js/novnc/core/rfb.js

    The numbers of the state of [ServerMessages] and of what it sends and draws
    keep their widths whatever the server sends. *)
From S2P Require Import Prelude Words Websock Decoders Messages Inflator Utf8 ServerMessages ServerRuns.

#[local] Open Scope list_scope.
#[local] Open Scope Z_scope.
Import Decoders Messages ServerMessages ServerRuns.

Module ServerTypes.
Section types.
Context `{Pako} {D : Type} `{RectDecoders D} `{!RectLaws D}.
#[local] Abbreviation server := (ServerMessages.server (D := D)).
#[local] Abbreviation reply := (ServerMessages.reply (D := D)).
Implicit Types (s : server) (q r : bytes) (fx : list effect).
(** pako's output is bytes *)
Hypothesis deflates_bytes : ∀ z i n, Forall Websock.byte i →
  let '(_, rest, out, _) := pako_deflate z i n in Forall Websock.byte rest ∧ Forall Websock.byte out.
#[local] Ltac bounds := unfold len, Websock.len in *; simpl List.length in *; rewrite ?length_drop in *; lia.
#[local] Ltac bytes_left := repeat apply Forall_drop; first [done | by eapply Forall_inv_tail].

(** ** Types

    The state's numbers and what is sent fit the widths they are read from and
    written in. *)
Definition u16 (n : Z) : Prop := 0 <= n < 65536.
Definition u32 (n : Z) : Prop := 0 <= n < 4294967296.
Definition fits (p : Websock.push) : Prop :=
  match p with
  | Websock.P8 n => Websock.byte n
  | Websock.P16 n => u16 n
  | Websock.P32 n => u32 n
  | Websock.PBytes l | Websock.PString l => Forall Websock.byte l
  | Websock.PFlush => True
  end.
Definition legal (m : message) : Prop := throws m = false ∧ Forall fits (pushes_of m).
Definition cursor_ok (c : cursor) : Prop := Forall Websock.byte (rgbaPixels c) ∧ len (rgbaPixels c) = 4 * (c_w c * c_h c) ∧ u16 (c_w c) ∧ u16 (c_h c).
Definition effect_ok (o : effect) : Prop :=
  match o with
  | Send m => legal m
  | ResizeScreen w h => u16 w ∧ u16 h
  | ChangeCursor c => cursor_ok c
  | _ => True
  end.
Record well_typed s : Prop := WellTyped {
  t_rects : u16 (f_rects s);
  t_rect : u16 (r_x (f_rect s)) ∧ u16 (r_y (f_rect s)) ∧ u16 (r_width (f_rect s)) ∧ u16 (r_height (f_rect s));
  t_encoding : ∀ e, f_encoding s = Some e → -2147483648 <= e < 2147483648;
  t_size : u16 (fbWidth s) ∧ u16 (fbHeight s);
  t_screen : u32 (screenID s) ∧ u32 (screenFlags s);
  t_text : ∀ t, clipboardText (base s) = Some t → Forall (λ c, 0 <= c < 1114112) t;
  t_version : Websock.byte (rfbXvpVer (base s));
  t_cursor : cursor_ok (cursorImage s) }.
Definition typed_reply (x : reply) : Prop := let '(v, s, q, fx) := x in well_typed s ∧ Forall effect_ok fx.

Lemma be_u n q : Forall Websock.byte q → 0 <= Websock.be (take n q) < 2 ^ (8 * Z.of_nat n).
Proof.
  intros Hq. pose proof (Websock.be_range (take n q) (Forall_take _ n _ Hq)) as Hb.
  assert (2 ^ (8 * Websock.len (take n q)) <= 2 ^ (8 * Z.of_nat n)); [|lia].
  apply Z.pow_le_mono_r; [lia|]. unfold Websock.len. rewrite length_take. lia.
Qed.
Lemma be_u8 q : Forall Websock.byte q → Websock.byte (Websock.be (take 1 q)).
Proof. apply (be_u 1). Qed.
Lemma be_u16 q : Forall Websock.byte q → u16 (Websock.be (take 2 q)).
Proof. apply (be_u 2). Qed.
Lemma be_u32 q : Forall Websock.byte q → u32 (Websock.be (take 4 q)).
Proof. apply (be_u 4). Qed.
#[local] Ltac typed := split; try done; try (by apply be_u8; bytes_left); try (by apply be_u16; bytes_left);
  try (by split; apply be_u32; bytes_left); try (by split_and!; apply be_u16; bytes_left).

Lemma typed_after fx (x : reply) : typed_reply x → Forall effect_ok fx → typed_reply (after fx x).
Proof. destruct x as [[[v s] q] fx']. intros [? ?] ?. split; [done|by apply Forall_app]. Qed.
Lemma typed_base b s : well_typed s → Websock.byte (rfbXvpVer b) → (clipboardText b = clipboardText (base s) ∨ clipboardText b = None) →
  well_typed (with_base b s).
Proof. intros [] Hb [Ht|Ht]; split; try done; simpl; rewrite Ht; done. Qed.
Lemma typed_fail s q : well_typed s → typed_reply (fail s q).
Proof. intros Hs. split; [by destruct Hs|by repeat constructor]. Qed.
#[local] Ltac each := repeat first [apply Forall_nil_2 | apply Forall_cons_2].
Lemma flags_bytes a f : Forall Websock.byte (clipboardFlags a f).
Proof. unfold clipboardFlags. each; try apply Z.mod_pos_bound; done. Qed.
Lemma int32_width n : u32 n → -2147483648 <= Websock.int32 n < 2147483648.
Proof. unfold u32, Websock.int32. intros _. pose proof (Z.mod_pos_bound (n + 2 ^ 31) (2 ^ 32) eq_refl). lia. Qed.
Lemma low_byte n : Websock.byte (Z.land n 255).
Proof. change 255 with (Z.ones 8). rewrite Z.land_ones by lia. apply Z.mod_pos_bound. lia. Qed.
Lemma be32_bytes n : Forall Websock.byte (be32 n).
Proof. unfold be32. each; apply low_byte. Qed.
Lemma cut_text_legal data : Forall Websock.byte data → legal (ClientCutText data true).
Proof. intros Hd. split; [done|]. cbn [pushes_of]. each; cbn [fits]; try done. apply Z.mod_pos_bound. done. Qed.
Lemma lor_byte a b : Websock.byte a → Websock.byte b → Websock.byte (Z.lor a b).
Proof.
  assert (∀ n, Websock.byte n → Z.land n 255 = n) as Hn.
  { intros n Hn. change 255 with (Z.ones 8). rewrite Z.land_ones by lia. by apply Z.mod_small. }
  intros Ha Hb. rewrite <- (Hn a Ha), <- (Hn b Hb), <- Z.land_lor_distr_l. apply low_byte.
Qed.
Lemma caps_legal actions formats : legal (extendedClipboardCaps actions formats).
Proof.
  apply cut_text_legal. apply Forall_app. split; [apply Forall_take, flags_bytes|]. apply Forall_app. split.
  - each. assert (∀ (l : list (Z * Z)) z, Websock.byte z → Websock.byte (fold_left (λ f kv, Z.lor f (Z.shiftl 1 (kv.1 mod 32) mod 256)) l z)) as Hl; [|by apply Hl].
    induction l as [|kv l IH]; intros z Hz; [done|]. simpl. apply IH, lor_byte; [done|]. by apply Z.mod_pos_bound.
  - apply Forall_bind, Forall_true. intros kv. apply be32_bytes.
Qed.
Lemma utf8_bytes t b : Forall (λ c, 0 <= c < 1114112) t → Utf8.encodeUTF8 t = Some b → Forall Websock.byte b.
Proof.
  intros Ht. revert b. induction Ht as [|c t Hc Ht IH]; intros b; cbn [Utf8.encodeUTF8]; [by intros [= <-]|].
  destruct (Utf8.encode_char c) as [cs|] eqn:E; [|done]. simpl. destruct (Utf8.encodeUTF8 t) as [bs|]; [|done]. simpl. intros [= <-].
  apply Forall_app. split; [|by apply IH].
  destruct (decide (55296 <= c < 57344)) as [Hs|Hs].
  - unfold Utf8.encode_char in E. rewrite (proj2 (Z.ltb_ge c 128)), (proj2 (Z.ltb_ge c 2048)) in E by lia.
    by rewrite (proj2 (Z.leb_le 55296 c)), (proj2 (Z.ltb_lt c 57344)) in E by lia.
  - destruct (Utf8.encode_scalar c) as (cs' & E' & Hcs & _); [by split|]. rewrite E in E'. by injection E' as ->.
Qed.
Lemma crlf_points t : Forall (λ c, 0 <= c < 1114112) t → Forall (λ c, 0 <= c < 1114112) (crlf t).
Proof.
  remember (length t) as n eqn:Hn. revert t Hn. induction (lt_wf n) as [n _ IH]. intros t -> Ht. destruct t as [|c t]; [done|].
  apply Forall_cons in Ht as [Hc Ht]. cbn [crlf]. pose proof (λ t' H, IH (length t') H t' eq_refl) as IH'. simpl in IH'.
  destruct (c =? 13); [|destruct (c =? 10)]; [destruct t as [|d t']; [each; lia|destruct (d =? 10)]|..]; each; try lia;
    apply IH'; simpl; try lia; try done. by apply Forall_inv_tail in Ht.
Qed.
Lemma deflate_bytes data z out z' : Forall Websock.byte data → Inflator.deflate data z = Some (out, z') → Forall Websock.byte out.
Proof using deflates_bytes.
  intros Hd. unfold Inflator.deflate. pose proof (deflates_bytes z data Inflator.chunk Hd) as Hp.
  destruct (pako_deflate _ _ _) as [[[ret rest] o] z1]. destruct Hp as [Hr Ho]. destruct (ret <? 0); [done|].
  destruct (Inflator.deflate_more _ z1 rest) as [[more z2]|] eqn:E; [|done]. intros [= <- <-]. apply Forall_app. split; [done|].
  revert z1 rest more z2 Hr E. generalize (length data). induction n as [|n IH]; intros z1 rest more z2 Hr E;
    (destruct rest as [|b rest]; [by injection E as <- <-|]); [done|]. cbn [Inflator.deflate_more] in E.
  pose proof (deflates_bytes z1 (b :: rest) Inflator.chunk Hr) as Hp. destruct (pako_deflate z1 _ _) as [[[ret' rest'] o'] z3].
  destruct Hp as [Hr' Ho']. destruct (ret' <? 0); [done|]. destruct (Inflator.deflate_more n z3 rest') as [[more' z4]|] eqn:E'; [|done].
  injection E as <- <-. apply Forall_app. split; [done|]. exact (IH _ _ _ _ Hr' E').
Qed.
Lemma provide_legal text m : Forall (λ c, 0 <= c < 1114112) text → extendedClipboardProvide text = Some m → legal m.
Proof using deflates_bytes.
  intros Ht. unfold extendedClipboardProvide. destruct (Utf8.encodeUTF8 _) as [data|] eqn:E; [|done]. cbn [mbind option_bind].
  apply utf8_bytes in E; [|apply Forall_app; split; [by apply crlf_points|by each]].
  destruct (Inflator.deflate _ _) as [[out z]|] eqn:E2; [|done]. cbn [mbind option_bind]. intros [= <-]. apply cut_text_legal.
  apply (proj2 (Forall_app _ (clipboardFlags [extendedClipboardActionProvide] [extendedClipboardFormatText]) out)).
  split; [apply flags_bytes|]. eapply deflate_bytes, E2. apply Forall_app. split; [apply be32_bytes|done].
Qed.
Lemma typed_clipboard length flags s q : well_typed s → Forall Websock.byte q → typed_reply (extended_clipboard length flags s q).
Proof using deflates_bytes.
  intros Hs Hq. unfold extended_clipboard. cbn zeta.
  assert (∀ v s' q' (fx : list effect), well_typed s' → Forall effect_ok fx → typed_reply (v, s', q', fx)) as Hr by done.
  pose proof (t_version _ Hs) as Hv. pose proof (t_text _ Hs) as Htext.
  destruct (flag _ 24).
  { destruct (rQwait _ q); apply Hr; try done; try (apply typed_base; [done|done|by left]). each. apply caps_legal. }
  assert (∀ fs, legal (extendedClipboardNotify fs) ∧ legal (extendedClipboardRequest fs)) as Hn by (split; apply cut_text_legal, flags_bytes).
  repeat match goal with |- typed_reply (if ?b then _ else _) => destruct b end; try (apply Hr; [done|by each; apply Hn]).
  - destruct (clipboardText (base s)) as [text|] eqn:Et; [|done]. destruct (_ && _); [|done].
    destruct (extendedClipboardProvide text) as [m|] eqn:Em; [|done]. apply Hr; [done|]. each. eapply provide_legal, Em. by apply Htext.
  - apply Hr; [|done]. apply typed_base; [done|done|by right].
  - cbn [rQshiftBytes list_buffer]. destruct (provided_text _ _); (apply Hr; [apply typed_base; [done|done|by right]|by each]).
  - by apply typed_fail.
Qed.
#[local] Ltac branches := repeat match goal with |- typed_reply (if ?b then _ else _) => destruct b end.
Lemma typed_cut_text s q0 q : well_typed s → Forall Websock.byte q → typed_reply (handleServerCutText s q0 q).
Proof using deflates_bytes.
  intros Hs Hq. unfold handleServerCutText. cbn [rQshift rQshiftBytes list_buffer]. branches; try by split.
  - split; [done|]. destruct (viewOnly _); by each.
  - apply typed_clipboard; [done|bytes_left].
Qed.
Lemma land3 n : 0 <= Z.land n 3 < 4.
Proof. change 3 with (Z.ones 2). rewrite Z.land_ones by lia. apply Z.mod_pos_bound. lia. Qed.
Lemma typed_fence s q0 q : well_typed s → Forall Websock.byte q → typed_reply (handleServerFenceMsg s q0 q).
Proof using.
  intros Hs Hq. unfold handleServerFenceMsg. cbn [rQshift rQshiftBytes list_buffer].
  assert (well_typed (with_fence s)) by by destruct Hs.
  branches; try (by split); try (by apply typed_fail).
  all: split; [done|]; each; split; [done|]; cbn [pushes_of]; each; cbn [fits]; try done;
    try (by apply Forall_take; bytes_left); unfold u32, Websock.byte.
  all: try (match goal with |- context [Z.land ?n 3] => pose proof (land3 n); lia end).
  all: unfold Websock.len; rewrite length_take;
    match goal with |- context [if 64 <? ?n then _ else _] => destruct (Z.ltb_spec 64 n); lia end.
Qed.
Lemma typed_xvp s q0 q : well_typed s → Forall Websock.byte q → typed_reply (handleXvpMsg s q0 q).
Proof using.
  intros Hs Hq. unfold handleXvpMsg. cbn [rQshift rQshiftBytes list_buffer]. pose proof (t_text _ Hs). branches; try (by split).
  - split; [|by each]. pose proof (be_u8 (drop (Z.to_nat 1) q) ltac:(bytes_left)). by destruct Hs.
  - split; [by destruct Hs|by each].
Qed.
Lemma updates_ok s : well_typed s → Forall effect_ok (updateContinuousUpdates s).
Proof using.
  intros Hs. unfold updateContinuousUpdates. destruct (enabledContinuousUpdates s); each. destruct (t_size _ Hs).
  split; [done|]. cbn [pushes_of]. by each.
Qed.
Lemma typed_resize w h s : well_typed s → u16 w → u16 h → well_typed (resize w h s).1 ∧ Forall effect_ok (resize w h s).2.
Proof using.
  intros Hs Hw Hh. assert (well_typed (with_size w h s)) as Hs' by (by destruct Hs; split). split; [done|]. simpl. each; [done|]. by apply updates_ok.
Qed.
Lemma typed_cursor rgba s : well_typed s → Forall Websock.byte rgba → len rgba = 4 * (r_width (f_rect s) * r_height (f_rect s)) →
  well_typed (updateCursor rgba s).1 ∧ Forall effect_ok (updateCursor rgba s).2.
Proof using.
  intros Hs Hb Hl. assert (cursor_ok (Cursor rgba (r_x (f_rect s)) (r_y (f_rect s)) (r_width (f_rect s)) (r_height (f_rect s)))) as Hc.
  { split_and!; try done; apply (t_rect _ Hs). }
  split; [destruct Hs; by split|by each].
Qed.
Lemma len_bind {A} (f : A → bytes) l : (∀ x, length (f x) = 4%nat) → length (l ≫= f) = (4 * length l)%nat.
Proof. intros Hf. induction l as [|x l IH]; [done|]. cbn [mbind list_bind]. rewrite length_app, Hf, IH. simpl. lia. Qed.
Lemma words_length n q : length (words n q).1 = n.
Proof. revert q. induction n as [|n IH]; intros q; [done|]. cbn [words rQshift list_buffer]. specialize (IH (drop 4 q)). destruct (words n _). simpl in *. by f_equal. Qed.
Lemma classic_ok a x : Forall Websock.byte (classic_pixel a x) ∧ length (classic_pixel a x) = 4%nat.
Proof. unfold classic_pixel. repeat match goal with |- context [if ?b then _ else _] => destruct b end; (split; [each; try done; apply low_byte|done]). Qed.
Lemma cursor_bytes w pixels mask i : Forall Websock.byte pixels → Forall Websock.byte (cursor_pixel w pixels mask i).
Proof.
  intros Hp. unfold cursor_pixel. assert (∀ k, Websock.byte (nth k pixels 0)) as Hn.
  { intros k. destruct (nth_in_or_default k pixels 0) as [Hin| ->]; [|done]. by eapply Forall_forall, list_elem_of_In. }
  each; try apply Hn. by destruct (_ =? 0).
Qed.
Lemma typed_vmware s q : well_typed s → typed_reply (handleVMwareCursor s q).
Proof using.
  intros Hs. unfold handleVMwareCursor. destruct (t_rect _ Hs) as (_ & _ & Hw & Hh). unfold u16 in Hw, Hh.
  set (n := r_width _ * _). assert (0 <= n) by (unfold n; nia). branches; try by split.
  - pose proof (words_length (Z.to_nat n) (drop 2 q)) as L1. destruct (words _ (drop 2 q)) as [a q1].
    pose proof (words_length (Z.to_nat n) q1) as L2. destruct (words _ q1) as [x q2]. simpl in L1, L2.
    assert (Forall Websock.byte (mjoin (zip_with classic_pixel a x)) ∧ length (mjoin (zip_with classic_pixel a x)) = (4 * Z.to_nat n)%nat) as [Hb Hl].
    { rewrite <- L1 in L2. rewrite <- L1. clear L1. revert x L2. induction a as [|a al IH]; intros [|x xl] L2; try done.
      change (mjoin (zip_with classic_pixel (a :: al) (x :: xl))) with (classic_pixel a x ++ mjoin (zip_with classic_pixel al xl)). destruct (classic_ok a x) as [H1' H2']. destruct (IH xl) as [H3 H4]; [simpl in L2; lia|].
      split; [by apply Forall_app|]. rewrite length_app, H2', H4. simpl. lia. }
    apply typed_cursor; [done|done|]. unfold len, Websock.len. rewrite Hl. unfold n. lia.
  - pose proof (words_length (Z.to_nat n) (drop 2 q)) as L1. destruct (words _ (drop 2 q)) as [a q1]. simpl in L1.
    apply typed_cursor; [done|apply Forall_bind, Forall_true; intros; apply be32_bytes|].
    unfold len, Websock.len. rewrite len_bind by done. rewrite L1. unfold n. lia.
Qed.
Lemma typed_cursor_rect s q : well_typed s → Forall Websock.byte q → typed_reply (handleCursor s q).
Proof using.
  intros Hs Hq. unfold handleCursor. destruct (t_rect _ Hs) as (_ & _ & Hw & Hh). unfold u16 in Hw, Hh. branches; [by split|].
  cbn [rQshiftBytes list_buffer]. apply typed_cursor; [done| |].
  - apply Forall_bind, Forall_true. intros i. apply cursor_bytes. by apply Forall_take.
  - unfold len, Websock.len. rewrite len_bind by done. rewrite length_seqZ. lia.
Qed.
Lemma typed_name s q : well_typed s → typed_reply (handleDesktopName s q).
Proof using.
  intros Hs. unfold handleDesktopName. cbn [rQshift rQshiftBytes list_buffer]. branches; try (by split). split; [by destruct Hs|by each].
Qed.
Lemma typed_led s q : well_typed s → typed_reply (handleLedEvent s q).
Proof using. intros Hs. unfold handleLedEvent. cbn [rQshift list_buffer]. branches; (split; [by destruct Hs|done]). Qed.
Lemma typed_desktop s q : well_typed s → Forall Websock.byte q → typed_reply (handleExtendedDesktopSize s q).
Proof using.
  intros Hs Hq. unfold handleExtendedDesktopSize. cbn [rQshiftBytes list_buffer]. branches; try by split.
  assert (u32 (first_screen (rQpeek8 q) s (drop (Z.to_nat 4) q)).1 ∧ u32 (first_screen (rQpeek8 q) s (drop (Z.to_nat 4) q)).2) as [Hi Hf].
  { unfold first_screen. destruct (_ =? 0); [by destruct (t_screen _ Hs)|]. split; apply be_u32; bytes_left. }
  destruct (first_screen _ _ _) as [i f]. simpl in Hi, Hf. assert (well_typed (with_desktop i f s)) as Hs' by (by destruct Hs; split).
  destruct (t_rect _ Hs) as (_ & _ & Hw & Hh). destruct (typed_resize _ _ _ Hs' Hw Hh) as [Hs2 Hfx].
  set (x := r_x _). set (y := r_y _).
  assert (∀ (b : bool) o, effect_ok o → Forall effect_ok (if b then [o] else [])) as Hif by (intros [] o Ho; by each).
  cbn [f_rect with_desktop]. destruct ((x =? 1) && negb (y =? 0)).
  - split; [done|]. rewrite !Forall_app. split_and!; try done; by apply Hif.
  - destruct (resize _ _ _) as [s2 fx]. simpl in *. split; [done|]. rewrite !Forall_app. split_and!; try done; by apply Hif.
Qed.
(** ** Rectangles and messages *)
Lemma typed_data e s q : well_typed s → typed_reply (handleDataRect e s q).
Proof using.
  intros Hs. unfold handleDataRect. destruct (decode _ _ _ _ _) as [[[[v d] q'] ds]|]; [|by apply typed_fail].
  assert (well_typed (with_dec d s)) as Hd by by destruct Hs.
  assert (Forall effect_ok (Draw <$> ds)) as Hds by (apply Forall_fmap, Forall_true; done).
  destruct v; [by split|by split|]. apply typed_after; [by apply typed_fail|done].
Qed.
Lemma typed_rect e s q : well_typed s → Forall Websock.byte q → typed_reply (handleRect e s q).
Proof using.
  intros Hs Hq. destruct (t_rect _ Hs) as (_ & _ & Hw & Hh). pose proof (t_version _ Hs). unfold handleRect. branches.
  - split; [by destruct Hs; split|done].
  - by apply typed_vmware.
  - by apply typed_cursor_rect.
  - split; [|done]. apply typed_base; [done|done|by left].
  - by apply typed_name.
  - destruct (typed_resize _ _ _ Hs Hw Hh). by split.
  - by apply typed_desktop.
  - split; [|done]. apply typed_base; [done|done|by left].
  - by apply typed_led.
  - by apply typed_data.
Qed.
Lemma typed_header e s q s' q' : well_typed s → Forall Websock.byte q → rect_header s q = Some (e, s', q') → well_typed s'.
Proof using.
  intros Hs Hq. unfold rect_header. destruct (f_encoding s) as [e'|]; [by intros [= _ <- _]|]. destruct (rQwait 12 q); [done|].
  cbn [rQshift list_buffer]. intros [= _ <- _]. destruct Hs; split; try done.
  - simpl. split_and!; apply be_u16; bytes_left.
  - intros e' [= <-]. apply int32_width. apply be_u32. bytes_left.
Qed.
Lemma typed_rects n s q : inv s q → well_typed s → f_rects s <= Z.of_nat n → typed_reply (rects_loop n s q).
Proof using RectLaws0.
  revert s q. induction n as [|n IH]; intros s q Hi Hs Hn; cbn [rects_loop];
    (destruct (Z.leb_spec (f_rects s) 0); [split; [done|by each]|]); [lia|].
  destruct (rect_header s q) as [[[e s1] q1]|] eqn:E; [|by split].
  pose proof (typed_header e s q s1 q1 Hs (i_bytes _ _ Hi) E) as Hs1.
  apply header_inv in E as (He & Hi1 & Hr1 & _); [|done..].
  pose proof (typed_rect e s1 q1 Hs1 (i_bytes _ _ Hi1)) as Ht. pose proof (rect_more e s1 q1 He Hi1) as Hm. unfold rect_result in Hm.
  destruct (handleRect e s1 q1) as [[[v s2] q2] fx]. destruct Ht as [Hs2 Hfx]. destruct v; try by split.
  destruct Hm as (G1 & G2 & G3 & G4 & G5 & _). apply typed_after; [|done]. apply IH; [|destruct Hs2; split; try done|simpl; lia].
  - eapply rect_done_inv; [done|lia|done|by destruct Hi1|done].
  - unfold u16 in *. simpl. lia.
Qed.
Lemma typed_update s q0 q : inv s q → well_typed s → typed_reply (framebufferUpdate s q0 q).
Proof using RectLaws0.
  intros Hi Hs. unfold framebufferUpdate. pose proof (i_rects _ _ Hi).
  destruct (Z.eqb_spec (f_rects s) 0); [|apply typed_rects; [done|done|lia]]. destruct (rQwait 3 q); [by split|].
  cbn [rQshift rQshiftBytes list_buffer]. set (n := Websock.be _).
  assert (u16 n) as Hn by (apply be_u16; destruct Hi; bytes_left).
  assert (∀ f a, well_typed (with_flush f a (with_rects n s))) as Hf by (intros f a; destruct Hs; by split).
  assert (∀ a, typed_reply (rects_loop (Z.to_nat n) (with_flush (flushing s) a (with_rects n s)) (drop 2 (drop (Z.to_nat 1) q)))) as Hl.
  { intros a. apply typed_rects; [|done|unfold u16 in Hn; simpl; lia]. unfold u16 in Hn. destruct Hi as [Hb Hr Hd Hx].
    split; [bytes_left|simpl; lia|done|]. simpl. by destruct (f_encoding s); [lia|]. }
  cbn [answers with_rects]. destruct (answers s) as [|[] a]; [apply Hl|split; [done|by each]|apply Hl].
Qed.
Lemma request_ok s : well_typed s → Forall effect_ok (request s).
Proof using. intros Hs. unfold request. destruct (t_size _ Hs), (enabledContinuousUpdates s); each. split; [done|]. cbn [pushes_of]. by each. Qed.
Lemma typed_message s q : inv s q → well_typed s → (f_rects s = 0 → q ≠ []) → typed_reply (normalMsg s q).
Proof using RectLaws0 deflates_bytes.
  intros Hi Hs Hq. pose proof (i_bytes _ _ Hi) as Hb. pose proof (i_rects _ _ Hi). unfold normalMsg.
  assert (∀ q1 q0, inv s q1 → typed_reply (let '(v, s', q', fx) := framebufferUpdate s q0 q1 in
      (v, s', q', fx ++ match v with Done => request s' | _ => [] end))) as Hu.
  { intros q1 q0 Hi1. pose proof (typed_update s q0 q1 Hi1 Hs) as Ht. destruct (framebufferUpdate s q0 q1) as [[[v s'] q'] fx].
    destruct Ht as [Hs' Hfx]. split; [done|]. apply Forall_app. split; [done|]. destruct v; try done. by apply request_ok. }
  destruct (Z.ltb_spec 0 (f_rects s)); [by apply Hu|]. cbn [rQshift list_buffer].
  assert (Forall Websock.byte (drop 1 q)) as Hd by bytes_left.
  branches; try by (split; [done|each]).
  - apply Hu. by eapply inv_bytes.
  - by apply typed_fail.
  - by apply typed_cut_text.
  - assert (well_typed (with_updates true (negb (supportsContinuousUpdates s)) s)) by by destruct Hs. split; [done|]. by apply updates_ok.
  - by apply typed_fence.
  - by apply typed_xvp.
  - split; [by destruct Hs|by each].
Qed.
Lemma typed_loop n s q : inv s q → well_typed s → (f_rects s = 0 → q ≠ []) → typed_reply (message_loop n s q).
Proof using RectLaws0 deflates_bytes.
  revert s q. induction n as [|n IH]; intros s q Hi Hs Hq; [by split|]. cbn [message_loop].
  destruct (flushing s); [by split|]. pose proof (typed_message s q Hi Hs Hq) as Ht.
  destruct (normalMsg s q) as [[[v s'] q'] fx] eqn:E. destruct Ht as [Hs' Hfx]. destruct v; try by split.
  apply message_measure in E as (Hi' & _); [|done..]. rewrite wait1. case_bool_decide; [by split|].
  by apply typed_after; [apply IH|].
Qed.
(** C22: The numbers of the console keep their types: whatever bytes the server
    has sent, in the middle of an update or between messages, after the messages
    at hand are handled the rectangle, its encoding, the size of the screen, the
    cursor and the rest of the state have the widths of the fields they are read
    from, the cursor has four bytes for each of its pixels, and every message sent
    to the server fits the fields it is written in. *)
Theorem server_state_keeps_its_types s q :
  inv s q → well_typed s →
  let '(_, s', _, fx) := handleMessage s q in well_typed s' ∧ Forall effect_ok fx.
Proof using RectLaws0 deflates_bytes.
  intros Hi Hs. change (typed_reply (handleMessage s q)). unfold handleMessage. rewrite wait1.
  case_bool_decide; [by split|]. destruct (negb _); [by split|]. by apply typed_loop.
Qed.
End types.

Lemma server_state_keeps_its_types_witness :
  let '(v, s, q, fx) := handleMessage fresh (update_bytes ++ fence_bytes) in
  (v = Done ∧ q = [] ∧ List.length fx = 4%nat) ∧ well_typed s ∧ Forall effect_ok fx.
Proof.
  pose proof (server_state_keeps_its_types (D := decoders)) as Ht. specialize (Ht ltac:(intros z i n Hi; done)).
  specialize (Ht fresh (update_bytes ++ fence_bytes)).
  assert (inv fresh (update_bytes ++ fence_bytes)) as Hi.
  { split; simpl; try lia; [apply (bool_decide_unpack _); by vm_compute|done]. }
  assert (well_typed fresh) as Hs by by split.
  specialize (Ht Hi Hs). destruct (handleMessage _ _) as [[[v s] q] fx] eqn:E. vm_compute in E. injection E as <- <- <- <-. done.
Defined.
End ServerTypes.
