(* ===== verification/ServerCases.v ===== *)
(** * noVNC: what single messages of the server do, static/js/novnc/core/rfb.js

    A fence is answered, a text reaches the page; and where the handlers lose
    the start of the next message or the next request, on the messages that do it. *)
From S2P Require Import Prelude Words Websock Decoders Messages Inflator Utf8 ServerMessages ServerRuns.

#[local] Open Scope list_scope.
#[local] Open Scope Z_scope.
Import Decoders Messages ServerMessages ServerRuns.

Module ServerCases.
Section cases.
Context `{Pako} {D : Type} `{RectDecoders D}.
#[local] Abbreviation server := (ServerMessages.server (D := D)).
Implicit Types (s : server) (q r : bytes).

Definition fence (flags : Z) (payload : bytes) : bytes := [248; 0; 0; 0] ++ be32 flags ++ [len payload] ++ payload.
Definition cut_text (text : bytes) : bytes := [3; 0; 0; 0] ++ be32 (len text) ++ text.
Definition extended (flags : Z) (data : bytes) : bytes := [3; 0; 0; 0] ++ be32 (2 ^ 32 - (4 + len data)) ++ be32 flags ++ data.

Lemma land_255' n : Z.land n 255 = n mod 256.
Proof. by apply (Z.land_ones n 8). Qed.
Lemma be_be32 n r : 0 <= n < 2 ^ 32 → Websock.be (take 4 (be32 n ++ r)) = n ∧ drop 4 (be32 n ++ r) = r.
Proof.
  intros Hn. split; [|done]. change (take 4 (be32 n ++ r)) with (be32 n). transitivity (Websock.be (Websock.be_bytes 4 n)).
  - f_equal. unfold be32. by rewrite !land_255'.
  - rewrite Websock.be_be_bytes. by apply Z.mod_small.
Qed.
Lemma shift32 n r : 0 <= n < 2 ^ 32 → rQshift 4 (be32 n ++ r) = (n, r).
Proof. intros Hn. cbn [rQshift list_buffer]. destruct (be_be32 n r Hn) as [-> ->]. done. Qed.
(** ** Messages that are answered *)
Lemma normal_fence s flags payload r : f_rects s = 0 → 0 <= flags < 2 ^ 32 → len payload < 256 →
  normalMsg s (fence flags payload ++ r) =
    let n := 64 `min` len payload in
    if flag flags 31 then (Done, with_fence s, drop (Z.to_nat n) (payload ++ r), [Send (ClientFence (Z.land flags 3) (take (Z.to_nat n) payload))])
    else fail (with_fence s) (drop (Z.to_nat n) (payload ++ r)).
Proof.
  intros Hr Hf Hl. pose proof (Websock.len_nonneg payload). unfold normalMsg. rewrite Hr. unfold fence.
  set (tl := [len payload] ++ payload ++ r). cbn [app]. replace ((be32 flags ++ len payload :: payload) ++ r) with (be32 flags ++ tl)
    by (unfold tl; simpl; by rewrite <- ?(assoc_L (++))).
  cbn [Z.ltb Z.compare]. change (rQshift 1 (248 :: ?l)) with (248, l).
  cbv beta iota. cbn [Z.eqb Pos.eqb]. unfold handleServerFenceMsg.
  assert (rQwait 8 (0 :: 0 :: 0 :: be32 flags ++ tl) = false) as -> by (apply bool_decide_eq_false; unfold tl, be32, len, Websock.len; simpl; lia).
  change (rQshiftBytes 3 (0 :: 0 :: 0 :: ?l)) with ([0; 0; 0], l). cbv beta iota.
  rewrite (shift32 flags tl Hf). cbv beta iota.
  assert (rQshift 1 tl = (len payload, payload ++ r)) as -> by (unfold tl; simpl; by rewrite Z.mul_1_r, Z.add_0_r).
  cbv beta iota. rewrite (wait_app _ payload r) by done. cbn [rQshiftBytes list_buffer].
  replace (if 64 <? len payload then 64 else len payload) with (64 `min` len payload) by (destruct (Z.ltb_spec 64 (len payload)); lia).
  rewrite (take_app_le payload) by (unfold len, Websock.len in *; lia). by destruct (flag flags 31).
Qed.
(** the end of a long payload is read as the messages that follow *)
Corollary long_fence_is_misread s flags payload r : f_rects s = 0 → 0 <= flags < 2 ^ 32 → flag flags 31 = true → 64 < len payload < 256 →
  (normalMsg s (fence flags payload ++ r)).1.2 = drop 64 payload ++ r.
Proof.
  intros Hr Hf Hb Hl. rewrite normal_fence, Hb by (done || lia). cbn zeta. rewrite Z.min_l by lia.
  cbn [fst snd]. apply drop_app_le. unfold len, Websock.len in Hl. lia.
Qed.
Lemma normal_cut_text s text r : f_rects s = 0 → len text < 2 ^ 31 →
  normalMsg s (cut_text text ++ r) = (Done, s, r, if viewOnly (base s) then [] else [Tell (Clipboard text)]).
Proof.
  intros Hr Hl. pose proof (Websock.len_nonneg text). unfold normalMsg. rewrite Hr. unfold cut_text. rewrite <- (assoc_L (++)). cbn [app].
  rewrite <- (assoc_L (++)). set (tl := be32 (len text) ++ text ++ r). cbn [Z.ltb Z.compare]. change (rQshift 1 (3 :: ?l)) with (3, l).
  cbv beta iota. cbn [Z.eqb Pos.eqb]. unfold handleServerCutText.
  assert (rQwait 7 (0 :: 0 :: 0 :: tl) = false) as -> by (apply bool_decide_eq_false; unfold tl, be32, len, Websock.len; simpl; lia).
  change (rQshiftBytes 3 (0 :: 0 :: 0 :: ?l)) with ([0; 0; 0], l). cbv beta iota. unfold tl. rewrite shift32 by (unfold len in *; lia).
  cbv beta iota. assert (Websock.int32 (len text) = len text) as -> by (unfold Websock.int32; rewrite Z.mod_small by (unfold len in *; lia); lia).
  rewrite Z.abs_eq by done. rewrite wait_app by done. rewrite (proj2 (Z.leb_le _ _)) by done. cbn [rQshiftBytes list_buffer].
  unfold len, Websock.len. by rewrite Nat2Z.id, take_app_length, drop_app_length.
Qed.
Lemma normal_extended s flags data r : f_rects s = 0 → 0 <= flags < 2 ^ 32 → len data < 2 ^ 31 - 4 →
  normalMsg s (extended flags data ++ r) = extended_clipboard (4 + len data) flags s (data ++ r).
Proof.
  intros Hr Hf Hl. pose proof (Websock.len_nonneg data). pose proof (Websock.len_nonneg r). unfold normalMsg. rewrite Hr. unfold extended.
  set (n := 4 + len data). rewrite <- (assoc_L (++)). cbn [app]. rewrite <- (assoc_L (++)), <- (assoc_L (++)).
  set (tl := be32 flags ++ data ++ r). cbn [Z.ltb Z.compare]. change (rQshift 1 (3 :: ?l)) with (3, l).
  cbv beta iota. cbn [Z.eqb Pos.eqb]. unfold handleServerCutText.
  assert (rQwait 7 (0 :: 0 :: 0 :: be32 (2 ^ 32 - n) ++ tl) = false) as ->.
  { apply bool_decide_eq_false. unfold be32, len, Websock.len. simpl. lia. }
  change (rQshiftBytes 3 (0 :: 0 :: 0 :: ?l)) with ([0; 0; 0], l). cbv beta iota. rewrite shift32 by (unfold n, len in *; lia). cbv beta iota.
  assert (Websock.int32 (2 ^ 32 - n) = - n) as ->.
  { unfold Websock.int32. replace (2 ^ 32 - n + 2 ^ 31) with ((2 ^ 31 - n) + 1 * 2 ^ 32) by lia. rewrite Z.mod_add by done.
    rewrite Z.mod_small by (unfold n, len in *; lia). lia. }
  replace (Z.abs (- n)) with n by (unfold n, len in *; lia).
  assert (∀ m, m <= n → rQwait m tl = false) as Hw.
  { intros m Hm. apply bool_decide_eq_false. unfold tl, n, be32, len, Websock.len in *. rewrite !length_app. simpl. lia. }
  rewrite (Hw n), (Hw 4) by (unfold n, len in *; lia). rewrite (proj2 (Z.leb_gt _ _)) by (unfold n, len in *; lia).
  unfold tl. by rewrite shift32.
Qed.
(** the data of a text that is not wanted are read as messages *)
Corollary unwanted_text_is_misread s flags data r : f_rects s = 0 → 0 <= flags < 2 ^ 32 → len data < 2 ^ 31 - 4 →
  Z.land flags 4278190080 = extendedClipboardActionProvide → viewOnly (base s) = true ∨ flag (Z.land flags 65535) 0 = false →
  normalMsg s (extended flags data ++ r) = (Done, s, data ++ r, []).
Proof.
  intros Hr Hf Hl Ha Hv. rewrite normal_extended by done. unfold extended_clipboard. rewrite Ha. cbn zeta.
  change (flag extendedClipboardActionProvide 24) with false. cbv beta iota.
  destruct (viewOnly (base s)); [done|]. destruct Hv as [?| ->]; done.
Qed.
(** a message of an unknown type ends the connection and not the loop *)
Lemma loop_goes_on s t q : f_rects s = 0 → flushing s = false → t ∉ [0; 1; 2; 3; 150; 248; 250] → q ≠ [] → Forall Websock.byte (t :: q) →
  connected (base s) = true →
  handleMessage s (t :: q) = after [Fail] (message_loop (S (S (length q))) (disconnected s) q).
Proof.
  intros Hr Hf Ht Hq Hb Hc. unfold handleMessage. rewrite wait1, Hc. cbn [negb orb bool_decide]. rewrite bool_decide_false by done. cbn [orb].
  change (length (t :: q)) with (S (length q)). rewrite loop_eq, Hf.
  assert (normalMsg s (t :: q) = (Done, disconnected s, q, [Fail])) as ->.
  { unfold normalMsg. rewrite Hr. cbn [Z.ltb Z.compare]. assert (rQshift 1 (t :: q) = (t, q)) as -> by (simpl; by rewrite Z.mul_1_r, Z.add_0_r).
    cbv beta iota. repeat (rewrite (proj2 (Z.eqb_neq t _)) by set_solver). done. }
  rewrite wait1, bool_decide_false by done. done.
Qed.
End cases.

(** ** Runs *)
Example messages_after_a_failure : (handleMessage fresh [9; 2; 2]).2 = [Fail; Tell Bell; Tell Bell].
Proof. by vm_compute. Qed.
(** an update without rectangles: nothing asks for the next one when the screen
    was still drawing *)
Example empty_update : (handleMessage fresh [0; 0; 0; 0]).2 = [Flip; Send (FbUpdateRequest true 0 0 640 480)].
Proof. by vm_compute. Qed.
Example empty_update_while_drawing :
  let '(m, os) := run step (Console fresh []) [Arrives [0; 0; 0; 0] [true]; Drawn []] in
  os = [FlushScreen] ∧ flushing (sv m) = false ∧ f_rects (sv m) = 0 ∧ queue m = [].
Proof. by vm_compute. Qed.
(** a Provide message with a second format: the text told is that one's data.
    The zlib streams here are stored as they are. *)
Definition stored : Pako := {|
  zstream := unit; inflateInit := tt; inflateReset z := z;
  pako_inflate z i n := (0, drop (Z.to_nat n) i, take (Z.to_nat n) i, z);
  zdeflate := unit; deflateInit := tt; pako_deflate z i n := (0, drop (Z.to_nat n) i, take (Z.to_nat n) i, z) |}.
Definition entry (data : bytes) : bytes := be32 (len data) ++ data.
Example text_of_another_format :
  (normalMsg (H := stored) fresh (extended (extendedClipboardActionProvide + 1) (entry [65; 66; 67]))).2 = [Tell (Clipboard [65; 66; 67])]
  ∧ (normalMsg (H := stored) fresh (extended (extendedClipboardActionProvide + 3) (entry [65; 66; 67] ++ entry [60; 62]))).2
    = [Tell (Clipboard [60; 62])].
Proof. split; by vm_compute. Qed.
End ServerCases.
