(* ===== verification/Des.v ===== *)
(** * DES: static/js/novnc/core/crypto/des.js

    The cipher of VNC authentication, with its tables and its key schedule, and
    DES as the standard (FIPS 46-3) has it, which it is proved to be: a key's
    bytes are taken with their bits in reverse, as VNC has them.

    A 32-bit number of the script is the pattern of its bits, without sign. *)
From Stdlib Require Import Ascii Btauto.
From S2P Require Import Prelude Words Websock.

#[local] Open Scope list_scope.
#[local] Open Scope Z_scope.

Module Des.
Abbreviation bytes := (list Z).
Abbreviation M32 := 4294967295.
(** [x << k] *)
Definition shl (x k : Z) : Z := Z.land (Z.shiftl x k) M32.

(** ** Tables *)
Definition PC2 : list Z :=
  [13; 16; 10; 23; 0; 4; 2; 27; 14; 5; 20; 9; 22; 18; 11; 3;
   25; 7; 15; 6; 26; 19; 12; 1; 40; 51; 30; 36; 46; 54; 29; 39;
   50; 44; 32; 47; 43; 48; 38; 55; 33; 52; 45; 41; 49; 35; 28; 31].
Definition totrot : list Z := [1; 2; 4; 6; 8; 10; 12; 14; 15; 17; 19; 21; 23; 25; 27; 28].
(** an entry [x|y] of a table is written [xy]; [a], [b], [d], [e]: the shifts *)
Definition letter (a b d e : Z) (x : ascii) : Z :=
  match x with
  | "a" => Z.shiftl 1 a | "b" => Z.shiftl 1 b | "c" => Z.lor (Z.shiftl 1 a) (Z.shiftl 1 b)
  | "d" => Z.shiftl 1 d | "e" => Z.shiftl 1 e | "f" => Z.lor (Z.shiftl 1 d) (Z.shiftl 1 e)
  | _ => 0
  end%char.
Fixpoint entries (a b d e : Z) (l : list ascii) : list Z :=
  match l with x :: y :: l => Z.lor (letter a b d e x) (letter a b d e y) :: entries a b d e l | _ => [] end.
Definition sp (a b d e : Z) (s : string) : list Z :=
  entries a b d e (filter (λ x, x ∈ String.list_ascii_of_string "abcdefz") (String.list_ascii_of_string s)).
Definition SP1 : list Z := sp 16 24 2 10
  "ce zz az cf cd af zd az ze ce cf ze bf cd bz zd
   zf be be ae ae cz cz bf ad bd bd ad zz zf af bz
   az cf zd cz ce bz bz ze cd az ae bd ze zd bf af
   cf ad cz bf bd zf af ce zf be be zz ad ae zz cd".
Definition SP2 : list Z := sp 20 31 5 15
  "cf be ze af az zd cd bf bd cf ce bz be az zd cd
   ae ad bf zz bz ze af cz ad bd zz ae zf ce cz zf
   zz af cd az bf cz ce ze cz be zd cf af zd ze bz
   zf ce az bd ad bf bd ad ae zz be zf bz cd cf ae".
Definition SP3 : list Z := sp 17 27 3 9
  "zf ce zz cd be zz af be ad bd bd az cf ad cz zf
   bz zd ce ze ae cz cd af bf ae az bf zd cf ze bz
   ce bz ad zf az ce be zz ze ad cf be bd ze zz cd
   bf az bz cf zd af ae bd cz bf zf cz af zd cd ae".
Definition SP4 : list Z := sp 13 23 0 7
  "cd af af ze ce bf bd ad zz cz cz cf zf zz be bd
   zd az bz cd ze bz ad ae bf zd ae be az ce cf zf
   be bd cz cf zf zz zz cz ae be bf zd cd af af ze
   cf zf zd az bd ad ce bf ad ae bz cd ze bz az ce".
Definition SP5 : list Z := sp 25 30 8 19
  "zd af ae cd ze zd bz ae bf ze ad bf cd ce zf bz
   az be be zz bd cf cf ad ce bd zz cz af az cz zf
   ze cd zd az bz ae cd bf ad bz ce af bf zd az ce
   cf zf cz cf ae zz be cz zf ad bd ze zz be af bd".
Definition SP6 : list Z := sp 22 29 4 14
  "bd cz ze cf cz zd cf az be af az bd ad be bz zf
   zz ad bf ze ae bf zd cd cd zz af ce zf ae ce bz
   be zd cd ae cf az zf bd az be bz zf bd cf ae cz
   af ce zz cd zd ze cz af ze ad bf zz ce bz ad bf".
Definition SP7 : list Z := sp 21 26 1 11
  "az cd bf zz ze bf af ce cf az zz bd zd bz cd zf
   be af ad be bd cz ce ad cz ze zf cf ae zd bz ae
   bz ae az bf bf cd cd zd ad bz be az ce zf af ce
   zf bd cf cz ae zz zd cf zz af cz ze bd be ze ad".
Definition SP8 : list Z := sp 18 28 6 12
  "bf ze az cf bz bf zd bz ad cz cf ae ce af ze zd
   cz bd be zf ae ad cd ce zf zz zz cd bd be af az
   af az ce ze zd cd ze af be zd bd cz cd bz az bf
   zz cf ad bd cz be bf zz cf ae ae zf zf ad bz ce".

(** ** The key *)
(** [l] where the loop has it, and the bits it takes *)
Fixpoint pc1_loop (n : nat) (l : Z) : list Z :=
  match n with
  | 0%nat => []
  | S n =>
    let l := l + (if l <? -5 then 65 else if l <? -3 then 31 else if l <? -1 then 63 else if l =? 27 then 35 else 0) in
    l :: pc1_loop n (l - 8)
  end.
Definition pc1m (password : list Z) : list bool :=
  (λ l, Z.testbit (nth (Z.to_nat (Z.shiftr l 3)) password 0) (Z.land l 7)) <$> pc1_loop 56 56.
Definition pcr (i : nat) (pc1m : list bool) : list bool :=
  (λ j, let o := if j <? 28 then 28 else 56 in
        let l := j + nth i totrot 0 in
        nth (Z.to_nat (if l <? o then l else l - 28)) pc1m false) <$> seqZ 0 56.
(** [kn[m]] and [kn[n]]: of 24 of the bits, from the [off]th of [PC2] on *)
Definition kn (off : nat) (pcr : list bool) : Z :=
  fold_left (λ k j, if (nth (Z.to_nat (nth (j + off) PC2 0)) pcr false : bool) then Z.lor k (Z.shiftl 1 (23 - Z.of_nat j)) else k)
    (List.seq 0 24) 0.
Definition cook (raw0 raw1 : Z) : list Z :=
  [Z.lor (Z.lor (Z.lor (Z.shiftl (Z.land raw0 0x00fc0000) 6) (Z.shiftl (Z.land raw0 0x00000fc0) 10))
     (Z.shiftr (Z.land raw1 0x00fc0000) 10)) (Z.shiftr (Z.land raw1 0x00000fc0) 6);
   Z.lor (Z.lor (Z.lor (Z.shiftl (Z.land raw0 0x0003f000) 12) (Z.shiftl (Z.land raw0 0x0000003f) 16))
     (Z.shiftr (Z.land raw1 0x0003f000) 4)) (Z.land raw1 0x0000003f)].
Definition keys (password : list Z) : list Z :=
  List.seq 0 16 ≫= λ i, let r := pcr i (pc1m password) in cook (kn 0 r) (kn 24 r).

(** ** A block of eight bytes *)
(** bytes to a number and back *)
Definition squash (b : bytes) : Z :=
  match b with
  | [b0; b1; b2; b3] => Z.lor (Z.lor (Z.lor (Z.shiftl b0 24) (Z.shiftl b1 16)) (Z.shiftl b2 8)) b3
  | _ => 0
  end.
Definition spread (x : Z) : bytes := (λ i, Z.shiftr x (8 * (3 - i)) mod 256) <$> [0; 1; 2; 3].
(** [x = ((u >>> k) ^ v) & m; v ^= x; u ^= x << k] *)
Definition swap (k m : Z) (uv : Z * Z) : Z * Z :=
  let '(u, v) := uv in
  let x := Z.land (Z.lxor (Z.shiftr u k) v) m in (Z.lxor u (shl x k), Z.lxor v x).
Definition flip {A} (p : A * A) : A * A := (p.2, p.1).
Definition swap_odd (lr : Z * Z) : Z * Z :=
  let '(l, r) := lr in
  let x := Z.land (Z.lxor l r) 0xaaaaaaaa in (Z.lxor l x, Z.lxor r x).
Definition initial (lr : Z * Z) : Z * Z :=
  let lr := swap 16 0x0000ffff (swap 4 0x0f0f0f0f lr) in
  let '(l, r) := flip (swap 8 0x00ff00ff (swap 2 0x33333333 (flip lr))) in
  let r := Z.lor (shl r 1) (Z.land (Z.shiftr r 31) 1) in
  let '(l, r) := swap_odd (l, r) in
  (Z.lor (shl l 1) (Z.land (Z.shiftr l 31) 1), r).
Definition final (lr : Z * Z) : Z * Z :=
  let '(l, r) := lr in
  let r := Z.lor (shl r 31) (Z.shiftr r 1) in
  let '(l, r) := swap_odd (l, r) in
  let l := Z.lor (shl l 31) (Z.shiftr l 1) in
  let lr := swap 2 0x33333333 (swap 8 0x00ff00ff (l, r)) in
  flip (swap 4 0x0f0f0f0f (swap 16 0x0000ffff (flip lr))).
Definition at_ (table : list Z) (x k : Z) : Z := nth (Z.to_nat (Z.land (Z.shiftr x k) 0x3f)) table 0.
(** [fval] of the half [r], with two words of the key *)
Definition fval (r k0 k1 : Z) : Z :=
  let x := Z.lxor (Z.lor (shl r 28) (Z.shiftr r 4)) k0 in
  let f := Z.lor (Z.lor (Z.lor (at_ SP7 x 0) (at_ SP5 x 8)) (at_ SP3 x 16)) (at_ SP1 x 24) in
  let x := Z.lxor r k1 in
  Z.lor (Z.lor (Z.lor (Z.lor f (at_ SP8 x 0)) (at_ SP6 x 8)) (at_ SP4 x 16)) (at_ SP2 x 24).
(** two rounds of each turn of the loop *)
Fixpoint rounds (keys : list Z) (l r : Z) : Z * Z :=
  match keys with
  | k0 :: k1 :: k2 :: k3 :: keys =>
    let l := Z.lxor l (fval r k0 k1) in
    let r := Z.lxor r (fval l k2 k3) in
    rounds keys l r
  | _ => (l, r)
  end.
Definition enc8 (keys : list Z) (text : bytes) : bytes :=
  let lr := initial (squash (take 4 text), squash (drop 4 text)) in
  let '(l, r) := rounds keys lr.1 lr.2 in
  let '(l, r) := final (l, r) in
  spread r ++ spread l.

(** ** The ciphers *)
(** none: the data are not whole blocks *)
Fixpoint blocks (n : nat) (x : bytes) : list bytes :=
  match n with 0%nat => [] | S n => take 8 x :: blocks n (drop 8 x) end.
Definition ecb_encrypt (password : list Z) (plaintext : bytes) : option bytes :=
  if Z.of_nat (length plaintext) mod 8 =? 0
  then Some (blocks (length plaintext / 8) plaintext ≫= enc8 (keys password)) else None.
Fixpoint cbc (ks : list Z) (y : bytes) (l : list bytes) : bytes :=
  match l with [] => [] | x :: l => let y := enc8 ks (zip_with Z.lxor y x) in y ++ cbc ks y l end.
Definition cbc_encrypt (password iv plaintext : bytes) : option bytes :=
  if Z.of_nat (length plaintext) mod 8 =? 0
  then Some (cbc (keys password) iv (blocks (length plaintext / 8) plaintext)) else None.
(** [RFB.genDES] *)
Definition genDES (password : list Z) (challenge : bytes) : option bytes := ecb_encrypt password challenge.
End Des.

(** ** The standard *)
Module Fips.
Abbreviation bytes := (list Z).
(** the number of bits, first the most significant *)
Definition of_bits (l : list bool) : Z := fold_left (λ a b, Z.lor (Z.shiftl a 1) (Z.b2z b)) l 0.
(** the bits of [table] of a number of [n] bits, counted from 1 *)
Definition perm (n : Z) (table : list Z) (x : Z) : Z := of_bits ((λ i, Z.testbit x (n - i)) <$> table).
Definition IP : list Z :=
  [58; 50; 42; 34; 26; 18; 10; 2; 60; 52; 44; 36; 28; 20; 12; 4; 62; 54; 46; 38; 30; 22; 14; 6; 64; 56; 48; 40; 32; 24; 16; 8;
   57; 49; 41; 33; 25; 17; 9; 1; 59; 51; 43; 35; 27; 19; 11; 3; 61; 53; 45; 37; 29; 21; 13; 5; 63; 55; 47; 39; 31; 23; 15; 7].
Definition IPinv : list Z :=
  [40; 8; 48; 16; 56; 24; 64; 32; 39; 7; 47; 15; 55; 23; 63; 31; 38; 6; 46; 14; 54; 22; 62; 30; 37; 5; 45; 13; 53; 21; 61; 29;
   36; 4; 44; 12; 52; 20; 60; 28; 35; 3; 43; 11; 51; 19; 59; 27; 34; 2; 42; 10; 50; 18; 58; 26; 33; 1; 41; 9; 49; 17; 57; 25].
Definition E : list Z :=
  [32; 1; 2; 3; 4; 5; 4; 5; 6; 7; 8; 9; 8; 9; 10; 11; 12; 13; 12; 13; 14; 15; 16; 17;
   16; 17; 18; 19; 20; 21; 20; 21; 22; 23; 24; 25; 24; 25; 26; 27; 28; 29; 28; 29; 30; 31; 32; 1].
Definition P : list Z :=
  [16; 7; 20; 21; 29; 12; 28; 17; 1; 15; 23; 26; 5; 18; 31; 10; 2; 8; 24; 14; 32; 27; 3; 9; 19; 13; 30; 6; 22; 11; 4; 25].
Definition PC1 : list Z :=
  [57; 49; 41; 33; 25; 17; 9; 1; 58; 50; 42; 34; 26; 18; 10; 2; 59; 51; 43; 35; 27; 19; 11; 3; 60; 52; 44; 36;
   63; 55; 47; 39; 31; 23; 15; 7; 62; 54; 46; 38; 30; 22; 14; 6; 61; 53; 45; 37; 29; 21; 13; 5; 28; 20; 12; 4].
Definition PC2 : list Z :=
  [14; 17; 11; 24; 1; 5; 3; 28; 15; 6; 21; 10; 23; 19; 12; 4; 26; 8; 16; 7; 27; 20; 13; 2;
   41; 52; 31; 37; 47; 55; 30; 40; 51; 45; 33; 48; 44; 49; 39; 56; 34; 53; 46; 42; 50; 36; 29; 32].
Definition left_shifts : list nat := [1; 1; 2; 2; 2; 2; 2; 2; 1; 2; 2; 2; 2; 2; 2; 1]%nat.
Definition S1 : list Z :=
  [14; 4; 13; 1; 2; 15; 11; 8; 3; 10; 6; 12; 5; 9; 0; 7;
   0; 15; 7; 4; 14; 2; 13; 1; 10; 6; 12; 11; 9; 5; 3; 8;
   4; 1; 14; 8; 13; 6; 2; 11; 15; 12; 9; 7; 3; 10; 5; 0;
   15; 12; 8; 2; 4; 9; 1; 7; 5; 11; 3; 14; 10; 0; 6; 13].
Definition S2 : list Z :=
  [15; 1; 8; 14; 6; 11; 3; 4; 9; 7; 2; 13; 12; 0; 5; 10;
   3; 13; 4; 7; 15; 2; 8; 14; 12; 0; 1; 10; 6; 9; 11; 5;
   0; 14; 7; 11; 10; 4; 13; 1; 5; 8; 12; 6; 9; 3; 2; 15;
   13; 8; 10; 1; 3; 15; 4; 2; 11; 6; 7; 12; 0; 5; 14; 9].
Definition S3 : list Z :=
  [10; 0; 9; 14; 6; 3; 15; 5; 1; 13; 12; 7; 11; 4; 2; 8;
   13; 7; 0; 9; 3; 4; 6; 10; 2; 8; 5; 14; 12; 11; 15; 1;
   13; 6; 4; 9; 8; 15; 3; 0; 11; 1; 2; 12; 5; 10; 14; 7;
   1; 10; 13; 0; 6; 9; 8; 7; 4; 15; 14; 3; 11; 5; 2; 12].
Definition S4 : list Z :=
  [7; 13; 14; 3; 0; 6; 9; 10; 1; 2; 8; 5; 11; 12; 4; 15;
   13; 8; 11; 5; 6; 15; 0; 3; 4; 7; 2; 12; 1; 10; 14; 9;
   10; 6; 9; 0; 12; 11; 7; 13; 15; 1; 3; 14; 5; 2; 8; 4;
   3; 15; 0; 6; 10; 1; 13; 8; 9; 4; 5; 11; 12; 7; 2; 14].
Definition S5 : list Z :=
  [2; 12; 4; 1; 7; 10; 11; 6; 8; 5; 3; 15; 13; 0; 14; 9;
   14; 11; 2; 12; 4; 7; 13; 1; 5; 0; 15; 10; 3; 9; 8; 6;
   4; 2; 1; 11; 10; 13; 7; 8; 15; 9; 12; 5; 6; 3; 0; 14;
   11; 8; 12; 7; 1; 14; 2; 13; 6; 15; 0; 9; 10; 4; 5; 3].
Definition S6 : list Z :=
  [12; 1; 10; 15; 9; 2; 6; 8; 0; 13; 3; 4; 14; 7; 5; 11;
   10; 15; 4; 2; 7; 12; 9; 5; 6; 1; 13; 14; 0; 11; 3; 8;
   9; 14; 15; 5; 2; 8; 12; 3; 7; 0; 4; 10; 1; 13; 11; 6;
   4; 3; 2; 12; 9; 5; 15; 10; 11; 14; 1; 7; 6; 0; 8; 13].
Definition S7 : list Z :=
  [4; 11; 2; 14; 15; 0; 8; 13; 3; 12; 9; 7; 5; 10; 6; 1;
   13; 0; 11; 7; 4; 9; 1; 10; 14; 3; 5; 12; 2; 15; 8; 6;
   1; 4; 11; 13; 12; 3; 7; 14; 10; 15; 6; 8; 0; 5; 9; 2;
   6; 11; 13; 8; 1; 4; 10; 7; 9; 5; 0; 15; 14; 2; 3; 12].
Definition S8 : list Z :=
  [13; 2; 8; 4; 6; 15; 11; 1; 10; 9; 3; 14; 5; 0; 12; 7;
   1; 15; 13; 8; 10; 3; 7; 4; 12; 5; 6; 11; 0; 14; 9; 2;
   7; 11; 4; 1; 9; 12; 14; 2; 0; 6; 10; 13; 15; 3; 5; 8;
   2; 1; 14; 7; 4; 10; 8; 13; 15; 12; 9; 0; 3; 5; 6; 11].
(** the row is the first and the last bit of six *)
Definition sbox (table : list Z) (c : Z) : Z :=
  let row := 2 * Z.b2z (Z.testbit c 5) + Z.b2z (Z.testbit c 0) in
  let col := Z.land (Z.shiftr c 1) 15 in nth (Z.to_nat (row * 16 + col)) table 0.
(** the [i]th six bits of 48, and four bits in the [i]th place of 32 *)
Definition six (i : Z) (x : Z) : Z := Z.land (Z.shiftr x (42 - 6 * i)) 63.
Definition four (i : Z) (x : Z) : Z := Z.shiftl x (28 - 4 * i).
Definition sboxes (x : Z) : Z :=
  fold_left (λ a '(i, t), Z.lor a (four i (sbox t (six i x)))) [(0, S1); (1, S2); (2, S3); (3, S4); (4, S5); (5, S6); (6, S7); (7, S8)] 0.
Definition f (r k : Z) : Z := perm 32 P (sboxes (Z.lxor (perm 32 E r) k)).
(** the key schedule: each half is rotated left *)
Definition rotate {A} (n : nat) (l : list A) : list A := drop n l ++ take n l.
Definition select {A} (d : A) (table : list Z) (l : list A) : list A := (λ i, nth (Z.to_nat (i - 1)) l d) <$> table.
Fixpoint schedule_ {A} (d : A) (shifts : list nat) (c0 d0 : list A) : list (list A) :=
  match shifts with
  | [] => []
  | n :: shifts => let c1 := rotate n c0 in let d1 := rotate n d0 in select d PC2 (c1 ++ d1) :: schedule_ d shifts c1 d1
  end.
Definition schedule (key : Z) : list Z :=
  let b := (λ i, Z.testbit key (64 - i)) <$> PC1 in of_bits <$> schedule_ false left_shifts (take 28 b) (drop 28 b).
Definition round (lr : Z * Z) (k : Z) : Z * Z := (lr.2, Z.lxor lr.1 (f lr.2 k)).
Definition des (key block : Z) : Z :=
  let x := perm 64 IP block in
  let lr := fold_left round (schedule key) (Z.shiftr x 32, Z.land x 4294967295) in
  perm 64 IPinv (Z.lor (Z.shiftl lr.2 32) lr.1).
End Fips.
Example fips_vector : Fips.des 0x133457799BBCDFF1 0x0123456789ABCDEF = 0x85E813540F0AB405.
Proof. by vm_compute. Qed.
Definition reversed (b : Z) : Z := Fips.of_bits ((λ j, Z.testbit b j) <$> [0; 1; 2; 3; 4; 5; 6; 7]).
Example des_vector : Des.enc8 (Des.keys (reversed <$> [0x13; 0x34; 0x57; 0x79; 0x9B; 0xBC; 0xDF; 0xF1])) [1; 0x23; 0x45; 0x67; 0x89; 0xAB; 0xCD; 0xEF]
  = [0x85; 0xE8; 0x13; 0x54; 0x0F; 0x0A; 0xB4; 0x05].
Proof. by vm_compute. Qed.
Example tables_have_64 : Forall (λ t, length t = 64%nat) [Des.SP1; Des.SP2; Des.SP3; Des.SP4; Des.SP5; Des.SP6; Des.SP7; Des.SP8].
Proof. by repeat constructor. Qed.

(** ** Numbers as bits *)
Module DesProofs.
Import Fips.
#[local] Ltac bits := apply Z.bits_inj'; intros ?i ?Hi;
  repeat (first [rewrite Z.lor_spec | rewrite Z.lxor_spec | rewrite Z.land_spec | rewrite Z.shiftl_spec by lia | rewrite Z.shiftr_spec by lia]).
Definition u32 (n : Z) : Prop := 0 <= n < 4294967296.
Lemma u32_bits n i : u32 n → 32 <= i → Z.testbit n i = false.
Proof. intros Hn Hi. by apply (Words.testbit_high n 32). Qed.
Lemma bits_below n k : 0 <= k → 0 <= n → (∀ i, k <= i → Z.testbit n i = false) → n < 2 ^ k.
Proof.
  intros Hk Hn Hb. destruct (decide (n = 0)) as [->|Hz]; [by apply Z.pow_pos_nonneg|].
  apply Z.log2_lt_pow2; [lia|]. destruct (Z.lt_ge_cases (Z.log2 n) k) as [|Hge]; [done|].
  specialize (Hb _ Hge). by rewrite Z.bit_log2 in Hb by lia.
Qed.
Lemma u32_lxor a b : u32 a → u32 b → u32 (Z.lxor a b).
Proof.
  intros Ha Hb. pose proof Ha as [? _]. pose proof Hb as [? _]. assert (0 <= Z.lxor a b) by (apply Z.lxor_nonneg; lia). split; [done|].
  apply (bits_below _ 32); [done..|]. intros i Hi. by rewrite Z.lxor_spec, !u32_bits.
Qed.
Lemma shiftl1_testbit b k : Z.testbit (Z.b2z b) (Z.of_nat (S k)) = false.
Proof. destruct b; [|apply Z.bits_0]. apply Z.bits_above_log2; [done|]. simpl. lia. Qed.
(** [f] only moves bits, or drops them *)
Record moves (f : Z → Z) : Prop := Moves { moves_0 : f 0 = 0; moves_lor a b : 0 <= a → 0 <= b → f (Z.lor a b) = Z.lor (f a) (f b) }.
(** so it is known by what it does with each bit *)
Lemma moves_ext n f g : moves f → moves g → forallb (λ k, f (2 ^ Z.of_nat k) =? g (2 ^ Z.of_nat k)) (List.seq 0 n) = true →
  ∀ x, 0 <= x < 2 ^ Z.of_nat n → f x = g x.
Proof.
  intros Hf Hg Hb. induction n as [|n IH]; intros x Hx.
  { replace x with 0 by lia. by rewrite !moves_0. }
  rewrite List.seq_S, forallb_app in Hb. apply andb_true_iff in Hb as [Hb Hn]. cbn [forallb Nat.add] in Hn.
  rewrite andb_true_r in Hn. apply Z.eqb_eq in Hn. specialize (IH Hb).
  destruct (Z.lt_ge_cases x (2 ^ Z.of_nat n)) as [|Hge]; [apply IH; lia|].
  replace (Z.of_nat (S n)) with (Z.of_nat n + 1) in Hx by lia. rewrite Z.pow_add_r in Hx by lia. simpl in Hx.
  assert (Z.lor (2 ^ Z.of_nat n) (x - 2 ^ Z.of_nat n) = x) as <-.
  { pose proof (Words.lor_low 1 (x - 2 ^ Z.of_nat n) (Z.of_nat n)) as Hl. rewrite Z.mul_1_l in Hl. rewrite Hl; lia. }
  rewrite !moves_lor by (try done; lia). rewrite Hn. f_equal. apply IH. lia.
Qed.
Lemma moves_comp f g : moves f → moves g → (∀ x, 0 <= x → 0 <= g x) → moves (λ x, f (g x)).
Proof. intros [] [] Hg. split; [congruence|]. intros a b Ha Hb. rewrite moves_lor1 by done. auto. Qed.
Lemma of_bits_snoc l b : of_bits (l ++ [b]) = Z.lor (Z.shiftl (of_bits l) 1) (Z.b2z b).
Proof. unfold of_bits. by rewrite fold_left_app. Qed.
Lemma of_bits_nonneg l : 0 <= of_bits l.
Proof.
  induction l as [|b l IH] using rev_ind; [done|]. rewrite of_bits_snoc. apply Z.lor_nonneg. split; [by apply Z.shiftl_nonneg|by destruct b].
Qed.
Lemma testbit_of_bits l k : Z.testbit (of_bits l) (Z.of_nat k) = nth k (reverse l) false.
Proof.
  revert k. induction l as [|b l IH] using rev_ind; intros k; [rewrite Z.bits_0; by destruct k|].
  rewrite of_bits_snoc, reverse_snoc, Z.lor_spec, Z.shiftl_spec by lia. destruct k as [|k]; cbn [nth].
  - rewrite Z.testbit_neg_r by lia. by destruct b.
  - rewrite shiftl1_testbit, orb_false_r, <- IH. f_equal. lia.
Qed.
Lemma of_bits_lt l : of_bits l < 2 ^ Z.of_nat (length l).
Proof.
  apply bits_below; [lia|apply of_bits_nonneg|]. intros i Hi. rewrite <- (Z2Nat.id i), testbit_of_bits by lia.
  apply nth_overflow. rewrite length_reverse. lia.
Qed.
Lemma testbit_perm n t x k : Z.testbit (perm n t x) (Z.of_nat k) = default false ((λ i, Z.testbit x (n - i)) <$> reverse t !! k).
Proof. unfold perm. rewrite testbit_of_bits, nth_lookup. by rewrite <- fmap_reverse, list_lookup_fmap. Qed.
Lemma perm_nonneg n t x : 0 <= perm n t x.
Proof. apply of_bits_nonneg. Qed.
Lemma perm_lt n t x : perm n t x < 2 ^ Z.of_nat (length t).
Proof. unfold perm. eapply Z.lt_le_trans; [apply of_bits_lt|]. by rewrite length_fmap. Qed.
#[local] Ltac perm_bits := apply Z.bits_inj'; intros i Hi; rewrite <- (Z2Nat.id i) by done.
Lemma perm_lxor n t x y : perm n t (Z.lxor x y) = Z.lxor (perm n t x) (perm n t y).
Proof. perm_bits. rewrite Z.lxor_spec, !testbit_perm. destruct (reverse t !! _); simpl; [by rewrite Z.lxor_spec|done]. Qed.
Lemma perm_lor n t x y : perm n t (Z.lor x y) = Z.lor (perm n t x) (perm n t y).
Proof. perm_bits. rewrite Z.lor_spec, !testbit_perm. destruct (reverse t !! _); simpl; [by rewrite Z.lor_spec|done]. Qed.
Lemma perm_moves n t : moves (perm n t).
Proof.
  split.
  - perm_bits. rewrite testbit_perm, Z.bits_0. destruct (reverse t !! _); simpl; [apply Z.bits_0|done].
  - intros x y _ _. perm_bits. rewrite Z.lor_spec, !testbit_perm. destruct (reverse t !! _); simpl; [by rewrite Z.lor_spec|done].
Qed.

(** ** Two halves *)
Definition por (p q : Z * Z) : Z * Z := (Z.lor p.1 q.1, Z.lor p.2 q.2).
Definition nonneg2 (p : Z * Z) : Prop := 0 <= p.1 ∧ 0 <= p.2.
Record moves2 (h : Z * Z → Z * Z) : Prop := Moves2 {
  moves2_0 : h (0, 0) = (0, 0); moves2_por p q : nonneg2 p → nonneg2 q → h (por p q) = por (h p) (h q); moves2_nonneg p : nonneg2 p → nonneg2 (h p) }.
Lemma moves2_comp f g : moves2 f → moves2 g → moves2 (f ∘ g).
Proof. intros [] []. unfold compose. split; [congruence| |auto]. intros p q Hp Hq. rewrite moves2_por1; auto. Qed.
Lemma moves2_ext f g : moves2 f → moves2 g →
  forallb (λ k, bool_decide (f (2 ^ Z.of_nat k, 0) = g (2 ^ Z.of_nat k, 0)) && bool_decide (f (0, 2 ^ Z.of_nat k) = g (0, 2 ^ Z.of_nat k))) (List.seq 0 32) = true →
  ∀ l r, u32 l → u32 r → f (l, r) = g (l, r).
Proof.
  intros [f0 fo fn] [g0 go gn] Hb l r Hl Hr. rewrite forallb_forall in Hb.
  assert (∀ (c : Z * Z → Z), (∀ p q, c (por p q) = Z.lor (c p) (c q)) → c (0, 0) = 0 →
    moves (λ x, c (f (x, 0))) ∧ moves (λ x, c (f (0, x))) ∧ moves (λ x, c (g (x, 0))) ∧ moves (λ x, c (g (0, x)))) as Hm.
  { intros c Hc Hc0. split_and!; (split; [congruence|]); intros a b Ha Hb'; rewrite <- Hc; f_equal; rewrite <- ?fo, <- ?go by (split; simpl; lia); done. }
  assert (f (l, 0) = g (l, 0) ∧ f (0, r) = g (0, r)) as [E1 E2].
  { assert (∀ c : Z * Z → Z, (∀ p q, c (por p q) = Z.lor (c p) (c q)) → c (0, 0) = 0 → c (f (l, 0)) = c (g (l, 0)) ∧ c (f (0, r)) = c (g (0, r))) as Hcc.
    { intros c Hc Hc0. destruct (Hm c Hc Hc0) as (M1 & M2 & M3 & M4).
      split; [apply (moves_ext 32 (λ x, c (f (x, 0))) (λ x, c (g (x, 0))))|apply (moves_ext 32 (λ x, c (f (0, x))) (λ x, c (g (0, x))))]; try done;
      apply forallb_forall; intros k Hk; apply Z.eqb_eq; specialize (Hb k Hk); apply andb_true_iff in Hb as [B1 B2];
      apply bool_decide_eq_true in B1, B2; congruence. }
    destruct (Hcc fst) as [A1 A2]; [done..|]. destruct (Hcc snd) as [A3 A4]; [done..|].
    split; apply injective_projections; done. }
  assert ((l, r) = por (l, 0) (0, r)) as -> by (unfold por; simpl; by rewrite Z.lor_0_r).
  unfold u32 in *. rewrite fo, go, E1, E2 by (split; simpl; lia). done.
Qed.
(** a swap of bits moves them *)
Definition swap_moves (k m : Z) (p : Z * Z) : Z * Z :=
  let ms := Z.shiftl m k in
  (Z.lor (Z.ldiff p.1 ms) (Z.land (Z.shiftl p.2 k) ms), Z.lor (Z.ldiff p.2 m) (Z.land (Z.shiftr p.1 k) m)).
Definition u32_2 (p : Z * Z) : Prop := u32 p.1 ∧ u32 p.2.
Lemma u32_nonneg2 p : u32_2 p → nonneg2 p.
Proof. intros [[? ?] [? ?]]. by split. Qed.
Lemma u32_land x m : 0 <= x → u32 m → u32 (Z.land x m).
Proof.
  intros Hx Hm. assert (0 <= Z.land x m) by (apply Z.land_nonneg; by left). split; [done|].
  apply (bits_below _ 32); [done..|]. intros i Hi. by rewrite Z.land_spec, (u32_bits m), andb_false_r.
Qed.
Lemma u32_lor a b : u32 a → u32 b → u32 (Z.lor a b).
Proof.
  intros Ha Hb. pose proof Ha as [? _]. pose proof Hb as [? _]. assert (0 <= Z.lor a b) by (apply Z.lor_nonneg; lia). split; [done|].
  apply (bits_below _ 32); [done..|]. intros i Hi. by rewrite Z.lor_spec, !u32_bits.
Qed.
Lemma u32_shl x k : 0 <= x → u32 (Des.shl x k).
Proof. intros Hx. apply u32_land; [by apply Z.shiftl_nonneg|done]. Qed.
Lemma u32_shiftr x k : 0 <= k → u32 x → u32 (Z.shiftr x k).
Proof.
  intros Hk Hx. split; [apply Z.shiftr_nonneg, Hx|]. apply (bits_below _ 32); [done|apply Z.shiftr_nonneg, Hx|].
  intros i Hi. rewrite Z.shiftr_spec by lia. apply u32_bits; [done|lia].
Qed.
Lemma m32_bit i : 0 <= i < 32 → Z.testbit 4294967295 i = true.
Proof. intros Hi. change 4294967295 with (Z.ones 32). by apply Z.ones_spec_low. Qed.
Lemma swap_eq k m p : 0 <= k → u32 m → u32 (Z.shiftl m k) → u32_2 p → Des.swap k m p = swap_moves k m p ∧ u32_2 (Des.swap k m p).
Proof.
  intros Hk Hm Hms [Hu Hv]. destruct p as [u v]. simpl in Hu, Hv. unfold Des.swap, swap_moves, Des.shl. cbn [fst snd]. split.
  - f_equal; bits; rewrite ?Z.ldiff_spec, ?Z.land_spec, ?Z.lxor_spec, ?Z.shiftl_spec by lia.
    + destruct (Z.lt_ge_cases i k); [by rewrite (Z.testbit_neg_r m), ?andb_false_r, ?andb_true_r, ?xorb_false_r, ?orb_false_r by lia|].
      rewrite Z.shiftr_spec by lia. replace (i - k + k) with i by lia. destruct (Z.lt_ge_cases i 32).
      * rewrite m32_bit by lia. by destruct (Z.testbit u i), (Z.testbit v (i - k)), (Z.testbit m (i - k)).
      * pose proof (u32_bits _ i Hms ltac:(lia)) as Hb. rewrite Z.shiftl_spec in Hb by lia. rewrite Hb.
        by destruct (Z.testbit u i), (Z.testbit v (i - k)).
    + by destruct (Z.testbit u (i + k)), (Z.testbit v i), (Z.testbit m i).
  - pose proof Hu as [? _]. pose proof Hv as [? _]. assert (u32 (Z.land (Z.lxor (Z.shiftr u k) v) m)) as Hx.
    { apply u32_land; [|done]. apply Z.lxor_nonneg. pose proof (Z.shiftr_nonneg u k). lia. }
    split; apply u32_lxor; try done. apply u32_shl, Hx.
Qed.
Lemma swap_odd_eq p : u32_2 p → Des.swap_odd p = swap_moves 0 0xaaaaaaaa p ∧ u32_2 (Des.swap_odd p).
Proof.
  intros [Hu Hv]. destruct p as [u v]. simpl in Hu, Hv. unfold Des.swap_odd, swap_moves. cbn [fst snd]. split.
  - f_equal; bits; rewrite ?Z.ldiff_spec, ?Z.land_spec, ?Z.lxor_spec, ?Z.shiftl_spec, ?Z.shiftr_spec by lia; rewrite ?Z.sub_0_r, ?Z.add_0_r;
      by destruct (Z.testbit u i), (Z.testbit v i), (Z.testbit 0xaaaaaaaa i).
  - pose proof Hu as [? _]. pose proof Hv as [? _]. split; apply u32_lxor; try done; apply u32_land; try done; apply Z.lxor_nonneg; lia.
Qed.
Lemma swap_moves_moves k m : 0 <= k → 0 <= m → moves2 (swap_moves k m).
Proof.
  intros Hk Hm. unfold swap_moves. split.
  - cbn [fst snd]. by rewrite Z.shiftl_0_l, Z.shiftr_0_l, !Z.ldiff_0_l.
  - intros p q _ _. unfold por. cbn [fst snd]. f_equal; bits; rewrite ?Z.ldiff_spec, ?Z.lor_spec, ?Z.land_spec, ?Z.shiftl_spec, ?Z.shiftr_spec by lia; rewrite ?Z.lor_spec; btauto.
  - intros [u v] [Hu Hv]. simpl in *. split; simpl; apply Z.lor_nonneg; (split; [apply Z.ldiff_nonneg; by left|apply Z.land_nonneg; right]);
      [by apply Z.shiftl_nonneg|done].
Qed.
Lemma flip_moves : moves2 Des.flip.
Proof. split; [done|done|]. intros p [? ?]. by split. Qed.
(** each half by itself *)
Definition both (f g : Z → Z) (p : Z * Z) : Z * Z := (f p.1, g p.2).
Lemma both_moves f g : moves f → moves g → (∀ x, 0 <= x → 0 <= f x) → (∀ x, 0 <= x → 0 <= g x) → moves2 (both f g).
Proof.
  intros Hf Hg Hfn Hgn. split; [unfold both; simpl; by rewrite !moves_0| |].
  - intros p q [] []. unfold both, por. simpl. by rewrite !moves_lor.
  - intros p []. split; simpl; auto.
Qed.
Lemma id_moves : moves (λ x, x).
Proof. done. Qed.
Definition rotl1 (r : Z) : Z := Z.lor (Des.shl r 1) (Z.land (Z.shiftr r 31) 1).
Definition rotr1 (r : Z) : Z := Z.lor (Des.shl r 31) (Z.shiftr r 1).
Definition rotr4 (r : Z) : Z := Z.lor (Des.shl r 28) (Z.shiftr r 4).
#[local] Ltac moving := split; [done|intros a b Ha Hb; unfold rotl1, rotr1, rotr4, Des.shl; bits; rewrite ?Z.lor_spec; btauto].
Lemma rotl1_moves : moves rotl1. Proof. moving. Qed.
Lemma rotr1_moves : moves rotr1. Proof. moving. Qed.
Lemma rotr4_moves : moves rotr4. Proof. moving. Qed.
Lemma rotl1_u32 x : u32 x → u32 (rotl1 x).
Proof. intros Hx. apply u32_lor; [apply u32_shl, Hx|]. apply u32_land; [apply Z.shiftr_nonneg, Hx|done]. Qed.
Lemma rotr1_u32 x : u32 x → u32 (rotr1 x).
Proof. intros Hx. apply u32_lor; [apply u32_shl, Hx|]. by apply u32_shiftr. Qed.
Lemma rot_nonneg x : 0 <= x → 0 <= rotl1 x ∧ 0 <= rotr1 x ∧ 0 <= rotr4 x.
Proof.
  intros Hx. unfold rotl1, rotr1, rotr4. pose proof (λ k, proj1 (u32_shl x k Hx)). pose proof (λ k, proj2 (Z.shiftr_nonneg x k) Hx).
  split_and!; apply Z.lor_nonneg; split; try done. apply Z.land_nonneg. by left.
Qed.

(** ** The permutations at both ends *)
Definition join (p : Z * Z) : Z := Z.lor (Z.shiftl p.1 32) p.2.
Definition halves (x : Z) : Z * Z := (Z.shiftr x 32, Z.land x 4294967295).
Definition permuted (table : list Z) (p : Z * Z) : Z * Z := halves (perm 64 table (join p)).
Lemma join_nonneg p : nonneg2 p → 0 <= join p.
Proof. intros []. apply Z.lor_nonneg. split; [by apply Z.shiftl_nonneg|done]. Qed.
Lemma permuted_moves table : moves2 (permuted table).
Proof.
  pose proof (perm_moves 64 table) as Hm. unfold permuted. split.
  - by rewrite moves_0.
  - intros p q Hp Hq. assert (join (por p q) = Z.lor (join p) (join q)) as -> by (unfold join, por; cbn [fst snd]; bits; rewrite ?Z.lor_spec; btauto).
    rewrite moves_lor by (done || by apply join_nonneg). unfold halves, por. cbn [fst snd]. f_equal; bits; btauto.
  - intros p _. split; [apply Z.shiftr_nonneg, perm_nonneg|apply Z.land_nonneg; right; done].
Qed.
Lemma halves_u32 x : 0 <= x < 2 ^ 64 → u32_2 (halves x).
Proof.
  intros Hx. split; unfold halves; cbn [fst snd]; [|by apply u32_land; [lia|]]. rewrite Z.shiftr_div_pow2 by done.
  split; [apply Z.div_pos; lia|]. apply Z.div_lt_upper_bound; lia.
Qed.
Definition initial_moves : Z * Z → Z * Z :=
  both rotl1 id ∘ swap_moves 0 0xaaaaaaaa ∘ both id rotl1 ∘ Des.flip ∘ swap_moves 8 0x00ff00ff ∘ swap_moves 2 0x33333333
    ∘ Des.flip ∘ swap_moves 16 0x0000ffff ∘ swap_moves 4 0x0f0f0f0f.
Definition final_moves : Z * Z → Z * Z :=
  Des.flip ∘ swap_moves 4 0x0f0f0f0f ∘ swap_moves 16 0x0000ffff ∘ Des.flip
    ∘ swap_moves 2 0x33333333 ∘ swap_moves 8 0x00ff00ff ∘ both rotr1 id ∘ swap_moves 0 0xaaaaaaaa ∘ both id rotr1.
Lemma flip_u32 p : u32_2 p → u32_2 (Des.flip p).
Proof. intros []. by split. Qed.
#[local] Ltac swapped k m := let E := fresh "E" in let H := fresh "H" in
  match goal with |- context [Des.swap k m ?p] => destruct (swap_eq k m p) as [E H]; [done..| |rewrite E in H |- *] end.
Lemma initial_eq p : u32_2 p → Des.initial p = initial_moves p.
Proof.
  intros Hp. unfold Des.initial, initial_moves, compose.
  destruct (swap_eq 4 0x0f0f0f0f p) as [E1 H1]; [done..|]. destruct (swap_eq 16 0x0000ffff (Des.swap 4 0x0f0f0f0f p)) as [E2 H2]; [done..|].
  destruct (swap_eq 2 0x33333333 (Des.flip (Des.swap 16 0x0000ffff (Des.swap 4 0x0f0f0f0f p)))) as [E3 H3]; [done..|by apply flip_u32|].
  destruct (swap_eq 8 0x00ff00ff (Des.swap 2 0x33333333 (Des.flip (Des.swap 16 0x0000ffff (Des.swap 4 0x0f0f0f0f p))))) as [E4 H4]; [done..|].
  rewrite <- E1, <- E2, <- E3, <- E4. apply flip_u32 in H4. clear - H4.
  match goal with |- context [Des.flip (Des.swap 8 ?m ?x)] => destruct (Des.flip (Des.swap 8 m x)) as [l r] end. destruct H4 as [Hl Hr].
  cbn [both fst snd id]. change (Z.lor (Des.shl r 1) (Z.land (Z.shiftr r 31) 1)) with (rotl1 r).
  destruct (swap_odd_eq (l, rotl1 r)) as [E5 H5]; [split; [done|by apply rotl1_u32]|]. change (both id rotl1 (l, r)) with (l, rotl1 r). rewrite <- E5.
  by destruct (Des.swap_odd _).
Qed.
Lemma final_eq p : u32_2 p → Des.final p = final_moves p.
Proof.
  intros [Hl Hr]. destruct p as [l r]. simpl in Hl, Hr. unfold Des.final, final_moves, compose. change (Z.lor (Des.shl r 31) (Z.shiftr r 1)) with (rotr1 r).
  destruct (swap_odd_eq (l, rotr1 r)) as [E5 H5]; [split; [done|by apply rotr1_u32]|]. unfold both. cbn [fst snd id]. rewrite <- E5.
  destruct (Des.swap_odd _) as [l' r']. destruct H5 as [H5 H6]. simpl in H5, H6. change (Z.lor (Des.shl l' 31) (Z.shiftr l' 1)) with (rotr1 l'). cbn [fst snd].
  assert (u32_2 (rotr1 l', r')) as Hp by (split; [by apply rotr1_u32|done]). set (p := (rotr1 l', r')) in *.
  destruct (swap_eq 8 0x00ff00ff p) as [E1 H1]; [done..|]. destruct (swap_eq 2 0x33333333 (Des.swap 8 0x00ff00ff p)) as [E2 H2]; [done..|].
  destruct (swap_eq 16 0x0000ffff (Des.flip (Des.swap 2 0x33333333 (Des.swap 8 0x00ff00ff p)))) as [E3 H3]; [done..|by apply flip_u32|].
  destruct (swap_eq 4 0x0f0f0f0f (Des.swap 16 0x0000ffff (Des.flip (Des.swap 2 0x33333333 (Des.swap 8 0x00ff00ff p))))) as [E4 H4]; [done..|].
  by rewrite <- E1, <- E2, <- E3, <- E4.
Qed.
Lemma rotl_both f g : f = id ∨ f = rotl1 ∨ f = rotr1 → g = id ∨ g = rotl1 ∨ g = rotr1 → moves2 (both f g).
Proof.
  assert (∀ f, f = id ∨ f = rotl1 ∨ f = rotr1 → moves f ∧ ∀ x, 0 <= x → 0 <= f x) as Hf.
  { intros h [->|[->| ->]]; (split; [|intros x Hx; destruct (rot_nonneg x Hx) as (? & ? & ?); done]); [done|apply rotl1_moves|apply rotr1_moves]. }
  intros H1 H2. destruct (Hf _ H1), (Hf _ H2). by apply both_moves.
Qed.
#[local] Ltac moves2 := repeat simple apply moves2_comp; try simple apply flip_moves; try simple apply permuted_moves;
  try (simple apply swap_moves_moves; done); try (simple apply rotl_both; auto).
Lemma initial_moves_moves : moves2 initial_moves.
Proof. unfold initial_moves. moves2. Qed.
Lemma final_moves_moves : moves2 final_moves.
Proof. unfold final_moves. moves2. Qed.
Lemma initial_is_IP p : u32_2 p → Des.initial p = both rotl1 rotl1 (permuted IP p).
Proof.
  intros Hp. rewrite initial_eq by done. destruct p as [l r]. destruct Hp. apply (moves2_ext initial_moves (both rotl1 rotl1 ∘ permuted IP)); [apply initial_moves_moves|moves2|by vm_compute|done..].
Qed.
Lemma final_is_IPinv p : u32_2 p → Des.flip (Des.final (both rotl1 rotl1 p)) = permuted IPinv (Des.flip p).
Proof.
  intros [Hl Hr]. destruct p as [l r]. simpl in Hl, Hr. rewrite final_eq by (split; by apply rotl1_u32).
  apply (moves2_ext (Des.flip ∘ final_moves ∘ both rotl1 rotl1) (permuted IPinv ∘ Des.flip)); [|moves2|by vm_compute|done..].
  apply moves2_comp; [|moves2]. apply moves2_comp; [moves2|apply final_moves_moves].
Qed.

(** ** A round *)
Definition group (x k : Z) : Z := Z.land (Z.shiftr x k) 63.
Lemma group_lxor x y k : group (Z.lxor x y) k = Z.lxor (group x k) (group y k).
Proof. unfold group. bits. destruct (Z.lt_ge_cases (i + k) 0); [by rewrite !Z.testbit_neg_r by done|]. rewrite ?Z.lxor_spec. btauto. Qed.
Lemma six_group i x : six i x = group x (42 - 6 * i).
Proof. done. Qed.
Lemma group_moves k : moves (λ x, group x k).
Proof.
  split; [unfold group; by rewrite Z.shiftr_0_l|]. intros x y _ _. unfold group. bits.
  destruct (Z.lt_ge_cases (i + k) 0); [by rewrite !Z.testbit_neg_r by done|]. rewrite ?Z.lor_spec. btauto.
Qed.
Definition cook0 (k : Z) : Z := nth 0 (Des.cook (Z.shiftr k 24) (Z.land k 0xffffff)) 0.
Definition cook1 (k : Z) : Z := nth 1 (Des.cook (Z.shiftr k 24) (Z.land k 0xffffff)) 0.
#[local] Ltac cooked := split; [done|intros a b Ha Hb; unfold cook0, cook1, Des.cook, nth; bits;
  repeat (rewrite ?Z.lor_spec, ?Z.land_spec); btauto].
Lemma shiftl_testbit a n m : 0 <= m → Z.testbit (Z.shiftl a n) m = Z.testbit a (m - n).
Proof. intros. by rewrite Z.shiftl_spec. Qed.
Lemma cook0_moves : moves cook0.
Proof.
  split; [done|]. intros a b Ha Hb. unfold cook0, Des.cook, nth. rewrite Z.shiftr_lor, !Z.land_lor_distr_l, !Z.shiftl_lor, !Z.shiftr_lor. bits. btauto.
Qed.
Lemma cook1_moves : moves cook1.
Proof.
  split; [done|]. intros a b Ha Hb. unfold cook1, Des.cook, nth. rewrite Z.shiftr_lor, !Z.land_lor_distr_l, !Z.shiftl_lor, !Z.shiftr_lor. bits. btauto.
Qed.
Lemma cook_nonneg k : 0 <= k → 0 <= cook0 k ∧ 0 <= cook1 k.
Proof.
  intros Hk. assert (∀ x m, 0 <= x → 0 <= Z.land x m) as Hl by (intros x m Hx; apply Z.land_nonneg; by left).
  pose proof (proj2 (Z.shiftr_nonneg k 24) Hk). unfold cook0, cook1, Des.cook, nth.
  split; repeat (apply Z.lor_nonneg; split); rewrite ?Z.shiftl_nonneg, ?Z.shiftr_nonneg; auto.
Qed.
Lemma moves_group f k : moves f → (∀ x, 0 <= x → 0 <= f x) → moves (λ x, group (f x) k).
Proof. intros Hf Hn. by apply (moves_comp (λ x, group x k)); [apply group_moves|..]. Qed.
Lemma expanded_odd i x : i ∈ [0; 2; 4; 6] → u32 x → group (rotr4 (rotl1 x)) (24 - 4 * i) = six i (perm 32 E x).
Proof.
  intros Hi Hx. apply (moves_ext 32 (λ x, group (rotr4 (rotl1 x)) (24 - 4 * i)) (λ x, group (perm 32 E x) (42 - 6 * i))); [..|done].
  - apply (moves_group (λ x, rotr4 (rotl1 x))); [apply moves_comp; [apply rotr4_moves|apply rotl1_moves|]|]; intros y Hy; repeat apply rot_nonneg; done.
  - apply moves_group; [apply perm_moves|]. intros. apply perm_nonneg.
  - repeat (apply elem_of_cons in Hi as [->|Hi]; [by vm_compute|]). by apply elem_of_nil in Hi.
Qed.
Lemma expanded_even i x : i ∈ [1; 3; 5; 7] → u32 x → group (rotl1 x) (28 - 4 * i) = six i (perm 32 E x).
Proof.
  intros Hi Hx. apply (moves_ext 32 (λ x, group (rotl1 x) (28 - 4 * i)) (λ x, group (perm 32 E x) (42 - 6 * i))); [..|done].
  - apply moves_group; [apply rotl1_moves|]. intros y Hy. by apply rot_nonneg.
  - apply moves_group; [apply perm_moves|]. intros. apply perm_nonneg.
  - repeat (apply elem_of_cons in Hi as [->|Hi]; [by vm_compute|]). by apply elem_of_nil in Hi.
Qed.
Definition u48 (k : Z) : Prop := 0 <= k < 2 ^ 48.
Lemma cooked_odd i k : i ∈ [0; 2; 4; 6] → u48 k → group (cook0 k) (24 - 4 * i) = six i k.
Proof.
  intros Hi Hk. apply (moves_ext 48 (λ x, group (cook0 x) (24 - 4 * i)) (λ x, group x (42 - 6 * i))); [..|done].
  - apply moves_group; [apply cook0_moves|]. intros y Hy. destruct (cook_nonneg y Hy). assumption.
  - apply group_moves.
  - repeat (apply elem_of_cons in Hi as [->|Hi]; [by vm_compute|]). by apply elem_of_nil in Hi.
Qed.
Lemma cooked_even i k : i ∈ [1; 3; 5; 7] → u48 k → group (cook1 k) (28 - 4 * i) = six i k.
Proof.
  intros Hi Hk. apply (moves_ext 48 (λ x, group (cook1 x) (28 - 4 * i)) (λ x, group x (42 - 6 * i))); [..|done].
  - apply moves_group; [apply cook1_moves|]. intros y Hy. destruct (cook_nonneg y Hy). assumption.
  - apply group_moves.
  - repeat (apply elem_of_cons in Hi as [->|Hi]; [by vm_compute|]). by apply elem_of_nil in Hi.
Qed.
(** an entry of [SP] is the box, permuted *)
Definition box (i : Z) (t : list Z) (c : Z) : Z := rotl1 (perm 32 P (four i (sbox t c))).
Definition box_checked (i : Z) (sp t : list Z) : bool :=
  forallb (λ c, nth c sp 0 =? box i t (Z.of_nat c)) (List.seq 0 64).
Lemma at_box i sp t x k c : box_checked i sp t = true → group x k = c → 0 <= c < 64 → Des.at_ sp x k = box i t c.
Proof.
  intros Hb Hc Hr. unfold Des.at_. fold (group x k). rewrite Hc. unfold box_checked in Hb. rewrite forallb_forall in Hb.
  specialize (Hb (Z.to_nat c) ltac:(apply in_seq; lia)). apply Z.eqb_eq in Hb. by rewrite Hb, Z2Nat.id by lia.
Qed.
Lemma box1 : box_checked 0 Des.SP1 S1 = true. Proof. by vm_compute. Qed.
Lemma box2 : box_checked 1 Des.SP2 S2 = true. Proof. by vm_compute. Qed.
Lemma box3 : box_checked 2 Des.SP3 S3 = true. Proof. by vm_compute. Qed.
Lemma box4 : box_checked 3 Des.SP4 S4 = true. Proof. by vm_compute. Qed.
Lemma box5 : box_checked 4 Des.SP5 S5 = true. Proof. by vm_compute. Qed.
Lemma box6 : box_checked 5 Des.SP6 S6 = true. Proof. by vm_compute. Qed.
Lemma box7 : box_checked 6 Des.SP7 S7 = true. Proof. by vm_compute. Qed.
Lemma box8 : box_checked 7 Des.SP8 S8 = true. Proof. by vm_compute. Qed.
Lemma six_range i x : 0 <= six i x < 64.
Proof. unfold six. change 63 with (Z.ones 6). rewrite Z.land_ones by lia. apply Z.mod_pos_bound. done. Qed.
Lemma rotl1_lor a b : 0 <= a → 0 <= b → rotl1 (Z.lor a b) = Z.lor (rotl1 a) (rotl1 b).
Proof. apply rotl1_moves. Qed.
Lemma fval_is_f r k : u32 r → u48 k → Des.fval (rotl1 r) (cook0 k) (cook1 k) = rotl1 (f r k).
Proof.
  intros Hr Hk. unfold Des.fval, f. change (Z.lor (Des.shl (rotl1 r) 28) (Z.shiftr (rotl1 r) 4)) with (rotr4 (rotl1 r)).
  set (x := Z.lxor (perm 32 E r) k).
  assert (∀ i, i ∈ [0; 2; 4; 6] → group (Z.lxor (rotr4 (rotl1 r)) (cook0 k)) (24 - 4 * i) = six i x) as Ho.
  { intros i Hi. unfold x. by rewrite group_lxor, expanded_odd, cooked_odd, !six_group, group_lxor. }
  assert (∀ i, i ∈ [1; 3; 5; 7] → group (Z.lxor (rotl1 r) (cook1 k)) (28 - 4 * i) = six i x) as He.
  { intros i Hi. unfold x. by rewrite group_lxor, expanded_even, cooked_even, !six_group, group_lxor. }
  pose proof (λ i, six_range i x) as Hx.
  rewrite (at_box 6 Des.SP7 S7 _ 0 (six 6 x) box7 (Ho 6 ltac:(by repeat constructor)) (Hx 6)),
    (at_box 4 Des.SP5 S5 _ 8 (six 4 x) box5 (Ho 4 ltac:(by repeat constructor)) (Hx 4)),
    (at_box 2 Des.SP3 S3 _ 16 (six 2 x) box3 (Ho 2 ltac:(by repeat constructor)) (Hx 2)),
    (at_box 0 Des.SP1 S1 _ 24 (six 0 x) box1 (Ho 0 ltac:(by repeat constructor)) (Hx 0)),
    (at_box 7 Des.SP8 S8 _ 0 (six 7 x) box8 (He 7 ltac:(by repeat constructor)) (Hx 7)),
    (at_box 5 Des.SP6 S6 _ 8 (six 5 x) box6 (He 5 ltac:(by repeat constructor)) (Hx 5)),
    (at_box 3 Des.SP4 S4 _ 16 (six 3 x) box4 (He 3 ltac:(by repeat constructor)) (Hx 3)),
    (at_box 1 Des.SP2 S2 _ 24 (six 1 x) box2 (He 1 ltac:(by repeat constructor)) (Hx 1)).
  unfold sboxes. cbn [fold_left]. rewrite !perm_lor, !rotl1_lor by (repeat first [apply perm_nonneg | apply Z.lor_nonneg; split]).
  replace (rotl1 (perm 32 P 0)) with 0 by by vm_compute. unfold box.
  repeat match goal with |- context [rotl1 (perm 32 P (four ?i ?s))] => generalize (rotl1 (perm 32 P (four i s))); intros ? end.
  bits. rewrite Z.bits_0. btauto.
Qed.

(** ** Sixteen rounds *)
Lemma f_u32 r k : u32 (f r k).
Proof. split; [apply perm_nonneg|]. apply (perm_lt 32 P). Qed.
Lemma rotl1_lxor a b : u32 a → u32 b → rotl1 (Z.lxor a b) = Z.lxor (rotl1 a) (rotl1 b).
Proof.
  intros Ha Hb. unfold rotl1, Des.shl. bits. rewrite ?Z.lxor_spec.
  destruct (decide (i = 0)) as [->|Hz].
  - rewrite (Z.testbit_neg_r a), (Z.testbit_neg_r b) by done. btauto.
  - rewrite (u32_bits a (i + 31)), (u32_bits b (i + 31)) by (done || lia). btauto.
Qed.
Definition words (ks : list Z) : list Z := ks ≫= λ k, [cook0 k; cook1 k].
Lemma rounds_are n : ∀ ks l r, length ks = (2 * n)%nat → Forall u48 ks → u32 l → u32 r →
  Des.rounds (words ks) (rotl1 l) (rotl1 r) = both rotl1 rotl1 (fold_left round ks (l, r)) ∧ u32_2 (fold_left round ks (l, r)).
Proof.
  induction n as [|n IH]; intros ks l r Hn Hk Hl Hr.
  { destruct ks; [|done]. by split. }
  destruct ks as [|k0 [|k1 ks]]; [done|simpl in Hn; lia|]. apply Forall_cons in Hk as [Hk0 Hk]. apply Forall_cons in Hk as [Hk1 Hk].
  cbn [words mbind list_bind app Des.rounds fold_left]. rewrite fval_is_f, <- rotl1_lxor by (done || apply f_u32).
  assert (u32 (Z.lxor l (f r k0))) as H1 by (apply u32_lxor; [done|apply f_u32]).
  rewrite fval_is_f, <- rotl1_lxor by (done || apply f_u32).
  assert (u32 (Z.lxor r (f (Z.lxor l (f r k0)) k1))) as H2 by (apply u32_lxor; [done|apply f_u32]).
  apply IH; [simpl in Hn; lia|done..].
Qed.

(** ** The key schedule *)
(** the key the standard is given: of the first eight characters *)
Definition vnc_bits (password : list Z) : list bool := List.seq 0 8 ≫= λ i, (λ j, Z.testbit (nth i password 0) j) <$> [0; 1; 2; 3; 4; 5; 6; 7].
Definition vnc_key (password : list Z) : Z := of_bits (vnc_bits password).
Lemma pc1_are password : (λ i, Z.testbit (vnc_key password) (64 - i)) <$> PC1 = Des.pc1m password.
Proof.
  assert (Forall (λ i, 0 <= 64 - i) PC1) as Hp by (apply (bool_decide_unpack _); by vm_compute).
  transitivity ((λ i, nth (Z.to_nat (64 - i)) (reverse (vnc_bits password)) false) <$> PC1).
  - apply list_fmap_ext. intros k i Hi. eapply Forall_lookup_1 in Hp; [|done]. unfold vnc_key.
    rewrite <- (Z2Nat.id (64 - i)) at 1 by done. apply testbit_of_bits.
  - unfold vnc_bits, Des.pc1m. generalize (λ i, Z.testbit (nth i password 0)). intros g. by vm_compute.
Qed.
Definition selected (off n : nat) (r : list bool) : list bool := (λ j, nth (Z.to_nat (nth j Des.PC2 0)) r false) <$> List.seq off n.
Lemma schedules c : length c = 56%nat →
  schedule_ false left_shifts (take 28 c) (drop 28 c) = (λ i, selected 0 24 (Des.pcr i c) ++ selected 24 24 (Des.pcr i c)) <$> List.seq 0 16.
Proof.
  intros Hc. do 56 (destruct c as [|? c]; [done|]). destruct c; [|done]. by vm_compute.
Qed.
Lemma kn_fold N r off n : (n <= N)%nat →
  fold_left (λ k j, if (nth (Z.to_nat (nth (j + off) Des.PC2 0)) r false : bool) then Z.lor k (Z.shiftl 1 (Z.of_nat N - 1 - Z.of_nat j)) else k) (List.seq 0 n) 0
  = Z.shiftl (of_bits (selected off n r)) (Z.of_nat N - Z.of_nat n).
Proof.
  induction n as [|n IH]; intros Hn; [by rewrite Z.shiftl_0_l|].
  unfold selected. rewrite !List.seq_S, fold_left_app, fmap_app. rewrite IH by lia. cbn [fold_left fmap list_fmap]. rewrite of_bits_snoc. cbn [Nat.add].
  fold (selected off n r). rewrite (Nat.add_comm n off). rewrite Z.shiftl_lor, Z.shiftl_shiftl by done.
  replace (1 + (Z.of_nat N - Z.of_nat (S n))) with (Z.of_nat N - Z.of_nat n) by lia.
  replace (Z.of_nat N - Z.of_nat (S n)) with (Z.of_nat N - 1 - Z.of_nat n) by lia.
  destruct (nth _ r false); simpl; [done|]. by rewrite Z.shiftl_0_l, Z.lor_0_r.
Qed.
Lemma kn_bits off r : Des.kn off r = of_bits (selected off 24 r).
Proof. unfold Des.kn. pose proof (kn_fold 24 r off 24 ltac:(lia)) as Hk. rewrite Z.shiftl_0_r in Hk. exact Hk. Qed.
Lemma of_bits_app a b : of_bits (a ++ b) = Z.lor (Z.shiftl (of_bits a) (Z.of_nat (length b))) (of_bits b).
Proof.
  induction b as [|x b IH] using rev_ind; [by rewrite app_nil_r, Z.shiftl_0_r, Z.lor_0_r|].
  rewrite (assoc_L (++)), !of_bits_snoc, IH, length_app. simpl. rewrite Z.shiftl_lor, Z.shiftl_shiftl by lia.
  rewrite Nat2Z.inj_add. by rewrite Z.lor_assoc.
Qed.
Lemma two_halves a b : length a = 24%nat → length b = 24%nat →
  u48 (of_bits (a ++ b)) ∧ Z.shiftr (of_bits (a ++ b)) 24 = of_bits a ∧ Z.land (of_bits (a ++ b)) 0xffffff = of_bits b.
Proof.
  intros Ha Hb. pose proof (of_bits_lt (a ++ b)) as Hl. rewrite length_app, Ha, Hb in Hl. pose proof (of_bits_nonneg (a ++ b)).
  split; [by split|]. rewrite of_bits_app, Hb. change (Z.of_nat 24) with 24. pose proof (of_bits_lt b) as Hlb. rewrite Hb in Hlb. pose proof (of_bits_nonneg b).
  change (2 ^ Z.of_nat 24) with (2 ^ 24) in Hlb.
  assert (∀ i, 24 <= i → Z.testbit (of_bits b) i = false) as Hb0 by (intros i Hi; by apply (Words.testbit_high _ 24)).
  split; bits.
  - replace (i + 24 - 24) with i by lia. by rewrite Hb0, orb_false_r by lia.
  - change 0xffffff with (Z.ones 24). destruct (Z.lt_ge_cases i 24).
    + by rewrite Z.ones_spec_low, andb_true_r, (Z.testbit_neg_r _ (i - 24)) by lia.
    + by rewrite Z.ones_spec_high, andb_false_r, Hb0 by lia.
Qed.
Lemma cook_two a b : Des.cook a b = [nth 0 (Des.cook a b) 0; nth 1 (Des.cook a b) 0].
Proof. done. Qed.
Lemma keys_are password : Des.keys password = words (schedule (vnc_key password)) ∧ Forall u48 (schedule (vnc_key password)) ∧ length (schedule (vnc_key password)) = 16%nat.
Proof.
  unfold schedule. rewrite pc1_are, schedules by (unfold Des.pc1m; by rewrite length_fmap). set (c := Des.pc1m password).
  assert (∀ i, length (selected 0 24 (Des.pcr i c)) = 24%nat ∧ length (selected 24 24 (Des.pcr i c)) = 24%nat) as Hl by (intros i; unfold selected; by rewrite !length_fmap, !length_seq).
  split_and!; [|rewrite !Forall_fmap; apply Forall_true; intros i; by apply two_halves|by rewrite !length_fmap].
  unfold Des.keys, words. rewrite <- list_fmap_compose, list_fmap_bind. apply Forall_bind_ext, Forall_true. intros i. destruct (Hl i). destruct (two_halves (selected 0 24 (Des.pcr i c)) (selected 24 24 (Des.pcr i c))) as (_ & E1 & E2); [assumption..|].
  unfold compose, cook0, cook1. rewrite E1, E2, <- !kn_bits. apply cook_two.
Qed.

(** ** A block *)
Lemma be_app a b : Websock.be (a ++ b) = Websock.be a * 2 ^ (8 * Websock.len b) + Websock.be b.
Proof.
  induction a as [|x a IH]; [done|]. cbn [app Websock.be]. rewrite IH, Websock.len_app.
  rewrite Z.mul_add_distr_l, Z.pow_add_r by (pose proof (Websock.len_nonneg a); pose proof (Websock.len_nonneg b); lia). lia.
Qed.
Lemma squash_be b0 b1 b2 b3 : Forall Websock.byte [b0; b1; b2; b3] → Des.squash [b0; b1; b2; b3] = Websock.be [b0; b1; b2; b3].
Proof.
  intros Hb. repeat (apply Forall_cons in Hb as [? Hb]). unfold Websock.byte in *. cbn [Des.squash Websock.be]. unfold Websock.len. simpl List.length.
  rewrite <- !Z.lor_assoc, !Z.shiftl_mul_pow2 by done. change (8 * Z.of_nat 3) with 24. change (8 * Z.of_nat 2) with 16. change (8 * Z.of_nat 1) with 8.
  change (2 ^ (8 * Z.of_nat 0)) with 1.
  rewrite (Words.lor_low b2 b3 8), (Words.lor_low b1 _ 16), (Words.lor_low b0 _ 24) by lia. lia.
Qed.
Lemma squash_u32 b : length b = 4%nat → Forall Websock.byte b → Des.squash b = Websock.be b ∧ u32 (Des.squash b).
Proof.
  intros Hl Hb. destruct b as [|b0 [|b1 [|b2 [|b3 [|]]]]]; try done. rewrite squash_be by done. split; [done|]. apply (Websock.be_range _ Hb).
Qed.
Lemma spread_bytes x : Des.spread x = Websock.be_bytes 4 x.
Proof. unfold Des.spread. cbn. by rewrite Z.shiftr_0_r. Qed.
Lemma be_bytes_halves x : Websock.be_bytes 8 x = Websock.be_bytes 4 (Z.shiftr x 32) ++ Websock.be_bytes 4 (Z.land x 4294967295).
Proof.
  change 4294967295 with (Z.ones 32). rewrite Z.land_ones by done. cbn [Websock.be_bytes app]. rewrite !Z.shiftr_shiftr by done.
  assert (∀ k, 0 <= k → k + 8 <= 32 → Z.shiftr (x mod 2 ^ 32) k mod 256 = Z.shiftr x k mod 256) as Hm.
  { intros k Hk H8. rewrite <- Z.land_ones by done. change 256 with (2 ^ 8). rewrite <- !Z.land_ones by done. bits.
    destruct (Z.lt_ge_cases i 8); [|by rewrite (Z.ones_spec_high 8), !andb_false_r by lia]. rewrite (Z.ones_spec_low 32) by lia. btauto. }
  rewrite !Hm by done. done.
Qed.
Lemma block_halves b : length b = 8%nat → Forall Websock.byte b →
  join (Des.squash (take 4 b), Des.squash (drop 4 b)) = Websock.be b ∧ u32_2 (Des.squash (take 4 b), Des.squash (drop 4 b)).
Proof.
  intros Hl Hb. destruct (squash_u32 (take 4 b)) as [E1 H1]; [rewrite length_take; lia|by apply Forall_take|].
  destruct (squash_u32 (drop 4 b)) as [E2 H2]; [rewrite length_drop; lia|by apply Forall_drop|]. split; [|done].
  unfold join. cbn [fst snd]. rewrite Z.shiftl_mul_pow2 by done. unfold u32 in H2. rewrite Words.lor_low by lia. rewrite E1, E2.
  pose proof (be_app (take 4 b) (drop 4 b)) as Ha. rewrite take_drop in Ha. rewrite Ha. unfold Websock.len. by rewrite length_drop, Hl.
Qed.
Lemma halves_are ks p : length ks = 16%nat → Forall u48 ks → u32_2 p →
  let lr := Des.initial p in Des.flip (Des.final (Des.rounds (words ks) lr.1 lr.2)) =
  let lr := fold_left round ks (halves (perm 64 IP (join p))) in halves (perm 64 IPinv (Z.lor (Z.shiftl lr.2 32) lr.1)).
Proof.
  intros Hn Hk Hp. cbn zeta. rewrite (initial_is_IP p Hp). unfold permuted.
  assert (u32_2 (halves (perm 64 IP (join p)))) as Hq by (apply halves_u32; split; [apply perm_nonneg|apply (perm_lt 64 IP)]).
  destruct (halves (perm 64 IP (join p))) as [l r]. destruct Hq as [H1 H2]. simpl in H1, H2. unfold both at 1 2. cbn [fst snd].
  destruct (rounds_are 8 ks l r Hn Hk H1 H2) as [-> H3]. by rewrite (final_is_IPinv _ H3).
Qed.
Lemma enc8_is_des password b : length b = 8%nat → Forall Websock.byte b →
  Des.enc8 (Des.keys password) b = Websock.be_bytes 8 (des (vnc_key password) (Websock.be b)).
Proof.
  intros Hl Hb. destruct (block_halves b Hl Hb) as [Ej Hu]. destruct (keys_are password) as (Ek & Hk & Hn).
  unfold Des.enc8, des. rewrite Ek. pose proof (halves_are _ _ Hn Hk Hu) as Hh. rewrite Ej in Hh. cbn zeta in *.
  generalize dependent (schedule (vnc_key password)). intros ks _ Hk Hn Hh.
  generalize dependent (Des.initial (Des.squash (take 4 b), Des.squash (drop 4 b))). intros lr Hh.
  destruct (Des.rounds (words ks) lr.1 lr.2) as [l r]. destruct (Des.final (l, r)) as [l' r'].
  unfold halves in Hh at 2. unfold halves in Hh at 1. unfold Des.flip in Hh. cbn [fst snd] in Hh. injection Hh as E1 E2.
  rewrite be_bytes_halves, !spread_bytes, E1, E2. done.
Qed.
Lemma blocks_whole n x : length x = (8 * n)%nat → Forall Websock.byte x → Forall (λ b, length b = 8%nat ∧ Forall Websock.byte b) (Des.blocks n x).
Proof.
  revert x. induction n as [|n IH]; intros x Hl Hx; [done|]. cbn [Des.blocks]. apply Forall_cons. split.
  - rewrite length_take. split; [lia|by apply Forall_take].
  - apply IH; [rewrite length_drop; lia|by apply Forall_drop].
Qed.
(** C28: The answer to a VNC challenge is the standard's DES: whatever the
    password and the challenge, of whole blocks, [genDES] encrypts each block as
    FIPS 46-3 does, tables, key schedule and rounds, under the key of the first
    eight characters with the bits of each in reverse. *)
Theorem vnc_response_is_des password challenge n :
  length challenge = (8 * n)%nat → Forall Websock.byte challenge →
  Des.genDES password challenge = Some (Des.blocks n challenge ≫= λ b, Websock.be_bytes 8 (des (vnc_key password) (Websock.be b))).
Proof.
  intros Hl Hb. unfold Des.genDES, Des.ecb_encrypt. rewrite Hl.
  replace (Z.of_nat (8 * n)) with (Z.of_nat n * 8) by lia. rewrite Z.mod_mul by done. cbn [Z.eqb].
  rewrite (Nat.mul_comm 8 n), Nat.div_mul by done. f_equal. apply Forall_bind_ext. eapply Forall_impl; [by apply blocks_whole|].
  intros b [? ?]. by apply enc8_is_des.
Qed.
Definition vector_key : list Z := reversed <$> [0x13; 0x34; 0x57; 0x79; 0x9B; 0xBC; 0xDF; 0xF1].
Definition vector_block : list Z := [0x01; 0x23; 0x45; 0x67; 0x89; 0xAB; 0xCD; 0xEF].
Lemma vnc_response_is_des_witness :
  Des.genDES vector_key (vector_block ++ vector_block) = Some (mjoin (replicate 2 [0x85; 0xE8; 0x13; 0x54; 0x0F; 0x0A; 0xB4; 0x05])) ∧
  Des.genDES vector_key (vector_block ++ vector_block)
    = Some (Des.blocks 2 (vector_block ++ vector_block) ≫= λ b, Websock.be_bytes 8 (des (vnc_key vector_key) (Websock.be b))).
Proof.
  split; [by vm_compute|]. apply vnc_response_is_des; [done|]. apply (bool_decide_unpack _). by vm_compute.
Defined.
End DesProofs.
