(* ===== verification/DiffieHellman.v ===== *)
(** * Diffie-Hellman: static/js/novnc/core/crypto/bigint.js and dh.js

    The numbers of the key exchange of the Apple and MSLogonII logins, as bytes
    and as numbers, and the secret both sides have of them. *)
From Stdlib Require Import Zpow_facts.
From S2P Require Import Prelude Words Websock.

#[local] Open Scope list_scope.
#[local] Open Scope Z_scope.

Module DiffieHellman.
Abbreviation bytes := (list Z).

(** ** bigint.js *)
(** the loop on the bits of [e] *)
Fixpoint pow_loop (e : positive) (r b m : Z) : Z :=
  match e with
  | xH => (r * b) mod m
  | xO e => pow_loop e r ((b * b) mod m) m
  | xI e => pow_loop e ((r * b) mod m) ((b * b) mod m) m
  end.
(** none: [%] of zero throws *)
Definition modPow (b e m : Z) : option Z :=
  if m =? 0 then None else Some (match e with Zpos e => pow_loop e 1 (b mod m) m | _ => 1 end).
(** [toString(16)]: the digits; there are no more than the fuel, [to_hex] *)
Fixpoint hex_loop (fuel : nat) (n : Z) : list Z :=
  match fuel with
  | 0%nat => [n]
  | S fuel => if n <? 16 then [n] else hex_loop fuel (n / 16) ++ [n mod 16]
  end.
Definition to_hex (n : Z) : list Z := hex_loop (Z.to_nat (Z.log2 n)) n.
Definition of_hex (l : list Z) : Z := fold_left (λ a d, a * 16 + d) l 0.
Definition padStart (n : nat) (l : list Z) : list Z := replicate (n - length l) 0 ++ l.
Fixpoint pairs (n : nat) (l : list Z) : bytes :=
  match n with 0%nat => [] | S n => of_hex (take 2 l) :: pairs n (drop 2 l) end.
Definition bigIntToU8Array (bigint : Z) (padLength : nat) : bytes :=
  let hex := to_hex bigint in
  let padLength := if (padLength =? 0)%nat then ((length hex + 1) / 2)%nat else padLength in
  let hex := padStart (padLength * 2) hex in
  pairs (length hex / 2) hex.
(** none: of no bytes the text is [0x], which throws *)
Definition u8ArrayToBigInt (arr : bytes) : option Z :=
  match arr with [] => None | _ => Some (of_hex (arr ≫= λ b, padStart 2 (to_hex b))) end.

(** ** dh.js *)
Record key := Key { keyBytes : nat; pBigInt : Z; privateKeyBigInt : Z; publicKey : bytes }.
(** [random]: the bytes drawn *)
Definition generateKey (g p random : bytes) : option key :=
  gn ← u8ArrayToBigInt g;
  pn ← u8ArrayToBigInt p;
  x ← u8ArrayToBigInt random;
  y ← modPow gn x pn;
  Some (Key (length p) pn x (bigIntToU8Array y (length p))).
Definition deriveBits (k : key) (public : bytes) (bits : Z) : option bytes :=
  let bytes := Z.to_nat ((bits + 7) / 8) in
  let len := (bytes `max` keyBytes k)%nat in
  pkey ← u8ArrayToBigInt public;
  secret ← modPow pkey (privateKeyBigInt k) (pBigInt k);
  Some (take len (bigIntToU8Array secret len)).

(** ** Powers *)
Lemma pow_loop_spec e r b m : 0 < m → pow_loop e r b m = (r * b ^ Zpos e) mod m.
Proof.
  intros Hm. revert r b. induction e as [e IH|e IH|]; intros r b; cbn [pow_loop]; [| |by rewrite Z.pow_1_r].
  - rewrite IH. rewrite Z.mul_mod_idemp_l by lia. rewrite <- Z.mul_mod_idemp_r, <- Zpower_mod, Z.mul_mod_idemp_r by lia.
    f_equal. rewrite Pos2Z.inj_xI, Z.pow_add_r, Z.pow_1_r, Z.pow_mul_r, (Z.pow_2_r b) by lia. ring.
  - rewrite IH. rewrite <- Z.mul_mod_idemp_r, <- Zpower_mod, Z.mul_mod_idemp_r by lia.
    f_equal. rewrite Pos2Z.inj_xO, Z.pow_mul_r, (Z.pow_2_r b) by lia. done.
Qed.
Lemma modPow_spec b e m : 1 < m → 0 <= e → modPow b e m = Some (b ^ e mod m).
Proof.
  intros Hm He. unfold modPow. rewrite (proj2 (Z.eqb_neq m 0)) by lia. f_equal. destruct e as [|e|e]; [by rewrite Z.pow_0_r, Z.mod_1_l| |lia].
  rewrite pow_loop_spec by lia. by rewrite Z.mul_1_l, <- Zpower_mod by lia.
Qed.

(** ** Numbers as bytes *)
Abbreviation be := Websock.be.
Definition digit (d : Z) : Prop := 0 <= d < 16.
Lemma of_hex_snoc l d : of_hex (l ++ [d]) = of_hex l * 16 + d.
Proof. unfold of_hex. by rewrite fold_left_app. Qed.
Lemma of_hex_app a b : of_hex (a ++ b) = of_hex a * 16 ^ Z.of_nat (length b) + of_hex b.
Proof.
  induction b as [|d b IH] using rev_ind; [rewrite app_nil_r; change (of_hex []) with 0; simpl (16 ^ _); lia|].
  rewrite (assoc_L (++)), !of_hex_snoc, IH, length_app. cbn [length]. rewrite Nat2Z.inj_add, Z.pow_add_r by lia. lia.
Qed.
Lemma of_hex_pad n l : of_hex (padStart n l) = of_hex l.
Proof.
  unfold padStart. rewrite of_hex_app. assert (of_hex (replicate (n - length l) 0) = 0) as ->; [|lia].
  induction (n - length l)%nat as [|k IH]; [done|]. by rewrite replicate_S_end, of_hex_snoc, IH.
Qed.
Lemma of_hex_loop fuel n : of_hex (hex_loop fuel n) = n.
Proof.
  revert n. induction fuel as [|fuel IH]; intros n; cbn [hex_loop]; [done|]. destruct (n <? 16); [done|].
  rewrite of_hex_snoc, IH. pose proof (Z.div_mod n 16). lia.
Qed.
Lemma hex_length fuel n j : n < 16 ^ Z.of_nat (S j) → (1 <= length (hex_loop fuel n) <= S j)%nat.
Proof.
  revert n j. induction fuel as [|fuel IH]; intros n j Hn; cbn [hex_loop]; [simpl; lia|]. destruct (Z.ltb_spec n 16); [simpl; lia|].
  rewrite length_app. cbn [length]. destruct j as [|j]; [simpl in Hn; lia|].
  assert (1 <= length (hex_loop fuel (n / 16)) <= S j)%nat; [|lia]. apply IH. apply Z.div_lt_upper_bound; [done|].
  rewrite Nat2Z.inj_succ, Z.pow_succ_r in Hn by lia. lia.
Qed.
Lemma hex_digits fuel n : 0 <= n < 16 ^ Z.of_nat (S fuel) → Forall digit (hex_loop fuel n).
Proof.
  revert n. induction fuel as [|fuel IH]; intros n Hn; cbn [hex_loop]; [by repeat constructor; unfold digit; simpl in Hn; lia|].
  destruct (Z.ltb_spec n 16); [by repeat constructor; unfold digit; lia|]. apply Forall_app. split; [apply IH|].
  - rewrite Nat2Z.inj_succ, Z.pow_succ_r in Hn by lia. split; [apply Z.div_pos; lia|]. apply Z.div_lt_upper_bound; lia.
  - repeat constructor; unfold digit; apply Z.mod_pos_bound; done.
Qed.
Lemma to_hex_digits n : 0 <= n → Forall digit (to_hex n).
Proof.
  intros Hn. apply hex_digits. split; [done|]. destruct (Z.eq_dec n 0) as [->|Hz]; [done|].
  pose proof (Z.log2_spec n ltac:(lia)) as [_ Hl]. pose proof (Z.log2_nonneg n). eapply Z.lt_le_trans; [exact Hl|].
  rewrite Nat2Z.inj_succ, Z2Nat.id by done. apply Z.pow_le_mono_l. lia.
Qed.
Lemma pairs_spec k l : length l = (2 * k)%nat → Forall digit l → be (pairs k l) = of_hex l ∧ length (pairs k l) = k ∧ Forall Websock.byte (pairs k l).
Proof.
  revert l. induction k as [|k IH]; intros l Hl Hd; [by destruct l|]. cbn [pairs].
  destruct (IH (drop 2 l)) as (E1 & E2 & E3); [rewrite length_drop; lia|by apply Forall_drop|].
  destruct l as [|d0 [|d1 l]]; [done|simpl in Hl; lia|]. apply Forall_cons in Hd as [H0 Hd]. apply Forall_cons in Hd as [H1 Hd]. unfold digit in *.
  change (drop 2 (d0 :: d1 :: l)) with (drop 0 l) in *. rewrite drop_0 in *. change (take 2 (d0 :: d1 :: l)) with (d0 :: d1 :: take 0 l). rewrite take_0. assert (of_hex [d0; d1] = d0 * 16 + d1) as Hp by (unfold of_hex; simpl; lia). split_and!.
  - cbn [Websock.be]. rewrite E1. change (d0 :: d1 :: l) with ([d0; d1] ++ l). rewrite of_hex_app. unfold Websock.len. rewrite E2. simpl in Hl.
    replace (Z.of_nat (length l)) with (2 * Z.of_nat k) by lia. rewrite (Z.pow_mul_r 2 8), (Z.pow_mul_r 16 2) by lia. done.
  - cbn [length]. by rewrite E2.
  - constructor; [|done]. rewrite Hp. unfold Websock.byte. lia.
Qed.
Lemma byte_hex b : Websock.byte b → length (padStart 2 (to_hex b)) = 2%nat ∧ of_hex (padStart 2 (to_hex b)) = b.
Proof.
  intros Hb. split; [|rewrite of_hex_pad; apply of_hex_loop]. unfold padStart. rewrite length_app, length_replicate.
  pose proof (hex_length (Z.to_nat (Z.log2 b)) b 1) as Hl. unfold to_hex. unfold Websock.byte in Hb. change (16 ^ Z.of_nat 2) with 256 in Hl. specialize (Hl ltac:(lia)). lia.
Qed.
Lemma u8_be arr : Forall Websock.byte arr → of_hex (arr ≫= λ b, padStart 2 (to_hex b)) = be arr ∧ length (arr ≫= λ b, padStart 2 (to_hex b)) = (2 * length arr)%nat.
Proof.
  induction 1 as [|b arr Hb Ha [IH1 IH2]]; [done|]. destruct (byte_hex b Hb) as [H1 H2]. rewrite bind_cons. cbn [Websock.be].
  rewrite of_hex_app, length_app, H1, H2, IH1, IH2. cbn [length]. split; [|lia].
  unfold Websock.len. replace (Z.of_nat (2 * length arr)) with (2 * Z.of_nat (length arr)) by lia. rewrite (Z.pow_mul_r 2 8), (Z.pow_mul_r 16 2) by lia. done.
Qed.
Lemma to_u8 n k : (0 < k)%nat → 0 <= n < 2 ^ (8 * Z.of_nat k) →
  be (bigIntToU8Array n k) = n ∧ length (bigIntToU8Array n k) = k ∧ Forall Websock.byte (bigIntToU8Array n k) ∧ u8ArrayToBigInt (bigIntToU8Array n k) = Some n.
Proof.
  intros Hk Hn. unfold bigIntToU8Array. destruct (Nat.eqb_spec k 0); [lia|].
  assert (length (to_hex n) <= 2 * k)%nat as Hl.
  { destruct k as [|k]; [done|]. pose proof (hex_length (Z.to_nat (Z.log2 n)) n (2 * k + 1)) as Hh. unfold to_hex.
    assert (n < 16 ^ Z.of_nat (S (2 * k + 1))) as Hlt; [|specialize (Hh Hlt); lia].
    replace (Z.of_nat (S (2 * k + 1))) with (2 * Z.of_nat (S k)) by lia. rewrite (Z.pow_mul_r 16 2) by lia. rewrite (Z.pow_mul_r 2 8) in Hn by lia. apply Hn. }
  assert (length (padStart (k * 2) (to_hex n)) = (2 * k)%nat) as Hp by (unfold padStart; rewrite length_app, length_replicate; lia).
  rewrite Hp. replace (2 * k / 2)%nat with k by (by rewrite Nat.mul_comm, Nat.div_mul).
  destruct (pairs_spec k (padStart (k * 2) (to_hex n)) Hp) as (E1 & E2 & E3).
  { unfold padStart. apply Forall_app. split; [apply Forall_replicate; unfold digit; lia|]. apply to_hex_digits; lia. }
  rewrite of_hex_pad in E1. unfold to_hex at 2 in E1. rewrite of_hex_loop in E1. split_and!; try done.
  destruct (pairs k _) as [|b arr] eqn:Ep; [simpl in E2; lia|]. unfold u8ArrayToBigInt. f_equal. rewrite (proj1 (u8_be (b :: arr) E3)). done.
Qed.
Lemma from_u8 arr : arr ≠ [] → Forall Websock.byte arr → u8ArrayToBigInt arr = Some (be arr).
Proof. intros Hz Ha. destruct arr as [|b arr]; [done|]. unfold u8ArrayToBigInt. f_equal. by apply u8_be. Qed.

(** ** The exchange *)
Lemma generated g p x k : g ≠ [] → length p = length x → Forall Websock.byte g → Forall Websock.byte p → Forall Websock.byte x → 1 < be p →
  generateKey g p x = Some k →
  keyBytes k = length p ∧ pBigInt k = be p ∧ privateKeyBigInt k = be x ∧ length (publicKey k) = length p
  ∧ Forall Websock.byte (publicKey k) ∧ be (publicKey k) = be g ^ be x mod be p.
Proof.
  intros Hgz Hl Hg Hp Hx H1. unfold generateKey. assert (p ≠ []) as Hpz by (by intros ->). assert (x ≠ []) as Hxz by (by intros ->; destruct p).
  rewrite !from_u8 by done. cbn [mbind option_bind]. pose proof (Websock.be_range _ Hx). pose proof (Websock.be_range _ Hp) as [_ Hlt]. rewrite modPow_spec by lia. cbn [mbind option_bind].
  intros [= <-]. cbn [keyBytes pBigInt privateKeyBigInt publicKey].
  assert (0 <= be g ^ be x mod be p < 2 ^ (8 * Z.of_nat (length p))) as Hr by (pose proof (Z.mod_pos_bound (be g ^ be x) (be p)); unfold Websock.len in Hlt; lia).
  destruct (to_u8 (be g ^ be x mod be p) (length p)) as (E1 & E2 & E3 & _); [by destruct p; simpl; [|lia]|done|]. done.
Qed.
(** Both sides have the same secret: of any generator and modulus, and any
    private keys drawn of the modulus's length, what each side derives of its own
    key and the other's public one is the same, and is the generator to the
    product of the keys, in as many bytes as were asked for, or as the modulus
    has. *)
Theorem both_sides_have_the_secret g p x y kx ky bits :
  g ≠ [] → Forall Websock.byte g → Forall Websock.byte p → Forall Websock.byte x → Forall Websock.byte y →
  length x = length p → length y = length p → 1 < be p → 0 <= bits →
  generateKey g p x = Some kx → generateKey g p y = Some ky →
  ∃ secret, deriveBits kx (publicKey ky) bits = Some secret ∧ deriveBits ky (publicKey kx) bits = Some secret
    ∧ be secret = be g ^ (be x * be y) mod be p ∧ length secret = (Z.to_nat ((bits + 7) / 8) `max` length p)%nat.
Proof.
  intros Hgz Hg Hp Hx Hy Hlx Hly H1 Hbits Hkx Hky.
  destruct (generated g p x kx) as (A1 & A2 & A3 & A4 & A5 & A6); [done..|]. destruct (generated g p y ky) as (B1 & B2 & B3 & B4 & B5 & B6); [done..|].
  assert (length p ≠ 0%nat) as Hpz by (by destruct p). pose proof (Websock.be_range _ Hx) as [Hx0 _]. pose proof (Websock.be_range _ Hy) as [Hy0 _].
  pose proof (Websock.be_range _ Hp) as [_ Hlt]. set (n := (Z.to_nat ((bits + 7) / 8) `max` length p)%nat).
  assert (∀ k q e, keyBytes k = length p → pBigInt k = be p → length q = length p → Forall Websock.byte q → be q ^ privateKeyBigInt k mod be p = e → 0 <= privateKeyBigInt k →
    deriveBits k q bits = Some (bigIntToU8Array e n) ∧ be (bigIntToU8Array e n) = e ∧ length (bigIntToU8Array e n) = n) as Hd.
  { intros k q e H2 H3 H4 H5 He H6. unfold deriveBits. rewrite from_u8, H2, H3 by (done || by intros ->). cbn [mbind option_bind]. rewrite modPow_spec, He by done. cbn [mbind option_bind].
    fold n. assert (0 <= e < 2 ^ (8 * Z.of_nat n)) as Hr.
    { pose proof (Z.mod_pos_bound (be q ^ privateKeyBigInt k) (be p) ltac:(lia)) as Hm. rewrite He in Hm. split; [lia|]. eapply Z.lt_le_trans; [apply Hm|]. apply Z.lt_le_incl. eapply Z.lt_le_trans; [exact Hlt|].
      apply Z.pow_le_mono_r; [done|]. unfold Websock.len, n. lia. }
    destruct (to_u8 e n) as (E1 & E2 & _); [unfold n; lia|done|]. rewrite firstn_all2 by lia. done. }
  destruct (Hd kx (publicKey ky) (be g ^ (be x * be y) mod be p)) as (C1 & C2 & C3); [done..| |lia|].
  { rewrite A3, B6, <- Zpower_mod, <- Z.pow_mul_r by lia. f_equal. f_equal. lia. }
  destruct (Hd ky (publicKey kx) (be g ^ (be x * be y) mod be p)) as (D1 & D2 & D3); [done..| |lia|].
  { rewrite B3, A6, <- Zpower_mod, <- Z.pow_mul_r by lia. done. }
  eexists. split_and!; [exact C1|exact D1|done|done].
Qed.
Lemma both_sides_have_the_secret_witness :
  let g := [0; 2] in let p := [1; 1] in let x := [0; 77] in let y := [3; 9] in
  match generateKey g p x, generateKey g p y with
  | Some kx, Some ky => publicKey kx = [0; 225] ∧ ∃ secret, deriveBits kx (publicKey ky) 16 = Some secret ∧ deriveBits ky (publicKey kx) 16 = Some secret
      ∧ be secret = be g ^ (be x * be y) mod be p ∧ length secret = 2%nat
  | _, _ => False
  end.
Proof.
  intros g p x y. destruct (generateKey g p x) as [kx|] eqn:Ex; [|by vm_compute in Ex]. destruct (generateKey g p y) as [ky|] eqn:Ey; [|by vm_compute in Ey].
  split; [vm_compute in Ex; by injection Ex as <-|].
  apply (both_sides_have_the_secret g p x y kx ky 16); try done; apply (bool_decide_unpack _); by vm_compute.
Defined.
End DiffieHellman.
