(* ===== verification/Handshake.v ===== *)
(** * noVNC: the handshake, static/js/novnc/core/rfb.js

    [_initMsg] and its handlers: the version, the security types, the
    authentications and the initialisation that come before the messages of the
    server.  The queue is as in [ServerMessages], whose state the handshake fills
    in.  What the browser computes by itself is a parameter: [ard_encrypt], the
    AES-ECB of the Apple login under the MD5 of its secret.  The RSA-AES login
    (ra2.js), which reads the queue on its own, is an environment: it takes
    bytes, sends, and ends. *)
From S2P Require Import Prelude Words Websock Decoders Messages Inflator Utf8 ServerMessages Des DiffieHellman.

#[local] Open Scope list_scope.
#[local] Open Scope Z_scope.
Import Decoders Messages ServerMessages.

Module Handshake.
Definition codes (s : string) : list Z := (λ a, Z.of_nat (Ascii.nat_of_ascii a)) <$> String.list_ascii_of_string s.
Definition securityTypeNone : Z := 1.
Definition securityTypeVNCAuth : Z := 2.
Definition securityTypeRA2ne : Z := 6.
Definition securityTypeTight : Z := 16.
Definition securityTypeVeNCrypt : Z := 19.
Definition securityTypeXVP : Z := 22.
Definition securityTypeARD : Z := 30.
Definition securityTypeMSLogonII : Z := 113.
Definition securityTypeUnixLogon : Z := 129.
Definition securityTypePlain : Z := 256.
Definition isSupportedSecurityType (type : Z) : bool :=
  bool_decide (type ∈ [securityTypeNone; securityTypeVNCAuth; securityTypeRA2ne; securityTypeTight; securityTypeVeNCrypt;
    securityTypeXVP; securityTypeARD; securityTypeMSLogonII; securityTypePlain]).

(** a string of the page is its UTF-16 units; its characters *)
Fixpoint points (u : list Z) : list Z :=
  match u with
  | h :: ((l :: u') as t) =>
    if (55296 <=? h) && (h <? 56320) && (56320 <=? l) && (l <? 57344)
    then 65536 + (h - 55296) * 1024 + (l - 56320) :: points u' else h :: points t
  | u => u
  end.
Definition encode (u : list Z) : option bytes := Utf8.encodeUTF8 (points u).

Inductive init_state :=
  | NotStarted | ProtocolVersion | Security | Authentication | SecurityResult | SecurityReason
  | ClientInitialisation | ServerInitialisation.
Record credentials := Credentials {
  username : option (list Z); password : option (list Z); target : option (list Z);
  ardCredentials : option bytes; ardPublicKey : option bytes }.
Inductive act :=
  | Out (ps : list Websock.push)
  | Ask (types : list string)                          (* credentialsrequired *)
  | SecurityFailure (status : Z) (reason : option (list Z))
  | Chosen (scheme : Z) | AuthenticationOK             (* logged *)
  | StartRa2 | GrabKeyboard | ConnectedNow
  | Does (e : effect).
(** [Goes]: [true]; [Stops]: [false] or [undefined]; it throws, reads where there
    is nothing, or no fuel is left *)
Inductive outcome := Goes | Stops | Threw | Misread | Spun.

Section handshake.
Context `{Pako} {D : Type} `{RectDecoders D}.
#[local] Abbreviation server := (ServerMessages.server (D := D)).
Variables (shared : bool) (repeaterID : list Z) (h264 : bool).

(** [entropy]: what [getRandomValues] will draw; [ards]: the secrets, the blocks
    and the public keys of the Apple logins still being encrypted *)
Record client := Client {
  sv : server; connecting : bool; init : init_state;
  rfbVersion : Z; rfbAuthScheme : Z; rfbTightVNC : bool; rfbVeNCryptState : Z; rfbVeNCryptSubtypesLength : Z;
  rfbCredentials : credentials; securityStatus : Z; ra2 : bool;
  entropy : nat → Z; ards : list (bytes * bytes * bytes) }.
Definition set_sv v s := Client v (connecting s) (init s) (rfbVersion s) (rfbAuthScheme s) (rfbTightVNC s) (rfbVeNCryptState s) (rfbVeNCryptSubtypesLength s) (rfbCredentials s) (securityStatus s) (ra2 s) (entropy s) (ards s).
Definition set_connecting v s := Client (sv s) v (init s) (rfbVersion s) (rfbAuthScheme s) (rfbTightVNC s) (rfbVeNCryptState s) (rfbVeNCryptSubtypesLength s) (rfbCredentials s) (securityStatus s) (ra2 s) (entropy s) (ards s).
Definition set_init v s := Client (sv s) (connecting s) v (rfbVersion s) (rfbAuthScheme s) (rfbTightVNC s) (rfbVeNCryptState s) (rfbVeNCryptSubtypesLength s) (rfbCredentials s) (securityStatus s) (ra2 s) (entropy s) (ards s).
Definition set_version v s := Client (sv s) (connecting s) (init s) v (rfbAuthScheme s) (rfbTightVNC s) (rfbVeNCryptState s) (rfbVeNCryptSubtypesLength s) (rfbCredentials s) (securityStatus s) (ra2 s) (entropy s) (ards s).
Definition set_scheme v s := Client (sv s) (connecting s) (init s) (rfbVersion s) v (rfbTightVNC s) (rfbVeNCryptState s) (rfbVeNCryptSubtypesLength s) (rfbCredentials s) (securityStatus s) (ra2 s) (entropy s) (ards s).
Definition set_tight s := Client (sv s) (connecting s) (init s) (rfbVersion s) (rfbAuthScheme s) true (rfbVeNCryptState s) (rfbVeNCryptSubtypesLength s) (rfbCredentials s) (securityStatus s) (ra2 s) (entropy s) (ards s).
Definition set_vencrypt v n s := Client (sv s) (connecting s) (init s) (rfbVersion s) (rfbAuthScheme s) (rfbTightVNC s) v n (rfbCredentials s) (securityStatus s) (ra2 s) (entropy s) (ards s).
Definition set_credentials v s := Client (sv s) (connecting s) (init s) (rfbVersion s) (rfbAuthScheme s) (rfbTightVNC s) (rfbVeNCryptState s) (rfbVeNCryptSubtypesLength s) v (securityStatus s) (ra2 s) (entropy s) (ards s).
Definition set_status v s := Client (sv s) (connecting s) (init s) (rfbVersion s) (rfbAuthScheme s) (rfbTightVNC s) (rfbVeNCryptState s) (rfbVeNCryptSubtypesLength s) (rfbCredentials s) v (ra2 s) (entropy s) (ards s).
Definition set_ra2 v s := Client (sv s) (connecting s) (init s) (rfbVersion s) (rfbAuthScheme s) (rfbTightVNC s) (rfbVeNCryptState s) (rfbVeNCryptSubtypesLength s) (rfbCredentials s) (securityStatus s) v (entropy s) (ards s).
Definition set_entropy v s := Client (sv s) (connecting s) (init s) (rfbVersion s) (rfbAuthScheme s) (rfbTightVNC s) (rfbVeNCryptState s) (rfbVeNCryptSubtypesLength s) (rfbCredentials s) (securityStatus s) (ra2 s) v (ards s).
Definition set_ards v s := Client (sv s) (connecting s) (init s) (rfbVersion s) (rfbAuthScheme s) (rfbTightVNC s) (rfbVeNCryptState s) (rfbVeNCryptSubtypesLength s) (rfbCredentials s) (securityStatus s) (ra2 s) (entropy s) v.
Implicit Types (s : client) (q : bytes).

Definition reply : Type := outcome * client * bytes * list act.
Definition behind (os : list act) (r : reply) : reply := let '(v, s, q, os') := r in (v, s, q, os ++ os').
Definition fail s q : reply := (Stops, set_connecting false (set_sv (disconnected (sv s)) s), q, [Does Fail]).
Definition draw (n : nat) s : bytes * client := (entropy s <$> List.seq 0 n, set_entropy (λ i, entropy s (n + i)%nat) s).

(** ** The version *)
(** in tenths; none: an invalid one; 0: a repeater *)
Definition version_of (sversion : bytes) : option Z :=
  let eq (v : string) := bool_decide (sversion = codes v) in
  if eq "000.000"%string then Some 0
  else if eq "003.003"%string || eq "003.006"%string then Some 33
  else if eq "003.007"%string then Some 37
  else if eq "003.008"%string || eq "003.889"%string || eq "004.000"%string || eq "004.001"%string || eq "005.000"%string then Some 38
  else None.
Definition rfbMaxVersion : Z := 38.
Definition digit (n : Z) : list Z := [48 + n].
Definition negotiateProtocolVersion s q : reply :=
  if rQwait 12 q then (Stops, s, q, [])
  else
    let '(version, q) := rQshiftBytes 12 q in
    match version_of (take 7 (drop 4 version)) with
    | None => fail s q
    | Some v =>
      if v =? 0 then
        let id := codes "ID:" ++ repeaterID in
        (Goes, s, q, [Out [Websock.PString (id ++ replicate (250 - length id) 0); Websock.PFlush]])
      else
        let v := if rfbMaxVersion <? v then rfbMaxVersion else v in
        let cversion := codes "00" ++ digit (v / 10) ++ codes ".00" ++ digit (v mod 10) in
        (Stops, set_init Security (set_version v s), q, [Out [Websock.PString (codes "RFB " ++ cversion ++ [10]); Websock.PFlush]])
    end.

(** ** The security type *)
Definition chosen (types : list Z) : Z := default (-1) (List.find isSupportedSecurityType types).
Definition refused (status : Z) s : client := set_status status (set_init SecurityReason s).
Definition authenticate s q (os : list act) : reply :=
  (Goes, set_init Authentication s, q, os ++ [Chosen (rfbAuthScheme s)]).
(** the number of types is read without waiting for it *)
Definition negotiateSecurity s q : reply :=
  if 37 <=? rfbVersion s then
    match q with
    | [] => (Misread, s, q, [])
    | _ =>
      let '(numTypes, q1) := rQshift 1 q in
      if rQwait numTypes q1 then (Stops, s, q, [])
      else if numTypes =? 0 then (Goes, refused 1 s, q1, [])
      else
        let '(types, q1) := rQshiftBytes numTypes q1 in
        let s := set_scheme (chosen types) s in
        if rfbAuthScheme s =? -1 then fail s q1
        else authenticate s q1 [Out [Websock.P8 (rfbAuthScheme s); Websock.PFlush]]
    end
  else if rQwait 4 q then (Stops, s, q, [])
  else
    let '(scheme, q) := rQshift 4 q in
    let s := set_scheme scheme s in
    if scheme =? 0 then (Goes, refused 1 s, q, []) else authenticate s q [].
Definition handleSecurityReason s q : reply :=
  if rQwait 4 q then (Stops, s, q, [])
  else
    let '(strlen, q1) := rQshift 4 q in
    if (0 <? strlen) && rQwait strlen q1 then (Stops, s, q, [])
    else
      let '(reason, q1) := if 0 <? strlen then rQshiftBytes strlen q1 else ([], q1) in
      behind [SecurityFailure (securityStatus s) (match reason with [] => None | _ => Some reason end)] (fail s q1).

(** ** The authentications *)
Definition ask s q (types : list string) : reply := (Stops, s, q, [Ask types]).
Definition authenticated s q (os : list act) : reply := (Goes, set_init SecurityResult s, q, os).
Definition negotiateStdVNCAuth s q : reply :=
  if rQwait 16 q then (Stops, s, q, [])
  else
    match password (rfbCredentials s) with
    | None => ask s q ["password"%string]
    | Some pw =>
      let '(challenge, q) := rQshiftBytes 16 q in
      match Des.genDES pw challenge with
      | Some response => authenticated s q [Out [Websock.PBytes response; Websock.PFlush]]
      | None => (Threw, s, q, [])
      end
    end.
Definition negotiateXvpAuth s q : reply :=
  match username (rfbCredentials s), password (rfbCredentials s), target (rfbCredentials s) with
  | Some user, Some _, Some tgt =>
    behind [Out [Websock.P8 (Websock.len user); Websock.P8 (Websock.len tgt); Websock.PString user; Websock.PString tgt; Websock.PFlush]]
      (negotiateStdVNCAuth (set_scheme securityTypeVNCAuth s) q)
  | _, _, _ => ask s q ["username"; "password"; "target"]%string
  end.
(** the steps of VeNCrypt: a reply, or on to the next *)
Definition next : Type := reply + (client * bytes * list act).
Definition then_ (x : next) (f : client → bytes → next) : next :=
  match x with
  | inl r => inl r
  | inr (s, q, os) => match f s q with inl r => inl (behind os r) | inr (s, q, os') => inr (s, q, os ++ os') end
  end.
Definition vencrypt_version s q : next :=
  if rfbVeNCryptState s =? 0 then
    if rQwait 2 q then inl (Stops, s, q, [])
    else
      let '(major, q) := rQshift 1 q in
      let '(minor, q) := rQshift 1 q in
      if negb ((major =? 0) && (minor =? 2)) then inl (fail s q)
      else inr (set_vencrypt 1 (rfbVeNCryptSubtypesLength s) s, q, [Out [Websock.P8 0; Websock.P8 2; Websock.PFlush]])
  else inr (s, q, []).
Definition vencrypt_ack s q : next :=
  if rfbVeNCryptState s =? 1 then
    if rQwait 1 q then inl (Stops, s, q, [])
    else
      let '(res, q) := rQshift 1 q in
      if negb (res =? 0) then inl (fail s q) else inr (set_vencrypt 2 (rfbVeNCryptSubtypesLength s) s, q, [])
  else inr (s, q, []).
Definition vencrypt_length s q : next :=
  if rfbVeNCryptState s =? 2 then
    if rQwait 1 q then inl (Stops, s, q, [])
    else
      let '(n, q) := rQshift 1 q in
      if n <? 1 then inl (fail s q) else inr (set_vencrypt 3 n s, q, [])
  else inr (s, q, []).
Definition vencrypt_subtypes s q : next :=
  if rfbVeNCryptState s =? 3 then
    if rQwait (4 * rfbVeNCryptSubtypesLength s) q then inl (Stops, s, q, [])
    else
      let '(subtypes, q) := words (Z.to_nat (rfbVeNCryptSubtypesLength s)) q in
      let s := set_scheme (chosen (filter (λ t, t ≠ securityTypeVeNCrypt) subtypes)) s in
      if rfbAuthScheme s =? -1 then inl (fail s q)
      else inl (Goes, set_vencrypt 4 (rfbVeNCryptSubtypesLength s) s, q, [Out [Websock.P32 (rfbAuthScheme s); Websock.PFlush]])
  else inl (Stops, s, q, []).
Definition negotiateVeNCryptAuth s q : reply :=
  match then_ (then_ (then_ (vencrypt_version s q) vencrypt_ack) vencrypt_length) vencrypt_subtypes with
  | inl r => r
  | inr (s, q, os) => (Stops, s, q, os)
  end.
Definition negotiatePlainAuth s q : reply :=
  match username (rfbCredentials s), password (rfbCredentials s) with
  | Some user, Some pass =>
    match encode user, encode pass with
    | Some user, Some pass =>
      authenticated s q [Out [Websock.P32 (Websock.len user); Websock.P32 (Websock.len pass); Websock.PString user; Websock.PString pass; Websock.PFlush]]
    | _, _ => (Threw, s, q, [])
    end
  | _, _ => ask s q ["username"; "password"]%string
  end.
Definition negotiateTightUnixAuth s q : reply :=
  match username (rfbCredentials s), password (rfbCredentials s) with
  | Some user, Some pass =>
    authenticated s q [Out [Websock.P32 (Websock.len user); Websock.P32 (Websock.len pass); Websock.PString user; Websock.PString pass; Websock.PFlush]]
  | _, _ => ask s q ["username"; "password"]%string
  end.
(** a text in a field of random bytes, with its end *)
Definition padded (text random : bytes) : bytes := text ++ [0] ++ drop (S (length text)) random.
(** [_negotiateARDAuthAsync], to where it waits for the browser; none: it throws,
    which nobody sees *)
Definition ard_start (k : DiffieHellman.key) (keyLength : Z) (serverPublicKey user pass : bytes) s : client :=
  match DiffieHellman.deriveBits k serverPublicKey (keyLength * 8), encode user, encode pass with
  | Some sharedKey, Some user, Some pass =>
    let '(random, s) := draw 128 s in
    let block := padded (take 63 user) (take 64 random) ++ padded (take 63 pass) (drop 64 random) in
    set_ards (ards s ++ [(sharedKey, block, DiffieHellman.publicKey k)]) s
  | _, _, _ => s
  end.
Definition negotiateARDAuth s q : reply :=
  let c := rfbCredentials s in
  match username c, password c with
  | Some user, Some pass =>
    match ardPublicKey c, ardCredentials c with
    | Some public, Some encrypted =>
      authenticated (set_credentials (Credentials (Some user) (Some pass) (target c) None None) s) q
        [Out [Websock.PBytes encrypted; Websock.PBytes public; Websock.PFlush]]
    | _, _ =>
      if rQwait 4 q then (Stops, s, q, [])
      else
        let '(generator, q1) := rQshiftBytes 2 q in
        let '(keyLength, q1) := rQshift 2 q1 in
        if rQwait (keyLength * 2) q1 then (Stops, s, q, [])
        else
          let '(prime, q1) := rQshiftBytes keyLength q1 in
          let '(serverPublicKey, q1) := rQshiftBytes keyLength q1 in
          let '(random, s) := draw (Z.to_nat keyLength) s in
          match DiffieHellman.generateKey generator prime random with
          | None => (Threw, s, q1, [])
          | Some k => (Stops, ard_start k keyLength serverPublicKey user pass s, q1, [])
          end
    end
  | _, _ => ask s q ["username"; "password"]%string
  end.
Definition negotiateMSLogonIIAuth s q : reply :=
  if rQwait 24 q then (Stops, s, q, [])
  else
    match username (rfbCredentials s), password (rfbCredentials s) with
    | Some user, Some pass =>
      let '(g, q) := rQshiftBytes 8 q in
      let '(p, q) := rQshiftBytes 8 q in
      let '(A, q) := rQshiftBytes 8 q in
      let '(random, s) := draw 8 s in
      match (k ← DiffieHellman.generateKey g p random;
             secret ← DiffieHellman.deriveBits k A 64;
             user ← encode user;
             pass ← encode pass;
             Some (k, secret, user, pass)) with
      | None => (Threw, s, q, [])
      | Some (k, secret, user, pass) =>
        let '(random1, s) := draw 256 s in
        let '(random2, s) := draw 64 s in
        match Des.cbc_encrypt secret secret (padded (take 255 user) random1), Des.cbc_encrypt secret secret (padded (take 63 pass) random2) with
        | Some usernameBytes, Some passwordBytes =>
          authenticated s q [Out [Websock.PBytes (DiffieHellman.publicKey k); Websock.PBytes usernameBytes; Websock.PBytes passwordBytes; Websock.PFlush]]
        | _, _ => (Threw, s, q, [])
        end
      end
    | _, _ => ask s q ["username"; "password"]%string
    end.
Definition negotiateRA2neAuth s q : reply :=
  if ra2 s then (Stops, s, q, []) else (Stops, set_ra2 true s, q, [StartRa2]).
(** ** Tight *)
(** [n] capabilities: a code, a vendor and a signature *)
Fixpoint capabilities (n : nat) q : list (Z * bytes * bytes) * bytes :=
  match n with
  | 0%nat => ([], q)
  | S n =>
    let '(code, q) := rQshift 4 q in
    let '(vendor, q) := rQshiftBytes 4 q in
    let '(signature, q) := rQshiftBytes 8 q in
    let '(l, q) := capabilities n q in ((code, vendor, signature) :: l, q)
  end.
(** the object's entry of a code: the last *)
Definition entry (code : Z) (l : list (Z * bytes * bytes)) : option (bytes * bytes) :=
  last (omap (λ '(c, v, g), if c =? code then Some (v, g) else None) l).
Definition notunnel : bytes * bytes := (codes "TGHT", codes "NOTUNNEL").
(** what it returns is not looked at *)
Definition negotiateTightTunnels (numTunnels : Z) s q : reply :=
  let '(types, q) := capabilities (Z.to_nat numTunnels) q in
  let siemens := bool_decide (entry 1 types = Some (codes "SICR", codes "SCHANNEL")) in
  match (if siemens then Some notunnel else entry 0 types) with
  | Some t => if bool_decide (t = notunnel) then (Stops, s, q, [Out [Websock.P32 0; Websock.PFlush]]) else fail s q
  | None => fail s q
  end.
Definition clientSupportedTypes : list (bytes * Z) :=
  [(codes "STDVNOAUTH__", 1); (codes "STDVVNCAUTH_", 2); (codes "TGHTULGNAUTH", 129)].
Definition tight_auth s q : reply :=
  if rQwait 4 q then (Stops, s, q, [])
  else
    let '(subAuthCount, q1) := rQshift 4 q in
    if subAuthCount =? 0 then authenticated s q1 []
    else if rQwait (16 * subAuthCount) q1 then (Stops, s, q, [])
    else
      let '(caps, q1) := capabilities (Z.to_nat subAuthCount) q1 in
      let serverSupportedTypes := (λ '(_, v, g), v ++ g) <$> caps in
      match List.find (λ '(name, _), bool_decide (name ∈ serverSupportedTypes)) clientSupportedTypes with
      | None => fail s q1
      | Some (_, n) =>
        let os := [Out [Websock.P32 n; Websock.PFlush]] in
        if n =? 1 then authenticated s q1 os else (Goes, set_scheme n s, q1, os)
      end.
Definition negotiateTightAuth s q : reply :=
  if rfbTightVNC s then tight_auth s q
  else if rQwait 4 q then (Stops, s, q, [])
  else
    let '(numTunnels, q1) := rQshift 4 q in
    if (0 <? numTunnels) && rQwait (16 * numTunnels) q1 then (Stops, s, q, [])
    else
      let s := set_tight s in
      if 0 <? numTunnels then negotiateTightTunnels numTunnels s q1 else tight_auth s q1.
Definition negotiateAuthentication s q : reply :=
  let scheme := rfbAuthScheme s in
  if scheme =? securityTypeNone then
    (Goes, set_init (if 38 <=? rfbVersion s then SecurityResult else ClientInitialisation) s, q, [])
  else if scheme =? securityTypeXVP then negotiateXvpAuth s q
  else if scheme =? securityTypeARD then negotiateARDAuth s q
  else if scheme =? securityTypeVNCAuth then negotiateStdVNCAuth s q
  else if scheme =? securityTypeTight then negotiateTightAuth s q
  else if scheme =? securityTypeVeNCrypt then negotiateVeNCryptAuth s q
  else if scheme =? securityTypePlain then negotiatePlainAuth s q
  else if scheme =? securityTypeUnixLogon then negotiateTightUnixAuth s q
  else if scheme =? securityTypeRA2ne then negotiateRA2neAuth s q
  else if scheme =? securityTypeMSLogonII then negotiateMSLogonIIAuth s q
  else fail s q.
Definition handleSecurityResult s q : reply :=
  if rQwait 4 q then (Stops, s, q, [])
  else
    let '(status, q) := rQshift 4 q in
    if status =? 0 then (Goes, set_init ClientInitialisation s, q, [AuthenticationOK])
    else if 38 <=? rfbVersion s then (Goes, refused status s, q, [])
    else behind [SecurityFailure status None] (fail s q).

(** ** The initialisation *)
(** after the name, in Tight's mode: what is skipped; none: it has not come *)
Definition tight_init (q : bytes) : option bytes :=
  if rQwait 8 q then None
  else
    let '(numServerMessages, q) := rQshift 2 q in
    let '(numClientMessages, q) := rQshift 2 q in
    let '(numEncodings, q) := rQshift 2 q in
    let '(_, q) := rQshiftBytes 2 q in
    if rQwait ((numServerMessages + numClientMessages + numEncodings) * 16) q then None
    else
      let '(_, q) := rQshiftBytes (16 * numServerMessages) q in
      let '(_, q) := rQshiftBytes (16 * numClientMessages) q in
      let '(_, q) := rQshiftBytes (16 * numEncodings) q in Some q.
Definition with_depth (depth : Z) (v : server) : server :=
  let b := base v in
  with_base (Rfb (connected b) (viewOnly b) (qemuExtKeyEventSupported b) (extendedPointerEventSupported b) (rfbXvpVer b) depth (qualityLevel b)
    (compressionLevel b) (remoteCapsLock b) (remoteNumLock b) (clipboardFormats b) (clipboardActions b) (clipboardText b)) v.
Definition with_connected (v : server) : server :=
  let b := base v in
  with_base (Rfb true (viewOnly b) (qemuExtKeyEventSupported b) (extendedPointerEventSupported b) (rfbXvpVer b) (fbDepth b) (qualityLevel b)
    (compressionLevel b) (remoteCapsLock b) (remoteNumLock b) (clipboardFormats b) (clipboardActions b) (clipboardText b)) v.
(** all but the transition to connected *)
Definition start (width height : Z) (name : bytes) (v : server) : server * list act :=
  let name := default [] (Utf8.decodeUTF8 name true) in
  let '(v, fx) := resize width height (with_name name v) in
  let v := with_depth (if bool_decide (name = codes "Intel(r) AMT KVM") then 8 else 24) v in
  (v, [Does (Tell (DesktopName name))] ++ (Does <$> fx) ++ (if viewOnly (base v) then [] else [GrabKeyboard])
      ++ [Does (Send (PixelFormat (fbDepth (base v)) true)); Does (Send (sendEncodings h264 (base v)));
          Does (Send (FbUpdateRequest false 0 0 (fbWidth v) (fbHeight v)))]).
Definition negotiateServerInit s q : reply :=
  if rQwait 24 q then (Stops, s, q, [])
  else
    let '(width, q1) := rQshift 2 q in
    let '(height, q1) := rQshift 2 q1 in
    let '(_, q1) := rQshiftBytes 16 q1 in
    let '(nameLength, q1) := rQshift 4 q1 in
    if rQwait nameLength q1 then (Stops, s, q, [])
    else
      let '(name, q1) := rQshiftBytes nameLength q1 in
      match (if rfbTightVNC s then tight_init q1 else Some q1) with
      | None => (Stops, s, q, [])
      | Some q1 =>
        let '(v, os) := start width height name (sv s) in
        if connecting s then (Goes, set_connecting false (set_sv (with_connected v) s), q1, os ++ [ConnectedNow])
        else (Goes, set_sv v s, q1, os)
      end.
Definition initMsg s q : reply :=
  match init s with
  | NotStarted => fail s q
  | ProtocolVersion => negotiateProtocolVersion s q
  | Security => negotiateSecurity s q
  | Authentication => negotiateAuthentication s q
  | SecurityResult => handleSecurityResult s q
  | SecurityReason => handleSecurityReason s q
  | ClientInitialisation => (Goes, set_init ServerInitialisation s, q, [Out [Websock.P8 (if shared then 1 else 0); Websock.PFlush]])
  | ServerInitialisation => negotiateServerInit s q
  end.

(** ** Messages of the socket *)
Fixpoint connecting_loop (fuel : nat) s q : reply :=
  match fuel with
  | 0%nat => (Spun, s, q, [])
  | S fuel =>
    if connecting s then
      let '(v, s, q, os) := initMsg s q in
      match v with Goes => behind os (connecting_loop fuel s q) | _ => (v, s, q, os) end
    else (Goes, s, q, [])
  end.
Definition of_verdict (v : ServerMessages.verdict) : outcome :=
  match v with
  | ServerMessages.Done => Goes | ServerMessages.Throws => Threw | ServerMessages.Astray | ServerMessages.Unknown => Misread
  | ServerMessages.Spins => Spun | _ => Stops
  end.
Definition handleMessage s q : reply :=
  if rQwait 1 q then (Stops, s, q, [])
  else if connecting s then connecting_loop (3 * length q + 4) s q
  else
    let '(v, s', q, fx) := ServerMessages.handleMessage (sv s) q in (of_verdict v, set_sv s' s, q, Does <$> fx).
End handshake.
End Handshake.
