(* ===== verification/HandshakeRuns.v ===== *)
(** * noVNC: runs of the handshake, static/js/novnc/core/rfb.js

    The console's socket and timers from the start of the connection on:
    messages in any chunks, credentials of the page, the answers of the browser,
    the RSA-AES login.  The loop ends; a console is connected only when the
    server has accepted it; and a login with a password, to its end. *)
From S2P Require Import Prelude Words Websock Decoders Messages Inflator Utf8 ServerMessages ServerRuns Des DiffieHellman Handshake.

#[local] Open Scope list_scope.
#[local] Open Scope Z_scope.
Import Decoders Messages ServerMessages Handshake.

Module HandshakeRuns.
Section runs.
Context `{Pako} {D : Type} `{RectDecoders D}.
Variables (shared : bool) (repeaterID : list Z) (h264 : bool).
#[local] Abbreviation client := (Handshake.client (D := D)).
#[local] Abbreviation reply := (Handshake.reply (D := D)).
#[local] Abbreviation initMsg := (Handshake.initMsg shared repeaterID h264).
#[local] Abbreviation handleMessage := (Handshake.handleMessage shared repeaterID h264).
#[local] Abbreviation connecting_loop := (Handshake.connecting_loop shared repeaterID h264).
Implicit Types (s : client) (q r : bytes).

(** ** The loop ends *)
Definition rank (i : init_state) : nat := match i with Authentication => 2 | ClientInitialisation => 1 | _ => 0 end.
Definition measure s q : nat := (3 * length q + rank (init s))%nat.
(** after a step the loop goes on from, there is less to do *)
Definition ahead s q (x : reply) : Prop :=
  let '(v, s', q', _) := x in
  (length q' <= length q)%nat ∧ v ≠ Spun ∧ (v = Goes → (length q' < length q)%nat ∨ (rank (init s') < rank (init s))%nat).
Lemma ahead_measure s q s' q' os : ahead s q (Goes, s', q', os) → (measure s' q' < measure s q)%nat.
Proof.
  intros (Hl & _ & Hg). specialize (Hg eq_refl). unfold measure.
  assert (rank (init s') <= 2)%nat by (by destruct (init s'); simpl; lia). lia.
Qed.
Lemma ahead_behind s q os (x : reply) : ahead s q x → ahead s q (behind os x).
Proof. by destruct x as [[[v s'] q'] os']. Qed.
#[local] Ltac lens := unfold len, Websock.len in *; simpl List.length in *; rewrite ?length_drop in *; try lia.
#[local] Ltac cases := repeat match goal with
  | |- ahead _ _ (behind _ _) => apply ahead_behind
  | |- ahead _ _ (if rQwait ?n ?q then _ else _) => let E := fresh "E" in destruct (rQwait n q) eqn:E; [|apply ServerRuns.wait_false in E]
  | |- ahead _ _ (if ?b then _ else _) => destruct b
  | |- ahead _ _ (match ?x with _ => _ end) => destruct x eqn:?
  end.
#[local] Ltac less := split; [lens|split; [done|]]; first [done | intros _; first [left; lens; done | right; simpl; lens; done]].
Lemma version_ahead s q : ahead s q (negotiateProtocolVersion repeaterID s q).
Proof. unfold negotiateProtocolVersion. cbn [rQshiftBytes list_buffer]. cases; less. Qed.
Lemma security_ahead s q : ahead s q (negotiateSecurity s q).
Proof. unfold negotiateSecurity, authenticate. cbn [rQshift rQshiftBytes list_buffer]. destruct q as [|b q]; cases; less. Qed.
Lemma reason_ahead s q : ahead s q (handleSecurityReason s q).
Proof.
  unfold handleSecurityReason. cbn [rQshift rQshiftBytes list_buffer]. destruct (rQwait 4 q); [less|]. destruct (0 <? _); cbn [andb]; cases; less.
Qed.
Lemma vnc_ahead s q : rank (init s) = 2%nat → ahead s q (negotiateStdVNCAuth s q).
Proof. intros Hr. unfold negotiateStdVNCAuth, authenticated, ask. cbn [rQshiftBytes list_buffer]. cases; less. Qed.
Lemma xvp_ahead s q : rank (init s) = 2%nat → ahead s q (negotiateXvpAuth s q).
Proof. intros Hr. unfold negotiateXvpAuth, ask. cases; try less. by apply (vnc_ahead (set_scheme _ s)). Qed.
Lemma plain_ahead s q : rank (init s) = 2%nat → ahead s q (negotiatePlainAuth s q).
Proof. intros Hr. unfold negotiatePlainAuth, authenticated, ask. cases; less. Qed.
Lemma unix_ahead s q : rank (init s) = 2%nat → ahead s q (negotiateTightUnixAuth s q).
Proof. intros Hr. unfold negotiateTightUnixAuth, authenticated, ask. cases; less. Qed.
Lemma ard_init k n key u p s : init (ard_start k n key u p s) = init s.
Proof. unfold ard_start, draw. by repeat case_match. Qed.
Lemma ard_ahead s q : rank (init s) = 2%nat → ahead s q (negotiateARDAuth s q).
Proof. intros Hr. unfold negotiateARDAuth, authenticated, ask, draw. cbn [rQshift rQshiftBytes list_buffer]. cases; less. Qed.
Lemma mslogon_ahead s q : rank (init s) = 2%nat → ahead s q (negotiateMSLogonIIAuth s q).
Proof. intros Hr. unfold negotiateMSLogonIIAuth, authenticated, ask, draw. cbn [rQshiftBytes list_buffer]. cases; less. Qed.
Lemma capabilities_left n q : (length (capabilities n q).2 <= length q)%nat.
Proof.
  revert q. induction n as [|n IH]; intros q; [done|]. cbn [capabilities rQshift rQshiftBytes list_buffer]. specialize (IH (drop (Z.to_nat 8) (drop (Z.to_nat 4) (drop 4 q)))).
  destruct (capabilities n _). simpl in *. rewrite !length_drop in IH. lia.
Qed.
Lemma tight_auth_ahead s q : rank (init s) = 2%nat → ahead s q (tight_auth s q).
Proof.
  intros Hr. unfold tight_auth, authenticated. cbn [rQshift list_buffer]. pose proof (λ n, capabilities_left n (drop 4 q)) as Hc.
  destruct (rQwait 4 q) eqn:E; [less|apply ServerRuns.wait_false in E]. destruct (_ =? 0); [less|].
  specialize (Hc (Z.to_nat (Websock.be (take 4 q)))). destruct (capabilities _ _) as [caps q1]. simpl in Hc. rewrite length_drop in Hc. cases; less.
Qed.
Lemma tunnels_ahead n s q : ahead s q (negotiateTightTunnels n s q).
Proof.
  unfold negotiateTightTunnels. pose proof (capabilities_left (Z.to_nat n) q) as Hc. destruct (capabilities _ q) as [types q1]. simpl in Hc. cases; less.
Qed.
Lemma ahead_later s s' q q' (x : reply) : ahead s' q' x → (length q' <= length q)%nat → init s' = init s → ahead s q x.
Proof. destruct x as [[[v s1] q1] os]. intros (H1 & H2 & H3) Hl Hi. rewrite Hi in H3. split; [lia|]. split; [done|]. intros Hv. specialize (H3 Hv). lia. Qed.
Lemma tight_ahead s q : rank (init s) = 2%nat → ahead s q (negotiateTightAuth s q).
Proof.
  intros Hr. unfold negotiateTightAuth. cbn [rQshift list_buffer]. destruct (rfbTightVNC s); [by apply tight_auth_ahead|].
  destruct (rQwait 4 q) eqn:E; [less|apply ServerRuns.wait_false in E]. destruct (0 <? _); cbn [andb]; [destruct (rQwait _ _); [less|]|].
  - eapply ahead_later; [apply tunnels_ahead|lens|done].
  - eapply ahead_later; [by apply (tight_auth_ahead (set_tight s))|lens|done].
Qed.
Definition ahead_next s q (x : next (D := D)) : Prop :=
  match x with inl r => ahead s q r | inr (s', q', _) => (length q' <= length q)%nat ∧ init s' = init s end.
Lemma then_ahead s q x f : ahead_next s q x → (∀ s' q', init s' = init s → ahead_next s' q' (f s' q')) → ahead_next s q (then_ x f).
Proof.
  destruct x as [r|[[s' q'] os]]; [done|]. intros [Hl Hi] Hf. cbn [then_]. specialize (Hf s' q' Hi).
  destruct (f s' q') as [r|[[s2 q2] os2]]; simpl in *; [apply ahead_behind; by eapply ahead_later|]. destruct Hf. split; [lia|congruence].
Qed.
#[local] Ltac next_cases := repeat match goal with
  | |- ahead_next _ _ (if rQwait ?n ?q then _ else _) => let E := fresh "E" in destruct (rQwait n q) eqn:E; [|apply ServerRuns.wait_false in E]
  | |- ahead_next _ _ (if ?b then _ else _) => destruct b
  end.
Lemma vencrypt_ahead s q : rank (init s) = 2%nat → ahead s q (negotiateVeNCryptAuth s q).
Proof.
  intros Hr. unfold negotiateVeNCryptAuth.
  assert (ahead_next s q (then_ (then_ (then_ (vencrypt_version s q) vencrypt_ack) vencrypt_length) vencrypt_subtypes)) as Ha.
  { repeat apply then_ahead; [|intros s' q' Hi..].
    - unfold vencrypt_version. cbn [rQshift list_buffer]. next_cases; simpl; try less; split; lens; done.
    - unfold vencrypt_ack. cbn [rQshift list_buffer]. next_cases; simpl; try less; split; lens; done.
    - unfold vencrypt_length. cbn [rQshift list_buffer]. next_cases; simpl; try less; split; lens; done.
    - unfold vencrypt_subtypes. destruct (_ =? 3); [|less]. destruct (rQwait _ q') eqn:E; [less|apply ServerRuns.wait_false in E].
      set (n := rfbVeNCryptSubtypesLength s') in *. pose proof (ServerRuns.words_left (Z.to_nat n) q') as Hw.
      destruct (words (Z.to_nat n) q') as [types q1] eqn:Ew. simpl in Hw. subst q1. cbn [rfbAuthScheme set_scheme].
      destruct (Z.eqb_spec (chosen (filter (λ t, t ≠ securityTypeVeNCrypt) types)) (-1)) as [|Hc]; [less|].
      assert (Z.to_nat n ≠ 0%nat) as Hn. { intros Hz. rewrite Hz in Ew. injection Ew as <-. done. }
      simpl. split; [lens|split; [done|]]. intros _. left. lens. }
  destruct (then_ _ _) as [r|[[s' q'] os]]; [done|]. destruct Ha. less.
Qed.
Lemma authentication_ahead s q : init s = Authentication → ahead s q (negotiateAuthentication s q).
Proof.
  intros Hi. assert (rank (init s) = 2%nat) as Hr by by rewrite Hi. unfold negotiateAuthentication, negotiateRA2neAuth.
  destruct (_ =? _); [destruct (38 <=? _); (split; [done|split; [done|]]; intros _; right; rewrite Hi; simpl; lia)|].
  repeat (match goal with |- ahead _ _ (if ?b then _ else _) => destruct b end; [first [by apply xvp_ahead | by apply ard_ahead | by apply vnc_ahead | by apply tight_ahead
    | by apply vencrypt_ahead | by apply plain_ahead | by apply unix_ahead | by apply mslogon_ahead | destruct (ra2 s); less]|]). less.
Qed.
Lemma result_ahead s q : ahead s q (handleSecurityResult s q).
Proof. unfold handleSecurityResult. cbn [rQshift list_buffer]. cases; less. Qed.
Lemma tight_init_left q q' : tight_init q = Some q' → (length q' <= length q)%nat.
Proof.
  unfold tight_init. cbn [rQshift rQshiftBytes list_buffer]. destruct (rQwait 8 q); [done|]. destruct (rQwait _ _); [done|]. intros [= <-]. lens.
Qed.
Lemma server_init_ahead s q : ahead s q (negotiateServerInit h264 s q).
Proof.
  unfold negotiateServerInit. cbn [rQshift rQshiftBytes list_buffer]. cases; try less.
  all: match goal with Ht : (if _ then tight_init ?q1 else _) = Some ?q2 |- _ =>
    assert (length q2 <= length q1)%nat by (destruct (rfbTightVNC s); [by apply tight_init_left|by injection Ht as <-]) end; less.
Qed.
Lemma init_ahead s q : ahead s q (initMsg s q).
Proof.
  unfold Handshake.initMsg. destruct (init s) eqn:Hi; [less|apply version_ahead|apply security_ahead|by apply authentication_ahead|apply result_ahead|apply reason_ahead| |apply server_init_ahead].
  split; [done|split; [done|]]. intros _. right. rewrite Hi. simpl. lia.
Qed.
Lemma handshake_fuel n m s q : (measure s q < n)%nat → (measure s q < m)%nat → connecting_loop n s q = connecting_loop m s q.
Proof.
  revert m s q. induction n as [|n IH]; intros m s q Hn Hm; [lia|]. destruct m as [|m]; [lia|]. cbn [Handshake.connecting_loop].
  destruct (connecting s); [|done]. pose proof (init_ahead s q) as Ha. destruct (initMsg s q) as [[[v s'] q'] os]. destruct v; try done.
  apply ahead_measure in Ha. by rewrite (IH m) by lia.
Qed.
Lemma handshake_ends n s q : (measure s q < n)%nat → (connecting_loop n s q).1.1.1 ≠ Spun.
Proof.
  revert s q. induction n as [|n IH]; intros s q Hn; [lia|]. cbn [Handshake.connecting_loop]. destruct (connecting s); [|done].
  pose proof (init_ahead s q) as Ha. destruct (initMsg s q) as [[[v s'] q'] os]. destruct v; try done; [|by destruct Ha as (_ & ? & _)].
  apply ahead_measure in Ha. specialize (IH s' q' ltac:(lia)). by destruct (connecting_loop n s' q') as [[[? ?] ?] ?].
Qed.
(** C24: The handshake's loop ends: from any state and on any bytes there are
    numbers of turns that are enough, more give the same, and the loop of
    [handleMessage] has so many. *)
Theorem handshake_loop_ends s q :
  (∀ n, (measure s q < n)%nat → connecting_loop n s q = connecting_loop (3 * length q + 4) s q)
  ∧ (connecting_loop (3 * length q + 4) s q).1.1.1 ≠ Spun.
Proof.
  assert (measure s q < 3 * length q + 4)%nat by (unfold measure; destruct (init s); simpl; lia).
  split; [intros n Hn; by apply handshake_fuel|]. by apply handshake_ends.
Qed.

(** ** Who is connected *)
Definition logged (os : list act) : bool := existsb (λ o, match o with AuthenticationOK => true | _ => false end) os.
Definition announced (os : list act) : bool := existsb (λ o, match o with ConnectedNow => true | _ => false end) os.
Lemma does_announced (fx : list effect) : announced (Does <$> fx) = false ∧ logged (Does <$> fx) = false.
Proof. by induction fx. Qed.
Lemma announced_app os os' : announced (os ++ os') = announced os || announced os'.
Proof. apply existsb_app. Qed.
Lemma logged_app os os' : logged (os ++ os') = logged os || logged os'.
Proof. apply existsb_app. Qed.
Definition is_connected s : bool := connected (base (sv s)).
Definition ra2_ok s : Prop := ra2 s = true → init s = Authentication ∧ rfbAuthScheme s = securityTypeRA2ne.
Definition unprotected s : Prop := rfbVersion s < 38 ∧ rfbAuthScheme s = securityTypeNone.
(** what a step may do of it *)
Record sound s (x : reply) : Prop := Sound {
  so_ra2 : ra2_ok x.1.1.2;
  so_client : init x.1.1.2 = ClientInitialisation → logged x.2 = true ∨ unprotected x.1.1.2;
  so_server : init x.1.1.2 = ServerInitialisation → (init s = ClientInitialisation ∨ init s = ServerInitialisation)
    ∧ rfbVersion x.1.1.2 = rfbVersion s ∧ rfbAuthScheme x.1.1.2 = rfbAuthScheme s;
  so_stays : init s = ServerInitialisation → init x.1.1.2 = ServerInitialisation;
  so_announced : announced x.2 = true → init x.1.1.2 = ServerInitialisation;
  so_logged : logged x.2 = true → init s = SecurityResult;
  so_connected : is_connected x.1.1.2 = true → is_connected s = true ∨ announced x.2 = true }.
(** a step of a state before the initialisation that stays before it *)
Definition early (i : init_state) : Prop := match i with ClientInitialisation | ServerInitialisation => False | _ => True end.
#[local] Abbreviation mute os := (announced os = false ∧ logged os = false).
Definition unannounced s (x : reply) : Prop :=
  mute x.2 ∧ (is_connected x.1.1.2 = true → is_connected s = true) ∧ ra2 x.1.1.2 = ra2 s.
Lemma early_sound s v s' q os : early (init s) → early (init s') → ra2_ok s' → unannounced s (v, s', q, os) → sound s (v, s', q, os).
Proof. intros Hs Hs' Hr ((Ha & Hl) & Hc & _). split; simpl in *; try done; [by intros E; rewrite E in Hs'..|by intros E; rewrite E in Hs|by rewrite Ha|by rewrite Hl|auto]. Qed.
Definition no_ra2 s : Prop := ra2 s = false.
(** a handler of the authentication *)
Definition auth_step s (x : reply) : Prop := early (init x.1.1.2) ∧ unannounced s x.
Lemma auth_sound s x : early (init s) → no_ra2 s → auth_step s x → sound s x.
Proof.
  destruct x as [[[v s'] q] os]. intros Hi Hr [He Hu]. apply early_sound; try done.
  destruct Hu as (_ & _ & Hu). unfold ra2_ok. simpl in *. by rewrite Hu, Hr.
Qed.
Lemma auth_behind s os x : auth_step s x → mute os → auth_step s (behind os x).
Proof.
  destruct x as [[[v s'] q] os']. intros [He ((Ha & Hl) & Hc & Hr)] [Ho Hol]. split; [done|]. split; [|done].
  simpl in *. by rewrite announced_app, logged_app, Ho, Ha, Hol, Hl.
Qed.
Lemma auth_later s s' x : init s' = init s → sv s' = sv s → ra2 s' = ra2 s → auth_step s' x → auth_step s x.
Proof. intros Hi Hv Hr [He (Ha & Hc & Hx)]. split; [done|]. split; [done|]. unfold is_connected in *. rewrite Hv in Hc. split; [done|congruence]. Qed.
Lemma auth_same s v q os : early (init s) → mute os → auth_step s (v, s, q, os).
Proof. by intros. Qed.
Lemma auth_fail s q : early (init s) → auth_step s (fail s q).
Proof. intros He. split; [done|]. split; [done|]. by split. Qed.
#[local] Ltac auth_cases := repeat match goal with
  | |- auth_step _ (behind _ _) => apply auth_behind; [|done]
  | |- auth_step _ (if ?b then _ else _) => destruct b
  | |- auth_step _ (match ?x with _ => _ end) => destruct x eqn:?
  end.
#[local] Ltac auth := intros He; auth_cases; first [by apply auth_same | by apply auth_fail | by (split; [|split; [|split]]) | idtac].
Lemma vnc_step s q : early (init s) → auth_step s (negotiateStdVNCAuth s q).
Proof. unfold negotiateStdVNCAuth, authenticated, ask. cbn [rQshiftBytes list_buffer]. auth. Qed.
Lemma xvp_step s q : early (init s) → auth_step s (negotiateXvpAuth s q).
Proof. unfold negotiateXvpAuth, ask. auth. apply (auth_later _ (set_scheme securityTypeVNCAuth s)); try done. by apply vnc_step. Qed.
Lemma plain_step s q : early (init s) → auth_step s (negotiatePlainAuth s q).
Proof. unfold negotiatePlainAuth, authenticated, ask. auth. Qed.
Lemma unix_step s q : early (init s) → auth_step s (negotiateTightUnixAuth s q).
Proof. unfold negotiateTightUnixAuth, authenticated, ask. auth. Qed.
Lemma ard_same k n key u p s : init (ard_start k n key u p s) = init s ∧ sv (ard_start k n key u p s) = sv s ∧ ra2 (ard_start k n key u p s) = ra2 s.
Proof. unfold ard_start, draw. by repeat case_match. Qed.
Lemma ard_step s q : early (init s) → auth_step s (negotiateARDAuth s q).
Proof.
  unfold negotiateARDAuth, authenticated, ask, draw. cbn [rQshift rQshiftBytes list_buffer]. auth.
  all: match goal with |- auth_step _ (_, ard_start ?k ?n ?key ?u ?p ?s', _, _) => destruct (ard_same k n key u p s') as (E1 & E2 & E3) end;
    split; [simpl; by rewrite E1|split; [done|]]; unfold is_connected; simpl; by rewrite E2, E3.
Qed.
Lemma mslogon_step s q : early (init s) → auth_step s (negotiateMSLogonIIAuth s q).
Proof. unfold negotiateMSLogonIIAuth, authenticated, ask, draw. cbn [rQshiftBytes list_buffer]. auth. Qed.
Lemma tight_auth_step s q : early (init s) → auth_step s (tight_auth s q).
Proof. unfold tight_auth, authenticated. cbn [rQshift list_buffer]. destruct (capabilities _ _). auth. Qed.
Lemma tunnels_step n s q : early (init s) → auth_step s (negotiateTightTunnels n s q).
Proof. unfold negotiateTightTunnels. destruct (capabilities _ _). auth. Qed.
Lemma tight_step s q : early (init s) → auth_step s (negotiateTightAuth s q).
Proof.
  unfold negotiateTightAuth. cbn [rQshift list_buffer]. intros He. destruct (rfbTightVNC s); [by apply tight_auth_step|].
  destruct (rQwait 4 q); [by apply auth_same|]. destruct (_ && _); [by apply auth_same|].
  apply (auth_later _ (set_tight s)); try done. destruct (0 <? _); [by apply tunnels_step|by apply tight_auth_step].
Qed.
Definition step_next s (x : next (D := D)) : Prop :=
  match x with inl r => auth_step s r | inr (s', q', os) => init s' = init s ∧ sv s' = sv s ∧ ra2 s' = ra2 s ∧ mute os end.
Lemma then_step s x f : step_next s x → (∀ s' q', init s' = init s → step_next s' (f s' q')) → step_next s (then_ x f).
Proof.
  destruct x as [r|[[s' q'] os]]; [done|]. intros (Hi & Hv & Hr & Ho & Hol) Hf. cbn [then_]. specialize (Hf s' q' Hi).
  destruct (f s' q') as [r|[[s2 q2] os2]]; simpl in *; [apply auth_behind; [by apply (auth_later _ s')|done]|].
  destruct Hf as (? & ? & ? & ? & ?). rewrite announced_app, logged_app, Ho, Hol. split_and!; [congruence..|done|done].
Qed.
Lemma vencrypt_step s q : early (init s) → auth_step s (negotiateVeNCryptAuth s q).
Proof.
  intros He. unfold negotiateVeNCryptAuth.
  assert (step_next s (then_ (then_ (then_ (vencrypt_version s q) vencrypt_ack) vencrypt_length) vencrypt_subtypes)) as Ha.
  { repeat apply then_step; [|intros s' q' Hi; rewrite <- Hi in He..].
    - unfold vencrypt_version. cbn [rQshift list_buffer]. repeat case_match; simpl; try done; by apply auth_fail.
    - unfold vencrypt_ack. cbn [rQshift list_buffer]. repeat case_match; simpl; try done; by apply auth_fail.
    - unfold vencrypt_length. cbn [rQshift list_buffer]. repeat case_match; simpl; try done; by apply auth_fail.
    - unfold vencrypt_subtypes. destruct (words _ _). repeat (match goal with |- step_next _ (if ?b then _ else _) => destruct b end); simpl; done. }
  destruct (then_ _ _) as [r|[[s' q'] os]]; [done|]. destruct Ha as (Hi & Hv & Hr & Ho). split; [simpl; by rewrite Hi|]. split; [done|].
  unfold is_connected. simpl. by rewrite Hv, Hr.
Qed.
Lemma stays_sound s q v os : ra2_ok s → mute os → early (init s) → sound s (v, s, q, os).
Proof. intros. by apply early_sound. Qed.
Lemma authentication_sound s q : init s = Authentication → ra2_ok s → sound s (negotiateAuthentication s q).
Proof.
  intros Hi Hr. assert (early (init s)) as He by by rewrite Hi. unfold negotiateAuthentication. destruct (ra2 s) eqn:Er.
  { destruct (Hr Er) as [_ Hs]. rewrite Hs. cbn. unfold negotiateRA2neAuth. rewrite Er. by apply stays_sound. }
  destruct (Z.eqb_spec (rfbAuthScheme s) securityTypeNone) as [En|_].
  { destruct (Z.leb_spec 38 (rfbVersion s)).
    - apply early_sound; try done. unfold ra2_ok. simpl. by rewrite Er.
    - split; simpl; unfold ra2_ok, is_connected; simpl; rewrite ?Er, ?Hi; auto; try done. by right. }
  destruct (_ =? _); [by apply auth_sound, xvp_step|]. destruct (_ =? _); [by apply auth_sound, ard_step|].
  destruct (_ =? _); [by apply auth_sound, vnc_step|]. destruct (_ =? _); [by apply auth_sound, tight_step|].
  destruct (_ =? _); [by apply auth_sound, vencrypt_step|]. destruct (_ =? _); [by apply auth_sound, plain_step|].
  destruct (_ =? _); [by apply auth_sound, unix_step|]. 
  destruct (Z.eqb_spec (rfbAuthScheme s) securityTypeRA2ne) as [Ea|_].
  { unfold negotiateRA2neAuth. rewrite Er. split; simpl; try done; try (by rewrite Hi); auto. }
  destruct (_ =? _); [by apply auth_sound, mslogon_step|by apply auth_sound, auth_fail].
Qed.
Lemma start_quiet w h n (v : server (D := D)) :
  connected (base (start h264 w h n v).1) = connected (base v) ∧ mute (start h264 w h n v).2.
Proof. split; [done|]. unfold start. cbn [resize]. simpl. unfold updateContinuousUpdates. simpl. by destruct (enabledContinuousUpdates v), (viewOnly (base v)). Qed.
Lemma init_sound s q : ra2_ok s → sound s (initMsg s q).
Proof.
  intros Hr. assert (init s ≠ Authentication → no_ra2 s) as Hn.
  { intros Hi. unfold no_ra2. destruct (ra2 s) eqn:Er; [by destruct (Hr Er)|done]. }
  unfold Handshake.initMsg. destruct (init s) eqn:Hi; try specialize (Hn ltac:(done)); try (assert (early (init s)) as He by by rewrite Hi).
  - by apply auth_sound, auth_fail.
  - apply auth_sound; try done. unfold negotiateProtocolVersion. cbn [rQshiftBytes list_buffer]. clear Hi. revert He. auth.
  - apply auth_sound; try done. unfold negotiateSecurity, authenticate. cbn [rQshift rQshiftBytes list_buffer]. clear Hi. revert He. auth.
  - by apply authentication_sound.
  - unfold handleSecurityResult. cbn [rQshift list_buffer]. destruct (rQwait 4 q); [by apply stays_sound|]. destruct (_ =? 0).
    + split; simpl; try done; unfold ra2_ok; simpl; rewrite ?Hi; try done; auto. by rewrite Hn.
    + apply auth_sound; try done. clear Hi. revert He. auth.
  - apply auth_sound; try done. unfold handleSecurityReason. cbn [rQshift rQshiftBytes list_buffer]. clear Hi. revert He. auth.
  - split; simpl; try done; unfold ra2_ok; simpl; rewrite ?Hn, ?Hi; auto; done.
  - unfold negotiateServerInit. cbn [rQshift rQshiftBytes list_buffer].
    assert (∀ v q os, mute os → sound s (v, s, q, os)) as Hs.
    { intros v q' os [Ho Hol]. split; simpl; try done; rewrite ?Hi, ?Ho, ?Hol; auto; done. }
    repeat (match goal with |- sound _ (if rQwait ?n ?q then _ else _) => destruct (rQwait n q); [by apply Hs|] end).
    match goal with |- sound _ (match ?x with _ => _ end) => destruct x; [|by apply Hs] end.
    match goal with |- context [start ?h ?w ?hh ?n ?v] => destruct (start_quiet w hh n v) as (Hv & Ho & Hol); destruct (start h w hh n v) as [v' os] end.
    simpl in Hv, Ho, Hol.
    destruct (connecting s); split; simpl; unfold ra2_ok, is_connected; simpl; rewrite ?Hn, ?Hi; auto; try done; rewrite ?announced_app, ?logged_app, ?Ho, ?Hol, ?Hv; auto; try done.
Qed.

(** ** The console's events

    A message of the socket; the screen drawn after a pause; credentials of the
    page, which run a step of the handshake later; the browser's answer to an
    Apple login; and what the RSA-AES login does until it ends, well or not. *)
Variable ard_encrypt : bytes → bytes → bytes.
Record console := Console { cl : client; queue : bytes; resumes : nat }.
Inductive event :=
  | Arrives (chunk : bytes) (a : list bool) | Drawn (a : list bool)
  | SendCredentials (c : credentials) | Resume | ArdDone
  | Ra2Takes (n : nat) | Ra2Sends (ps : list Websock.push) | Ra2Ends (ok : bool).
Definition on_server (f : server (D := D) → server (D := D)) s : client := set_sv (f (sv s)) s.
Definition resumeAuthentication (m : console) : console := Console (cl m) (queue m) (S (resumes m)).
Definition settled (x : reply) (n : nat) : console * list act :=
  let '(_, s, q, os) := x in (Console (on_server (ServerRuns.answers_to []) s) q n, os).
Definition step (m : console) (e : event) : console * list act :=
  let s := cl m in
  match e with
  | Arrives chunk a => settled (handleMessage (on_server (ServerRuns.answers_to a) s) (queue m ++ chunk)) (resumes m)
  | Drawn a => settled (handleMessage (on_server (with_flush false a) s) (queue m)) (resumes m)
  | SendCredentials c => (resumeAuthentication (Console (set_credentials c s) (queue m) (resumes m)), [])
  | Resume => settled (initMsg s (queue m)) (pred (resumes m))
  | ArdDone =>
    match ards s with
    | [] => (m, [])
    | (sharedKey, block, public) :: l =>
      let c := rfbCredentials s in
      let c := Credentials (username c) (password c) (target c) (Some (ard_encrypt sharedKey block)) (Some public) in
      (resumeAuthentication (Console (set_ards l (set_credentials c s)) (queue m) (resumes m)), [])
    end
  | Ra2Takes n => (Console s (drop n (queue m)) (resumes m), [])
  | Ra2Sends ps => (m, [Out ps])
  | Ra2Ends ok =>
    let '(_, s, q, os) := if ok then (Goes, s, queue m, []) else fail s (queue m) in
    (Console (set_ra2 false (set_init SecurityResult s)) q (resumes m), os)
  end.
Definition enabled (m : console) (e : event) : Prop :=
  match e with
  | Arrives chunk _ => Forall Websock.byte chunk
  | Drawn _ => flushing (sv (cl m)) = true
  | Resume => (0 < resumes m)%nat
  | ArdDone => ards (cl m) ≠ []
  | Ra2Takes n => ra2 (cl m) = true ∧ (n <= length (queue m))%nat
  | Ra2Sends _ | Ra2Ends _ => ra2 (cl m) = true
  | SendCredentials _ => True
  end.
Record accepted s (os : list act) : Prop := Accepted {
  ac_ra2 : ra2_ok s;
  ac_init : ¬ early (init s) → logged os = true ∨ unprotected s;
  ac_announced : announced os = true → init s = ServerInitialisation;
  ac_connected : is_connected s = true → announced os = true }.
Lemma accepted_step s os (x : reply) : accepted s os → sound s x → accepted x.1.1.2 (os ++ x.2).
Proof.
  intros [A1 A2 A3 A4] [S1 S2 S3 S4 S5 _ S6]. split; [done|..]; rewrite ?announced_app, ?logged_app, ?orb_true_iff.
  - intros He. destruct (init x.1.1.2) eqn:Ei; try done; [destruct (S2 eq_refl); tauto|].
    destruct (S3 eq_refl) as (Hi & Hv & Hs). unfold unprotected. rewrite Hv, Hs.
    assert (¬ early (init s)) as Hn by (by destruct Hi as [-> | ->]; simpl; auto). unfold unprotected in A2; destruct (A2 Hn) as [Ho|Hu]; tauto.
  - intros [Ha|Ha]; [by apply S4, A3|by apply S5].
  - intros Hc. destruct (S6 Hc); tauto.
Qed.
Lemma accepted_on f s os : (∀ v, connected (base (f v)) = connected (base v)) → accepted s os → accepted (on_server f s) os.
Proof. intros Hf [A1 A2 A3 A4]. split; try done. unfold is_connected. simpl. by rewrite Hf. Qed.
Lemma accepted_loop n s q os : accepted s os → accepted (connecting_loop n s q).1.1.2 (os ++ (connecting_loop n s q).2).
Proof.
  revert s q os. induction n as [|n IH]; intros s q os Ha; cbn [Handshake.connecting_loop]; [by rewrite app_nil_r|].
  destruct (connecting s); [|by rewrite app_nil_r]. pose proof (accepted_step s os _ Ha (init_sound s q (ac_ra2 _ _ Ha))) as Hs.
  destruct (initMsg s q) as [[[v s'] q'] os']. simpl in Hs. destruct v; try done. specialize (IH s' q' _ Hs).
  destruct (connecting_loop n s' q') as [[[v' s2] q2] os2]. simpl in *. by rewrite (assoc_L (++)).
Qed.
Lemma accepted_message s q os : accepted s os → accepted (handleMessage s q).1.1.2 (os ++ (handleMessage s q).2).
Proof.
  intros Ha. unfold Handshake.handleMessage. destruct (rQwait 1 q); [by rewrite app_nil_r|]. destruct (connecting s); [by apply accepted_loop|].
  destruct (ServerMessages.handleMessage (sv s) q) as [[[v s'] q'] fx] eqn:E. cbn [fst snd]. destruct Ha as [A1 A2 A3 A4].
  destruct (does_announced fx) as [Hda Hdl].
  split; try done; rewrite ?announced_app, ?logged_app, ?Hda, ?Hdl, ?orb_false_r; auto.
  unfold is_connected. simpl. intros Hc. apply A4. unfold is_connected. destruct (connected (base (sv s))) eqn:Ec; [done|].
  unfold ServerMessages.handleMessage in E. rewrite Ec, orb_true_r in E. injection E as _ <- _ _. congruence.
Qed.
Lemma accepted_settled (x : reply) n os : accepted x.1.1.2 (os ++ x.2) → accepted (cl (settled x n).1) (os ++ (settled x n).2).
Proof. destruct x as [[[v s] q] os']. apply accepted_on. done. Qed.
Lemma accepted_event m e os : accepted (cl m) os → enabled m e → accepted (cl (step m e).1) (os ++ (step m e).2).
Proof.
  intros Ha He. destruct e as [chunk a|a|c| | |n|ps|ok]; simpl in He; unfold step.
  - by apply accepted_settled, accepted_message, accepted_on.
  - by apply accepted_settled, accepted_message, accepted_on.
  - rewrite app_nil_r. by destruct Ha.
  - apply accepted_settled. apply (accepted_step (cl m)); [done|]. apply init_sound, Ha.
  - destruct (ards (cl m)) as [|[[k b] p] l]; [done|]. simpl. rewrite app_nil_r. by destruct Ha.
  - rewrite app_nil_r. done.
  - destruct Ha as [A1 A2 A3 A4]. split; rewrite ?announced_app, ?logged_app, ?orb_false_r; auto.
  - destruct Ha as [A1 A2 A3 A4]. destruct (A1 He) as [Hi _].
    assert (announced os = false) as Hn by (destruct (announced os); [by rewrite A3 in Hi|done]).
    assert (is_connected (cl m) = false) as Hc by (destruct (is_connected (cl m)); [by rewrite A4 in Hn|done]).
    destruct ok; simpl; split; simpl; try done; rewrite ?announced_app, ?logged_app, ?Hn; simpl; auto; try done; unfold is_connected in *; simpl; congruence.
Qed.
(** ** What the server said *)
(** the runs of a step of the handshake that a message, or another event, makes:
    the states and the bytes they find *)
Fixpoint turns (fuel : nat) s q : list (client * bytes) :=
  match fuel with
  | 0%nat => []
  | S fuel => if connecting s then (s, q) :: match initMsg s q with (Goes, s, q, _) => turns fuel s q | _ => [] end else []
  end.
Definition message_turns s q : list (client * bytes) := if rQwait 1 q then [] else turns (3 * length q + 4) s q.
Definition turns_of (m : console) (e : event) : list (client * bytes) :=
  match e with
  | Arrives chunk a => message_turns (on_server (ServerRuns.answers_to a) (cl m)) (queue m ++ chunk)
  | Drawn a => message_turns (on_server (with_flush false a) (cl m)) (queue m)
  | Resume => [(cl m, queue m)]
  | _ => []
  end.
(** the security result is due, and the next four bytes that have come are zero *)
Definition zero_result (x : client * bytes) : Prop :=
  init x.1 = SecurityResult ∧ (4 <= length x.2)%nat ∧ Websock.be (take 4 x.2) = 0.
Fixpoint server_accepted (m : console) (es : list event) : Prop :=
  match es with [] => False | e :: es => List.Exists zero_result (turns_of m e) ∨ server_accepted (step m e).1 es end.

Lemma server_accepted_snoc m es e :
  server_accepted m (es ++ [e]) ↔ server_accepted m es ∨ List.Exists zero_result (turns_of (run step m es).1 e).
Proof.
  revert m. induction es as [|e' es IH]; intros m; simpl; [tauto|]. rewrite IH.
  destruct (step m e') as [m1 o1]. simpl. destruct (run step m1 es). simpl. tauto.
Qed.
Lemma logged_turn s q : ra2_ok s → logged (initMsg s q).2 = true → zero_result (s, q).
Proof.
  intros Hr Hl. pose proof (so_logged _ _ (init_sound s q Hr) Hl) as Hi. split; [done|]. revert Hl.
  unfold Handshake.initMsg. rewrite Hi. unfold handleSecurityResult. cbn [rQshift list_buffer].
  destruct (rQwait 4 q) eqn:E; [done|apply ServerRuns.wait_false in E].
  destruct (Z.eqb_spec (Websock.be (take 4 q)) 0) as [Hz|]; [|by destruct (38 <=? _)].
  intros _. split; [|exact Hz]. simpl. unfold len, Websock.len in E. lia.
Qed.
Lemma logged_loop n s q : ra2_ok s → logged (connecting_loop n s q).2 = true → List.Exists zero_result (turns n s q).
Proof.
  revert s q. induction n as [|n IH]; intros s q Hr; [done|]. cbn [Handshake.connecting_loop turns].
  destruct (connecting s); [|done]. pose proof (logged_turn s q Hr) as Hl. pose proof (so_ra2 _ _ (init_sound s q Hr)) as Hr'.
  destruct (initMsg s q) as [[[v s'] q'] os]. simpl in Hl, Hr'. destruct v; simpl; [|intros Ho; left; by apply Hl..].
  specialize (IH s' q' Hr'). destruct (connecting_loop n s' q') as [[[v' s2] q2] os2]. simpl in *.
  rewrite logged_app, orb_true_iff. intros [Ho|Ho]; [left; by apply Hl|right; by apply IH].
Qed.
Lemma logged_message s q : ra2_ok s → logged (handleMessage s q).2 = true → List.Exists zero_result (message_turns s q).
Proof.
  intros Hr. unfold Handshake.handleMessage, message_turns. destruct (rQwait 1 q); [done|].
  destruct (connecting s) eqn:Ec; [by apply logged_loop|].
  destruct (ServerMessages.handleMessage (sv s) q) as [[[v s'] q'] fx]. simpl. by rewrite (proj2 (does_announced fx)).
Qed.
Lemma settled_acts (x : reply) n : (settled x n).2 = x.2.
Proof. by destruct x as [[[v s] q] os]. Qed.
Lemma logged_event m e : ra2_ok (cl m) → logged (step m e).2 = true → List.Exists zero_result (turns_of m e).
Proof.
  intros Hr. destruct e as [chunk a|a|c| | |n|ps|ok]; unfold step, turns_of; rewrite ?settled_acts; try done.
  - by apply logged_message.
  - by apply logged_message.
  - intros Hl. left. by apply logged_turn.
  - by destruct (ards (cl m)) as [|[[k b] p] l].
  - by destruct ok.
Qed.
(** a connection at its start: [_socketOpen] has set the state *)
Definition starting s : Prop := init s = ProtocolVersion ∧ ra2 s = false ∧ is_connected s = false.
(** C13: A console is connected only when the server has accepted it: in every
    sequence of messages in any chunks, of credentials at any time, of answers of
    the browser and of the RSA-AES login, a console that is connected has logged
    the authentication's success and has, at an earlier step of the handshake
    that was to read the security result, found the next four bytes of what the
    server had sent to be the number 0 ([OK]); unless the server, of a protocol
    before 3.8, has asked for no authentication. *)
Theorem connected_only_when_accepted m0 es m os :
  starting (cl m0) → trace enabled step m0 es m os → is_connected (cl m) = true →
  announced os = true ∧ ((logged os = true ∧ server_accepted m0 es) ∨ unprotected (cl m)).
Proof.
  intros (Hi & Hr & Hc) Ht Hm.
  assert (accepted (cl m) os ∧ (logged os = true → server_accepted m0 es)) as [[_ A2 A3 A4] Hl].
  { clear Hm. revert es m os Ht. apply (trace_snoc_ind enabled step m0 (λ es m os, accepted (cl m) os ∧ (logged os = true → server_accepted m0 es))).
    - split; [|done]. split; unfold ra2_ok, is_connected; simpl; rewrite ?Hi; try done; [by rewrite Hr|by unfold is_connected in Hc; rewrite Hc].
    - intros es m os e Ht [Ha Hl] He. split; [by apply accepted_event|].
      rewrite logged_app, orb_true_iff, server_accepted_snoc, (trace_run _ _ _ _ _ _ Ht). intros [Ho|Ho]; [left; by apply Hl|].
      right. apply logged_event; [|done]. apply Ha. }
  specialize (A4 Hm). split; [done|]. rewrite A3 in A2 by done. destruct (A2 ltac:(by intros [])); [left; split; auto|by right].
Qed.
End runs.

(** ** A server of 3.3 that asks for nothing *)
#[local] Instance no_pako : Pako := ServerRuns.no_pako.
Definition nobody : credentials := Credentials None None None None None.
Definition fresh : client (D := decoders) :=
  Client (ServerMessages.Server (Rfb false false false false 0 0 6 2 None None [] [] None) 0 (Rect 0 0 0 0) None decoders_start 0 0 []
    false false false false 0 0 no_cursor false false []) true ProtocolVersion 0 (-1) false 0 0 nobody 0 false (λ _, 0) [].
Definition server_init : bytes := [0; 2; 0; 1] ++ replicate 16 0 ++ [0; 0; 0; 1; 65].
Definition at_start : console := Console fresh [] 0.
Definition open_session : list event :=
  [Arrives (codes "RFB 003.003" ++ [10]) []; Arrives [0; 0] []; Arrives [0; 1] []; Arrives server_init []].
Definition run_from (m : console) (es : list event) : console * list act := run (step true [] false (λ _ b, b)) m es.
(** such a server is never heard to accept; one of 3.8 is *)
Example unprotected_session :
  let (m, os) := run_from at_start open_session in is_connected (cl m) = true ∧ fbWidth (sv (cl m)) = 2 ∧ logged os = false.
Proof. by vm_compute. Qed.
Definition accepted_session : list event :=
  [Arrives (codes "RFB 003.008" ++ [10]) []; Arrives [1; 1] []; Arrives [0; 0] []; Arrives [0; 0] []; Arrives server_init []].
#[local] Abbreviation accepted_ := (server_accepted true [] false (λ _ b, b)).
Lemma connected_only_when_accepted_witness :
  let m := (run_from at_start accepted_session).1 in let os := (run_from at_start accepted_session).2 in
  is_connected (cl m) = true ∧ announced os = true ∧ logged os = true ∧ accepted_ at_start accepted_session.
Proof.
  intros m os. assert (is_connected (cl m) = true) as Hm by by vm_compute. split; [exact Hm|].
  assert (admissible enabled (step true [] false (λ _ b, b)) at_start accepted_session) as Ha.
  { cbn [admissible accepted_session]. repeat (split; [apply (bool_decide_unpack _); by vm_compute|]). done. }
  assert (starting (cl at_start)) as Hs by done.
  destruct (connected_only_when_accepted true [] false (λ _ b, b) at_start accepted_session m os Hs (run_trace _ _ _ _ Ha) Hm)
    as [H1 [[H2 H3]|[Hv _]]]; [exact (conj H1 (conj H2 H3))|].
  exfalso. vm_compute in Hv. discriminate Hv.
Defined.
Lemma handshake_loop_ends_witness :
  let q := (codes "RFB 003.008" ++ [10] : bytes) in
  (connecting_loop true [] false (3 * length q + 4) fresh q).1.1.1 = Stops ∧
  (∀ n, (measure fresh q < n)%nat → connecting_loop true [] false n fresh q = connecting_loop true [] false (3 * length q + 4) fresh q)
  ∧ (connecting_loop true [] false (3 * length q + 4) fresh q).1.1.1 ≠ Spun.
Proof. intros q. split; [by vm_compute|]. exact (handshake_loop_ends true [] false fresh q). Defined.
End HandshakeRuns.
