(* ===== verification/Login.v ===== *)
(** * noVNC: a login from end to end, static/js/novnc/core/rfb.js

    A server of protocol 3.8 that asks for a VNC password, its messages in any
    chunks: what the console sends it and tells the page, up to the first request
    of the screen, and the state it is left in for [ServerMessages]. *)
From S2P Require Import Prelude Words Websock Decoders Messages Inflator Utf8 ServerMessages ServerRuns ServerCases Des DiffieHellman Handshake HandshakeRuns.

#[local] Open Scope list_scope.
#[local] Open Scope Z_scope.
Import Decoders Messages ServerMessages Handshake HandshakeRuns.

Module Login.
Section login.
Context `{Pako} {D : Type} `{RectDecoders D} `{!RectLaws D}.
Variables (shared : bool) (repeaterID : list Z) (h264 : bool) (ard_encrypt : bytes → bytes → bytes).
#[local] Abbreviation client := (Handshake.client (D := D)).
#[local] Abbreviation reply := (Handshake.reply (D := D)).
#[local] Abbreviation initMsg := (Handshake.initMsg shared repeaterID h264).
#[local] Abbreviation handleMessage := (Handshake.handleMessage shared repeaterID h264).
#[local] Abbreviation step := (HandshakeRuns.step shared repeaterID h264 ard_encrypt).
Implicit Types (s : client) (q r : bytes).

Definition calm s : Prop := answers (sv s) = [].
Lemma calm_on s : calm s → on_server (ServerRuns.answers_to []) s = s.
Proof. unfold calm, on_server. intros Ha. rewrite ServerRuns.answers_id by done. by destruct s. Qed.
(** the steps of the loop, as many as it needs *)
Definition loop s q : reply := connecting_loop shared repeaterID h264 (3 * length q + 4) s q.
Lemma login_loop_eq s q : connecting s = true →
  loop s q = let '(v, s', q', os) := initMsg s q in match v with Goes => behind os (loop s' q') | _ => (v, s', q', os) end.
Proof.
  intros Hc. unfold loop at 1. assert (3 * length q + 4 = S (3 * length q + 3))%nat as -> by lia. cbn [connecting_loop]. rewrite Hc.
  pose proof (init_ahead shared repeaterID h264 s q) as Ha. destruct (initMsg s q) as [[[v s'] q'] os]. destruct v; try done.
  apply ahead_measure in Ha. unfold loop. f_equal. apply handshake_fuel; unfold measure in *; destruct (init s), (init s'); simpl in *; lia.
Qed.
Lemma loop_over s q : connecting s = false → loop s q = (Goes, s, q, []).
Proof. intros Hc. unfold loop. assert (3 * length q + 4 = S (3 * length q + 3))%nat as -> by lia. cbn [connecting_loop]. by rewrite Hc. Qed.
Lemma message_eq s q : connecting s = true → q ≠ [] → handleMessage s q = loop s q.
Proof. intros Hc Hq. unfold Handshake.handleMessage. rewrite ServerRuns.wait1, bool_decide_false, Hc by done. done. Qed.

(** a message that nothing is done with before it has come whole *)
Definition waits_for s (msg : bytes) : Prop := ∀ p r, msg = p ++ r → r ≠ [] → p ≠ [] → initMsg s p = (Stops, s, p, []).
Lemma arrives_whole s msg v s' os n : connecting s = true → calm s → calm s' → msg ≠ [] → waits_for s msg → loop s msg = (v, s', [], os) →
  ∀ cs, concat cs = msg → run step (Console s [] n) ((λ c, Arrives c []) <$> cs) = (Console s' [] n, os).
Proof.
  intros Hc Hs Hs' Hm Hw Hl.
  assert (∀ s p c, calm s → step (Console s p n) (Arrives c []) = settled (handleMessage s (p ++ c)) n) as Hstep.
  { intros s0 p c H0'. unfold HandshakeRuns.step. cbn [cl queue resumes]. by rewrite calm_on. }
  assert (∀ s cs, calm s → concat cs = [] → run step (Console s [] n) ((λ c, Arrives c []) <$> cs) = (Console s [] n, [])) as Hend.
  { intros s0 cs H0'. induction cs as [|c cs IH]; intros Hz; [done|]. apply app_eq_nil in Hz as [-> Hz]. rewrite fmap_cons. cbn [run].
    rewrite Hstep by done. unfold Handshake.handleMessage. simpl. rewrite calm_on by done. by rewrite IH. }
  assert (∀ cs p, p ++ concat cs = msg → concat cs ≠ [] → run step (Console s p n) ((λ c, Arrives c []) <$> cs) = (Console s' [] n, os)) as Hrun.
  { induction cs as [|c cs IH]; intros p Hp Hne; [done|]. cbn [concat] in Hp, Hne. rewrite fmap_cons. cbn [run]. rewrite Hstep by done.
    destruct (decide (concat cs = [])) as [Hz|Hz].
    - rewrite Hz, app_nil_r in Hp. rewrite Hp, message_eq, Hl by done. simpl. rewrite calm_on by done.
      pose proof (Hend s' cs Hs' Hz) as He. rewrite He. by rewrite app_nil_r.
    - assert (handleMessage s (p ++ c) = (Stops, s, p ++ c, [])) as ->.
      { destruct (decide (p ++ c = [])) as [-> |Hn]; [done|]. rewrite message_eq, login_loop_eq by done. by rewrite (Hw (p ++ c) (concat cs)); [|by rewrite <- (assoc_L (++))|..]. }
      simpl. rewrite calm_on by done. rewrite IH; [done| |done]. by rewrite <- (assoc_L (++)). }
  intros cs Hcs. apply Hrun; [done|by rewrite Hcs].
Qed.

(** ** The messages of the server, one by one *)
Definition version_message : bytes := codes "RFB 003.008" ++ [10].
Definition types_message (types : bytes) : bytes := len types :: types.
Definition init_message (width height : Z) (format name : bytes) : bytes :=
  Websock.be_bytes 2 width ++ Websock.be_bytes 2 height ++ format ++ be32 (len name) ++ name.
Lemma short_wait n p : len p < n → rQwait n p = true.
Proof. intros Hl. by apply bool_decide_eq_true. Qed.
Lemma prefix_len (msg p r : bytes) : msg = p ++ r → r ≠ [] → len p < len msg.
Proof. intros -> Hr. rewrite len_app_. destruct r as [|b r]; [done|]. unfold len, Websock.len. simpl. lia. Qed.
Lemma whole_wait (q : bytes) : rQwait (len q) q = false.
Proof. apply bool_decide_eq_false. unfold len. lia. Qed.
Lemma whole_shift (q r : bytes) : rQshiftBytes (len q) (q ++ r) = (q, r).
Proof. cbn [rQshiftBytes list_buffer]. unfold len, Websock.len. by rewrite Nat2Z.id, take_app_length, drop_app_length. Qed.
Section server.
Variables (s : client).
Hypotheses (Hc : connecting s = true) (Hs : calm s).
Lemma version_arrives n cs : init s = ProtocolVersion → concat cs = version_message →
  run step (Console s [] n) ((λ c, Arrives c []) <$> cs)
  = (Console (set_init Security (set_version 38 s)) [] n, [Out [Websock.PString version_message; Websock.PFlush]]).
Proof using Hc Hs.
  intros Hi. apply (arrives_whole s version_message Stops); try done.
  - intros p r Hp Hr _. unfold Handshake.initMsg. rewrite Hi. unfold negotiateProtocolVersion. rewrite short_wait; [done|].
    apply prefix_len in Hp; done.
  - rewrite login_loop_eq by done. unfold Handshake.initMsg. by rewrite Hi.
Qed.
Lemma types_arrive n cs types : init s = Security → rfbVersion s = 38 → 0 < len types → chosen types = securityTypeVNCAuth → concat cs = types_message types →
  run step (Console s [] n) ((λ c, Arrives c []) <$> cs)
  = (Console (set_init Authentication (set_scheme securityTypeVNCAuth s)) [] n, [Out [Websock.P8 securityTypeVNCAuth; Websock.PFlush]; Chosen securityTypeVNCAuth]).
Proof using Hc Hs.
  intros Hi Hv Hl Ht. assert (∀ l, rQshift 1 (len types :: l) = (len types, l)) as Hsh by (intros l; simpl; by rewrite Z.mul_1_r, Z.add_0_r).
  apply (arrives_whole s (types_message types) Stops); try done.
  - intros p r Hp Hr Hnz. unfold Handshake.initMsg. rewrite Hi. unfold negotiateSecurity. rewrite Hv. cbn [Z.leb Z.compare Pos.compare Pos.compare_cont].
    destruct p as [|b p]; [done|]. injection Hp as <- Hp. rewrite Hsh. rewrite short_wait; [done|]. by apply (prefix_len types p r).
  - rewrite login_loop_eq by done. unfold Handshake.initMsg. rewrite Hi. unfold negotiateSecurity, types_message. rewrite Hv. cbn [Z.leb Z.compare Pos.compare Pos.compare_cont].
    rewrite Hsh, whole_wait, (proj2 (Z.eqb_neq _ _)) by lia. pose proof (whole_shift types []) as Hw. rewrite app_nil_r in Hw. rewrite Hw, Ht. 
    cbn [rfbAuthScheme set_scheme]. change (securityTypeVNCAuth =? -1) with false. cbv beta iota. unfold authenticate. cbn [app]. rewrite login_loop_eq by done. done.
Qed.
Lemma challenge_arrives n cs challenge pw : init s = Authentication → rfbAuthScheme s = securityTypeVNCAuth → password (rfbCredentials s) = Some pw →
  len challenge = 16 → concat cs = challenge →
  run step (Console s [] n) ((λ c, Arrives c []) <$> cs)
  = (Console (set_init SecurityResult s) [] n, [Out [Websock.PBytes (default [] (Des.genDES pw challenge)); Websock.PFlush]]).
Proof using Hc Hs.
  intros Hi Ha Hpw Hl. apply (arrives_whole s challenge Stops); try done; [by intros ->| |].
  - intros p r Hp Hr _. unfold Handshake.initMsg, negotiateAuthentication. rewrite Hi, Ha. cbn [Z.eqb Pos.eqb securityTypeVNCAuth].
    change (negotiateStdVNCAuth s p = (Stops, s, p, [])). unfold negotiateStdVNCAuth. rewrite short_wait; [done|]. apply prefix_len in Hp; [lia|done].
  - rewrite login_loop_eq by done.
    assert (negotiateStdVNCAuth s challenge = (Goes, set_init SecurityResult s, [], [Out [Websock.PBytes (default [] (Des.genDES pw challenge)); Websock.PFlush]])) as Hn.
    { unfold negotiateStdVNCAuth. rewrite <- Hl, whole_wait, Hpw. pose proof (whole_shift challenge []) as Hw. rewrite app_nil_r in Hw. rewrite Hw.
      assert (is_Some (Des.genDES pw challenge)) as [response ->]; [|done]. unfold Des.genDES, Des.ecb_encrypt. unfold len, Websock.len in Hl. rewrite Hl. by eexists. }
    assert (initMsg s challenge = negotiateStdVNCAuth s challenge) as -> by (unfold Handshake.initMsg, negotiateAuthentication; by rewrite Hi, Ha).
    rewrite Hn. by rewrite login_loop_eq.
Qed.
Lemma result_arrives n cs : init s = SecurityResult → concat cs = [0; 0; 0; 0] →
  run step (Console s [] n) ((λ c, Arrives c []) <$> cs)
  = (Console (set_init ServerInitialisation s) [] n, [AuthenticationOK; Out [Websock.P8 (if shared then 1 else 0); Websock.PFlush]]).
Proof using Hc Hs.
  intros Hi. apply (arrives_whole s [0; 0; 0; 0] Stops); try done.
  - intros p r Hp Hr _. unfold Handshake.initMsg, handleSecurityResult. rewrite Hi. rewrite short_wait; [done|]. apply prefix_len in Hp; done.
  - rewrite login_loop_eq by done. assert (initMsg s [0; 0; 0; 0] = (Goes, set_init ClientInitialisation s, [], [AuthenticationOK])) as ->.
    { unfold Handshake.initMsg. by rewrite Hi. }
    rewrite login_loop_eq by done. cbn [Handshake.initMsg init set_init]. by rewrite login_loop_eq.
Qed.
Lemma shift16 n q : 0 <= n < 65536 → rQshift 2 (Websock.be_bytes 2 n ++ q) = (n, q).
Proof using.
  intros Hn. cbn [rQshift list_buffer]. change (drop 2 (Websock.be_bytes 2 n ++ q)) with q. f_equal.
  change (take 2 (Websock.be_bytes 2 n ++ q)) with (Websock.be_bytes 2 n). rewrite Websock.be_be_bytes. by apply Z.mod_small.
Qed.
(** what is read of the message's header, [t] behind it *)
Lemma header_read width height format name t :
  0 <= width < 65536 → 0 <= height < 65536 → len format = 16 → len name < 2 ^ 32 → rfbTightVNC s = false → init s = ServerInitialisation →
  initMsg s ((Websock.be_bytes 2 width ++ Websock.be_bytes 2 height ++ format ++ be32 (len name)) ++ t) =
    if rQwait (len name) t then (Stops, s, (Websock.be_bytes 2 width ++ Websock.be_bytes 2 height ++ format ++ be32 (len name)) ++ t, [])
    else let '(v, os) := start h264 width height (rQshiftBytes (len name) t).1 (sv s) in
      (Goes, set_connecting false (set_sv (with_connected v) s), (rQshiftBytes (len name) t).2, os ++ [ConnectedNow]).
Proof using Hc.
  intros Hw Hh Hf Hn Ht Hi. pose proof (Websock.len_nonneg name). unfold Handshake.initMsg. rewrite Hi. unfold negotiateServerInit.
  set (q := (_ ++ _) ++ t). assert (rQwait 24 q = false) as ->.
  { apply bool_decide_eq_false. unfold q. rewrite <- !(assoc_L (++)), !len_app_, Hf. pose proof (Websock.len_nonneg t).
    change (len (Websock.be_bytes 2 width)) with 2. change (len (Websock.be_bytes 2 height)) with 2. change (len (be32 (len name))) with 4. unfold len in *. lia. }
  assert (rQshift 2 q = (width, Websock.be_bytes 2 height ++ format ++ be32 (len name) ++ t)) as -> by (unfold q; rewrite <- !(assoc_L (++)); by apply shift16).
  cbv beta iota. rewrite shift16 by done. cbv beta iota. rewrite <- Hf at 1. rewrite whole_shift. cbv beta iota. rewrite ServerCases.shift32 by (unfold len in *; lia). cbv beta iota.
  destruct (rQwait (len name) t); [done|]. cbn [rQshiftBytes list_buffer fst snd]. rewrite Ht. destruct (start _ _ _ _ _) as [v os]. by rewrite Hc.
Qed.
Lemma init_arrives n cs width height format name :
  init s = ServerInitialisation → rfbTightVNC s = false → 0 <= width < 65536 → 0 <= height < 65536 → len format = 16 → len name < 2 ^ 32 →
  concat cs = init_message width height format name →
  run step (Console s [] n) ((λ c, Arrives c []) <$> cs)
  = let '(v, os) := start h264 width height name (sv s) in
    (Console (set_connecting false (set_sv (with_connected v) s)) [] n, os ++ [ConnectedNow]).
Proof using Hc Hs.
  intros Hi Ht Hw Hh Hf Hn Hcs. destruct (start h264 width height name (sv s)) as [v os] eqn:Ev.
  assert (answers v = []) as Hv. { unfold start in Ev. cbn [resize] in Ev. injection Ev as <- _. exact Hs. }
  set (hdr := Websock.be_bytes 2 width ++ Websock.be_bytes 2 height ++ format ++ be32 (len name)).
  assert (init_message width height format name = hdr ++ name) as Hm by (unfold hdr, init_message; by rewrite <- !(assoc_L (++))).
  assert (len hdr = 24) as Hl. { unfold hdr. rewrite !len_app_, Hf. done. }
  apply (arrives_whole s (init_message width height format name) Goes); try done.
  - intros p r Hp Hr _. rewrite Hm in Hp.
    assert (∀ k, p = hdr ++ k → name = k ++ r → initMsg s p = (Stops, s, p, [])) as Hlong.
    { intros k -> Hk. unfold hdr. rewrite header_read by done. rewrite short_wait; [done|]. by apply (prefix_len name k r). }
    destruct (app_eq_inv _ _ _ _ Hp) as [(k & Ek & Er)|(k & Ek & Er)]; [|by apply (Hlong k)].
    destruct (decide (k = [])) as [->|Hk]; [apply (Hlong []); [by rewrite Ek, !app_nil_r|done]|].
    unfold Handshake.initMsg. rewrite Hi. unfold negotiateServerInit. rewrite short_wait; [done|]. rewrite <- Hl. by apply (prefix_len hdr p k).
  - rewrite login_loop_eq, Hm by done. unfold hdr. rewrite header_read, whole_wait by done. pose proof (whole_shift name []) as Hs2. rewrite app_nil_r in Hs2. rewrite Hs2.
    cbn [fst snd]. rewrite Ev. rewrite loop_over by done. cbn [behind]. by rewrite app_nil_r.
Qed.
End server.

(** ** The login *)
(** where the connection is opened, and nothing of a screen has come *)
Definition opened s : Prop :=
  connecting s = true ∧ init s = ProtocolVersion ∧ rfbTightVNC s = false ∧ calm s ∧ f_rects (sv s) = 0 ∧ f_encoding (sv s) = None
  ∧ resting (dec (sv s)) ∧ flushing (sv s) = false ∧ enabledContinuousUpdates (sv s) = false
  ∧ 0 <= r_width (f_rect (sv s)) ∧ 0 <= r_height (f_rect (sv s)).
Definition arrivals (cs : list bytes) : list event := (λ c, Arrives c []) <$> cs.
(** what the console does in a login, in order *)
Definition login_acts (pw challenge name : list Z) (width height : Z) (v : server (D := D)) : list act :=
  [Out [Websock.PString version_message; Websock.PFlush];
   Out [Websock.P8 securityTypeVNCAuth; Websock.PFlush]; Chosen securityTypeVNCAuth;
   Out [Websock.PBytes (default [] (Des.genDES pw challenge)); Websock.PFlush];
   AuthenticationOK; Out [Websock.P8 (if shared then 1 else 0); Websock.PFlush]]
  ++ [Does (Tell (DesktopName (default [] (Utf8.decodeUTF8 name true)))); Does (ResizeScreen width height)]
  ++ (if viewOnly (base v) then [] else [GrabKeyboard])
  ++ [Does (Send (PixelFormat (fbDepth (base v)) true)); Does (Send (sendEncodings h264 (base v)));
      Does (Send (FbUpdateRequest false 0 0 width height)); ConnectedNow].
(** C15: A login with a password, from the version to the first request of the
    screen: whatever the password, the challenge, the size and the name of the
    screen, and however each message of a server of 3.8 is cut into chunks, when
    the first type it offers that is supported is the VNC password, the console
    answers the challenge, is connected, has asked for the whole screen in its
    size, and is left between two messages, where what [ServerRuns] shows of the
    server's messages begins. *)
Theorem login_ends_connected s n pw types challenge format name width height cs1 cs2 cs3 cs4 cs5 :
  opened s → password (rfbCredentials s) = Some pw →
  0 < len types → chosen types = securityTypeVNCAuth → len challenge = 16 → len format = 16 → len name < 2 ^ 32 →
  0 <= width < 65536 → 0 <= height < 65536 →
  concat cs1 = version_message → concat cs2 = types_message types → concat cs3 = challenge → concat cs4 = [0; 0; 0; 0] →
  concat cs5 = init_message width height format name →
  let '(m, os) := run step (Console s [] n) (arrivals cs1 ++ arrivals cs2 ++ arrivals cs3 ++ arrivals cs4 ++ arrivals cs5) in
  os = login_acts pw challenge name width height (sv (cl m)) ∧ ServerRuns.between_messages (sv (cl m)) ∧ connecting (cl m) = false
  ∧ queue m = [] ∧ fbWidth (sv (cl m)) = width ∧ fbHeight (sv (cl m)) = height ∧ fbName (sv (cl m)) = default [] (Utf8.decodeUTF8 name true).
Proof using RectLaws0.
  intros (Hc & Hi & Ht & Hs & Hr & He & Hd & Hf & Hu & Hw0 & Hh0) Hpw Hl Hch Hlc Hlf Hln Hw Hh E1 E2 E3 E4 E5. unfold arrivals.
  rewrite !run_app. rewrite (version_arrives s Hc Hs n cs1) by done. cbn [fst snd].
  rewrite (types_arrive (set_init Security (set_version 38 s)) Hc Hs n cs2 types) by done. cbn [fst snd].
  set (s2 := set_init Authentication _). rewrite (challenge_arrives s2 Hc Hs n cs3 challenge pw) by done. cbn [fst snd].
  rewrite (result_arrives (set_init SecurityResult s2) Hc Hs n cs4) by done. cbn [fst snd].
  set (s4 := set_init ServerInitialisation _). rewrite (init_arrives s4 Hc Hs n cs5 width height format name) by done.
  unfold start. cbn [resize].
  unfold updateContinuousUpdates. cbn [enabledContinuousUpdates with_size with_name sv s4 s2 set_init set_scheme set_version]. rewrite Hu.
  cbn [fst snd]. split_and!; try done. unfold login_acts. cbn. by destruct (viewOnly (base (sv s))).
Qed.
End login.

(** ** A login, its messages in pieces *)
#[local] Instance no_pako : Pako := ServerRuns.no_pako.
Definition with_password : Handshake.client (D := decoders) :=
  set_credentials (Credentials None (Some (codes "s3cret")) None None None) HandshakeRuns.fresh.
Definition a_challenge : bytes := seqZ 0 16.
Definition pieces : list (list bytes) :=
  [[take 5 version_message; drop 5 version_message]; [[3]; [5; 2]; []; [19]]; [take 9 a_challenge; drop 9 a_challenge]; [[0; 0; 0; 0]];
   [take 23 (init_message 640 480 (replicate 16 0) (codes "vm-1")); drop 23 (init_message 640 480 (replicate 16 0) (codes "vm-1"))]].
Lemma login_ends_connected_witness :
  let es := arrivals (pieces !!! 0%nat) ++ arrivals (pieces !!! 1%nat) ++ arrivals (pieces !!! 2%nat) ++ arrivals (pieces !!! 3%nat) ++ arrivals (pieces !!! 4%nat) in
  let '(m, os) := run (step true [] false (λ _ b, b)) (Console with_password [] 0) es in
  (os !! 3%nat) = Some (Out [Websock.PBytes [252; 154; 43; 184; 84; 106; 99; 56; 142; 180; 91; 83; 13; 58; 99; 55]; Websock.PFlush]) ∧
  os = login_acts true false (codes "s3cret") a_challenge (codes "vm-1") 640 480 (sv (cl m)) ∧ ServerRuns.between_messages (sv (cl m)) ∧ connecting (cl m) = false
  ∧ queue m = [] ∧ fbWidth (sv (cl m)) = 640 ∧ fbHeight (sv (cl m)) = 480 ∧ fbName (sv (cl m)) = default [] (Utf8.decodeUTF8 (codes "vm-1") true).
Proof.
  pose proof (login_ends_connected true [] false (λ _ b, b) with_password 0 (codes "s3cret") [5; 2; 19] a_challenge (replicate 16 0) (codes "vm-1") 640 480
    (pieces !!! 0%nat) (pieces !!! 1%nat) (pieces !!! 2%nat) (pieces !!! 3%nat) (pieces !!! 4%nat)) as Ht.
  cbv zeta. set (r := run _ _ _) in *. assert (r.2 !! 3%nat = Some (Out [Websock.PBytes [252; 154; 43; 184; 84; 106; 99; 56; 142; 180; 91; 83; 13; 58; 99; 55]; Websock.PFlush])) as H3 by by vm_compute.
  clearbody r. destruct r as [m os]. split; [exact H3|]. apply Ht; try done; by vm_compute.
Defined.
End Login.
