(* ===== verification/Mouse.v ===== *)
(** * noVNC: the mouse, the wheel and the gestures, static/js/novnc/core/rfb.js

    What the console's canvas makes of mouse, wheel and gesture events: the
    pointer messages of [Messages], at most one move per [MOUSE_MOVE_DELAY],
    the wheel's steps, the dragging of the viewport.  The gestures are the
    events of [Gestures].  A handler is a state transformer that may throw or
    may not end; [Math.hypot] and the drag threshold of util/browser.js, which
    depend on the browser and its screen, are parameters. *)
From Stdlib Require Import QArith Qround Qabs Lqa.
From S2P Require Import Prelude JsObject Words KeyTables Display Messages Gestures.

#[local] Open Scope list_scope.
#[local] Open Scope Z_scope.

Module Mouse.
Import Messages.
Abbreviation gesture_event := Gestures.event (only parsing).
Abbreviation point := (Q * Q)%type.

(** ** Constants, places, events *)
Definition MOUSE_MOVE_DELAY := 17.
Definition WHEEL_STEP : Q := 50.
Definition WHEEL_LINE_HEIGHT : Q := 19.
Definition GESTURE_ZOOMSENS : Q := 75.
Definition GESTURE_SCRLSENS : Q := 50.
Definition DOUBLE_TAP_TIMEOUT := 1000.
Definition DOUBLE_TAP_THRESHOLD : Q := 50.

(** the canvas's rectangle on the page, and the part of the screen it shows *)
Record place := Place { p_left : Q; p_top : Q; p_width : Q; p_height : Q; p_scale : Q; view_left : Z; view_top : Z }.
Definition Qltb (a b : Q) : bool := negb (Qle_bool b a).
(** one coordinate of [clientToElement]; [end_] is the rectangle's right or bottom *)
Definition clip (x start end_ size : Q) : Q :=
  if Qltb x start then 0 else if Qle_bool end_ x then (size - 1)%Q else (x - start)%Q.
Definition clientToElement (x y : Q) (p : place) : point :=
  (clip x (p_left p) (p_left p + p_width p) (p_width p), clip y (p_top p) (p_top p + p_height p) (p_height p)).

Inductive mouse_type := click | contextmenu | mousedown | mouseup | mousemove.
#[export] Instance mouse_type_eq_dec : EqDecision mouse_type.
Proof. solve_decision. Defined.
Record mouse_event := MouseEvent_ { m_type : mouse_type; on_canvas : bool; m_x : Q; m_y : Q; m_buttons : Z }.
Record wheel_event := WheelEvent_ { w_x : Q; w_y : Q; w_buttons : Z; deltaX : Q; deltaY : Q; deltaMode : Z }.

(** ** State *)
Record mouse := Mouse_ {
  base : rfb; dragViewport : bool;
  mousePos : point;                       (* read only while a move waits *)
  mouseButtonMask : Z;
  mouseMoveTimer : option Z;              (* when it fires *)
  mouseLastMoveTime : Z;
  viewportDragging : bool; viewportDragPos : option point; viewportHasMoved : bool;
  accumulatedWheelDeltaX : Q; accumulatedWheelDeltaY : Q;
  gestureLastTapTime : option Z; gestureFirstDoubleTapEv : option gesture_event;
  gestureLastMagnitudeX : Q; gestureLastMagnitudeY : Q }.
Definition start (b : rfb) : mouse := Mouse_ b false (0, 0)%Q 0 None 0 false None false 0 0 None None 0 0.

Definition with_base (b : rfb) (m : mouse) : mouse :=
  Mouse_ b (dragViewport m) (mousePos m) (mouseButtonMask m) (mouseMoveTimer m) (mouseLastMoveTime m) (viewportDragging m) (viewportDragPos m)
    (viewportHasMoved m) (accumulatedWheelDeltaX m) (accumulatedWheelDeltaY m) (gestureLastTapTime m) (gestureFirstDoubleTapEv m)
    (gestureLastMagnitudeX m) (gestureLastMagnitudeY m).
Definition with_pos (q : point) (m : mouse) : mouse :=
  Mouse_ (base m) (dragViewport m) q (mouseButtonMask m) (mouseMoveTimer m) (mouseLastMoveTime m) (viewportDragging m) (viewportDragPos m)
    (viewportHasMoved m) (accumulatedWheelDeltaX m) (accumulatedWheelDeltaY m) (gestureLastTapTime m) (gestureFirstDoubleTapEv m)
    (gestureLastMagnitudeX m) (gestureLastMagnitudeY m).
Definition with_mask (k : Z) (m : mouse) : mouse :=
  Mouse_ (base m) (dragViewport m) (mousePos m) k (mouseMoveTimer m) (mouseLastMoveTime m) (viewportDragging m) (viewportDragPos m)
    (viewportHasMoved m) (accumulatedWheelDeltaX m) (accumulatedWheelDeltaY m) (gestureLastTapTime m) (gestureFirstDoubleTapEv m)
    (gestureLastMagnitudeX m) (gestureLastMagnitudeY m).
Definition with_timer (t : option Z) (m : mouse) : mouse :=
  Mouse_ (base m) (dragViewport m) (mousePos m) (mouseButtonMask m) t (mouseLastMoveTime m) (viewportDragging m) (viewportDragPos m)
    (viewportHasMoved m) (accumulatedWheelDeltaX m) (accumulatedWheelDeltaY m) (gestureLastTapTime m) (gestureFirstDoubleTapEv m)
    (gestureLastMagnitudeX m) (gestureLastMagnitudeY m).
Definition with_last (t : Z) (m : mouse) : mouse :=
  Mouse_ (base m) (dragViewport m) (mousePos m) (mouseButtonMask m) (mouseMoveTimer m) t (viewportDragging m) (viewportDragPos m)
    (viewportHasMoved m) (accumulatedWheelDeltaX m) (accumulatedWheelDeltaY m) (gestureLastTapTime m) (gestureFirstDoubleTapEv m)
    (gestureLastMagnitudeX m) (gestureLastMagnitudeY m).
Definition with_drag (dragging : bool) (q : option point) (moved : bool) (m : mouse) : mouse :=
  Mouse_ (base m) (dragViewport m) (mousePos m) (mouseButtonMask m) (mouseMoveTimer m) (mouseLastMoveTime m) dragging q moved
    (accumulatedWheelDeltaX m) (accumulatedWheelDeltaY m) (gestureLastTapTime m) (gestureFirstDoubleTapEv m)
    (gestureLastMagnitudeX m) (gestureLastMagnitudeY m).
Definition with_wheel (x y : Q) (m : mouse) : mouse :=
  Mouse_ (base m) (dragViewport m) (mousePos m) (mouseButtonMask m) (mouseMoveTimer m) (mouseLastMoveTime m) (viewportDragging m)
    (viewportDragPos m) (viewportHasMoved m) x y (gestureLastTapTime m) (gestureFirstDoubleTapEv m)
    (gestureLastMagnitudeX m) (gestureLastMagnitudeY m).
Definition with_tap (t : Z) (e : gesture_event) (m : mouse) : mouse :=
  Mouse_ (base m) (dragViewport m) (mousePos m) (mouseButtonMask m) (mouseMoveTimer m) (mouseLastMoveTime m) (viewportDragging m)
    (viewportDragPos m) (viewportHasMoved m) (accumulatedWheelDeltaX m) (accumulatedWheelDeltaY m) (Some t) (Some e)
    (gestureLastMagnitudeX m) (gestureLastMagnitudeY m).
Definition with_magnitude (x y : Q) (m : mouse) : mouse :=
  Mouse_ (base m) (dragViewport m) (mousePos m) (mouseButtonMask m) (mouseMoveTimer m) (mouseLastMoveTime m) (viewportDragging m)
    (viewportDragPos m) (viewportHasMoved m) (accumulatedWheelDeltaX m) (accumulatedWheelDeltaY m) (gestureLastTapTime m)
    (gestureFirstDoubleTapEv m) x y.
Definition with_drag_mode (d : bool) (m : mouse) : mouse :=
  Mouse_ (base m) d (mousePos m) (mouseButtonMask m) (mouseMoveTimer m) (mouseLastMoveTime m) (viewportDragging m) (viewportDragPos m)
    (viewportHasMoved m) (accumulatedWheelDeltaX m) (accumulatedWheelDeltaY m) (gestureLastTapTime m) (gestureFirstDoubleTapEv m)
    (gestureLastMagnitudeX m) (gestureLastMagnitudeY m).

(** ** Handlers: how they end, the state they leave, what they did *)
Inductive outcome := Ends | Throws | Spins.
Inductive effect :=
  | Sends (msg : message)
  | Pans (dx dy : Q)              (* [_display.viewportChangePos] *)
  | MovesCursor (x y : Q)         (* [_cursor.move] *)
  | Captures                      (* [setCapture] *)
  | Consumes.                     (* [stopPropagation], [preventDefault] *)
Definition act : Type := mouse → outcome * mouse * list effect.

Declare Scope act_scope.
Delimit Scope act_scope with act.
Bind Scope act_scope with act.
#[local] Open Scope act_scope.
Definition pass : act := λ m, (Ends, m, []).
Definition does (fx : effect) : act := λ m, (Ends, m, [fx]).
Definition set (f : mouse → mouse) : act := λ m, (Ends, f m, []).
Definition reading (f : mouse → act) : act := λ m, f m m.
(** what a statement that throws leaves undone *)
Definition andthen (f g : act) : act := λ m,
  match f m with
  | (Ends, m1, fx1) => let '(v, m2, fx2) := g m1 in (v, m2, fx1 ++ fx2)
  | r => r
  end.
Infix "▸" := andthen (at level 61, left associativity) : act_scope.

(** ** The mouse *)
Definition send (p : place) (q : point) (mask : Z) : act := λ m,
  match sendMouse (base m) (p_scale p) (view_left p) (view_top p) q.1 q.2 mask with
  | Some ms => (if existsb throws ms then Throws else Ends, m, Sends <$> ms)
  | None => (Throws, m, [])
  end.
Definition flushMouseMoveTimer (p : place) (q : point) : act := reading (λ m,
  match mouseMoveTimer m with
  | Some _ => set (with_timer None) ▸ send p q (mouseButtonMask m)
  | None => pass
  end).
Definition handleMouseButton (p : place) (q : point) (bmask : Z) : act :=
  flushMouseMoveTimer p q ▸ set (with_mask bmask) ▸ send p q bmask.
Definition handleMouseMove (p : place) (now : Z) (q : point) : act :=
  set (with_pos q) ▸
  reading (λ m,
    match mouseMoveTimer m with
    | None =>
      let timeSinceLastMove := now - mouseLastMoveTime m in
      if MOUSE_MOVE_DELAY <? timeSinceLastMove then send p q (mouseButtonMask m) ▸ set (with_last now)
      else set (with_timer (Some (now + (MOUSE_MOVE_DELAY - timeSinceLastMove))))
    | Some _ => pass
    end).
Definition handleDelayedMouseMove (p : place) (now : Z) : act := reading (λ m,
  set (with_timer None) ▸ send p (mousePos m) (mouseButtonMask m) ▸ set (with_last now)).

Section console.
Context (dragThreshold : Q) (hypot : Q → Q → Q).

(** the viewport follows a point that is dragged; of no place dragged from,
    the differences are no numbers *)
Definition drag_viewport (q : point) : act := reading (λ m,
  match viewportDragPos m with
  | Some o =>
    let dx := (o.1 - q.1)%Q in let dy := (o.2 - q.2)%Q in
    if viewportHasMoved m || Qltb dragThreshold (Qabs dx) || Qltb dragThreshold (Qabs dy)
    then set (with_drag (viewportDragging m) (Some q) true) ▸ does (Pans dx dy)
    else pass
  | None => pass
  end).
Definition handleMouse (p : place) (now : Z) (e : mouse_event) : act :=
  if bool_decide (m_type e = click) && negb (on_canvas e) then pass
  else
    does Consumes ▸
    if bool_decide (m_type e = click) || bool_decide (m_type e = contextmenu) then pass
    else
      let q := clientToElement (m_x e) (m_y e) p in
      let bmask := convertButtonMask (m_buttons e) in
      let down := bool_decide (m_type e = mousedown) in
      let press := (if down then does Captures else pass) ▸ handleMouseButton p q bmask in
      match m_type e with
      | mousemove => reading (λ m, if viewportDragging m then drag_viewport q else handleMouseMove p now q)
      | _ => reading (λ m,
          if dragViewport m then
            if down && negb (viewportDragging m)
            then set (with_drag true (Some q) false) ▸ flushMouseMoveTimer p q ▸ set (with_mask bmask)
            else
              set (with_drag false (viewportDragPos m) (viewportHasMoved m)) ▸
              (if viewportHasMoved m then set (with_mask bmask) else send p q (mouseButtonMask m) ▸ press)
          else press)
      end.

(** ** The wheel *)
Definition click_button (p : place) (q : point) (down up : Z) : act := handleMouseButton p q down ▸ handleMouseButton p q up.
Definition handleWheel (p : place) (e : wheel_event) : act := reading (λ m,
  if negb (connected (base m)) || viewOnly (base m) then pass
  else
    let q := clientToElement (w_x e) (w_y e) p in
    let bmask := convertButtonMask (w_buttons e) in
    let unit := if deltaMode e =? 0 then 1%Q else WHEEL_LINE_HEIGHT in
    let accX := (accumulatedWheelDeltaX m + deltaX e * unit)%Q in
    let accY := (accumulatedWheelDeltaY m + deltaY e * unit)%Q in
    does Consumes ▸
    set (with_wheel accX accY) ▸
    (if Qle_bool WHEEL_STEP (Qabs accX) then
       (if Qltb accX 0 then click_button p q (Z.lor bmask (Z.shiftl 1 5)) bmask
        else if Qltb 0 accX then click_button p q (Z.lor bmask (Z.shiftl 1 6)) bmask else pass) ▸
       set (with_wheel 0 accY)
     else pass) ▸
    (if Qle_bool WHEEL_STEP (Qabs accY) then
       (if Qltb accY 0 then click_button p q (Z.lor bmask (Z.shiftl 1 3)) bmask
        else if Qltb 0 accY then click_button p q (Z.lor bmask (Z.shiftl 1 4)) bmask else pass) ▸
       reading (λ m1, set (with_wheel (accumulatedWheelDeltaX m1) 0))
     else pass)).

(** ** The gestures *)
Definition fakeMouseMove (p : place) (now : Z) (e : gesture_event) (q : point) : act :=
  handleMouseMove p now q ▸ does (MovesCursor (Gestures.clientX e) (Gestures.clientY e)).
Definition event_pos (p : place) (e : gesture_event) : point := clientToElement (Gestures.clientX e) (Gestures.clientY e) p.
(** the first of the taps an event follows: soon, of its kind and near *)
Definition handleTapEvent (p : place) (now : Z) (e : gesture_event) (bmask : Z) : act := reading (λ m,
  match gestureLastTapTime m, gestureFirstDoubleTapEv m with
  | Some _, None => λ m, (Throws, m, [])
  | last, first_ =>
    let first :=
      match last, first_ with
      | Some t, Some f =>
        if (now - t <? DOUBLE_TAP_TIMEOUT) && bool_decide (Gestures.detail f = Gestures.detail e)
           && Qltb (hypot (Gestures.clientX f - Gestures.clientX e) (Gestures.clientY f - Gestures.clientY e)) DOUBLE_TAP_THRESHOLD
        then f else e
      | _, _ => e
      end in
    let q := event_pos p first in
    set (with_tap now first) ▸ fakeMouseMove p now first q ▸ handleMouseButton p q bmask ▸ handleMouseButton p q 0
  end).

(** of the two magnitudes of the last two-finger event, one *)
Inductive axis := AxisX | AxisY.
Definition last_magnitude (a : axis) (m : mouse) : Q :=
  match a with AxisX => gestureLastMagnitudeX m | AxisY => gestureLastMagnitudeY m end.
Definition set_magnitude (a : axis) (v : Q) (m : mouse) : mouse :=
  match a with AxisX => with_magnitude v (gestureLastMagnitudeY m) m | AxisY => with_magnitude (gestureLastMagnitudeX m) v m end.
(** a click of a wheel's button for every [sens] the magnitude is above, or
    below, the last one; in [n] turns *)
Fixpoint above (n : nat) (p : place) (q : point) (a : axis) (bit : Z) (sens magnitude : Q) : act := reading (λ m,
  if Qltb sens (magnitude - last_magnitude a m) then
    match n with
    | O => λ m, (Spins, m, [])
    | S n => click_button p q bit 0 ▸ reading (λ m1, set (set_magnitude a (last_magnitude a m1 + sens)%Q)) ▸ above n p q a bit sens magnitude
    end
  else pass).
Fixpoint below (n : nat) (p : place) (q : point) (a : axis) (bit : Z) (sens magnitude : Q) : act := reading (λ m,
  if Qltb (magnitude - last_magnitude a m) (- sens) then
    match n with
    | O => λ m, (Spins, m, [])
    | S n => click_button p q bit 0 ▸ reading (λ m1, set (set_magnitude a (last_magnitude a m1 - sens)%Q)) ▸ below n p q a bit sens magnitude
    end
  else pass).
(** turns enough to come as near as [sens] *)
Definition turns (sens magnitude last : Q) : nat := Z.to_nat (Qceiling (Qabs (magnitude - last) / sens)).
Definition scroll (p : place) (q : point) (a : axis) (up down : Z) (sens magnitude : Q) : act :=
  reading (λ m, above (turns sens magnitude (last_magnitude a m)) p q a up sens magnitude) ▸
  reading (λ m, below (turns sens magnitude (last_magnitude a m)) p q a down sens magnitude).

(** [_handleKeyEvent] without the states of the locks, which are then
    [undefined]: neither null nor what the server last said *)
Definition fix_undefined (name code : string) (remote : option bool) (s : rfb) (down : bool) : option bool * list message :=
  match remote with
  | Some _ =>
    if down then (None, sendKey1 s (KeyTables.keysym name) code true ++ sendKey1 s (KeyTables.keysym name) code false) else (remote, [])
  | None => (None, [])
  end.
Definition control_key (down : bool) : act := λ m,
  let s := base m in
  let '(caps, m1) := fix_undefined "XK_Caps_Lock" "CapsLock" (remoteCapsLock s) s down in
  let '(num, m2) := fix_undefined "XK_Num_Lock" "NumLock" (remoteNumLock s) s down in
  (Ends, with_base (with_locks caps num s) m, Sends <$> (m1 ++ m2 ++ sendKey1 s (KeyTables.keysym "XK_Control_L") "ControlLeft" down)).

(** the magnitudes of a two-finger event; every one has them *)
Definition magnitudes (e : gesture_event) : point := default (0, 0)%Q (Gestures.magnitude e).
Definition gesture_start (p : place) (now : Z) (e : gesture_event) (q : point) : act :=
  match Gestures.detail e with
  | Gestures.onetap => handleTapEvent p now e 1
  | Gestures.twotap => handleTapEvent p now e 4
  | Gestures.threetap => handleTapEvent p now e 2
  | Gestures.drag => reading (λ m,
      if dragViewport m then set (with_drag true (Some q) false)
      else fakeMouseMove p now e q ▸ handleMouseButton p q 1)
  | Gestures.longpress => reading (λ m,
      if dragViewport m then set (with_drag (viewportDragging m) (Some q) false)
      else fakeMouseMove p now e q ▸ handleMouseButton p q 4)
  | Gestures.twodrag =>
      set (with_magnitude (magnitudes e).1 (magnitudes e).2) ▸ fakeMouseMove p now e q
  | Gestures.pinch =>
      reading (λ m, set (with_magnitude (hypot (magnitudes e).1 (magnitudes e).2) (gestureLastMagnitudeY m))) ▸ fakeMouseMove p now e q
  end.
Definition gesture_move (p : place) (now : Z) (e : gesture_event) (q : point) : act :=
  match Gestures.detail e with
  | Gestures.onetap | Gestures.twotap | Gestures.threetap => pass
  | Gestures.drag | Gestures.longpress => reading (λ m,
      if dragViewport m
      then set (with_drag true (viewportDragPos m) (viewportHasMoved m)) ▸ drag_viewport q
      else fakeMouseMove p now e q)
  | Gestures.twodrag =>
      fakeMouseMove p now e q ▸
      scroll p q AxisY 8 16 GESTURE_SCRLSENS (magnitudes e).2 ▸
      scroll p q AxisX 32 64 GESTURE_SCRLSENS (magnitudes e).1
  | Gestures.pinch =>
      let magnitude := hypot (magnitudes e).1 (magnitudes e).2 in
      fakeMouseMove p now e q ▸
      reading (λ m,
        if Qltb GESTURE_ZOOMSENS (Qabs (magnitude - gestureLastMagnitudeX m))
        then control_key true ▸ scroll p q AxisX 8 16 GESTURE_ZOOMSENS magnitude
        else pass) ▸
      control_key false
  end.
Definition gesture_end (p : place) (now : Z) (e : gesture_event) (q : point) : act :=
  match Gestures.detail e with
  | Gestures.drag => reading (λ m,
      if dragViewport m then set (with_drag false (viewportDragPos m) (viewportHasMoved m))
      else fakeMouseMove p now e q ▸ handleMouseButton p q 0)
  | Gestures.longpress => reading (λ m,
      if viewportHasMoved m then pass
      else if dragViewport m
      then fakeMouseMove p now e q ▸ handleMouseButton p q 4 ▸ handleMouseButton p q 0 ▸
           reading (λ m1, set (with_drag false (viewportDragPos m1) (viewportHasMoved m1)))
      else fakeMouseMove p now e q ▸ handleMouseButton p q 0)
  | _ => pass
  end.
Definition handleGesture (p : place) (now : Z) (e : gesture_event) : act :=
  let q := event_pos p e in
  match Gestures.type e with
  | Gestures.gesturestart => gesture_start p now e q
  | Gestures.gesturemove => gesture_move p now e q
  | Gestures.gestureend => gesture_end p now e q
  end.

(** ** The console's events *)
Inductive input :=
  | OnMouse (p : place) (now : Z) (e : mouse_event)
  | OnWheel (p : place) (now : Z) (e : wheel_event)
  | OnGesture (p : place) (now : Z) (e : gesture_event)
  | OnMoveTimer (p : place) (now : Z)
  | SetDragViewport (d : bool).
Definition react (i : input) : act :=
  match i with
  | OnMouse p now e => handleMouse p now e
  | OnWheel p now e => handleWheel p e
  | OnGesture p now e => handleGesture p now e
  | OnMoveTimer p now => handleDelayedMouseMove p now
  | SetDragViewport d => set (with_drag_mode d)
  end.
(** what is seen of each: how its handler ended, and what it did *)
Definition step (m : mouse) (i : input) : mouse * list (outcome * list effect) := let '(v, m', fx) := react i m in (m', [(v, fx)]).
Definition done_by (os : list (outcome * list effect)) : list effect := mjoin os.*2.
(** the timer fires when it is due, or later *)
Definition enabled (m : mouse) (i : input) : Prop :=
  match i with OnMoveTimer _ now => ∃ due, mouseMoveTimer m = Some due ∧ due <= now | _ => True end.

(** ** What the server knows of the buttons

    The last pointer message it has; [told] is what messages can say of a
    mask: without the extension, its seven lowest bits. *)
Definition hear (b : Z) (fx : effect) : Z :=
  match fx with
  | Sends (PointerEvent _ _ mask) => Z.land mask 127
  | Sends (ExtendedPointerEvent _ _ mask) => mask
  | _ => b
  end.
Definition buttons_of (fx : list effect) (b : Z) : Z := foldl hear b fx.
Definition told (s : rfb) (mask : Z) : Z := if extendedPointerEventSupported s then mask else Z.land mask 127.
Definition legal (k : Z) : Prop := 0 <= k < 512.

Lemma buttons_of_app fx1 fx2 b : buttons_of (fx1 ++ fx2) b = buttons_of fx2 (buttons_of fx1 b).
Proof. apply foldl_app. Qed.
Lemma lor_legal a b : legal a → legal b → legal (Z.lor a b).
Proof.
  intros Ha Hb. assert (0 <= Z.lor a b) by (apply Z.lor_nonneg; unfold legal in *; lia). split; [done|].
  destruct (decide (Z.lor a b = 0)) as [->|Hz]; [lia|]. apply (Z.log2_lt_pow2 _ 9); [lia|].
  rewrite Z.log2_lor by (unfold legal in *; lia).
  assert (∀ k, legal k → Z.log2 k < 9) as Hl.
  { intros k [Hk1 Hk2]. destruct (decide (k = 0)) as [->|]; [by vm_compute|]. apply (Z.log2_lt_pow2 _ 9); lia. }
  apply Z.max_lub_lt; auto.
Qed.
Lemma converted_legal buttons : legal (convertButtonMask buttons).
Proof.
  unfold convertButtonMask, buttonMaskMap. simpl. repeat case_match; repeat (apply lor_legal; [|by unfold legal]); unfold legal; lia.
Qed.
(** Of a legal mask one message goes out, and it tells it. *)
Lemma send_legal p q k m :
  connected (base m) = true → viewOnly (base m) = false → legal k →
  ∃ fx, send p q k m = (Ends, m, fx) ∧ ∀ b, buttons_of fx b = told (base m) k.
Proof.
  intros Hc Hv Hk. unfold send, sendMouse, told. rewrite Hc, Hv. simpl.
  assert (Z.land k 32768 =? 0 = true) as ->
    by (apply (Words.checked_below (λ k, Z.land k 32768 =? 0) 512); [by vm_compute|done]).
  assert (throws (ExtendedPointerEvent 0 0 k) = false) as Ht.
  { simpl. apply negb_false_iff, (Words.checked_below (λ k, Z.land (Z.land (Z.shiftr k 7) 255) 252 =? 0) 512); [by vm_compute|done]. }
  assert (negb (Z.land k 32640 =? 0) = true ∨ Z.land k 127 = k) as Hlow.
  { pose proof (Words.checked_below (λ k, negb (Z.land k 32640 =? 0) || (Z.land k 127 =? k)) 512 k ltac:(by vm_compute) Hk) as H.
    apply orb_true_iff in H as [H|H]; [by left|right; by apply Z.eqb_eq]. }
  simpl negb at 1. cbv iota.
  destruct (extendedPointerEventSupported (base m)) eqn:Ee; simpl andb; [|eexists; split; [done|by intros b]].
  destruct Hlow as [-> | Hlow]; [eexists; simpl in *; rewrite Ht; split; [done|by intros b]|].
  destruct (negb _); eexists; simpl in *; rewrite ?Ht; (split; [done|intros b; simpl; done]).
Qed.

(** [m] is at work on a screen that is not dragged, its mask is one of [K],
    and it is what the server knows *)
Record holds (K : Z → Prop) (m : mouse) (b : Z) : Prop := Holds {
  h_connected : connected (base m) = true;
  h_active : viewOnly (base m) = false;
  h_fixed : dragViewport m = false ∧ viewportDragging m = false ∧ viewportHasMoved m = false;
  h_tap : is_Some (gestureLastTapTime m) → is_Some (gestureFirstDoubleTapEv m);
  h_mask : K (mouseButtonMask m);
  h_legal : legal (mouseButtonMask m);
  h_told : b = told (base m) (mouseButtonMask m) }.
Definition ends (K K' : Z → Prop) (h : act) : Prop :=
  ∀ m b, holds K m b → ∃ m' fx, h m = (Ends, m', fx) ∧ holds K' m' (buttons_of fx b).

Lemma ends_then K1 K2 K3 f g : ends K1 K2 f → ends K2 K3 g → ends K1 K3 (f ▸ g).
Proof.
  intros Hf Hg m b Hm. destruct (Hf m b Hm) as (m1 & fx1 & E1 & H1). destruct (Hg _ _ H1) as (m2 & fx2 & E2 & H2).
  exists m2, (fx1 ++ fx2). unfold andthen. rewrite E1, E2. split; [done|]. by rewrite buttons_of_app.
Qed.
Lemma ends_reading K K' f : (∀ m, K (mouseButtonMask m) → ends (λ k, K k ∧ k = mouseButtonMask m) K' (f m)) → ends K K' (reading f).
Proof. intros Hf m b Hm. apply (Hf m (h_mask _ _ _ Hm)). destruct Hm. by constructor. Qed.
Lemma ends_pass K : ends K K pass.
Proof. intros m b Hm. by exists m, []. Qed.
Lemma ends_does K fx : hear 0 fx = 0 ∧ hear 1 fx = 1 → ends K K (does fx).
Proof. intros [H0 H1] m b Hm. exists m, [fx]. split; [done|]. simpl. destruct fx as [[]| | | |]; simpl in *; try done; congruence. Qed.
Lemma holds_weaken (K K' : Z → Prop) m b : (∀ k, legal k → K k → K' k) → holds K m b → holds K' m b.
Proof. intros HK []. constructor; auto. Qed.
Lemma ends_weaken (K1 K1' K2 K2' : Z → Prop) h :
  (∀ k, legal k → K1' k → K1 k) → (∀ k, legal k → K2 k → K2' k) → ends K1 K2 h → ends K1' K2' h.
Proof.
  intros H1 H2 Hh m b Hm. destruct (Hh m b) as (m' & fx & E & H); [by eapply holds_weaken|].
  exists m', fx. split; [done|]. by eapply holds_weaken.
Qed.
Lemma ends_set (K K' : Z → Prop) f : (∀ m b, holds K m b → holds K' (f m) b) → ends K K' (set f).
Proof. intros Hf m b Hm. exists (f m), []. split; [done|]. by apply Hf. Qed.
Lemma ends_send (K : Z → Prop) p q k : (∀ j, K j → j = k) → ends K K (send p q k).
Proof.
  intros HK m b Hm. pose proof (HK _ (h_mask _ _ _ Hm)) as Ek.
  destruct (send_legal p q k m) as (fx & E & Hb); [apply Hm..|rewrite <- Ek; apply Hm|]. exists m, fx. split; [done|].
  rewrite Hb. destruct Hm. constructor; try done. by rewrite Ek.
Qed.
(** a statement that leaves the buttons alone *)
Lemma ends_same (K : Z → Prop) f : (∀ m b, holds K m b → holds K (f m) b) → ends K K (set f).
Proof. apply ends_set. Qed.
Ltac plain := apply ends_same; intros ?? []; constructor; simpl in *; eauto.

Lemma ends_forget (K : Z → Prop) k h :
  ends (λ j, K j ∧ j = k) (λ j, K j ∧ j = k) h → ends (λ j, K j ∧ j = k) K h.
Proof. apply ends_weaken; tauto. Qed.

Lemma flush_ends K p q : ends K K (flushMouseMoveTimer p q).
Proof.
  apply ends_reading. intros m Hk. destruct (mouseMoveTimer m).
  - apply ends_forget. eapply ends_then; [plain|]. apply ends_send. by intros j [_ ->].
  - apply ends_forget, ends_pass.
Qed.
Lemma set_mask_ends K p q k : legal k → ends K (eq k) (set (with_mask k) ▸ send p q k).
Proof.
  intros Hk m b Hm. destruct (send_legal p q k (with_mask k m)) as (fx & E & Hb); [apply Hm..|done|].
  exists (with_mask k m), fx. unfold andthen. simpl. rewrite E. split; [done|]. rewrite Hb. destruct Hm. by constructor.
Qed.
Lemma button_ends K p q k : legal k → ends K (eq k) (handleMouseButton p q k).
Proof.
  intros Hk m b Hm. destruct (flush_ends K p q m b Hm) as (m1 & fx1 & E1 & H1).
  destruct (set_mask_ends K p q k Hk m1 _ H1) as (m2 & fx2 & E2 & H2).
  exists m2, (fx1 ++ fx2). rewrite buttons_of_app. split; [|done].
  unfold handleMouseButton, andthen in *. rewrite E1. simpl in *. destruct (send p q k (with_mask k m1)) as [[v m3] fx3].
  rewrite app_nil_r. by injection E2 as -> -> ->.
Qed.
Lemma move_ends K p now q : ends K K (handleMouseMove p now q).
Proof.
  eapply ends_then; [plain|]. apply ends_reading. intros m Hk.
  destruct (mouseMoveTimer m); [apply ends_forget, ends_pass|]. cbv zeta. case_match; [|apply ends_forget; plain].
  eapply ends_then; [apply ends_send; by intros j [_ ->]|]. apply ends_forget. plain.
Qed.
Lemma delayed_ends K p now : ends K K (handleDelayedMouseMove p now).
Proof.
  apply ends_reading. intros m Hk. eapply ends_then; [eapply ends_then; [plain|apply ends_send; by intros j [_ ->]]|].
  apply ends_forget. plain.
Qed.
Lemma click_ends K p q down up : legal down → legal up → ends K (eq up) (click_button p q down up).
Proof. intros. eapply ends_then; by apply button_ends. Qed.
Lemma fake_ends K p now e q : ends K K (fakeMouseMove p now e q).
Proof. eapply ends_then; [apply move_ends|by apply ends_does]. Qed.
Lemma ends_at K K' h m b : ends K K' h → holds K m b → ∃ m' fx, h m = (Ends, m', fx) ∧ holds K' m' (buttons_of fx b).
Proof. intros Hh. apply Hh. Qed.
Lemma tap_ends K p now e k : legal k → ends K (eq 0) (handleTapEvent p now e k).
Proof.
  intros Hk m b Hm. unfold handleTapEvent, reading. cbv zeta.
  destruct (gestureLastTapTime m) as [t|] eqn:Et; [destruct (h_tap _ _ _ Hm) as [f ->]; [by rewrite Et|]|].
  all: revert Hm; apply ends_at.
  all: eapply ends_then; [eapply ends_then; [eapply ends_then; [plain|apply fake_ends]|by apply button_ends]|by apply button_ends].
Qed.

Lemma button_magnitude p q k a m : last_magnitude a (handleMouseButton p q k m).1.2 = last_magnitude a m.
Proof.
  unfold handleMouseButton, flushMouseMoveTimer, andthen, reading, set, pass, send.
  destruct a; simpl; repeat (case_match; simplify_eq/=); done.
Qed.
Lemma click_magnitude p q down up a m : last_magnitude a (click_button p q down up m).1.2 = last_magnitude a m.
Proof.
  unfold click_button, andthen. pose proof (button_magnitude p q down a m) as H1.
  destruct (handleMouseButton p q down m) as [[[] m1] fx1]; simpl in *; try done.
  pose proof (button_magnitude p q up a m1) as H2. destruct (handleMouseButton p q up m1) as [[v m2] fx2]. simpl in *. congruence.
Qed.
Lemma last_set a v m : last_magnitude a (set_magnitude a v m) = v.
Proof. by destruct a. Qed.
(** one turn of a loop *)
Lemma turn_ends K p q a bit v m b :
  K 0 → legal bit → holds K m b →
  ∃ m' fx, (click_button p q bit 0 ▸ reading (λ m1, set (set_magnitude a (last_magnitude a m1 + v)%Q))) m = (Ends, m', fx)
    ∧ holds K m' (buttons_of fx b) ∧ last_magnitude a m' = (last_magnitude a m + v)%Q.
Proof.
  intros H0 Hbit Hm. destruct (click_ends K p q bit 0 Hbit ltac:(by unfold legal) m b Hm) as (m1 & fx & E & H1).
  pose proof (click_magnitude p q bit 0 a m) as Hmag. rewrite E in Hmag. simpl in Hmag.
  exists (set_magnitude a (last_magnitude a m1 + v)%Q m1), fx. unfold andthen, reading, set. rewrite E, app_nil_r. split_and!; [done| |].
  - apply holds_weaken with (K' := K) in H1; [|by intros ? _ <-]. destruct a, H1; by constructor.
  - by rewrite last_set, Hmag.
Qed.
Lemma Qltb_lt a b : Qltb a b = true ↔ (a < b)%Q.
Proof.
  unfold Qltb. rewrite negb_true_iff. split; intros H.
  - apply Qnot_le_lt. intros Hle. apply Qle_bool_iff in Hle. congruence.
  - apply not_true_iff_false. intros Hle. apply Qle_bool_iff in Hle. lra.
Qed.
Lemma andthen_assoc f g h m : (f ▸ g ▸ h) m = (f ▸ (g ▸ h)) m.
Proof.
  unfold andthen. destruct (f m) as [[[] m1] fx1]; [|done..]. destruct (g m1) as [[[] m2] fx2]; [|done..].
  destruct (h m2) as [[v m3] fx3]. by rewrite app_assoc.
Qed.
Lemma inject_S n : (inject_Z (Z.of_nat (S n)) == inject_Z (Z.of_nat n) + 1)%Q.
Proof. rewrite Nat2Z.inj_succ. unfold Z.succ. by rewrite inject_Z_plus. Qed.
Lemma Qltb_not a b : Qltb a b = false → (b <= a)%Q.
Proof. intros H. apply Qnot_lt_le. intros Hlt. apply Qltb_lt in Hlt. congruence. Qed.
Lemma above_ends n K p q a bit sens v : (0 < sens)%Q → K 0 → legal bit →
  ∀ m b, holds K m b → (v - last_magnitude a m <= inject_Z (Z.of_nat n) * sens)%Q →
  ∃ m' fx, above n p q a bit sens v m = (Ends, m', fx) ∧ holds K m' (buttons_of fx b) ∧ (v - last_magnitude a m' <= sens)%Q.
Proof.
  intros Hs H0 Hbit. induction n as [|n IH]; intros m b Hm Hn; simpl; unfold reading at 1; destruct (Qltb _ _) eqn:Et;
    try (exists m, []; split_and!; [done..|by apply Qltb_not]).
  - apply Qltb_lt in Et. change (inject_Z (Z.of_nat 0)) with 0%Q in Hn. lra.
  - apply Qltb_lt in Et. destruct (turn_ends K p q a bit sens m b H0 Hbit Hm) as (m1 & fx1 & E1 & H1 & El).
    destruct (IH m1 _ H1) as (m2 & fx2 & E2 & H2 & Hle); [rewrite El; rewrite inject_S in Hn; lra|].
    exists m2, (fx1 ++ fx2). rewrite buttons_of_app. split_and!; [|done..]. unfold andthen at 1. by rewrite E1, E2.
Qed.
Lemma below_ends n K p q a bit sens v : (0 < sens)%Q → K 0 → legal bit →
  ∀ m b, holds K m b → (last_magnitude a m - v <= inject_Z (Z.of_nat n) * sens)%Q →
  ∃ m' fx, below n p q a bit sens v m = (Ends, m', fx) ∧ holds K m' (buttons_of fx b)
    ∧ (last_magnitude a m' - v <= sens)%Q ∧ (v - last_magnitude a m <= sens → v - last_magnitude a m' <= sens)%Q.
Proof.
  intros Hs H0 Hbit. induction n as [|n IH]; intros m b Hm Hn; simpl; unfold reading at 1; destruct (Qltb _ _) eqn:Et;
    try (apply Qltb_not in Et; exists m, []; split_and!; [done..|lra|done]).
  - apply Qltb_lt in Et. change (inject_Z (Z.of_nat 0)) with 0%Q in Hn. lra.
  - apply Qltb_lt in Et. destruct (turn_ends K p q a bit (- sens) m b H0 Hbit Hm) as (m1 & fx1 & E1 & H1 & El).
    destruct (IH m1 _ H1) as (m2 & fx2 & E2 & H2 & Hle & Hab); [rewrite El; rewrite inject_S in Hn; lra|].
    exists m2, (fx1 ++ fx2). rewrite buttons_of_app. split_and!; [|done|done|intros _; apply Hab; rewrite El; lra].
    unfold andthen at 1. unfold Qminus at 1. rewrite E1, E2. done.
Qed.
(** the turns are enough *)
Lemma turns_enough sens v l : (0 < sens)%Q → (Qabs (v - l) <= inject_Z (Z.of_nat (turns sens v l)) * sens)%Q.
Proof.
  intros Hs. unfold turns. set (d := Qabs (v - l)). assert (0 <= d)%Q by apply Qabs_nonneg.
  assert (d == d / sens * sens)%Q as Hd by (field; lra). assert (0 <= d / sens)%Q as H0 by (apply Qle_shift_div_l; lra).
  pose proof (Qle_ceiling (d / sens)) as Hc.
  assert (0 <= Qceiling (d / sens)) as Hz by (rewrite Zle_Qle; apply Qle_trans with (d / sens)%Q; done).
  rewrite Z2Nat.id by done. rewrite Hd at 1. apply Qmult_le_compat_r; lra.
Qed.
(** Scrolling ends, with the magnitude as near as [sens] to the last one. *)
Lemma scroll_ends K p q a up down sens v : (0 < sens)%Q → K 0 → legal up → legal down →
  ∀ m b, holds K m b → ∃ m' fx, scroll p q a up down sens v m = (Ends, m', fx) ∧ holds K m' (buttons_of fx b)
    ∧ (Qabs (v - last_magnitude a m') <= sens)%Q.
Proof.
  intros Hs H0 Hu Hd m b Hm.
  destruct (above_ends (turns sens v (last_magnitude a m)) K p q a up sens v Hs H0 Hu m b Hm) as (m1 & fx1 & E1 & H1 & L1).
  { eapply Qle_trans, turns_enough; [|done]. apply Qle_Qabs. }
  destruct (below_ends (turns sens v (last_magnitude a m1)) K p q a down sens v Hs H0 Hd m1 _ H1) as (m2 & fx2 & E2 & H2 & L2 & L3).
  { eapply Qle_trans, turns_enough; [|done]. rewrite <- Qabs_opp. eapply Qle_trans; [|apply Qle_Qabs]. lra. }
  exists m2, (fx1 ++ fx2). rewrite buttons_of_app. split_and!; [|done|apply Qabs_Qle_condition; specialize (L3 L1); split; lra].
  unfold scroll, andthen, reading. by rewrite E1, E2.
Qed.

Lemma hear_keys b s k c d : buttons_of (Sends <$> sendKey1 s k c d) b = b.
Proof. unfold sendKey1. repeat case_match; done. Qed.
Lemma fix_undefined_silent name code r s d o ms b : fix_undefined name code r s d = (o, ms) → buttons_of (Sends <$> ms) b = b.
Proof.
  unfold fix_undefined. destruct r, d; intros [= <- <-]; try done. by rewrite fmap_app, buttons_of_app, !hear_keys.
Qed.
Lemma control_ends K d : ends K K (control_key d).
Proof.
  intros m b Hm. unfold control_key.
  destruct (fix_undefined "XK_Caps_Lock" _ _ _ _) as [caps m1] eqn:E1. destruct (fix_undefined "XK_Num_Lock" _ _ _ _) as [num m2] eqn:E2.
  eexists _, _. split; [done|]. rewrite !fmap_app, !buttons_of_app, hear_keys.
  rewrite (fix_undefined_silent _ _ _ _ _ _ _ _ E2), (fix_undefined_silent _ _ _ _ _ _ _ _ E1). destruct Hm. by constructor.
Qed.
Lemma scrolls K p q a up down sens v : (0 < sens)%Q → K 0 → legal up → legal down → ends K K (scroll p q a up down sens v).
Proof.
  intros Hs H0 Hu Hd m b Hm. destruct (scroll_ends K p q a up down sens v Hs H0 Hu Hd m b Hm) as (m' & fx & E & H & _).
  by exists m', fx.
Qed.
(** Whatever the fingers do that holds no button, none is held after it. *)
Lemma other_gesture_ends (K : Z → Prop) p now e :
  K 0 → Gestures.detail e ≠ Gestures.drag → Gestures.detail e ≠ Gestures.longpress → ends K K (handleGesture p now e).
Proof.
  intros H0 Hd Hl. assert (∀ k, legal k → ends K K (handleTapEvent p now e k)) as Ht.
  { intros k Hk. eapply ends_weaken, tap_ends; [done|by intros ? _ <-|done]. }
  unfold handleGesture. destruct (Gestures.type e); unfold gesture_start, gesture_move, gesture_end;
    destruct (Gestures.detail e); try done; try apply ends_pass; try (apply Ht; by unfold legal).
  - eapply ends_then; [plain|apply fake_ends].
  - eapply ends_then; [apply ends_reading; intros; apply ends_forget; plain|apply fake_ends].
  - eapply ends_then; [eapply ends_then; [apply fake_ends|]|]; apply scrolls; done.
  - eapply ends_then; [eapply ends_then; [apply fake_ends|]|apply control_ends]. apply ends_reading. intros m Hm.
    case_match; [|apply ends_forget, ends_pass]. eapply ends_weaken; [by intros k _ [Hk _]; exact Hk|by intros k _ Hk; exact Hk|].
    eapply ends_then; [apply control_ends|by apply scrolls].
Qed.
(** a statement that reads the drag mode, which is off *)
Lemma ends_fixed K K' (f : mouse → act) (g : act) : ends K K' g → ends K K' (reading (λ m, if dragViewport m then f m else g)).
Proof. intros Hg m b Hm. unfold reading. destruct (h_fixed _ _ _ Hm) as (-> & _). by apply Hg. Qed.
Definition held (g : option Gestures.gesture) : Z :=
  match g with Some Gestures.drag => 1 | Some Gestures.longpress => 4 | _ => 0 end.
Lemma hold_ends (K : Z → Prop) p now e :
  Gestures.detail e = Gestures.drag ∨ Gestures.detail e = Gestures.longpress →
  match Gestures.type e with
  | Gestures.gesturestart => ends K (eq (held (Some (Gestures.detail e)))) (handleGesture p now e)
  | Gestures.gesturemove => ends K K (handleGesture p now e)
  | Gestures.gestureend => ends K (eq 0) (handleGesture p now e)
  end.
Proof.
  unfold handleGesture. destruct (Gestures.type e); unfold gesture_start, gesture_move, gesture_end; intros [-> | ->].
  1-4: apply ends_fixed; try apply fake_ends; (eapply ends_then; [apply fake_ends|by apply button_ends]).
  - apply ends_fixed. eapply ends_then; [apply fake_ends|by apply button_ends].
  - intros m b Hm. unfold reading. destruct (h_fixed _ _ _ Hm) as (-> & _ & ->). revert Hm. apply ends_at.
    eapply ends_then; [apply fake_ends|by apply button_ends].
Qed.
Lemma gesture_ends p now e : ends legal legal (handleGesture p now e).
Proof.
  destruct (decide (Gestures.detail e = Gestures.drag ∨ Gestures.detail e = Gestures.longpress)) as [Hh|Hh].
  - pose proof (hold_ends legal p now e Hh) as H. destruct (Gestures.type e); [|done|]; (eapply ends_weaken, H; [done|by intros k Hk _]).
  - apply other_gesture_ends; [by unfold legal|tauto..].
Qed.
Lemma accepted_ends cur e cur' p now :
  Gestures.accept cur e = Some cur' → ends (eq (held cur)) (eq (held cur')) (handleGesture p now e).
Proof.
  unfold Gestures.accept. case_decide as Hh.
  - pose proof (hold_ends (eq (held cur)) p now e Hh) as H.
    destruct (Gestures.type e); case_decide as Hc; try done; intros [= <-]; [done|by subst cur|done].
  - case_decide as Hc; [|done]. intros [= <-]. subst cur. apply other_gesture_ends; [done|tauto..].
Qed.

Lemma mouse_ends p now e :
  ends legal (λ k, legal k ∧ (m_type e = mousedown ∨ m_type e = mouseup → k = convertButtonMask (m_buttons e))) (handleMouse p now e).
Proof.
  unfold handleMouse. set (K' := λ k, _ ∧ _).
  assert (m_type e ≠ mousedown → m_type e ≠ mouseup → ∀ k, legal k → K' k) as Hother by (intros; split; [done|tauto]).
  destruct (m_type e) eqn:Et; simpl; try destruct (on_canvas e); simpl;
    try (eapply ends_weaken; [done|by intros k Hk _; apply Hother|]; try apply ends_pass;
         (eapply ends_then; [by apply ends_does|apply ends_pass])).
  1-4: eapply ends_then; [by apply ends_does|]; apply ends_fixed; (eapply ends_then; [first [by apply ends_does|apply ends_pass]|]);
       (eapply ends_weaken, button_ends; [done|by intros k Hk <-|apply converted_legal]).
  all: eapply ends_then; [by apply ends_does|].
  all: eapply ends_weaken with (K2 := legal); [done|by intros k Hk _; apply Hother|]; intros m b Hm;
       unfold reading; destruct (h_fixed _ _ _ Hm) as (_ & -> & _); by apply move_ends.
Qed.
Lemma wheel_ends p e : ends legal legal (handleWheel p e).
Proof.
  assert (∀ q b d, legal b → legal d → ends legal legal (click_button p q (Z.lor b d) b)) as Hc.
  { intros q b d Hb Hd. eapply ends_weaken, click_ends; [done|by intros k Hk _|by apply lor_legal|done]. }
  apply ends_reading. intros m Hm. destruct (_ || _); [apply ends_forget, ends_pass|]. cbv zeta.
  eapply ends_weaken with (K1 := legal); [tauto|by intros k Hk _; exact Hk|]. pose proof (converted_legal (w_buttons e)).
  repeat match goal with
    | |- ends _ _ (_ ▸ _) => eapply ends_then
    | |- ends _ _ (if ?c then _ else _) => destruct c
    | |- ends _ _ (does _) => by apply ends_does
    | |- ends _ _ pass => apply ends_pass
    | |- ends _ _ (set _) => plain
    | |- ends _ _ (click_button _ _ _ _) => apply Hc; [done|by unfold legal]
    | |- ends _ _ (reading _) => apply ends_reading; intros; apply ends_forget; plain
    end.
Qed.

Lemma react_ends m b i :
  holds legal m b → i ≠ SetDragViewport true → ∃ m' fx, react i m = (Ends, m', fx) ∧ holds legal m' (buttons_of fx b).
Proof.
  intros Hm Hi. destruct i as [p now e|p now e|p now e|p now|[]]; simpl; try done.
  - destruct (mouse_ends p now e m b Hm) as (m' & fx & E & H). exists m', fx. split; [done|]. eapply holds_weaken, H. tauto.
  - by apply wheel_ends.
  - by apply gesture_ends.
  - by apply delayed_ends.
  - exists (with_drag_mode false m), []. split; [done|]. destruct Hm as [? ? (? & ? & ?)]. by constructor.
Qed.
Lemma start_holds b0 (K : Z → Prop) : connected b0 = true → viewOnly b0 = false → K 0 → holds K (start b0) 0.
Proof. intros. constructor; try done; [by intros []| by unfold told; case_match]. Qed.
Lemma done_snoc os v fx : done_by (os ++ [(v, fx)]) = done_by os ++ fx.
Proof. unfold done_by. rewrite fmap_app, join_app. simpl. by rewrite app_nil_r. Qed.

(** C8: The server always knows the mouse's buttons: in a console that is
    connected and not view-only, and whose screen is not dragged, whatever
    events of the mouse, the wheel and the fingers come and whenever its timer
    fires, no handler throws or goes on for ever, the last pointer message that
    was sent tells the buttons the console holds, and after a button of the
    mouse went down or up these are the mouse's. *)
Theorem server_knows_the_buttons b0 ins m os :
  connected b0 = true → viewOnly b0 = false →
  trace (λ m i, enabled m i ∧ i ≠ SetDragViewport true) step (start b0) ins m os →
  Forall (λ o, o.1 = Ends) os
  ∧ buttons_of (done_by os) 0 = told (base m) (mouseButtonMask m)
  ∧ ∀ ins0 p now e, ins = ins0 ++ [OnMouse p now e] → m_type e = mousedown ∨ m_type e = mouseup →
      mouseButtonMask m = convertButtonMask (m_buttons e).
Proof.
  intros Hc Hv Ht.
  cut (Forall (λ o, o.1 = Ends) os ∧ holds legal m (buttons_of (done_by os) 0)
    ∧ ∀ ins0 p now e, ins = ins0 ++ [OnMouse p now e] → m_type e = mousedown ∨ m_type e = mouseup →
        mouseButtonMask m = convertButtonMask (m_buttons e)).
  { intros (H1 & H2 & H3). split_and!; [done|apply H2|done]. }
  revert ins m os Ht. apply trace_snoc_ind.
  { split_and!; [done|by apply start_holds|]. by intros [|] * E. }
  intros ins m os i Ht (Ho & Hm & _) [_ Hi]. destruct (react_ends m _ i Hm Hi) as (m' & fx & E & H).
  unfold step. rewrite E. simpl. rewrite done_snoc, buttons_of_app. split_and!; [by apply Forall_app; auto|done|].
  intros ins0 p now e Es Hb. apply app_inj_tail in Es as [_ ->]. simpl in E.
  destruct (mouse_ends p now e m _ Hm) as (m2 & fx2 & E2 & H2). rewrite E in E2. injection E2 as <- <-. by apply H2.
Qed.

(** The touches of a screen, and the events their handler gives the console;
    a mouse may move, and dragging be turned off, in between. *)
Definition gestures (ins : list input) : list gesture_event := omap (λ i, match i with OnGesture _ _ e => Some e | _ => None end) ins.
Definition by_touch (i : input) : Prop :=
  match i with
  | OnGesture _ _ _ | OnMoveTimer _ _ | SetDragViewport false => True
  | OnMouse _ _ e => m_type e ≠ mousedown ∧ m_type e ≠ mouseup
  | _ => False
  end.
Lemma idle_mouse_ends K p now e : m_type e ≠ mousedown → m_type e ≠ mouseup → ends K K (handleMouse p now e).
Proof.
  intros Hd Hu. unfold handleMouse. destruct (m_type e); simpl; try done; try destruct (on_canvas e); simpl;
    try apply ends_pass; try (eapply ends_then; [by apply ends_does|apply ends_pass]);
    (eapply ends_then; [by apply ends_does|]); intros m b Hm; unfold reading;
    destruct (h_fixed _ _ _ Hm) as (_ & -> & _); by apply move_ends.
Qed.
Lemma touched_ends m0 ins m os :
  holds (eq 0) m0 0 → trace (λ m i, enabled m i ∧ by_touch i) step m0 ins m os →
  ∀ c, Gestures.accepts None (gestures ins) = Some c →
  Forall (λ o, o.1 = Ends) os ∧ holds (eq (held c)) m (buttons_of (done_by os) 0).
Proof.
  intros H0. revert ins m os. apply (trace_snoc_ind _ _ _ (λ ins m os, ∀ c, _ → _ ∧ _)).
  { intros c [= <-]. by split. }
  intros ins m os i Ht IH [_ Hi] c. unfold gestures. rewrite omap_app, Gestures.accepts_app. simpl.
  fold (gestures ins). destruct (Gestures.accepts None (gestures ins)) as [c0|] eqn:Ea; [|done]. simpl. intros Ha.
  destruct (IH c0 eq_refl) as [Ho Hm].
  assert (∃ m' fx, react i m = (Ends, m', fx) ∧ holds (eq (held c)) m' (buttons_of fx (buttons_of (done_by os) 0))) as (m' & fx & E & H).
  { destruct i as [p now e|p now e|p now e|p now|[]]; try done; simpl in *.
    - injection Ha as <-. destruct Hi as [Hd Hu]. exact (idle_mouse_ends _ p now e Hd Hu m _ Hm).
    - destruct (Gestures.accept c0 e) as [c1|] eqn:Ee; [|done]. simpl in Ha. injection Ha as <-. by apply (accepted_ends c0).
    - injection Ha as <-. by apply delayed_ends.
    - injection Ha as <-. exists (with_drag_mode false m), []. split; [done|]. destruct Hm as [? ? (? & ? & ?)]. by constructor. }
  unfold step. rewrite E. simpl. rewrite done_snoc, buttons_of_app. split; [by apply Forall_app; auto|done].
Qed.
(** C7: A touched screen leaves no button down on the server.  The console is
    connected, not view-only, with no button down, without the time of a tap whose
    event it has not, and does not drag the screen (nor holds that it has: after a
    drag of the screen a long press does leave its button down,
    [a_long_press_after_dragging]).  Then whatever fingers touch, move and leave, whatever the gesture handler's timers do, when the console
    has handled the gestures that were recognised, with moves of a mouse and its
    own timer in between, none of its handlers has thrown or gone on for ever,
    and when no finger touches the screen the server's last pointer message has
    no button down. *)
Theorem touches_leave_no_button_down dist angle touches gs w m0 ins m os :
  trace Gestures.enabled (Gestures.step dist angle) Gestures.start_world touches w gs →
  connected (base m0) = true → viewOnly (base m0) = false → mouseButtonMask m0 = 0 →
  dragViewport m0 = false → viewportDragging m0 = false → viewportHasMoved m0 = false →
  (is_Some (gestureLastTapTime m0) → is_Some (gestureFirstDoubleTapEv m0)) →
  trace (λ m i, enabled m i ∧ by_touch i) step m0 ins m os →
  gestures ins = gs →
  Forall (λ o, o.1 = Ends) os ∧ (Gestures.touching w = [] → mouseButtonMask m = 0 ∧ buttons_of (done_by os) 0 = 0).
Proof.
  intros Hg Hc Hv Hk Hd Hdr Hmo Htap Ht Es.
  destruct (Gestures.gestures_alternate dist angle touches gs w Hg) as (s & c & _ & Ha & Hn).
  assert (holds (eq 0) m0 0) as H0.
  { constructor; rewrite ?Hk; [done..|split_and!; done|exact Htap|done|done|unfold told; by case_match]. }
  destruct (touched_ends m0 ins m os H0 Ht c) as [Ho Hm]; [by rewrite Es|]. split; [done|].
  intros E0. rewrite (Hn E0) in Hm. destruct Hm as [_ _ _ _ Hk' _ ->]. simpl in Hk'. rewrite <- Hk'. split; [done|]. unfold told. by case_match.
Qed.

(** ** The moves

    A run of a mouse and of the move timer, each event at its time, and what
    each of them sends. *)
Definition time_of (i : input) : Z :=
  match i with OnMouse _ now _ | OnWheel _ now _ | OnGesture _ now _ | OnMoveTimer _ now => now | SetDragViewport _ => 0 end.
Definition timed_step (s : mouse * Z) (i : input) : (mouse * Z) * list (input * effect) :=
  let '(_, m', fx) := react i s.1 in ((m', time_of i), pair i <$> fx).
Definition by_mouse (s : mouse * Z) (i : input) : Prop :=
  enabled s.1 i ∧ s.2 <= time_of i ∧ match i with OnMouse _ _ _ | OnMoveTimer _ _ => True | _ => False end.
Definition is_move (i : input) : bool :=
  match i with OnMouse _ _ e => bool_decide (m_type e = mousemove) | OnMoveTimer _ _ => true | _ => false end.
(** the messages, with the events that sent them; the times of the moves' own *)
Definition sendings (os : list (input * effect)) : list (input * message) :=
  omap (λ o, match o.2 with Sends msg => Some (o.1, msg) | _ => None end) os.
Definition move_times (os : list (input * effect)) : list Z :=
  omap (λ o, if is_move o.1 then Some (time_of o.1) else None) (sendings os).
(** where the mouse moved *)
Definition moved (ins : list input) : list point :=
  omap (λ i, match i with
             | OnMouse p _ e => if bool_decide (m_type e = mousemove) then Some (clientToElement (m_x e) (m_y e) p) else None
             | _ => None end) ins.
(** each at least [MOUSE_MOVE_DELAY] after the one before *)
Definition spaced (ts : list Z) : Prop := ∀ i t1 t2, ts !! i = Some t1 → ts !! S i = Some t2 → t1 + MOUSE_MOVE_DELAY <= t2.
(** a pointer message tells a point of the canvas, as a place of the screen, and
    buttons *)
Definition tells (p : place) (q : point) (buttons : Z) (msg : message) : Prop :=
  match msg with
  | PointerEvent x y k | ExtendedPointerEvent x y k =>
      x = Scale.abs_ q.1 (p_scale p) (view_left p) ∧ y = Scale.abs_ q.2 (p_scale p) (view_top p) ∧ hear 0 (Sends msg) = buttons
  | _ => False
  end.
(** the last message was sent by this event, and tells this *)
Definition last_tells (i : input) (p : place) (q : point) (buttons : Z) (log : list (input * message)) : Prop :=
  ∃ msg, last log = Some (i, msg) ∧ tells p q buttons msg.

Lemma spaced_snoc ts t : spaced ts → (∀ t1, last ts = Some t1 → t1 + MOUSE_MOVE_DELAY <= t) → spaced (ts ++ [t]).
Proof.
  intros Hs Hl i t1 t2 H1 H2. destruct (decide (S i < length ts)%nat).
  - rewrite lookup_app_l in H1, H2 by lia. by eapply Hs.
  - apply lookup_lt_Some in H2 as Hlt. rewrite length_app in Hlt. simpl in Hlt. assert (S i = length ts) as Ei by lia.
    rewrite lookup_app_r, Ei, Nat.sub_diag in H2 by lia. injection H2 as <-. rewrite lookup_app_l in H1 by lia.
    apply Hl. rewrite last_lookup, <- Ei. done.
Qed.
Lemma send_tells p q k m :
  connected (base m) = true → viewOnly (base m) = false → legal k →
  ∃ msg, send p q k m = (Ends, m, [Sends msg]) ∧ tells p q (told (base m) k) msg.
Proof.
  intros Hc Hv Hk. destruct (send_legal p q k m Hc Hv Hk) as (fx & E & Hb). revert E Hb.
  unfold send, sendMouse. rewrite Hc, Hv. cbn [negb orb]. destruct (negb (Z.land k 32768 =? 0)); [done|].
  destruct (extendedPointerEventSupported _ && _); intros E Hb;
    pose proof (f_equal snd E) as Hf; simpl in Hf; subst fx; eexists; (split; [exact E|]);
    (split_and!; [done|done|exact (Hb 0)]).
Qed.
(** between events: at work, when the timer is due, when the last move went *)
Definition working (m : mouse) : Prop :=
  connected (base m) = true ∧ viewOnly (base m) = false ∧ dragViewport m = false ∧ viewportDragging m = false
  ∧ legal (mouseButtonMask m).
Record resting (m : mouse) (now : Z) (times : list Z) : Prop := Resting {
  r_work : working m;
  r_due : ∀ due, mouseMoveTimer m = Some due → due = mouseLastMoveTime m + MOUSE_MOVE_DELAY;
  r_past : mouseLastMoveTime m <= now;
  r_last : times ≠ [] → last times = Some (mouseLastMoveTime m);
  r_spaced : spaced times }.
Lemma resting_sent m m' now times : resting m now times → mouseLastMoveTime m + MOUSE_MOVE_DELAY <= now →
  working m' → mouseMoveTimer m' = None → mouseLastMoveTime m' = now → resting m' now (times ++ [now]).
Proof.
  intros [_ _ _ Hl Hs] Hn Hw Ht Hm. constructor; [done|by rewrite Ht|lia|rewrite last_snoc; by rewrite Hm|].
  apply spaced_snoc; [done|]. intros t1 E1. rewrite Hl in E1; [by injection E1 as <-|by intros ->].
Qed.
(** what an event of the mouse, or the timer, does *)
Definition after (i : input) (m m' : mouse) (log log' : list (input * message)) : Prop :=
  match i with
  | OnMouse p now e =>
      let q := clientToElement (m_x e) (m_y e) p in
      match m_type e with
      | mousemove =>
          mousePos m' = q
          ∧ ((∃ due, mouseMoveTimer m' = Some due ∧ due <= now + MOUSE_MOVE_DELAY)
             ∨ mouseMoveTimer m' = None ∧ last_tells i p q (told (base m') (mouseButtonMask m')) log')
      | mousedown | mouseup =>
          mousePos m' = mousePos m ∧ mouseMoveTimer m' = None
          ∧ last_tells i p q (told (base m') (convertButtonMask (m_buttons e))) log'
      | click | contextmenu => m' = m ∧ log' = log
      end
  | OnMoveTimer p now =>
      mousePos m' = mousePos m ∧ mouseMoveTimer m' = None
      ∧ last_tells i p (mousePos m') (told (base m') (mouseButtonMask m')) log'
  | _ => False
  end.
#[local] Arguments send : simpl never.
Lemma after_timed m t i v m' fx : react i m = (v, m', fx) → timed_step (m, t) i = ((m', time_of i), pair i <$> fx).
Proof. intros E. unfold timed_step. simpl. by rewrite E. Qed.
Lemma last_tells_snoc i p q k msg log : tells p q k msg → last_tells i p q k (log ++ [(i, msg)]).
Proof. intros Ht. exists msg. by rewrite last_snoc. Qed.
Lemma resting_later m m' t now times : resting m t times → t <= now → working m' →
  mouseMoveTimer m' = None ∨ mouseMoveTimer m' = mouseMoveTimer m ∨ mouseMoveTimer m' = Some (mouseLastMoveTime m + MOUSE_MOVE_DELAY) →
  mouseLastMoveTime m' = mouseLastMoveTime m → resting m' now times.
Proof.
  intros [_ Hd Hp Hl Hs] Ht Hw Hm El. constructor; rewrite ?El; [done| |lia|done|done].
  intros due. destruct Hm as [->|[->| ->]]; [done|apply Hd|congruence].
Qed.
(** a button: what waits goes first, in its place *)
Lemma button_step p q k m : working m → legal k →
  ∃ m' fx msg, handleMouseButton p q k m = (Ends, m', fx ++ [Sends msg]) ∧ tells p q (told (base m') k) msg
    ∧ working m' ∧ base m' = base m ∧ mouseMoveTimer m' = None ∧ mouseButtonMask m' = k
    ∧ mouseLastMoveTime m' = mouseLastMoveTime m ∧ mousePos m' = mousePos m.
Proof.
  intros (Hc & Hv & Hd & Hdr & Hk0) Hk. unfold handleMouseButton, flushMouseMoveTimer, reading, andthen, set, pass.
  destruct (mouseMoveTimer m) as [due|] eqn:Et.
  - destruct (send_tells p q (mouseButtonMask m) (with_timer None m) Hc Hv Hk0) as (msg0 & Em0 & _).
    destruct (send_tells p q k (with_mask k (with_timer None m)) Hc Hv Hk) as (msg & Em & Ht).
    exists (with_mask k (with_timer None m)), [Sends msg0], msg. rewrite Em0. cbv beta iota. rewrite Em. by split.
  - destruct (send_tells p q k (with_mask k m) Hc Hv Hk) as (msg & Em & Ht).
    exists (with_mask k m), [], msg. cbv beta iota. rewrite Em. by split.
Qed.
Lemma mouse_button_step m t p now e times log :
  m_type e = mousedown ∨ m_type e = mouseup → t <= now → resting m t times →
  let i := OnMouse p now e in let '(s, os) := timed_step (m, t) i in
  resting s.1 now (times ++ move_times os) ∧ after i m s.1 log (log ++ sendings os).
Proof.
  intros He Hle Hr i. pose proof (r_work _ _ _ Hr) as Hw. set (q := clientToElement (m_x e) (m_y e) p).
  destruct (button_step p q (convertButtonMask (m_buttons e)) m Hw (converted_legal _)) as (m' & fx & msg & E & Ht & Hw' & Hb & Hti & Hk & Hl & Hp).
  assert (∃ fx0, react i m = (Ends, m', fx0 ++ [Sends msg])) as (fx0 & Er).
  { destruct Hw as (_ & _ & Hd & _). unfold i. cbn [react]. unfold handleMouse. fold q.
    destruct He as [-> | ->]; simpl; unfold andthen at 1; simpl; unfold reading; rewrite Hd; unfold andthen at 1; simpl; rewrite E;
      [exists (Consumes :: Captures :: fx)|exists (Consumes :: fx)]; done. }
  rewrite (after_timed m t i _ _ _ Er). cbn [fst snd]. split.
  - assert (move_times (pair i <$> fx0 ++ [Sends msg]) = []) as ->.
    { unfold move_times, sendings. generalize (fx0 ++ [Sends msg]). intros l.
      induction l as [|x l IH]; [done|]. simpl. destruct x; simpl; try done. destruct He as [-> | ->]; done. }
    rewrite app_nil_r. by eapply resting_later; [..|left|].
  - assert (after i m m' log (log ++ sendings (pair i <$> fx0 ++ [Sends msg]))
      = (mousePos m' = mousePos m ∧ mouseMoveTimer m' = None ∧ last_tells i p q (told (base m') (convertButtonMask (m_buttons e))) (log ++ sendings (pair i <$> fx0 ++ [Sends msg])))) as ->.
    { unfold after, i. by destruct He as [-> | ->]. }
    split_and!; [done|done|]. rewrite fmap_app. unfold sendings. rewrite omap_app. simpl. rewrite app_assoc. by apply last_tells_snoc.
Qed.
Lemma mouse_move_step m t p now e times log :
  m_type e = mousemove → t <= now → resting m t times →
  let i := OnMouse p now e in let '(s, os) := timed_step (m, t) i in
  resting s.1 now (times ++ move_times os) ∧ after i m s.1 log (log ++ sendings os).
Proof.
  intros He Hle Hr i. pose proof (r_work _ _ _ Hr) as Hw. destruct Hw as (Hc & Hv & Hd & Hdr & Hk). set (q := clientToElement (m_x e) (m_y e) p).
  assert (react i m = (does Consumes ▸ handleMouseMove p now q) m) as Er.
  { unfold i. cbn [react]. unfold handleMouse. rewrite He. fold q. simpl. unfold andthen. simpl. unfold reading at 1. by rewrite Hdr. }
  unfold andthen at 1 in Er. simpl in Er. unfold handleMouseMove, andthen at 1, reading in Er. simpl in Er.
  unfold after, i. rewrite He. fold i q.
  destruct (mouseMoveTimer m) as [due|] eqn:Et.
  { rewrite (after_timed m t i _ _ _ Er). simpl. rewrite !app_nil_r. pose proof (r_due _ _ _ Hr due Et) as ->. pose proof (r_past _ _ _ Hr).
    split; [by eapply resting_later; [..|right; left|]|]. split; [done|]. left. eexists. split; [done|]. unfold MOUSE_MOVE_DELAY. lia. }
  destruct (MOUSE_MOVE_DELAY <? now - mouseLastMoveTime m) eqn:Ed.
  - destruct (send_tells p q (mouseButtonMask m) (with_pos q m) Hc Hv Hk) as (msg & Em & Ht). unfold andthen in Er. rewrite Em in Er. simpl in Er.
    rewrite (after_timed m t i _ _ _ Er). unfold move_times. simpl. rewrite He. simpl.
    split; [|split; [done|right; split; [done|by apply last_tells_snoc]]].
    apply Z.ltb_lt in Ed. eapply resting_sent; [by eapply resting_later; [..|right; left|]|lia|done..].
  - rewrite (after_timed m t i _ _ _ Er). simpl. rewrite !app_nil_r. pose proof (r_past _ _ _ Hr). apply Z.ltb_ge in Ed.
    split; [eapply resting_later; [done|done|done|right; right; simpl; f_equal; lia|done]|].
    split; [done|]. left. eexists. split; [done|]. lia.
Qed.
Lemma mouse_step m t i times log :
  by_mouse (m, t) i → resting m t times →
  let '(s, os) := timed_step (m, t) i in
  resting s.1 (time_of i) (times ++ move_times os) ∧ after i m s.1 log (log ++ sendings os).
Proof.
  intros (He & Hle & Hi) Hr. simpl in He, Hle. destruct i as [p now e| | |p now|]; try done.
  - destruct (m_type e) eqn:Et; [..|by apply mouse_move_step].
    3-4: apply mouse_button_step; rewrite ?Et; auto.
    all: unfold timed_step, after; cbn [react]; unfold handleMouse; rewrite Et; simpl; try destruct (on_canvas e); simpl; rewrite !app_nil_r;
      (split; [by eapply resting_later; [..|apply Hr|right; left|]|done]).
  - destruct He as (due & Et & Hd). pose proof (r_due _ _ _ Hr due Et) as ->.
    pose proof (r_work _ _ _ Hr) as (Hc & Hv & Hdv & Hdr & Hk).
    destruct (send_tells p (mousePos m) (mouseButtonMask m) (with_timer None m) Hc Hv Hk) as (msg & Em & Ht).
    assert (react (OnMoveTimer p now) m = (Ends, with_last now (with_timer None m), [Sends msg])) as Er.
    { cbn [react]. unfold handleDelayedMouseMove, reading, andthen. simpl. by rewrite Em. }
    rewrite (after_timed m t _ _ _ _ Er). simpl. split; [|split_and!; [done|done|by apply last_tells_snoc]].
    eapply resting_sent; [by eapply resting_later; [..|right; left|]|lia|done..].
Qed.

End console.

(** ** Runs *)
Definition far_apart (x y : Q) : Q := let a := Qabs x in let b := Qabs y in if Qle_bool a b then b else a.
Definition at_work : rfb := Rfb true false false true 0 24 6 2 None None [] [] None.
Definition page : place := Place 0 0 800 600 1 0 0.
Definition ev (k : Gestures.kind) (g : Gestures.gesture) (x y : Q) (mag : option (Q * Q)) : gesture_event := Gestures.Event k g x y mag.
Definition play (m : mouse) (ins : list input) : mouse * list effect :=
  let '(m', os) := run (step 10 far_apart) m ins in (m', done_by os).

Lemma server_knows_the_buttons_witness :
  let ins := [OnMouse page 1000 (MouseEvent_ mousemove true 5 5 0); OnMouse page 1010 (MouseEvent_ mousemove true 6 6 0);
              OnMouse page 1012 (MouseEvent_ mousedown true 7 7 9); OnWheel page 1013 (WheelEvent_ 7 7 1 0 120 0)] in
  let '(m, os) := run (step 10 far_apart) (start at_work) ins in
  done_by os = [Consumes; Sends (PointerEvent 5 5 0); Consumes; Consumes; Captures; Sends (PointerEvent 7 7 0);
    Sends (ExtendedPointerEvent 7 7 129); Consumes; Sends (PointerEvent 7 7 17); Sends (PointerEvent 7 7 1)]
  ∧ Forall (λ o, o.1 = Ends) os ∧ buttons_of (done_by os) 0 = 1.
Proof.
  intros ins. destruct (run _ _ _) as [m os] eqn:E.
  destruct (server_knows_the_buttons 10 far_apart at_work ins m os) as (H1 & H2 & _); [done..| |].
  - pose proof (run_trace (λ m i, enabled m i ∧ i ≠ SetDragViewport true) (step 10 far_apart) (start at_work) ins) as Ht.
    rewrite E in Ht. apply Ht. repeat split; done.
  - rewrite H2. split_and!; [|done|]; vm_compute in E; injection E as <- <-; by vm_compute.
Defined.

Lemma touches_leave_no_button_down_witness :
  let touches := [Gestures.Start 0 1 10 10; Gestures.Move 1 100 10; Gestures.Move 1 120 10; Gestures.End 100 1] in
  let gs := (run (Gestures.step Gestures.far_from Gestures.direction) Gestures.start_world touches).2 in
  let ins := (λ e, OnGesture page 2000 e) <$> gs in
  let os := (run (step 10 far_apart) (start at_work) ins).2 in
  length gs = 4%nat ∧ buttons_of (done_by (take 2 os)) 0 = 1 ∧ buttons_of (done_by os) 0 = 0.
Proof.
  intros touches gs ins os. split_and!; [by vm_compute..|].
  destruct (touches_leave_no_button_down 10 far_apart Gestures.far_from Gestures.direction touches gs
    (run (Gestures.step Gestures.far_from Gestures.direction) Gestures.start_world touches).1 (start at_work) ins
    (run (step 10 far_apart) (start at_work) ins).1 os) as [_ H]; [|done..|by intros []| |by vm_compute|by apply H; vm_compute].
  - apply run_trace. unfold touches. cbn [admissible Gestures.enabled].
    split_and!; lazymatch goal with |- True => exact I | _ => apply (bool_decide_unpack _); vm_compute; exact I end.
  - apply run_trace. vm_compute. repeat split.
Defined.



(** A pinch presses the Caps Lock key of a server that told its state: the
    event has no lock states, and [undefined] is not the one that is known. *)
Example a_pinch_presses_caps_lock :
  let s := Rfb true false false false 0 24 6 2 (Some false) None [] [] None in
  (play (start s) [OnGesture page 1000 (ev Gestures.gesturestart Gestures.pinch 5 5 (Some (100, 0))%Q);
                   OnGesture page 1001 (ev Gestures.gesturemove Gestures.pinch 5 5 (Some (180, 0))%Q)]).2
  = [Sends (PointerEvent 5 5 0); MovesCursor 5 5; MovesCursor 5 5;
     Sends (KeyEvent 65509 1); Sends (KeyEvent 65509 0); Sends (KeyEvent 65507 1);
     Sends (PointerEvent 5 5 0); Sends (PointerEvent 5 5 8); Sends (PointerEvent 5 5 0); Sends (KeyEvent 65507 0)].
Proof. by vm_compute. Qed.
(** After the screen was dragged, and dragging was turned off, a long press
    leaves the right button down. *)
Definition drags_the_screen : list input :=
  [SetDragViewport true; OnGesture page 1000 (ev Gestures.gesturestart Gestures.drag 5 5 None);
   OnGesture page 1100 (ev Gestures.gesturemove Gestures.drag 50 5 None); OnGesture page 1200 (ev Gestures.gestureend Gestures.drag 50 5 None)].
Example a_long_press_after_dragging :
  let m := (play (start at_work) drags_the_screen).1 in
  buttons_of (play m [SetDragViewport false; OnGesture page 2000 (ev Gestures.gesturestart Gestures.longpress 5 5 None);
                      OnGesture page 2100 (ev Gestures.gestureend Gestures.longpress 5 5 None)]).2 0 = 4.
Proof. by vm_compute. Qed.
(** A long press that drags the screen leaves it dragged by a mouse without a
    button. *)
Example a_long_press_that_drags :
  (play (start at_work)
     [SetDragViewport true; OnGesture page 1000 (ev Gestures.gesturestart Gestures.longpress 5 5 None);
      OnGesture page 1100 (ev Gestures.gesturemove Gestures.longpress 50 5 None);
      OnGesture page 1200 (ev Gestures.gestureend Gestures.longpress 50 5 None);
      OnMouse page 1300 (MouseEvent_ mousemove true 80 5 0)]).2
  = [Pans (-45) 0; Consumes; Pans (-30) 0].
Proof. by vm_compute. Qed.
End Mouse.
