(* ===== verification/Resumable.v ===== *)
(** * Readers of the receive queue that are called again when more bytes come

    The decoders tight.js, zlib.js, zrle.js and jpeg.js read a rectangle in
    stages: each stage waits for its bytes, keeps what it read in the decoder,
    and is skipped by the next call.  [steady] is what makes that right: a call
    on more bytes does what the call on fewer did, and goes on. *)
From S2P Require Import Prelude Websock Decoders.

#[local] Open Scope list_scope.
#[local] Open Scope Z_scope.

Module Resumable.
Import Decoders.
(** what a call gives: it waits, or it has read a value, or it threw, after
    drawing something *)
Inductive got (S A : Type) := Wait (s : S) (q : bytes) | Got (s : S) (q : bytes) (a : A) | Threw (s : S) (q : bytes) (ds : list drawing).
Arguments Wait {S A}. Arguments Got {S A}. Arguments Threw {S A}.
Definition reader (S A : Type) : Type := S → bytes → got S A.

(** a stage: unless it is [ready], it reads what it needs, or waits *)
Definition stage {S A} (ready : S → bool) (read : S → bytes → option (S * bytes)) (rest : reader S A) : reader S A := λ s q,
  if ready s then rest s q
  else match read s q with Some (s, q) => rest s q | None => Wait s q end.
(** the next [n] bytes *)
Definition next {S} (n : S → Z) : reader S bytes := λ s q,
  if len q <? n s then Wait s q else Got s (drop (Z.to_nat (n s)) q) (take (Z.to_nat (n s)) q).
(** what is made of a value that was read; none: it throws, in the state given *)
Definition then_do {S A B} (f : reader S A) (g : S → A → S * option B) : reader S B := λ s q,
  match f s q with
  | Wait s q => Wait s q
  | Threw s q ds => Threw s q ds
  | Got s q a => match g s a with (s, Some b) => Got s q b | (s, None) => Threw s q [] end
  end.
(** what is drawn of a value that was read, and whether that threw *)
Definition then_draw {S A} (f : reader S A) (g : S → A → S * bool * list drawing) : reader S (list drawing) := λ s q,
  match f s q with
  | Wait s q => Wait s q
  | Threw s q ds => Threw s q ds
  | Got s q a => match g s a with (s, true, ds) => Got s q ds | (s, false, ds) => Threw s q ds end
  end.
(** without reading *)
Definition now {S A} (g : S → S * option A) : reader S A := λ s q,
  match g s with (s, Some a) => Got s q a | (s, None) => Threw s q [] end.
Definition to_result {T} (r : got T (list drawing)) : result T bytes :=
  match r with Wait s q => (Again, s, q, []) | Got s q ds => (Done, s, q, ds) | Threw s q ds => (Thrown, s, q, ds) end.

(** a reader a part of the state chooses *)
Definition choose {S A K} (k : S → K) (f : K → reader S A) : reader S A := λ s q, f (k s) s q.

Definition suffix_of (q' q : bytes) : Prop := ∃ p, q = p ++ q'.
(** from a state of [I] it waits in one of [I] and ends in one of [J] *)
Definition steady {S A} (I J : S → Prop) (f : reader S A) : Prop := ∀ s q r,
  I s → Forall Websock.byte (q ++ r) →
  match f s q with
  | Wait s' q' => I s' ∧ suffix_of q' q ∧ f s (q ++ r) = f s' (q' ++ r)
  | Got s' q' a => J s' ∧ suffix_of q' q ∧ f s (q ++ r) = Got s' (q' ++ r) a
  | Threw s' q' ds => suffix_of q' q ∧ ∃ q2, f s (q ++ r) = Threw s' q2 ds
  end.

Lemma suffix_refl q : suffix_of q q.
Proof. by exists []. Qed.
Lemma suffix_drop n q : suffix_of (drop n q) q.
Proof. exists (take n q). by rewrite take_drop. Qed.
Lemma suffix_trans q1 q2 q3 : suffix_of q1 q2 → suffix_of q2 q3 → suffix_of q1 q3.
Proof. intros [p1 ->] [p2 ->]. exists (p2 ++ p1). by rewrite app_assoc. Qed.
Lemma suffix_bytes q' q r : suffix_of q' q → Forall Websock.byte (q ++ r) → Forall Websock.byte (q' ++ r).
Proof. intros [p ->]. rewrite <- app_assoc. by intros [_ H]%Forall_app. Qed.
Lemma suffix_len q' q : suffix_of q' q → len q' <= len q.
Proof. intros [p ->]. rewrite len_app_. pose proof (Websock.len_nonneg p). lia. Qed.

Section laws.
Context {S : Type}.
Lemma steady_weaken {A} (I J J' : S → Prop) (f : reader S A) : (∀ s, J s → J' s) → steady I J f → steady I J' f.
Proof. intros HJ Hf s q r Hs Hb. specialize (Hf s q r Hs Hb). destruct (f s q); [done| |done]. destruct Hf as (?&?&?). auto. Qed.
(** [I']: the states whose rest is being read *)
Lemma steady_stage {A} (I I' J : S → Prop) ready read (rest : reader S A) :
  (∀ s, I' s → I s) → (∀ s, I s → ready s = true → I' s) →
  (∀ s q r s' q', I s → ready s = false → Forall Websock.byte (q ++ r) → read s q = Some (s', q') →
     I' s' ∧ suffix_of q' q ∧ read s (q ++ r) = Some (s', q' ++ r)) →
  (∀ s q s' q', I' s → rest s q = Wait s' q' → I' s' → ready s' = true) →
  steady I' J rest → steady I J (stage ready read rest).
Proof.
  intros HI Hr Hread Hwait Hf s q r Hs Hb. unfold stage.
  destruct (ready s) eqn:E.
  - specialize (Hf s q r (Hr s Hs E) Hb). destruct (rest s q) as [s' q'| |] eqn:Ew; [|done..].
    destruct Hf as (Hi & Hx & Hf). rewrite (Hwait s q s' q' (Hr s Hs E) Ew Hi). auto.
  - destruct (read s q) as [[s1 q1]|] eqn:Er; [|rewrite E; split_and!; [done|apply suffix_refl|done]].
    destruct (Hread s q r s1 q1 Hs E Hb Er) as (Hi1 & Hx1 & ->).
    specialize (Hf s1 q1 r Hi1 (suffix_bytes _ _ _ Hx1 Hb)). destruct (rest s1 q1) as [s' q'|s' q' a|s' q' ds] eqn:Ew.
    + destruct Hf as (Hi & Hx & Hf). rewrite (Hwait s1 q1 s' q' Hi1 Ew Hi). split_and!; [auto|by eapply suffix_trans|done].
    + destruct Hf as (Hi & Hx & Hf). split_and!; [done|by eapply suffix_trans|done].
    + destruct Hf as (Hx & Hf). split; [by eapply suffix_trans|done].
Qed.
Lemma steady_next (I : S → Prop) n : (∀ s, I s → 0 <= n s) → steady I I (next n).
Proof.
  intros Hn s q r Hs Hb. specialize (Hn s Hs). unfold next. destruct (len q <? n s) eqn:E.
  - split_and!; [done|apply suffix_refl|done].
  - apply Z.ltb_ge in E. split_and!; [done|apply suffix_drop|]. rewrite len_app_. pose proof (Websock.len_nonneg r).
    rewrite (proj2 (Z.ltb_ge _ _)) by lia. by rewrite drop_len, take_len by lia.
Qed.
Lemma steady_now {A} (I J : S → Prop) (g : S → S * option A) : (∀ s, I s → J (g s).1) → steady I J (now g).
Proof.
  intros Hg s q r Hs Hb. specialize (Hg s Hs). unfold now. destruct (g s) as [s' [a|]].
  - split_and!; [done|apply suffix_refl|done].
  - split; [apply suffix_refl|by eexists].
Qed.
Lemma steady_then {A B} (I J J' : S → Prop) (f : reader S A) (g : S → A → S * option B) :
  steady I J f → (∀ s a, J s → J' (g s a).1) → steady I J' (then_do f g).
Proof.
  intros Hf Hg s q r Hs Hb. specialize (Hf s q r Hs Hb). unfold then_do. destruct (f s q) as [s' q'|s' q' a|s' q' ds].
  - destruct Hf as (Hi & Hx & ->). auto.
  - destruct Hf as (Hi & Hx & ->). specialize (Hg s' a Hi). destruct (g s' a) as [s2 [b|]]; [auto|]. split; [done|by eexists].
  - destruct Hf as (Hx & q2 & ->). split; [done|by eexists].
Qed.
Lemma steady_draw {A} (I J J' : S → Prop) (f : reader S A) (g : S → A → S * bool * list drawing) :
  steady I J f → (∀ s a, J s → J' (g s a).1.1) → steady I J' (then_draw f g).
Proof.
  intros Hf Hg s q r Hs Hb. specialize (Hf s q r Hs Hb). unfold then_draw. destruct (f s q) as [s' q'|s' q' a|s' q' ds].
  - destruct Hf as (Hi & Hx & ->). auto.
  - destruct Hf as (Hi & Hx & ->). specialize (Hg s' a Hi). destruct (g s' a) as [[s2 []] ds]; [auto|]. split; [done|by eexists].
  - destruct Hf as (Hx & q2 & ->). split; [done|by eexists].
Qed.
Lemma steady_choose {A K} (I J : S → Prop) (k : S → K) (f : K → reader S A) :
  (∀ k0, steady (λ s, I s ∧ k s = k0) J (f k0)) → steady I J (choose k f).
Proof.
  intros Hf s q r Hs Hb. specialize (Hf (k s) s q r (conj Hs eq_refl) Hb). unfold choose.
  destruct (f (k s) s q); [|done..]. destruct Hf as ((? & ->) & ?). auto.
Qed.
(** a length that is read when it is 0, and then as many bytes *)
Lemma steady_length (I : S → Prop) (get : S → Z) (put : Z → S → S) n :
  (∀ s, I s → 0 <= get s) → (∀ s k, I s → 0 <= k → I (put k s)) →
  steady I I (stage (λ s, negb (get s =? 0)) (λ s q, if len q <? Z.of_nat n then None else Some (put (Websock.be (take n q)) s, drop n q)) (next get)).
Proof.
  intros Hget Hput. apply steady_stage with (I' := I); [done|done| | |by apply steady_next].
  - intros s q r s' q' Hs _ Hb. destruct (len q <? Z.of_nat n) eqn:E; [done|]. apply Z.ltb_ge in E. intros Hr.
    apply Some_inj, pair_equal_spec in Hr as [<- <-]. rewrite len_app_. pose proof (Websock.len_nonneg r).
    rewrite (proj2 (Z.ltb_ge _ _)) by lia. unfold Websock.len in E. rewrite take_app_le, drop_app_le by lia.
    split_and!; [|apply suffix_drop|done]. apply Hput; [done|]. apply Websock.be_range, Forall_take. by apply Forall_app in Hb as [? _].
  - intros s q s' q' _ Hn Hs. unfold next in Hn. destruct (len q <? get s) eqn:E; [|done]. injection Hn as <- <-.
    apply Z.ltb_lt in E. pose proof (Websock.len_nonneg q). apply negb_true_iff, Z.eqb_neq. lia.
Qed.
End laws.
End Resumable.
