(* ===== verification/Tight.v ===== *)
(** * noVNC: the tight and TightPNG encodings:
    static/js/novnc/core/decoders/tight.js, tightpng.js

    The stages of a tight rectangle (control byte, filter, palette, length,
    data), the three filters and what they draw, and that they invert what the
    encoding asks of a server.  Compressed data are pako's, a parameter. *)
From S2P Require Import Prelude Words Websock Decoders Inflator Resumable.

#[local] Open Scope list_scope.
#[local] Open Scope Z_scope.

(** a byte of a typed array; out of it, [undefined], which is stored as 0 *)
Definition at_ (data : bytes) (k : Z) : Z := nth (Z.to_nat k) data 0.
Definition indices (n : Z) : list Z := seqZ 0 n.

Module Tight.
Import Decoders Resumable.
Section tight.
Context `{Pako}.
Abbreviation inflator := Inflator.inflator.

(** ** State *)
Record tight := Tight_ {
  t_ctl : option Z; t_filter : option Z; t_numColors : Z;
  t_palette : bytes;       (* 1024 *)
  t_len : Z; t_zlibs : list inflator }.   (* four *)
Definition tight_start : tight := Tight_ None None 0 (replicate 1024 0) 0 (replicate 4 Inflator.fresh).
Definition with_ctl (c : option Z) (s : tight) : tight := Tight_ c (t_filter s) (t_numColors s) (t_palette s) (t_len s) (t_zlibs s).
Definition with_filter (f : option Z) (s : tight) : tight := Tight_ (t_ctl s) f (t_numColors s) (t_palette s) (t_len s) (t_zlibs s).
Definition with_colors (n : Z) (p : bytes) (s : tight) : tight := Tight_ (t_ctl s) (t_filter s) n p (t_len s) (t_zlibs s).
Definition with_len (n : Z) (s : tight) : tight := Tight_ (t_ctl s) (t_filter s) (t_numColors s) (t_palette s) n (t_zlibs s).
Definition with_zlibs (l : list inflator) (s : tight) : tight := Tight_ (t_ctl s) (t_filter s) (t_numColors s) (t_palette s) (t_len s) l.

(** ** Compressed data *)
(** the length, in one to three bytes; three must have come *)
Definition read_len (s : tight) (q : bytes) : option (tight * bytes) :=
  if len q <? 3 then None
  else
    let b0 := at_ q 0 in
    let n := Z.land b0 127 in
    if Z.land b0 128 =? 0 then Some (with_len n s, drop 1 q)
    else
      let b1 := at_ q 1 in
      let n := Z.lor n (Z.shiftl (Z.land b1 127) 7) in
      if Z.land b1 128 =? 0 then Some (with_len n s, drop 2 q)
      else Some (with_len (Z.lor n (Z.shiftl (at_ q 2) 14)) s, drop 3 q).
Definition readData : reader tight bytes :=
  then_do (stage (λ s, negb (t_len s =? 0)) read_len (next t_len)) (λ s data, (with_len 0 s, Some data)).
(** [setInput(data)], [inflate(size)], [setInput(null)] of a stream *)
Definition unzip (i : nat) (size : Z) (s : tight) (data : bytes) : tight * option bytes :=
  let z := Inflator.setInput (Some data) (default Inflator.fresh (t_zlibs s !! i)) in
  match Inflator.inflate_bytes size z with
  | Some (out, z') => (with_zlibs (<[i := Inflator.setInput None z']> (t_zlibs s)) s, Some out)
  | None => (with_zlibs (<[i := z]> (t_zlibs s)) s, None)
  end.
(** fewer than twelve bytes are not compressed *)
Definition pixel_data (i : nat) (size : Z) : reader tight bytes :=
  if size <? 12 then next (λ _, size) else then_do readData (unzip i size).

(** ** Filters *)
Section rect.
Variables x y width height : Z.
Definition nothing : reader tight (list drawing) := now (λ s, (s, Some [])).
Definition blit (data : bytes) : list drawing := [BlitImage x y width height data].

(** three bytes of a pixel, and the alpha *)
Definition copied (data : bytes) (n : Z) : bytes :=
  mjoin ((λ i, [at_ data (3 * i); at_ data (3 * i + 1); at_ data (3 * i + 2); 255]) <$> indices n).
Definition copyFilter (i : nat) : reader tight (list drawing) :=
  let uncompressedSize := width * height * 3 in
  if uncompressedSize =? 0 then nothing
  else then_do (pixel_data i uncompressedSize) (λ s data, (s, Some (blit (copied data (width * height))))).

(** the palette's colour that starts at the byte [sp] *)
Definition colour (palette : bytes) (sp : Z) : bytes := [at_ palette sp; at_ palette (sp + 1); at_ palette (sp + 2); 255].
Definition monoRow (data palette : bytes) (w w1 r : Z) : bytes :=
  mjoin ((λ c, mjoin ((λ b, colour palette (Z.land (Z.shiftr (at_ data (r * w + c)) (7 - b)) 1 * 3)) <$> indices 8)) <$> indices w1)
  ++ mjoin ((λ b, colour palette (Z.land (Z.shiftr (at_ data (r * w + w1)) (7 - b)) 1 * 3)) <$> indices (width mod 8)).
Definition monoRect (data palette : bytes) : bytes :=
  mjoin ((λ r, monoRow data palette ((width + 7) / 8) (width / 8) r) <$> indices height).
(** a byte that is not there is no colour: its index is no number *)
Definition paletteRect (data palette : bytes) : bytes :=
  mjoin ((λ j, match data !! Z.to_nat j with Some b => colour palette (b * 3) | None => [0; 0; 0; 255] end) <$> indices (width * height)).
Definition read_palette (s : tight) (q : bytes) : option (tight * bytes) :=
  if len q <? 1 then None
  else
    let numColors := at_ q 0 + 1 in
    let paletteSize := numColors * 3 in
    if len q <? 1 + paletteSize then None
    else
      let p := take (Z.to_nat paletteSize) (drop 1 q) in
      Some (with_colors numColors (p ++ drop (length p) (t_palette s)) s, drop (Z.to_nat (1 + paletteSize)) q).
(** one bit for a pixel, in rows of whole bytes, or one byte *)
Definition rowSize (numColors : Z) : Z := let bpp := if numColors <=? 2 then 1 else 8 in (width * bpp + 7) / 8.
Definition paletteFilter (i : nat) : reader tight (list drawing) :=
  stage (λ s, negb (t_numColors s =? 0)) read_palette
    (choose t_numColors (λ numColors,
      let uncompressedSize := rowSize numColors * height in
      if uncompressedSize =? 0 then nothing
      else then_do (pixel_data i uncompressedSize) (λ s data,
        let drawn := if numColors =? 2 then monoRect data (t_palette s) else paletteRect data (t_palette s) in
        (with_colors 0 (t_palette s) s, Some (blit drawn))))).

(** a pixel's three bytes; a typed array keeps eight bits of each *)
Definition bytes3 : Type := Z * Z * Z.
Definition map3 (f : Z → Z → Z) (a b : bytes3) : bytes3 := let '(a1, a2, a3) := a in let '(b1, b2, b3) := b in (f a1 b1, f a2 b2, f a3 b3).
Definition add8 (a b : Z) : Z := (a + b) mod 256.
Definition zero3 : bytes3 := (0, 0, 0).
Definition predict1 (left upper upperleft : Z) : Z :=
  let prediction := left + upper - upperleft in if prediction <? 0 then 0 else if 255 <? prediction then 255 else prediction.
Definition predict (left upper upperleft : bytes3) : bytes3 :=
  let '(l1, l2, l3) := left in let '(u1, u2, u3) := upper in let '(v1, v2, v3) := upperleft in
  (predict1 l1 u1 v1, predict1 l2 u2 v2, predict1 l3 u3 v3).
(** the first row: each pixel is predicted to be the one on its left *)
Fixpoint gradient_first (left : bytes3) (data : list bytes3) : list bytes3 :=
  match data with
  | [] => []
  | d :: data => let value := map3 add8 d left in value :: gradient_first value data
  end.
Fixpoint gradient_row (left upperleft : bytes3) (uppers data : list bytes3) : list bytes3 :=
  match data, uppers with
  | d :: data, upper :: uppers =>
    let value := map3 add8 d (predict left upper upperleft) in value :: gradient_row value upper uppers data
  | _, _ => []
  end.
Fixpoint gradient_rows (upper : list bytes3) (rows : list (list bytes3)) : list (list bytes3) :=
  match rows with
  | [] => []
  | data :: rows => let row := gradient_row zero3 zero3 upper data in row :: gradient_rows row rows
  end.
Definition data_row (data : bytes) (r : Z) : list bytes3 :=
  (λ c, let k := 3 * (r * width + c) in (at_ data k, at_ data (k + 1), at_ data (k + 2))) <$> indices width.
Definition gradient (rows : list (list bytes3)) : list (list bytes3) :=
  match rows with
  | [] => []
  | data :: rows => let row := gradient_first zero3 data in row :: gradient_rows row rows
  end.
Definition rgbx (rows : list (list bytes3)) : bytes := mjoin ((λ p : bytes3, let '(r, g, b) := p in [r; g; b; 255]) <$> mjoin rows).
Definition gradientFilter (i : nat) : reader tight (list drawing) :=
  let uncompressedSize := width * height * 3 in
  if uncompressedSize =? 0 then nothing
  else then_do (pixel_data i uncompressedSize) (λ s data, (s, Some (blit (rgbx (gradient (data_row data <$> indices height)))))).

(** ** Rectangles *)
Definition throws : reader tight (list drawing) := now (λ s, (s, None)).
Definition read_filter (ctl : Z) (s : tight) (q : bytes) : option (tight * bytes) :=
  if Z.land ctl 4 =? 0 then Some (with_filter (Some 0) s, q)
  else if len q <? 1 then None else Some (with_filter (Some (at_ q 0)) s, drop 1 q).
Definition filtered (i : nat) (f : option Z) : reader tight (list drawing) :=
  match f with
  | Some 0 => copyFilter i
  | Some 1 => paletteFilter i
  | Some 2 => gradientFilter i
  | _ => throws
  end.
Definition basicRect (ctl : Z) : reader tight (list drawing) :=
  stage (λ s, bool_decide (t_filter s ≠ None)) (read_filter ctl)
    (then_do (choose t_filter (filtered (Z.to_nat (Z.land ctl 3)))) (λ s ds, (with_filter None s, Some ds))).
Definition fillRect : reader tight (list drawing) := then_do (next (λ _, 3)) (λ s pixel, (s, Some [FillRect x y width height pixel])).
Definition imageRect (jpeg : bool) : reader tight (list drawing) :=
  then_do readData (λ s data, (s, Some [ImageRect x y width height jpeg data])).

(** [png]: the decoder is a TightPNGDecoder *)
Definition rect_of (png : bool) (ctl : option Z) : reader tight (list drawing) :=
  match ctl with
  | None => throws
  | Some c =>
    if c =? 8 then fillRect
    else if c =? 9 then imageRect true
    else if c =? 10 then if png then imageRect false else throws
    else if Z.land c 8 =? 0 then if png then throws else basicRect c
    else throws
  end.
(** the control byte: which streams start again, and the kind of rectangle *)
Definition resets (ctl : Z) (l : list inflator) : list inflator :=
  imap (λ i z, if negb (Z.land (Z.shiftr ctl (Z.of_nat i)) 1 =? 0) then Inflator.reset z else z) l.
Definition read_ctl (s : tight) (q : bytes) : option (tight * bytes) :=
  if len q <? 1 then None
  else let c := at_ q 0 in Some (with_ctl (Some (Z.shiftr c 4)) (with_zlibs (resets c (t_zlibs s)) s), drop 1 q).
Definition decodeRect (png : bool) : reader tight (list drawing) :=
  stage (λ s, bool_decide (t_ctl s ≠ None)) read_ctl
    (then_do (choose t_ctl (rect_of png)) (λ s ds, (with_ctl None s, Some ds))).
End rect.
End tight.

(** ** Waiting does not matter *)
Section laws.
Context `{Pako}.
(** what the reading of data keeps *)
Record stable (P : tight → Prop) : Prop := Stable {
  st_len : ∀ s, P s → 0 <= t_len s;
  st_with_len : ∀ s n, 0 <= n → P s → P (with_len n s);
  st_with_zlibs : ∀ s l, P s → P (with_zlibs l s) }.
Definition good (s : tight) : Prop := 0 <= t_len s ∧ 0 <= t_numColors s.

Lemma at_byte q k : Forall Websock.byte q → 0 <= at_ q k < 256.
Proof.
  intros Hb. unfold at_. destruct (nth_in_or_default (Z.to_nat k) q 0) as [Hin| ->]; [|lia].
  by apply (proj1 (List.Forall_forall _ _) Hb).
Qed.
Lemma at_app q r k : 0 <= k < len q → at_ (q ++ r) k = at_ q k.
Proof. intros Hk. unfold at_, len, Websock.len in *. apply app_nth1. lia. Qed.
Lemma drop_front q r n : Z.of_nat n <= len q → drop n (q ++ r) = drop n q ++ r.
Proof. intros Hn. apply drop_app_le. unfold len, Websock.len in Hn. lia. Qed.
Lemma read_len_more s q r s' q' :
  Forall Websock.byte (q ++ r) → read_len s q = Some (s', q') →
  (∃ n, 0 <= n ∧ s' = with_len n s) ∧ suffix_of q' q ∧ read_len s (q ++ r) = Some (s', q' ++ r).
Proof.
  intros Hb. unfold read_len. destruct (len q <? 3) eqn:E; [done|]. apply Z.ltb_ge in E. rewrite len_app_.
  pose proof (Websock.len_nonneg r). rewrite (proj2 (Z.ltb_ge _ _)) by lia.
  rewrite !at_app by lia. pose proof (at_byte q 0) as B0. pose proof (at_byte q 1) as B1. pose proof (at_byte q 2) as B2.
  assert (∀ n, (n <= 3)%nat → drop n (q ++ r) = drop n q ++ r) as Hd by (intros; apply drop_front; lia).
  apply Forall_app in Hb as [Hb _]. specialize (B0 Hb). specialize (B1 Hb). specialize (B2 Hb).
  assert (∀ a b, 0 <= a → 0 <= Z.land a b) as Hl by (intros; apply Z.land_nonneg; by left).
  destruct (Z.land (at_ q 0) 128 =? 0); [|destruct (Z.land (at_ q 1) 128 =? 0)]; intros [= <- <-].
  - rewrite Hd by lia. split_and!; [|apply (suffix_drop 1)|done]. exists (Z.land (at_ q 0) 127). split; [apply Hl; lia|done].
  - rewrite Hd by lia. split_and!; [|apply (suffix_drop 2)|done]. eexists. split; [|done].
    apply Z.lor_nonneg. split; [apply Hl; lia|apply Z.shiftl_nonneg, Hl; lia].
  - rewrite Hd by lia. split_and!; [|apply (suffix_drop 3)|done]. eexists. split; [|done].
    apply Z.lor_nonneg. split; [apply Z.lor_nonneg; split; [apply Hl; lia|apply Z.shiftl_nonneg, Hl; lia]|apply Z.shiftl_nonneg; lia].
Qed.
Lemma readData_steady P : stable P → steady P P readData.
Proof.
  intros [Hl Hwl Hz]. apply steady_then with (J := P).
  - apply steady_stage with (I' := P); [done|done| | |].
    + intros s q r s' q' Hs _ Hb Hr. destruct (read_len_more s q r s' q' Hb Hr) as ((n & Hn & ->) & Hx & Hm). auto.
    + intros s q s' q' _ Hn Hs. unfold next in Hn. destruct (len q <? t_len s) eqn:E; [|done]. injection Hn as <- <-.
      apply Z.ltb_lt in E. pose proof (Websock.len_nonneg q). apply negb_true_iff, Z.eqb_neq. lia.
    + by apply steady_next.
  - intros s a Hs. simpl. by apply Hwl.
Qed.
Lemma unzip_state P i size s data : stable P → P s → P (unzip i size s data).1.
Proof. intros HP Hs. unfold unzip. destruct (Inflator.inflate_bytes _ _) as [[out z]|]; by apply HP. Qed.
Lemma pixel_data_steady P i size : stable P → 0 <= size → steady P P (pixel_data i size).
Proof.
  intros HP Hs. unfold pixel_data. destruct (size <? 12); [by apply steady_next|].
  eapply steady_then; [by apply readData_steady|]. intros. by apply unzip_state.
Qed.
Lemma data_then_steady P J i size (g : tight → bytes → tight * option (list drawing)) :
  stable P → 0 <= size → (∀ s a, P s → J (g s a).1) → steady P J (then_do (pixel_data i size) g).
Proof. intros HP Hs Hg. eapply steady_then; [by apply pixel_data_steady|done]. Qed.
Lemma nothing_steady (P J : tight → Prop) : (∀ s, P s → J s) → steady P J nothing.
Proof. intros HJ. apply steady_now. apply HJ. Qed.
Lemma throws_steady (P J : tight → Prop) : (∀ s, P s → J s) → steady P J throws.
Proof. intros HJ. apply steady_now. apply HJ. Qed.

(** a stage whose rest keeps what it has read *)
Lemma stage_steady {A} (P R J : tight → Prop) ready read (rest : reader tight A) :
  (∀ s, P s → ready s = true → R s) → (∀ s, R s → P s ∧ ready s = true) →
  (∀ s q r s' q', P s → Forall Websock.byte (q ++ r) → read s q = Some (s', q') →
     R s' ∧ suffix_of q' q ∧ read s (q ++ r) = Some (s', q' ++ r)) →
  steady R J rest → steady P J (stage ready read rest).
Proof.
  intros HR HP Hread. apply steady_stage; [by intros s [? _]%HP|done| |].
  - intros s q r s' q' Hs _. by apply Hread.
  - intros s q s' q' _ _ Hs. by apply HP.
Qed.

Section rect.
Variables x y width height : Z.
Hypothesis Hw : 0 <= width.
Hypothesis Hh : 0 <= height.

Lemma copy_steady P i : stable P → steady P P (copyFilter x y width height i).
Proof. intros HP. unfold copyFilter. case_match; [by apply nothing_steady|]. apply data_then_steady; [done|nia|done]. Qed.
Lemma gradient_steady P i : stable P → steady P P (gradientFilter x y width height i).
Proof. intros HP. unfold gradientFilter. case_match; [by apply nothing_steady|]. apply data_then_steady; [done|nia|done]. Qed.
Lemma rowSize_nonneg n : 0 <= rowSize width n.
Proof. unfold rowSize. apply Z.div_pos; [|lia]. case_match; lia. Qed.
Lemma palette_steady P i :
  stable P → (∀ s, P s → 0 <= t_numColors s) → (∀ s n p, 0 <= n → P s → P (with_colors n p s)) → steady P P (paletteFilter x y width height i).
Proof.
  intros HP Hn HPc. assert (∀ n, stable (λ s, (P s ∧ t_numColors s ≠ 0) ∧ t_numColors s = n)) as HPn.
  { intros n. split; intros s; simpl; [intros [[? _] _]; by apply (st_len _ HP)|intros m Hm [[? ?] ?]|intros l [[? ?] ?]];
      (split; [split|]; try done; by apply HP). }
  eapply stage_steady with (R := λ s, P s ∧ t_numColors s ≠ 0).
  - intros s Hs E. split; [done|]. by apply negb_true_iff, Z.eqb_neq in E.
  - intros s [Hs E]. split; [done|]. by apply negb_true_iff, Z.eqb_neq.
  - intros s q r s' q' Hs Hb. unfold read_palette. destruct (len q <? 1) eqn:E1; [done|]. apply Z.ltb_ge in E1.
    destruct (len q <? 1 + (at_ q 0 + 1) * 3) eqn:E2; [done|]. apply Z.ltb_ge in E2. intros Hr.
    apply Some_inj, pair_equal_spec in Hr as [<- <-].
    pose proof (at_byte q 0) as B0. apply Forall_app in Hb as [Hbq _]. specialize (B0 Hbq).
    split_and!; [apply HPc; [lia|done]|simpl; lia|apply suffix_drop|].
    rewrite at_app, len_app_ by lia. pose proof (Websock.len_nonneg r). rewrite !(proj2 (Z.ltb_ge _ _)) by lia.
    rewrite (drop_front q r 1), drop_len by lia.
    rewrite take_len; [done|]. unfold len, Websock.len in *. rewrite length_drop. lia.
  - apply steady_choose. intros n. cbv zeta. destruct (_ =? 0); [apply nothing_steady; tauto|]. apply data_then_steady; [done| |].
    + apply Z.mul_nonneg_nonneg; [apply rowSize_nonneg|done].
    + intros s a ((Hs & _) & _). simpl. by apply HPc.
Qed.
Lemma basic_steady c k : let P s := (good s ∧ t_ctl s ≠ None) ∧ t_ctl s = c in steady P P (basicRect x y width height k).
Proof.
  intros P. eapply stage_steady with (R := λ s, P s ∧ t_filter s ≠ None).
  - intros s Hs Hr. split; [done|]. by apply bool_decide_eq_true in Hr.
  - intros s [Hs Hf]. split; [done|]. by apply bool_decide_eq_true.
  - intros s q r s' q' Hs Hb. unfold read_filter. destruct (_ =? 0).
    + intros [= <- <-]. split_and!; [apply Hs..|done|apply suffix_refl|done].
    + destruct (len q <? 1) eqn:E; [done|]. apply Z.ltb_ge in E. rewrite len_app_. pose proof (Websock.len_nonneg r).
      rewrite (proj2 (Z.ltb_ge _ _)), at_app by lia. intros [= <- <-].
      rewrite drop_front by lia. split_and!; [apply Hs..|done|apply (suffix_drop 1)|done].
  - apply steady_then with (J := P); [|done].
    apply steady_choose. intros f. set (P' := λ s, (P s ∧ t_filter s ≠ None) ∧ t_filter s = f).
    assert (∀ s, P' s → P s) as HP' by (by intros s [[??] ?]).
    assert (stable P') as HS by (unfold P', P, good; split; intros s; simpl; intuition).
    unfold filtered. destruct f as [[|[[]|[]|]|]|]; try (by apply throws_steady); apply steady_weaken with (J := P'); try done.
    + by apply copy_steady.
    + by apply gradient_steady.
    + apply palette_steady; [done|..]; unfold P', P, good; intros s; simpl; intuition.
Qed.
Lemma rect_steady png c : let P s := (good s ∧ t_ctl s ≠ None) ∧ t_ctl s = c in steady P P (rect_of x y width height png c).
Proof.
  intros P. assert (stable P) as HS by (unfold P, good; split; intros s; simpl; intuition).
  unfold rect_of. destruct c as [c|]; [|by apply throws_steady].
  assert (steady P P (fillRect x y width height)) as Hf by (eapply steady_then; [by apply steady_next|done]).
  assert (∀ j, steady P P (imageRect x y width height j)) as Hi by (intros j; eapply steady_then; [by apply readData_steady|done]).
  destruct (c =? 8); [done|]. destruct (c =? 9); [done|]. destruct (c =? 10); [destruct png; [done|by apply throws_steady]|].
  destruct (_ =? 0); [destruct png; [by apply throws_steady|apply basic_steady]|by apply throws_steady].
Qed.
(** A tight rectangle that waits goes on when more bytes come as if they had
    been there at once; one that is done leaves no control byte behind. *)
Lemma tight_steady png : steady good (λ s, good s ∧ t_ctl s = None) (decodeRect x y width height png).
Proof.
  eapply stage_steady with (R := λ s, good s ∧ t_ctl s ≠ None).
  - intros s Hs Hr. split; [done|]. by apply bool_decide_eq_true in Hr.
  - intros s [Hs Hf]. split; [done|]. by apply bool_decide_eq_true.
  - intros s q r s' q' Hs Hb. unfold read_ctl. destruct (len q <? 1) eqn:E; [done|]. apply Z.ltb_ge in E. rewrite len_app_. pose proof (Websock.len_nonneg r).
    rewrite (proj2 (Z.ltb_ge _ _)), at_app by lia. intros [= <- <-].
    rewrite drop_front by lia. split_and!; [apply Hs..|done|apply (suffix_drop 1)|done].
  - apply steady_then with (J := λ s, good s ∧ t_ctl s ≠ None); [|by intros s a [? _]].
    apply steady_choose. intros c. eapply steady_weaken; [|apply rect_steady]. by intros s [? _].
Qed.
End rect.
End laws.

(** ** What the filters draw

    A picture is a colour at each column and row.  [encodes] is what the
    encoding asks of a server: of a picture, a filter, the palette before the
    data, and the data. *)
Section drawn.
Context `{Pako}.
Lemma concat_ext {A} (f g : Z → list A) n : (∀ i, 0 <= i < n → f i = g i) → mjoin (f <$> indices n) = mjoin (g <$> indices n).
Proof. intros Hfg. f_equal. apply list_fmap_ext. intros k i Hi. apply Hfg. apply lookup_seqZ in Hi. lia. Qed.
Lemma concat_rows {A} (g : Z → list A) w h : 0 <= w → 0 <= h →
  mjoin (g <$> indices (w * h)) = mjoin ((λ r, mjoin ((λ c, g (r * w + c)) <$> indices w)) <$> indices h).
Proof.
  intros Hw Hh. revert h Hh. apply natlike_ind.
  - by rewrite Z.mul_0_r.
  - intros h Hh IH. unfold indices in *. rewrite Z.mul_succ_r. unfold Z.succ. rewrite (seqZ_app 0 (w * h) w), (seqZ_app 0 h 1) by nia.
    rewrite !fmap_app, !join_app, IH. f_equal. rewrite !Z.add_0_l. simpl. rewrite app_nil_r. f_equal.
    rewrite <- (Z.add_0_r (w * h)), <- fmap_add_seqZ, <- list_fmap_compose.
    apply list_fmap_ext. intros k c _. simpl. f_equal. lia.
Qed.
Lemma concat_chunks {A} (g : Z → list A) n : 0 <= n →
  mjoin (g <$> indices n) = mjoin ((λ c, mjoin ((λ b, g (8 * c + b)) <$> indices 8)) <$> indices (n / 8))
    ++ mjoin ((λ b, g (8 * (n / 8) + b)) <$> indices (n mod 8)).
Proof.
  intros Hn. rewrite (Z.div_mod n 8) at 1 by lia. assert (0 <= n / 8) by (apply Z.div_pos; lia).
  pose proof (Z.mod_pos_bound n 8 ltac:(lia)). unfold indices at 1. rewrite seqZ_app by lia. rewrite fmap_app, join_app. f_equal.
  - fold (indices (8 * (n / 8))). rewrite concat_rows by lia. apply concat_ext. intros c _. apply concat_ext. intros b _. f_equal. lia.
  - rewrite Z.add_0_l, <- (Z.add_0_r (8 * (n / 8))), <- fmap_add_seqZ, <- list_fmap_compose. f_equal.
    apply list_fmap_ext. intros k c _. simpl. f_equal. lia.
Qed.

Definition picture : Type := Z → Z → bytes3.
Definition byte3 (p : bytes3) : Prop := let '(r, g, b) := p in Websock.byte r ∧ Websock.byte g ∧ Websock.byte b.
Definition pixel (p : bytes3) : bytes := let '(r, g, b) := p in [r; g; b; 255].
Definition pixels (w h : Z) (img : picture) : bytes := mjoin ((λ r, mjoin ((λ c, pixel (img c r)) <$> indices w)) <$> indices h).
Definition data3 (data : bytes) (k : Z) : bytes3 := (at_ data (3 * k), at_ data (3 * k + 1), at_ data (3 * k + 2)).
Definition flat3 (l : list bytes3) : bytes := mjoin ((λ p : bytes3, let '(r, g, b) := p in [r; g; b]) <$> l).
(** outside a picture there is nothing *)
Definition edge (img : picture) (c r : Z) : bytes3 := if (c <? 0) || (r <? 0) then zero3 else img c r.
Definition sub8 (a b : Z) : Z := (a - b) mod 256.
Inductive encodes (w h : Z) (img : picture) : Z → bytes → bytes → Prop :=
  | EncCopy data :
      len data = w * h * 3 → (∀ c r, 0 <= c < w → 0 <= r < h → data3 data (r * w + c) = img c r) → encodes w h img 0 [] data
  | EncPalette pal data :
      (3 <= length pal <= 256)%nat → len data = w * h →
      (∀ c r, 0 <= c < w → 0 <= r < h → pal !! Z.to_nat (at_ data (r * w + c)) = Some (img c r)) →
      encodes w h img 1 (Z.of_nat (length pal) - 1 :: flat3 pal) data
  | EncMono p0 p1 data :
      len data = (w + 7) / 8 * h →
      (∀ c r, 0 <= c < w → 0 <= r < h →
         img c r = if Z.testbit (at_ data (r * ((w + 7) / 8) + c / 8)) (7 - c mod 8) then p1 else p0) →
      encodes w h img 1 (1 :: flat3 [p0; p1]) data
  | EncGradient data :
      len data = w * h * 3 →
      (∀ c r, 0 <= c < w → 0 <= r < h → data3 data (r * w + c) =
         map3 sub8 (img c r) (predict (edge img (c - 1) r) (edge img c (r - 1)) (edge img (c - 1) (r - 1)))) →
      encodes w h img 2 [] data.

Section filters.
Variables (w h : Z) (img : picture).
Hypothesis Hw : 0 <= w.
Hypothesis Hh : 0 <= h.

Lemma copied_draws data :
  (∀ c r, 0 <= c < w → 0 <= r < h → data3 data (r * w + c) = img c r) → copied data (w * h) = pixels w h img.
Proof.
  intros Hd. unfold copied, pixels. rewrite concat_rows by done. apply concat_ext. intros r Hr. apply concat_ext. intros c Hc.
  specialize (Hd c r Hc Hr). unfold pixel. rewrite <- Hd. done.
Qed.
Lemma at_flat3 pal k p rest : pal !! k = Some p →
  at_ (flat3 pal ++ rest) (Z.of_nat k * 3) = p.1.1 ∧ at_ (flat3 pal ++ rest) (Z.of_nat k * 3 + 1) = p.1.2 ∧ at_ (flat3 pal ++ rest) (Z.of_nat k * 3 + 2) = p.2.
Proof.
  revert k. induction pal as [|[[r g] b] pal IH]; intros k; [done|]. destruct k as [|k]; simpl.
  - intros [= <-]. done.
  - intros Hk. destruct (IH k Hk) as (H1 & H2 & H3). unfold at_ in *.
    replace (Z.to_nat (Z.of_nat (S k) * 3)) with (S (S (S (Z.to_nat (Z.of_nat k * 3))))) by lia.
    replace (Z.to_nat (Z.of_nat (S k) * 3 + 1)) with (S (S (S (Z.to_nat (Z.of_nat k * 3 + 1))))) by lia.
    replace (Z.to_nat (Z.of_nat (S k) * 3 + 2)) with (S (S (S (Z.to_nat (Z.of_nat k * 3 + 2))))) by lia. simpl. done.
Qed.
Lemma colour_flat3 pal k p rest : pal !! k = Some p → colour (flat3 pal ++ rest) (Z.of_nat k * 3) = pixel p.
Proof. intros Hk. destruct (at_flat3 pal k p rest Hk) as (H1 & H2 & H3). unfold colour. rewrite H1, H2, H3. by destruct p as [[??]?]. Qed.
Lemma palette_draws pal data rest :
  Forall Websock.byte data → len data = w * h →
  (∀ c r, 0 <= c < w → 0 <= r < h → pal !! Z.to_nat (at_ data (r * w + c)) = Some (img c r)) →
  paletteRect w h data (flat3 pal ++ rest) = pixels w h img.
Proof.
  intros Hb Hl Hd. unfold paletteRect, pixels. rewrite concat_rows by done. apply concat_ext. intros r Hr. apply concat_ext. intros c Hc.
  specialize (Hd c r Hc Hr). assert (0 <= r * w + c < len data) as Hk by nia.
  destruct (lookup_lt_is_Some_2 data (Z.to_nat (r * w + c))) as [k Ek]; [unfold len, Websock.len in Hk; lia|]. rewrite Ek.
  assert (at_ data (r * w + c) = k) as Ea by (by apply nth_lookup_Some). rewrite Ea in Hd.
  assert (0 <= k) by (pose proof (at_byte data (r * w + c) Hb); lia).
  rewrite <- (Z2Nat.id k) at 1 by done. by apply colour_flat3.
Qed.
Lemma bit_of a k : 0 <= k → Z.land (Z.shiftr a k) 1 = if Z.testbit a k then 1 else 0.
Proof.
  intros Hk. rewrite (Z.land_ones _ 1) by lia. change (2 ^ 1) with 2. rewrite <- Z.bit0_mod, Z.shiftr_spec, Z.add_0_l by lia. by destruct (Z.testbit a k).
Qed.
Lemma mono_draws p0 p1 data rest :
  (∀ c r, 0 <= c < w → 0 <= r < h →
     img c r = if Z.testbit (at_ data (r * ((w + 7) / 8) + c / 8)) (7 - c mod 8) then p1 else p0) →
  monoRect w h data (flat3 [p0; p1] ++ rest) = pixels w h img.
Proof.
  intros Hd. unfold monoRect, pixels. apply concat_ext. intros r Hr. rewrite concat_chunks by done. unfold monoRow.
  assert (∀ k b, 0 <= 8 * k + b < w → 0 <= b < 8 →
    colour (flat3 [p0; p1] ++ rest) (Z.land (Z.shiftr (at_ data (r * ((w + 7) / 8) + k)) (7 - b)) 1 * 3) = pixel (img (8 * k + b) r)) as Hbit.
  { intros k b Hk Hb. rewrite (Hd (8 * k + b) r Hk Hr), bit_of by lia.
    replace ((8 * k + b) / 8) with k by (apply (Z.div_unique _ 8 k b); lia).
    replace ((8 * k + b) mod 8) with b by (apply (Z.mod_unique _ 8 k b); lia).
    destruct (Z.testbit _ _); [apply (colour_flat3 _ 1)|apply (colour_flat3 _ 0)]; done. }
  pose proof (Z.div_mod w 8 ltac:(lia)). pose proof (Z.mod_pos_bound w 8 ltac:(lia)).
  f_equal; [apply concat_ext; intros k Hk|]; apply concat_ext; intros b Hb; apply Hbit; lia.
Qed.

Hypothesis Hbytes : ∀ c r, byte3 (img c r).
Lemma add_sub v p : byte3 v → map3 add8 (map3 sub8 v p) p = v.
Proof.
  destruct v as [[v1 v2] v3], p as [[p1 p2] p3]. intros (H1 & H2 & H3). unfold map3, add8, sub8, Websock.byte in *.
  assert (∀ a b, 0 <= a < 256 → ((a - b) mod 256 + b) mod 256 = a) as Hm.
  { intros a b Ha. rewrite Zplus_mod_idemp_l, Z.sub_add. by apply Z.mod_small. }
  by rewrite !Hm.
Qed.
Lemma edge_inside c r : 0 <= c → 0 <= r → edge img c r = img c r.
Proof. intros Hc Hr. unfold edge. by rewrite !(proj2 (Z.ltb_ge _ _)) by done. Qed.
Lemma predict_left l : byte3 l → predict l zero3 zero3 = l.
Proof.
  destruct l as [[a b] c]. intros (Ha & Hb & Hc). unfold predict, predict1, zero3, Websock.byte in *.
  rewrite !(proj2 (Z.ltb_ge _ _)) by lia. by rewrite !Z.add_0_r, !Z.sub_0_r.
Qed.
Definition row (r : Z) : list bytes3 := (λ c, img c r) <$> indices w.
Section gradient.
Variable data : bytes.
Hypothesis Hd : ∀ c r, 0 <= c < w → 0 <= r < h → data3 data (r * w + c) =
  map3 sub8 (img c r) (predict (edge img (c - 1) r) (edge img c (r - 1)) (edge img (c - 1) (r - 1))).
Lemma edge_byte c r : byte3 (edge img c r).
Proof. unfold edge. case_match; [by unfold zero3, byte3, Websock.byte; lia|apply Hbytes]. Qed.
Lemma gradient_row_draws r n : 1 <= r < h → ∀ c0, 0 <= c0 → c0 + Z.of_nat n <= w →
  gradient_row (edge img (c0 - 1) r) (edge img (c0 - 1) (r - 1)) ((λ c, img c (r - 1)) <$> seqZ c0 (Z.of_nat n))
    ((λ c, data3 data (r * w + c)) <$> seqZ c0 (Z.of_nat n)) = (λ c, img c r) <$> seqZ c0 (Z.of_nat n).
Proof.
  intros Hr. induction n as [|n IH]; intros c0 H0 Hn; [done|]. rewrite seqZ_cons by lia. cbn [fmap list_fmap gradient_row]. cbv zeta.
  rewrite Hd by lia. rewrite (edge_inside c0 (r - 1)) by lia. rewrite add_sub by apply Hbytes. f_equal.
  replace (Z.pred (Z.of_nat (S n))) with (Z.of_nat n) by lia.
  specialize (IH (Z.succ c0) ltac:(lia) ltac:(lia)). replace (Z.succ c0 - 1) with c0 in IH by lia.
  by rewrite !edge_inside in IH by lia.
Qed.
Lemma gradient_first_draws n : 0 < h → ∀ c0, 0 <= c0 → c0 + Z.of_nat n <= w →
  gradient_first (edge img (c0 - 1) 0) ((λ c, data3 data (0 * w + c)) <$> seqZ c0 (Z.of_nat n)) = (λ c, img c 0) <$> seqZ c0 (Z.of_nat n).
Proof.
  intros Hh0. induction n as [|n IH]; intros c0 H0 Hn; [done|]. rewrite seqZ_cons by lia. cbn [fmap list_fmap gradient_first]. cbv zeta.
  rewrite Hd by lia. assert (∀ c, edge img c (0 - 1) = zero3) as E by (intros c; unfold edge; by rewrite orb_true_r).
  rewrite !E, predict_left, add_sub by (apply edge_byte || apply Hbytes). simpl. f_equal.
  replace (Z.pred (Z.of_nat (S n))) with (Z.of_nat n) by lia.
  specialize (IH (Z.succ c0) ltac:(lia) ltac:(lia)). replace (Z.succ c0 - 1) with c0 in IH by lia.
  by rewrite edge_inside in IH by lia.
Qed.
Lemma gradient_rows_draw n : ∀ r0, 1 <= r0 → r0 + Z.of_nat n <= h →
  gradient_rows (row (r0 - 1)) (data_row w data <$> seqZ r0 (Z.of_nat n)) = row <$> seqZ r0 (Z.of_nat n).
Proof.
  induction n as [|n IH]; intros r0 H0 Hn; [done|]. rewrite seqZ_cons by lia. cbn [fmap list_fmap gradient_rows].
  assert (gradient_row zero3 zero3 (row (r0 - 1)) (data_row w data r0) = row r0) as ->.
  { pose proof (gradient_row_draws r0 (Z.to_nat w) ltac:(lia) 0 ltac:(lia) ltac:(lia)) as Hrow. rewrite Z2Nat.id in Hrow by done. exact Hrow. }
  cbv zeta. f_equal. replace (Z.pred (Z.of_nat (S n))) with (Z.of_nat n) by lia.
  specialize (IH (Z.succ r0) ltac:(lia) ltac:(lia)). replace (Z.succ r0 - 1) with r0 in IH by lia. exact IH.
Qed.
Lemma gradient_draws : 0 < h → rgbx (gradient (data_row w data <$> indices h)) = pixels w h img.
Proof.
  intros Hh0. assert (gradient (data_row w data <$> indices h) = row <$> indices h) as ->.
  { unfold indices at 1 2. rewrite seqZ_cons by lia. cbn [fmap list_fmap gradient].
    assert (gradient_first zero3 (data_row w data 0) = row 0) as ->.
    { pose proof (gradient_first_draws (Z.to_nat w) Hh0 0 ltac:(lia) ltac:(lia)) as Hrow. rewrite Z2Nat.id in Hrow by done. exact Hrow. }
    cbv zeta. f_equal. pose proof (gradient_rows_draw (Z.to_nat (Z.pred h)) 1 ltac:(lia) ltac:(lia)) as Hrows.
    rewrite Z2Nat.id in Hrows by lia. exact Hrows. }
  unfold rgbx, pixels, row. generalize (indices h) as rs. induction rs as [|r rs IH]; [done|].
  cbn [fmap list_fmap mjoin list_join]. rewrite fmap_app, join_app. f_equal; [|exact IH].
  by rewrite <- list_fmap_compose.
Qed.
End gradient.
End filters.

(** ** A server's rectangle *)
(** the length as the server writes it *)
Definition packed_len (n : Z) : bytes :=
  if n <? 128 then [n]
  else if n <? 16384 then [n mod 128 + 128; n / 128]
  else [n mod 128 + 128; n / 128 mod 128 + 128; n / 16384].
Lemma low7 a : Z.land a 127 = a mod 128.
Proof. exact (Z.land_ones a 7 ltac:(lia)). Qed.
Lemma high_bit a : 0 <= a < 256 → (Z.land a 128 =? 0) = (a <? 128).
Proof.
  intros Ha. pose proof (Words.checked_below (λ a, eqb (Z.land a 128 =? 0) (a <? 128)) 256 a ltac:(by vm_compute) Ha) as H1.
  by apply eqb_prop in H1.
Qed.
Lemma read_packed n s q : 0 <= n < 2 ^ 22 → 3 <= len (packed_len n ++ q) → read_len s (packed_len n ++ q) = Some (with_len n s, q).
Proof.
  intros Hn Hl. unfold read_len. rewrite (proj2 (Z.ltb_ge _ _)) by done. unfold packed_len. clear Hl.
  assert (∀ a b, 0 <= b < 128 → Z.lor b (Z.shiftl a 7) = a * 128 + b) as Hlor.
  { intros a b Hb. rewrite Z.lor_comm, Z.shiftl_mul_pow2 by lia. apply (Words.lor_low a b 7); lia. }
  pose proof (Z.mod_pos_bound n 128 ltac:(lia)). pose proof (Z.div_mod n 128 ltac:(lia)).
  assert (∀ b, 0 <= b < 128 → Z.land (b + 128) 127 = b) as Hlow.
  { intros b Hb. rewrite low7, <- (Z.mul_1_l 128) at 1. rewrite Z_mod_plus_full. by apply Z.mod_small. }
  destruct (n <? 128) eqn:E1; [|destruct (n <? 16384) eqn:E2]; cbn [app].
  - apply Z.ltb_lt in E1. unfold at_. change (nth (Z.to_nat 0) _ 0) with n. rewrite high_bit, (proj2 (Z.ltb_lt _ _)), low7, Z.mod_small by lia. done.
  - apply Z.ltb_ge in E1. apply Z.ltb_lt in E2. assert (n / 128 < 128) by (apply Z.div_lt_upper_bound; lia). assert (0 <= n / 128) by (apply Z.div_pos; lia).
    unfold at_. change (nth (Z.to_nat 0) _ 0) with (n mod 128 + 128). change (nth (Z.to_nat 1) _ 0) with (n / 128).
    rewrite !high_bit, (proj2 (Z.ltb_ge _ _)), (proj2 (Z.ltb_lt _ _)), Hlow, low7, (Z.mod_small (n / 128)), Hlor by lia.
    simpl. do 3 f_equal. lia.
  - apply Z.ltb_ge in E1. apply Z.ltb_ge in E2. assert (0 <= n / 128) by (apply Z.div_pos; lia). assert (n / 16384 = n / 128 / 128) as Ed by (rewrite Z.div_div by lia; done).
    assert (0 <= n / 16384 < 256) by (split; [apply Z.div_pos; lia|apply Z.div_lt_upper_bound; lia]).
    pose proof (Z.mod_pos_bound (n / 128) 128 ltac:(lia)). pose proof (Z.div_mod (n / 128) 128 ltac:(lia)).
    unfold at_. change (nth (Z.to_nat 0) _ 0) with (n mod 128 + 128). change (nth (Z.to_nat 1) _ 0) with (n / 128 mod 128 + 128).
    change (nth (Z.to_nat 2) _ 0) with (n / 16384).
    rewrite !high_bit, !(proj2 (Z.ltb_ge _ _)), !Hlow, Hlor by lia.
    rewrite Z.lor_comm, Z.shiftl_mul_pow2 by lia. change (2 ^ 14) with 16384.
    pose proof (Words.lor_low (n / 16384) (n / 128 mod 128 * 128 + n mod 128) 14 ltac:(lia) ltac:(nia)) as Hl2.
    change (2 ^ 14) with 16384 in Hl2. rewrite Hl2. simpl. do 3 f_equal. nia.
Qed.

(** the data as they are sent of a stream: as they are, or compressed *)
Inductive sent (z : Inflator.inflator) (data : bytes) : bytes → Inflator.inflator → Prop :=
  | SentPlain : len data < 12 → sent z data data z
  | SentPacked c z' :
      12 <= len data → 2 <= len c < 2 ^ 22 →
      Inflator.inflate_bytes (len data) (Inflator.setInput (Some c) z) = Some (data, z') →
      sent z data (packed_len (len c) ++ c) (Inflator.setInput None z').
Definition between (s : tight) : Prop :=
  t_ctl s = None ∧ t_filter s = None ∧ t_numColors s = 0 ∧ t_len s = 0 ∧ length (t_zlibs s) = 4%nat ∧ length (t_palette s) = 1024%nat.

Lemma next_reads {S} (n : S → Z) s q r : n s = len q → next n s (q ++ r) = Got s r q.
Proof.
  intros Hn. unfold next. rewrite Hn, len_app_. pose proof (Websock.len_nonneg r). pose proof (Websock.len_nonneg q).
  rewrite (proj2 (Z.ltb_ge _ _)) by lia. rewrite drop_len, take_len by lia. unfold len, Websock.len. rewrite Nat2Z.id.
  by rewrite drop_all, take_ge.
Qed.
Lemma pixel_data_reads i z data body z' s r :
  t_zlibs s !! i = Some z → t_len s = 0 → sent z data body z' →
  pixel_data i (len data) s (body ++ r) = Got (with_zlibs (<[i := z']> (t_zlibs s)) s) r data.
Proof.
  intros Hz Hl0.
  intros [Hd|c z2 Hd Hc Hi].
  - unfold pixel_data. rewrite (proj2 (Z.ltb_lt _ _)), next_reads by done. rewrite list_insert_id by done. by destruct s.
  - unfold pixel_data. rewrite (proj2 (Z.ltb_ge _ _)) by done. unfold then_do, readData, stage. unfold then_do. rewrite Hl0. simpl.
    rewrite <- app_assoc, read_packed; [|lia|].
    2: { rewrite len_app_, len_app_. pose proof (Websock.len_nonneg r). assert (1 <= len (packed_len (len c))); [|lia].
         unfold packed_len. repeat case_match; unfold len, Websock.len; simpl; lia. }
    rewrite next_reads by done.
    unfold unzip. simpl. rewrite Hz. simpl. rewrite Hi. unfold with_zlibs, with_len. simpl. by destruct s; simpl in *; subst.
Qed.
Lemma control_byte i : 0 <= i < 4 →
  Z.shiftr (64 + 16 * i) 4 = 4 + i ∧ (4 + i =? 8) = false ∧ (4 + i =? 9) = false ∧ (4 + i =? 10) = false
  ∧ (Z.land (4 + i) 8 =? 0) = true ∧ (Z.land (4 + i) 4 =? 0) = false ∧ Z.land (4 + i) 3 = i ∧ ∀ l, length l = 4%nat → resets (64 + 16 * i) l = l.
Proof.
  intros Hi. assert (i = 0 ∨ i = 1 ∨ i = 2 ∨ i = 3) as Hc by lia.
  destruct Hc as [-> | [-> | [-> | ->]]]; (split_and!; [done..|intros [|a [|b [|c [|d [|]]]]] Hl; done]).
Qed.
Lemma len_flat3 l : len (flat3 l) = Z.of_nat (length l) * 3.
Proof.
  induction l as [|[[a b] c] l IH]; [done|]. change (flat3 ((a, b, c) :: l)) with ([a; b; c] ++ flat3 l).
  rewrite Websock.len_app, IH. unfold Websock.len. simpl. lia.
Qed.
(** the palette of a rectangle, its count first *)
Lemma palette_reads s pal q : (1 <= length pal <= 256)%nat → length (t_palette s) = 1024%nat →
  ∃ rest, read_palette s (Z.of_nat (length pal) - 1 :: flat3 pal ++ q) = Some (with_colors (Z.of_nat (length pal)) (flat3 pal ++ rest) s, q)
    ∧ length (flat3 pal ++ rest) = 1024%nat.
Proof.
  intros Hp Hs. exists (drop (length (flat3 pal)) (t_palette s)). unfold read_palette.
  pose proof (len_flat3 pal) as Hf. pose proof (Websock.len_nonneg q).
  assert (len (Z.of_nat (length pal) - 1 :: flat3 pal ++ q) = 1 + Z.of_nat (length pal) * 3 + len q) as El.
  { rewrite Websock.len_cons, Websock.len_app, Hf. lia. }
  rewrite El. change (at_ (Z.of_nat (length pal) - 1 :: flat3 pal ++ q) 0) with (Z.of_nat (length pal) - 1).
  rewrite Z.sub_add, !(proj2 (Z.ltb_ge _ _)) by lia. rewrite <- Hf. unfold len, Websock.len in *. cbn [drop]. rewrite drop_0.
  rewrite Nat2Z.id, take_app_length.
  replace (Z.to_nat (1 + Z.of_nat (length (flat3 pal)))) with (S (length (flat3 pal))) by lia. cbn [drop]. rewrite drop_app_length.
  split; [done|]. rewrite length_app, length_drop. lia.
Qed.
Lemma filter_draws x y w h img f header data body i z z' s r :
  0 < w → 0 < h → (∀ c r, byte3 (img c r)) → Forall Websock.byte data → encodes w h img f header data →
  t_numColors s = 0 → t_len s = 0 → length (t_palette s) = 1024%nat → t_zlibs s !! i = Some z → sent z data body z' →
  ∃ p, length p = 1024%nat ∧
    filtered x y w h i (Some f) s (header ++ body ++ r) =
      Got (with_zlibs (<[i := z']> (t_zlibs s)) (with_colors 0 p s)) r [BlitImage x y w h (pixels w h img)].
Proof.
  intros Hw Hh Himg Hb Henc Hn Hl0 Hp Hz Hs.
  assert (∀ s0, t_zlibs s0 = t_zlibs s → t_len s0 = 0 → pixel_data i (len data) s0 (body ++ r) = Got (with_zlibs (<[i := z']> (t_zlibs s0)) s0) r data) as Hread.
  { intros s0 E0 E1. apply (pixel_data_reads i z); [by rewrite E0|done|done]. }
  assert (0 < w * h) by nia. assert (1 <= (w + 7) / 8) by (apply Z.div_le_lower_bound; lia).
  destruct Henc as [data Hd Hi|pal data Hc Hd Hi|p0 p1 data Hd Hi|data Hd Hi].
  - exists (t_palette s). split; [done|]. simpl. unfold copyFilter. rewrite (proj2 (Z.eqb_neq _ _)) by lia. unfold then_do.
    rewrite <- Hd, Hread by done. rewrite (copied_draws w h img) by (done || lia). unfold blit. do 2 f_equal. by destruct s; simpl in *; subst.
  - destruct (palette_reads s pal (body ++ r)) as (rest & Er & Elen); [lia|done|]. exists (flat3 pal ++ rest). split; [done|].
    simpl. unfold paletteFilter, stage. rewrite Hn. simpl. rewrite Er. unfold choose. simpl.
    assert (rowSize w (Z.of_nat (length pal)) = w) as Erow.
    { unfold rowSize. rewrite (proj2 (Z.leb_gt _ _)) by lia. replace (w * 8 + 7) with (7 + w * 8) by lia. rewrite Z.div_add, Z.div_small by lia. lia. }
    rewrite Erow, (proj2 (Z.eqb_neq _ _)) by lia. unfold then_do. rewrite <- Hd, Hread by done.
    rewrite (proj2 (Z.eqb_neq _ _)) by lia. simpl. rewrite (palette_draws w h img) by (done || lia). done.
  - destruct (palette_reads s [p0; p1] (body ++ r)) as (rest & Er & Elen); [simpl; lia|done|]. exists (flat3 [p0; p1] ++ rest). split; [done|].
    change (Z.of_nat (length [p0; p1])) with 2 in Er. change (2 - 1) with 1 in Er.
    cbn [filtered]. unfold paletteFilter, stage. rewrite Hn. change ((1 :: flat3 [p0; p1]) ++ body ++ r) with (1 :: flat3 [p0; p1] ++ body ++ r).
    cbn [negb Z.eqb]. rewrite Er. unfold choose. cbn [t_numColors with_colors]. assert (rowSize w 2 = (w + 7) / 8) as Erow by (unfold rowSize; simpl; by rewrite Z.mul_1_r).
    rewrite Erow, (proj2 (Z.eqb_neq _ _)) by nia. unfold then_do. rewrite <- Hd, Hread by done. simpl.
    rewrite (mono_draws w h img) by (done || lia). done.
  - exists (t_palette s). split; [done|]. simpl. unfold gradientFilter. rewrite (proj2 (Z.eqb_neq _ _)) by lia. unfold then_do.
    rewrite <- Hd, Hread by done. rewrite (gradient_draws w h img) by (done || lia). unfold blit. do 2 f_equal. by destruct s; simpl in *; subst.
Qed.

(** C9: A tight rectangle draws the server's picture: of any picture of bytes,
    sent with the copy, palette, two-colour or gradient filter over one of the
    four streams, compressed or, under twelve bytes, as it is, the decoder draws
    every pixel of it where it belongs, leaves the bytes behind it for what
    follows, and is ready for the next rectangle with the stream where the
    compression left it. *)
Theorem tight_draws_the_picture x y w h img f header data body i z z' s r :
  0 < w → 0 < h → (∀ c r, byte3 (img c r)) → Forall Websock.byte data → encodes w h img f header data →
  between s → 0 <= i < 4 → t_zlibs s !! Z.to_nat i = Some z → sent z data body z' →
  ∃ s', decodeRect x y w h false s ([64 + 16 * i; f] ++ header ++ body ++ r) = Got s' r [BlitImage x y w h (pixels w h img)]
    ∧ between s' ∧ t_zlibs s' = <[Z.to_nat i := z']> (t_zlibs s).
Proof.
  intros Hw Hh Himg Hb Henc (Ec & Ef & En & El & Ez & Ep) Hi Hz Hs. set (q := header ++ body ++ r).
  destruct (control_byte i Hi) as (C1 & C2 & C3 & C4 & C5 & C6 & C7 & C8).
  set (s1 := with_filter (Some f) (with_ctl (Some (4 + i)) s)).
  destruct (filter_draws x y w h img f header data body (Z.to_nat i) z z' s1 r) as (p & Hp & Hd); try done. fold q in Hd.
  exists (with_ctl None (with_filter None (with_zlibs (<[Z.to_nat i := z']> (t_zlibs s)) (with_colors 0 p s1)))).
  split; [|split; [unfold between; simpl; by rewrite length_insert|done]].
  unfold decodeRect, stage at 1, read_ctl. rewrite Ec. simpl bool_decide. cbv iota.
  rewrite (proj2 (Z.ltb_ge _ _)) by (unfold len, Websock.len; simpl; lia).
  change (at_ ([64 + 16 * i; f] ++ q) 0) with (64 + 16 * i). cbv zeta. rewrite C1, C8 by done.
  unfold then_do at 1, choose at 1, rect_of. cbn [t_ctl with_ctl with_zlibs]. rewrite C2, C3, C4, C5.
  unfold basicRect, stage at 1, read_filter. simpl t_filter. rewrite Ef, C6. simpl bool_decide. cbv iota.
  change (drop 1 ([64 + 16 * i; f] ++ q)) with (f :: q).
  rewrite (proj2 (Z.ltb_ge _ _)) by (rewrite Websock.len_cons; pose proof (Websock.len_nonneg q); lia).
  change (at_ (f :: q) 0) with f. change (drop 1 (f :: q)) with q. unfold then_do, choose. simpl t_filter. rewrite C7.
  replace (with_filter (Some f) (with_ctl (Some (4 + i)) (with_zlibs (t_zlibs s) s))) with s1 by (by destruct s).
  rewrite Hd. done.
Qed.
End drawn.

(** ** Runs, with a stream that stores its bytes *)
#[local] Instance stored : Pako := {|
  zstream := unit; inflateInit := tt; inflateReset _ := tt;
  pako_inflate _ input room := (0, drop (Z.to_nat room) input, take (Z.to_nat room) input, tt);
  zdeflate := unit; deflateInit := tt; pako_deflate _ input room := (0, [], input, tt) |}.
Definition slope : picture := λ c r, (10 * c, 20 * r, 200 + c).
Definition slope_data : bytes := mjoin ((λ r, mjoin ((λ c, let '(a, b, d) := map3 sub8 (slope c r)
  (predict (edge slope (c - 1) r) (edge slope c (r - 1)) (edge slope (c - 1) (r - 1))) in [a; b; d]) <$> indices 3)) <$> indices 2).
Definition light (s : tight) : tight := with_zlibs ((λ _, Inflator.Inflator_ inflateInit [] [replicate 18 0]) <$> t_zlibs s) s.
(** a gradient of three by two pixels, compressed *)
Lemma tight_draws_the_picture_witness :
  slope_data = [0; 0; 200; 10; 0; 1; 10; 0; 1; 0; 20; 0; 0; 0; 0; 0; 0; 0] ∧
  ∃ s', decodeRect 5 6 3 2 false (light tight_start) ([64 + 16 * 1; 2] ++ [] ++ (packed_len 18 ++ slope_data) ++ [77])
    = Got s' [77] [BlitImage 5 6 3 2 (pixels 3 2 slope)] ∧ between s'.
Proof.
  split; [by vm_compute|].
  destruct (tight_draws_the_picture 5 6 3 2 (λ c r, if (0 <=? c) && (c <? 3) && (0 <=? r) && (r <? 2) then slope c r else zero3) 2 [] slope_data (packed_len 18 ++ slope_data) 1
    (Inflator.Inflator_ inflateInit [] [replicate 18 0]) (Inflator.setInput None (Inflator.Inflator_ inflateInit [] [slope_data])) (light tight_start) [77])
    as (s' & E & Hb & _).
  - lia.
  - lia.
  - intros c r. destruct ((0 <=? c) && (c <? 3) && (0 <=? r) && (r <? 2)) eqn:Ec; [|by unfold zero3, byte3, Websock.byte; lia].
    rewrite !andb_true_iff, !Z.leb_le, !Z.ltb_lt in Ec. unfold slope, byte3, Websock.byte. lia.
  - apply (bool_decide_unpack _). vm_compute. exact I.
  - apply EncGradient; [by vm_compute|]. intros c r Hc Hr.
    assert (c = 0 ∨ c = 1 ∨ c = 2) as [-> | [-> | ->]] by lia; assert (r = 0 ∨ r = 1) as [-> | ->] by lia; by vm_compute.
  - by unfold between.
  - lia.
  - done.
  - apply (SentPacked _ _ slope_data); [by vm_compute|by vm_compute|by vm_compute].
  - exists s'. split; [exact E|done].
Defined.

(** A palette rectangle without pixels returns before it forgets its palette:
    the next one is read with it, and its own palette is taken for pixels. *)
Example a_palette_is_kept :
  let empty := [16 * 4; 1; 2; 1; 1; 1; 2; 2; 2; 3; 3; 3] in
  let next_rect := [16 * 4; 1; 2; 9; 9; 9; 8; 8; 8; 7; 7; 7; 0] in
  match decodeRect 0 0 1 0 false tight_start empty with
  | Got s [] [] => t_numColors s = 3 ∧ (let '(_, _, q, ds) := to_result (decodeRect 0 0 1 1 false s next_rect) in (q, ds))
      = ([9; 9; 9; 8; 8; 8; 7; 7; 7; 0], [BlitImage 0 0 1 1 [3; 3; 3; 255]])
  | _ => False
  end.
Proof. by vm_compute. Qed.
(** One colour is read as if it were two, a bit for a pixel, but drawn as if it
    had a byte: the pixels after the last byte that came are black. *)
Example one_colour :
  let '(_, _, q, ds) := to_result (decodeRect 0 0 3 1 false tight_start [16 * 4; 1; 0; 9; 9; 9; 0; 0; 0]) in
  (q, ds) = ([0; 0], [BlitImage 0 0 3 1 [9; 9; 9; 255; 0; 0; 0; 255; 0; 0; 0; 255]]).
Proof. by vm_compute. Qed.
End Tight.
