(* ===== verification/Zrle.v ===== *)
(** * noVNC: the zlib and ZRLE encodings:
    static/js/novnc/core/decoders/zlib.js, zrle.js

    [Zlib]: compressed pixels.  [Zrle]: compressed tiles of 64 by 64 pixels,
    plain, of one colour, of a palette, or as runs.  Compressed data are pako's;
    [capacity] is what a stream can still give, which bounds the loop that reads
    a run's length. *)
From S2P Require Import Prelude Words Websock Decoders Inflator Resumable Tight.

#[local] Open Scope list_scope.
#[local] Open Scope Z_scope.

Module Zlib.
Import Decoders Resumable.
Section zlib.
Context `{Pako}.
Record zlib := Zlib_ { z_length : Z; z_zlib : Inflator.inflator }.
Definition zlib_start : zlib := Zlib_ 0 Inflator.fresh.
Definition with_length (n : Z) (s : zlib) : zlib := Zlib_ n (z_zlib s).
Definition opaque (data : bytes) (n : Z) : bytes :=
  mjoin ((λ i, [at_ data (4 * i); at_ data (4 * i + 1); at_ data (4 * i + 2); 255]) <$> indices n).
Definition unzip (x y width height : Z) (s : zlib) (data : bytes) : zlib * option (list drawing) :=
  let z := Inflator.setInput (Some data) (z_zlib s) in
  match Inflator.inflate_bytes (width * height * 4) z with
  | Some (out, z') => (Zlib_ 0 (Inflator.setInput None z'), Some [BlitImage x y width height (opaque out (width * height))])
  | None => (Zlib_ 0 z, None)
  end.
Definition decodeRect (x y width height : Z) : reader zlib (list drawing) :=
  if (width =? 0) || (height =? 0) then now (λ s, (s, Some []))
  else then_do (stage (λ s, negb (z_length s =? 0))
                  (λ s q, if len q <? 4 then None else Some (with_length (Websock.be (take 4 q)) s, drop 4 q))
                  (next z_length))
         (unzip x y width height).

Definition good (s : zlib) : Prop := 0 <= z_length s.
Lemma zlib_steady x y w h : steady good good (decodeRect x y w h).
Proof.
  unfold decodeRect. destruct (_ || _); [by apply steady_now|].
  eapply steady_then; [by apply (steady_length good z_length with_length 4)|].
  intros s a _. unfold unzip. by destruct (Inflator.inflate_bytes _ _) as [[??]|].
Qed.
End zlib.
End Zlib.

Module Zrle.
Import Decoders Resumable.
(** what a stream can still give of its input *)
Class Capacity `{Pako} := {
  capacity : zstream → bytes → nat;
  capacity_used z input n ret rest out z' :
    pako_inflate z input n = (ret, rest, out, z') → (capacity z' rest + length out <= capacity z input)%nat }.

Section zrle.
Context `{Capacity}.
(** ** State

    [_tileBuffer] keeps nothing: what is drawn of it was written for the tile. *)
Record zrle := Zrle_ { z_length : Z; z_inflator : Inflator.inflator; z_pixelBuffer : bytes }.
Definition zrle_start : zrle := Zrle_ 0 Inflator.fresh (replicate (64 * 64 * 4) 0).
Definition with_length (n : Z) (s : zrle) : zrle := Zrle_ n (z_inflator s) (z_pixelBuffer s).

(** ** Reading decompressed bytes; none: it throws *)
Definition M (A : Type) : Type := zrle → option (A * zrle).
Definition ret {A} (a : A) : M A := λ s, Some (a, s).
Definition bind {A B} (m : M A) (f : A → M B) : M B := λ s, match m s with Some (a, s) => f a s | None => None end.
Definition throw {A} : M A := λ _, None.
#[local] Notation "'let*' x ':=' m 'in' f" := (bind m (λ x, f)) (at level 200, x pattern, right associativity).

Definition inflate (n : Z) : M bytes := λ s,
  match Inflator.inflate_bytes n (z_inflator s) with
  | Some (out, z) => Some (out, Zrle_ (z_length s) z (z_pixelBuffer s))
  | None => None
  end.
Definition inflate1 : M Z := let* b := inflate 1 in ret (at_ b 0).
(** [_readPixels] fills the start of the buffer it returns *)
Definition readPixels (n : Z) : M bytes :=
  let* buffer := inflate (3 * n) in
  λ s, let data := Tight.copied buffer n ++ drop (Z.to_nat (4 * n)) (z_pixelBuffer s) in Some (data, Zrle_ (z_length s) (z_inflator s) data).
(** the pixel at the index [i] of a buffer *)
Definition four (data : bytes) (i : Z) : bytes := [at_ data (i * 4); at_ data (i * 4 + 1); at_ data (i * 4 + 2); at_ data (i * 4 + 3)].

Definition getBitsPerPixelInPalette (paletteSize : Z) : Z :=
  if paletteSize <=? 2 then 1 else if paletteSize <=? 4 then 2 else 4.
(** a row's pixels, from the byte read last and the bits of it that are left *)
Fixpoint palette_row (n : nat) (bpp : Z) (palette : bytes) (encoded shift : Z) : M (bytes * (Z * Z)) :=
  match n with
  | 0%nat => ret ([], (encoded, shift))
  | S n =>
    let* (encoded, shift) := (if shift <? 0 then let* e := inflate1 in ret (e, 8 - bpp) else ret (encoded, shift)) in
    let indexInPalette := Z.land (Z.shiftr encoded shift) (Z.shiftl 1 bpp - 1) in
    let* (row, es) := palette_row n bpp palette encoded (shift - bpp) in
    ret (four palette indexInPalette ++ row, es)
  end.
Fixpoint palette_rows (n : nat) (tilew : Z) (bpp : Z) (palette : bytes) (encoded : Z) : M bytes :=
  match n with
  | 0%nat => ret []
  | S n =>
    let* (row, es) := palette_row (Z.to_nat tilew) bpp palette encoded (8 - bpp) in
    let* encoded := (if (es.2 <? 8 - bpp) && negb (bool_decide (n = 0%nat)) then inflate1 else ret es.1) in
    let* rows := palette_rows n tilew bpp palette encoded in
    ret (row ++ rows)
  end.
Definition decodePaletteTile (paletteSize tilew tileh : Z) : M bytes :=
  let* palette := readPixels paletteSize in
  let* encoded := inflate1 in
  palette_rows (Z.to_nat tileh) tilew (getBitsPerPixelInPalette paletteSize) palette encoded.

(** 255 and on, in at most [n] turns *)
Fixpoint rle_length (n : nat) (length : Z) : M Z :=
  match n with
  | 0%nat => throw
  | S n => let* current := inflate1 in
           if current =? 255 then rle_length n (length + current) else ret (length + current + 1)
  end.
Definition readRLELength : M Z := λ s, rle_length (S (capacity (Inflator.strm (z_inflator s)) (Inflator.input (z_inflator s)))) 0 s.
Definition repeated (pixel : bytes) (length : Z) : bytes := mjoin (replicate (Z.to_nat length) pixel).
(** each turn draws a pixel at least *)
Fixpoint rle_tile (n : nat) (i tileSize : Z) : M bytes :=
  match n with
  | 0%nat => ret []
  | S n =>
    if i <? tileSize then
      let* pixel := readPixels 1 in
      let* length := readRLELength in
      let* rest := rle_tile n (i + length) tileSize in
      ret (repeated (four pixel 0) length ++ rest)
    else ret []
  end.
Definition decodeRLETile (tileSize : Z) : M bytes := rle_tile (Z.to_nat tileSize) 0 tileSize.
Fixpoint rle_palette_tile (n : nat) (palette : bytes) (paletteSize offset tileSize : Z) : M bytes :=
  match n with
  | 0%nat => ret []
  | S n =>
    if offset <? tileSize then
      let* index := inflate1 in
      let* (index, length) := (if 128 <=? index then let* length := readRLELength in ret (index - 128, length) else ret (index, 1)) in
      if paletteSize <? index then throw
      else if tileSize <? offset + length then throw
      else
        let* rest := rle_palette_tile n palette paletteSize (offset + length) tileSize in
        ret (repeated (four palette index) length ++ rest)
    else ret []
  end.
Definition decodeRLEPaletteTile (paletteSize tileSize : Z) : M bytes :=
  let* palette := readPixels paletteSize in
  rle_palette_tile (Z.to_nat tileSize) palette paletteSize 0 tileSize.

(** ** Tiles *)
(** what is drawn of a buffer *)
Definition block (tx ty tw th : Z) (data : bytes) : drawing := BlitImage tx ty tw th (take (Z.to_nat (tw * th * 4)) data).
Definition tile (tx ty tw th : Z) : M drawing :=
  let tileSize := tw * th in
  let* subencoding := inflate1 in
  if subencoding =? 0 then let* data := readPixels tileSize in ret (block tx ty tw th data)
  else if subencoding =? 1 then
    let* background := readPixels 1 in ret (FillRect tx ty tw th [at_ background 0; at_ background 1; at_ background 2])
  else if (2 <=? subencoding) && (subencoding <=? 16) then
    let* data := decodePaletteTile subencoding tw th in ret (block tx ty tw th data)
  else if subencoding =? 128 then let* data := decodeRLETile tileSize in ret (block tx ty tw th data)
  else if (130 <=? subencoding) && (subencoding <=? 255) then
    let* data := decodeRLEPaletteTile (subencoding - 128) tileSize in ret (block tx ty tw th data)
  else throw.
Definition tiles_of (x y width height : Z) : list (Z * Z * Z * Z) :=
  mjoin ((λ r, let ty := y + 64 * r in
    (λ c, let tx := x + 64 * c in (tx, ty, Z.min 64 (x + width - tx), Z.min 64 (y + height - ty))) <$> indices ((width + 63) / 64))
    <$> indices ((height + 63) / 64)).
(** a tile that throws ends them *)
Fixpoint tiles (l : list (Z * Z * Z * Z)) (s : zrle) : zrle * bool * list drawing :=
  match l with
  | [] => (s, true, [])
  | (tx, ty, tw, th) :: l =>
    match tile tx ty tw th s with
    | Some (d, s) => let '(s, ok, ds) := tiles l s in (s, ok, d :: ds)
    | None => (s, false, [])
    end
  end.
Definition drawn (x y width height : Z) (s : zrle) (data : bytes) : zrle * bool * list drawing :=
  let '(s, ok, ds) := tiles (tiles_of x y width height) (Zrle_ (z_length s) (Inflator.setInput (Some data) (z_inflator s)) (z_pixelBuffer s)) in
  (if ok then with_length 0 s else s, ok, ds).
Definition decodeRect (x y width height : Z) : reader zrle (list drawing) :=
  then_draw (stage (λ s, negb (z_length s =? 0))
               (λ s q, if len q <? 4 then None else Some (with_length (Websock.be (take 4 q)) s, drop 4 q))
               (next z_length))
    (drawn x y width height).

(** ** What the readings keep: the length, and no more to come than before *)
Definition room (s : zrle) : nat := capacity (Inflator.strm (z_inflator s)) (Inflator.input (z_inflator s)).
Definition keeps {A} (m : M A) : Prop := ∀ s a s', m s = Some (a, s') → z_length s' = z_length s ∧ (room s' <= room s)%nat.
Lemma keeps_ret {A} (a : A) : keeps (ret a).
Proof. by intros s ? ? [= <- <-]. Qed.
Lemma keeps_throw {A} : keeps (@throw A).
Proof. by intros s ? ?. Qed.
Lemma keeps_bind {A B} (m : M A) (f : A → M B) : keeps m → (∀ a, keeps (f a)) → keeps (bind m f).
Proof.
  intros Hm Hf s b s'. unfold bind. destruct (m s) as [[a s1]|] eqn:E; [|done]. intros E2.
  destruct (Hm _ _ _ E) as [H1 H2]. destruct (Hf a _ _ _ E2) as [H3 H4]. split; [congruence|lia].
Qed.
Lemma inflate_uses n s out s' : inflate n s = Some (out, s') → z_length s' = z_length s ∧ (room s' + Z.to_nat n <= room s)%nat.
Proof.
  unfold inflate, Inflator.inflate_bytes, Inflator.inflate, room.
  destruct (pako_inflate _ _ n) as [[[code rest] o] z'] eqn:E. apply capacity_used in E.
  destruct (code <? 0); [done|]. destruct (len o =? n) eqn:El; [|done]. simpl. intros [= <- <-]. simpl.
  apply Z.eqb_eq in El. split; [done|]. unfold Websock.len in El. lia.
Qed.
Lemma keeps_inflate n : keeps (inflate n).
Proof. intros s a s' E. apply inflate_uses in E as [? ?]. split; [done|lia]. Qed.
Create HintDb zrle.
Hint Resolve keeps_ret keeps_throw keeps_bind keeps_inflate : zrle.
Ltac keep := repeat match goal with
  | |- keeps (bind _ _) => apply keeps_bind; [|intros ?]
  | |- keeps (if ?b then _ else _) => destruct b
  | |- keeps (let '(_, _) := ?x in _) => destruct x
  | |- keeps _ => solve [eauto with zrle]
  end.
Lemma keeps_inflate1 : keeps inflate1.
Proof. unfold inflate1. keep. Qed.
Lemma keeps_readPixels n : keeps (readPixels n).
Proof. unfold readPixels. keep. by intros s ? ? [= <- <-]. Qed.
Hint Resolve keeps_inflate1 keeps_readPixels : zrle.
Lemma keeps_rle_length n l : keeps (rle_length n l).
Proof. revert l. induction n as [|n IH]; intros l; simpl; keep. Qed.
Lemma keeps_readRLELength : keeps readRLELength.
Proof. intros s. apply keeps_rle_length. Qed.
Lemma keeps_palette_row n bpp p e sh : keeps (palette_row n bpp p e sh).
Proof. revert e sh. induction n as [|n IH]; intros e sh; simpl; keep. Qed.
Hint Resolve keeps_readRLELength keeps_palette_row : zrle.
Lemma keeps_palette_rows n tw bpp p e : keeps (palette_rows n tw bpp p e).
Proof. revert e. induction n as [|n IH]; intros e; simpl; keep. Qed.
Lemma keeps_rle_tile n i ts : keeps (rle_tile n i ts).
Proof. revert i. induction n as [|n IH]; intros i; simpl; keep. Qed.
Lemma keeps_rle_palette_tile n p ps i ts : keeps (rle_palette_tile n p ps i ts).
Proof. revert i. induction n as [|n IH]; intros i; simpl; keep. Qed.
Hint Resolve keeps_palette_rows keeps_rle_tile keeps_rle_palette_tile : zrle.
Lemma keeps_tile tx ty tw th : keeps (tile tx ty tw th).
Proof. unfold tile, decodePaletteTile, decodeRLETile, decodeRLEPaletteTile. keep. Qed.

(** The loop that reads a run's length ends: more turns change nothing. *)
Lemma rle_length_ends n l s : (room s < n)%nat → rle_length (S n) l s = rle_length n l s.
Proof.
  revert l s. induction n as [|n IH]; intros l s Hn; [lia|]. change (rle_length (S (S n)) l) with (let* current := inflate1 in
    if current =? 255 then rle_length (S n) (l + current) else ret (l + current + 1)). cbn [rle_length]. unfold bind.
  destruct (inflate1 s) as [[c s']|] eqn:E; [|done]. destruct (c =? 255); [|done]. apply IH.
  unfold inflate1, bind in E. destruct (inflate 1 s) as [[b s1]|] eqn:E1; [|done]. injection E as _ <-.
  apply inflate_uses in E1 as [_ E1]. lia.
Qed.
Lemma readRLELength_ends n s : (room s < n)%nat → readRLELength s = rle_length n 0 s.
Proof.
  intros Hn. unfold readRLELength. change (capacity _ _) with (room s).
  replace n with (n - S (room s) + S (room s))%nat by lia. induction (n - S (room s))%nat as [|k IH]; [done|].
  simpl Nat.add. rewrite IH. symmetry. apply rle_length_ends. lia.
Qed.
Lemma rle_length_positive n l s k s' : 0 <= l → (∀ s b s', inflate1 s = Some (b, s') → 0 <= b) → rle_length n l s = Some (k, s') → 1 <= k.
Proof.
  intros Hl Hb. revert l s Hl. induction n as [|n IH]; intros l s Hl; [done|]. simpl. unfold bind.
  destruct (inflate1 s) as [[c s1]|] eqn:E; [|done]. apply Hb in E. destruct (c =? 255); [apply IH; lia|]. intros [= <- _]. lia.
Qed.

(** ** Waiting does not matter *)
Definition good (s : zrle) : Prop := 0 <= z_length s.
Lemma tiles_length l s : z_length (tiles l s).1.1 = z_length s.
Proof.
  revert s. induction l as [|[[[tx ty] tw] th] l IH]; intros s; [done|]. simpl.
  destruct (tile tx ty tw th s) as [[d s']|] eqn:E; [|done]. apply keeps_tile in E as [E _].
  specialize (IH s'). destruct (tiles l s') as [[s2 ok] ds]. simpl in *. congruence.
Qed.
Lemma zrle_steady x y w h : steady good good (decodeRect x y w h).
Proof.
  eapply steady_draw; [by apply (steady_length good z_length with_length 4)|].
  intros s a Hs. unfold drawn. set (s0 := Zrle_ _ _ _). pose proof (tiles_length (tiles_of x y w h) s0) as Hl.
  destruct (tiles _ s0) as [[s' []] ds]; [done|]. unfold good in *. simpl in *. by rewrite Hl.
Qed.
End zrle.

(** An index that is the size of the palette is taken, and draws what an
    earlier tile left in the buffer; the check is for greater ones. *)
#[local] Existing Instance Tight.stored.
#[local] Instance stored_capacity : @Capacity Tight.stored.
Proof.
  refine (@Build_Capacity Tight.stored (λ _ input, length input) _).
  intros z input n code rest out z'. simpl. intros [= <- <- <- <-]. rewrite length_take, length_drop. lia.
Defined.
Example index_past_the_palette :
  let s := Zrle_ 0 (Inflator.Inflator_ inflateInit [] [[0; 0; 0; 0; 0; 0]]) (replicate 8 0 ++ [9; 8; 7; 255]) in
  (to_result (decodeRect 0 0 1 1 s ([0; 0; 0; 8] ++ [130; 1; 1; 1; 2; 2; 2; 2]))).2 = [BlitImage 0 0 1 1 [9; 8; 7; 255]].
Proof. by vm_compute. Qed.
End Zrle.
