(* ===== verification/Jpeg.v ===== *)
(** * noVNC: the JPEG encoding: static/js/novnc/core/decoders/jpeg.js

    A rectangle is a JPEG file, read segment by segment up to its end; the
    tables a file leaves out are the ones of an earlier file. *)
From S2P Require Import Prelude Words Websock Decoders Resumable Tight.

#[local] Open Scope list_scope.
#[local] Open Scope Z_scope.

Module Jpeg.
Import Decoders Resumable.

(** ** Segments *)
Inductive read := Waits_ | Throws_ (q : bytes) | Segment (segment : bytes) (q : bytes).
(** after a marker byte in coded data: no segment starts *)
Definition stuffed (b : Z) : bool := (b =? 0) || ((208 <=? b) && (b <=? 215)).
(** the next marker of coded data, from its place [pos] on *)
Fixpoint scan (data : bytes) (pos : Z) : option Z :=
  match data with
  | [] => None
  | b :: rest =>
    if b =? 255 then
      match rest with
      | [] => None
      | b1 :: rest => if stuffed b1 then scan rest (pos + 2) else Some pos
      end
    else scan rest (pos + 1)
  end.
Definition readSegment (q : bytes) : read :=
  if len q <? 2 then Waits_
  else
    let marker := at_ q 0 in
    if negb (marker =? 255) then Throws_ (drop 1 q)
    else
      let type := at_ q 1 in
      if (208 <=? type) && (type <=? 217) || (type =? 1) then Segment [marker; type] (drop 2 q)
      else if len q <? 4 then Waits_
      else
        let length := Websock.be (take 2 (drop 2 q)) in
        if length <? 2 then Throws_ (drop 4 q)
        else if len q - 4 <? length - 2 then Waits_
        else
          let segment extra :=
            let n := length - 2 + extra in
            Segment ([marker; type; Z.shiftr length 8 mod 256; length mod 256] ++ take (Z.to_nat n) (drop 4 q)) (drop (4 + Z.to_nat n) q) in
          if type =? 218 then
            if len q - 4 <? length then Waits_
            else
              match scan (drop (Z.to_nat (length - 2)) (drop 4 q)) (length - 2) with
              | None => Waits_
              | Some idx => segment (idx - (length - 2))
              end
          else segment 0.

(** ** State *)
Record jpeg := Jpeg_ { cachedQuantTables : list bytes; cachedHuffmanTables : list bytes; segments : list bytes }.
Definition jpeg_start : jpeg := Jpeg_ [] [] [].
Definition with_segments (l : list bytes) (s : jpeg) : jpeg := Jpeg_ (cachedQuantTables s) (cachedHuffmanTables s) l.

(** [n]: a segment has two bytes at least *)
Fixpoint read_file (n : nat) (s : jpeg) (q : bytes) : got jpeg unit :=
  match readSegment q with
  | Waits_ => Wait s q
  | Throws_ q => Threw s q []
  | Segment segment q =>
    let s := with_segments (segments s ++ [segment]) s in
    if at_ segment 1 =? 217 then Got s q tt
    else match n with O => Wait s q | S n => read_file n s q end
  end.
Definition of_type (t : Z) (l : list bytes) : list bytes := List.filter (λ segment, at_ segment 1 =? t) l.
Fixpoint findIndex (l : list bytes) : option nat :=
  match l with
  | [] => None
  | segment :: l => if (at_ segment 1 =? 192) || (at_ segment 1 =? 194) then Some 0%nat else S <$> findIndex l
  end.
(** [splice(i, 0, ...more)] *)
Definition splice (i : nat) (more l : list bytes) : list bytes := take i l ++ more ++ drop i l.
Definition draws (x y width height : Z) (s : jpeg) (_ : unit) : jpeg * option (list drawing) :=
  let huffmanTables := of_type 196 (segments s) in
  let quantTables := of_type 219 (segments s) in
  match findIndex (segments s) with
  | None => (s, None)
  | Some sofIndex =>
    let l := if bool_decide (quantTables = []) then splice (S sofIndex) (cachedQuantTables s) (segments s) else segments s in
    let l := if bool_decide (huffmanTables = []) then splice (S sofIndex) (cachedHuffmanTables s) l else l in
    (Jpeg_ (if bool_decide (quantTables = []) then cachedQuantTables s else quantTables)
       (if bool_decide (huffmanTables = []) then cachedHuffmanTables s else huffmanTables) [],
     Some [ImageRect x y width height true (mjoin l)])
  end.
Definition decodeRect (x y width height : Z) : reader jpeg (list drawing) :=
  then_do (λ s q, read_file (length q) s q) (draws x y width height).

(** ** Reading on *)
Lemma scan_more data more pos i : scan data pos = Some i → scan (data ++ more) pos = Some i.
Proof.
  revert data pos. fix IH 1. intros [|b rest] pos; simpl; [done|]. destruct (b =? 255); [|apply IH].
  destruct rest as [|b1 rest]; [done|]. simpl. destruct (stuffed b1); [apply IH|done].
Qed.
Lemma scan_bound data pos i : scan data pos = Some i → pos <= i < pos + len data.
Proof.
  revert data pos. fix IH 1. intros [|b rest] pos; simpl; [done|]. rewrite Websock.len_cons.
  destruct (b =? 255); [|intros Hs; apply IH in Hs; clear IH; lia].
  destruct rest as [|b1 rest]; [done|]. rewrite Websock.len_cons. destruct (stuffed b1); [intros Hs; apply IH in Hs; clear IH; lia|]. clear IH.
  intros [= <-]. pose proof (Websock.len_nonneg rest). lia.
Qed.
(** A segment is the bytes that came, and more of them change nothing. *)
Lemma readSegment_spec q r : Forall Websock.byte (q ++ r) →
  match readSegment q with
  | Waits_ => True
  | Throws_ q' => suffix_of q' q ∧ ∃ q2, readSegment (q ++ r) = Throws_ q2
  | Segment segment q' => q = segment ++ q' ∧ 2 <= len segment ∧ readSegment (q ++ r) = Segment segment (q' ++ r)
  end.
Proof.
  intros Hb. unfold readSegment. destruct (len q <? 2) eqn:E2; [done|]. apply Z.ltb_ge in E2.
  pose proof (Websock.len_nonneg r). rewrite len_app_, (proj2 (Z.ltb_ge (len q + len r) 2)) by lia.
  rewrite !Tight.at_app by lia. cbv zeta. destruct q as [|m [|t q]]; [done..|].
  change (at_ (m :: t :: q) 0) with m. change (at_ (m :: t :: q) 1) with t.
  destruct (negb (m =? 255)); [split; [apply (suffix_drop 1)|by eexists]|].
  destruct ((208 <=? t) && (t <=? 217) || (t =? 1)); [done|]. rewrite !Websock.len_cons.
  destruct (1 + (1 + len q) <? 4) eqn:E4; [done|]. apply Z.ltb_ge in E4. rewrite (proj2 (Z.ltb_ge (_ + len r) 4)) by lia.
  destruct q as [|a [|b q]]; [done..|]. cbn [app drop take]. rewrite !take_0, !drop_0.
  set (length := Websock.be [a; b]). assert (0 <= a < 256 ∧ 0 <= b < 256) as [Ha Hb'].
  { repeat (apply Forall_cons in Hb as [? Hb]). by split. }
  assert (length = a * 256 + b) as El.
  { unfold length. simpl. unfold Websock.len. simpl. lia. }
  assert (Z.shiftr length 8 mod 256 = a ∧ length mod 256 = b) as [-> ->].
  { rewrite El, Z.shiftr_div_pow2 by lia. change (2 ^ 8) with 256. rewrite Z.div_add_l, (Z.div_small b), Z.add_0_r, Z.mod_small by lia.
    split; [done|]. rewrite Z.add_comm, Z_mod_plus_full. by apply Z.mod_small. }
  destruct (length <? 2) eqn:E5; [split; [apply (suffix_drop 4)|by eexists]|]. apply Z.ltb_ge in E5. rewrite !Websock.len_cons.
  assert (∀ k, 0 <= k <= len q →
    m :: t :: a :: b :: q = (m :: t :: a :: b :: take (Z.to_nat k) q) ++ drop (Z.to_nat k) q
    ∧ 2 <= len (m :: t :: a :: b :: take (Z.to_nat k) q)
    ∧ take (Z.to_nat k) (q ++ r) = take (Z.to_nat k) q ∧ drop (Z.to_nat k) (q ++ r) = drop (Z.to_nat k) q ++ r) as Hk.
  { intros k Hk. split_and!; [simpl; by rewrite take_drop|rewrite !Websock.len_cons; pose proof (Websock.len_nonneg (take (Z.to_nat k) q)); lia|
      by apply take_len|by apply drop_len]. }
  assert (∀ k, 0 <= k <= len q →
    Segment ([m; t; a; b] ++ take (Z.to_nat k) (q ++ r)) (drop (Z.to_nat k) (q ++ r)) = Segment ([m; t; a; b] ++ take (Z.to_nat k) q) (drop (Z.to_nat k) q ++ r)) as Hs.
  { intros k Hk'. destruct (Hk k Hk') as (_ & _ & -> & ->). done. }
  destruct (1 + (1 + (1 + (1 + len q))) - 4 <? length - 2) eqn:E6; [done|]. apply Z.ltb_ge in E6.
  rewrite (proj2 (Z.ltb_ge (_ - 4) (length - 2))) by lia.
  assert (∀ k, drop (4 + k) (m :: t :: a :: b :: q) = drop k q ∧ drop (4 + k) (m :: t :: a :: b :: q ++ r) = drop k (q ++ r)) as Hdrop by done.
  destruct (t =? 218).
  - destruct (1 + (1 + (1 + (1 + len q))) - 4 <? length) eqn:E7; [done|]. apply Z.ltb_ge in E7.
    rewrite (proj2 (Z.ltb_ge (_ - 4) length)) by lia.
    destruct (scan (drop (Z.to_nat (length - 2)) q) (length - 2)) as [i|] eqn:Ei; [|done].
    rewrite drop_len by lia. rewrite (scan_more _ r _ _ Ei). apply scan_bound in Ei.
    assert (len (drop (Z.to_nat (length - 2)) q) = len q - (length - 2)) as Ed by (unfold Websock.len in *; rewrite length_drop; lia).
    rewrite Ed in Ei. rewrite !(proj1 (Hdrop _)), !(proj2 (Hdrop _)). replace (length - 2 + (i - (length - 2))) with i by lia.
    destruct (Hk i ltac:(lia)) as (Hq & H2 & _). split_and!; [exact Hq|exact H2|apply Hs; lia].
  - rewrite !(proj1 (Hdrop _)), !(proj2 (Hdrop _)). destruct (Hk (length - 2 + 0) ltac:(lia)) as (Hq & H2 & _). split_and!; [exact Hq|exact H2|apply Hs; lia].
Qed.

Lemma read_file_fuel n m s q : Forall Websock.byte q → (length q <= n)%nat → (length q <= m)%nat → read_file n s q = read_file m s q.
Proof.
  revert m s q. induction n as [|n IH]; intros m s q Hb Hn Hm.
  - assert (q = []) as -> by (destruct q; simpl in *; [done|lia]). by destruct m.
  - pose proof (readSegment_spec q []) as Hs. rewrite app_nil_r in Hs. specialize (Hs Hb).
    destruct m as [|m]; [assert (q = []) as -> by (destruct q; simpl in *; [done|lia]); done|].
    simpl. destruct (readSegment q) as [|?|seg q']; [done..|]. case_match; [done|]. destruct Hs as (-> & H2 & _).
    rewrite length_app in Hn, Hm. unfold Websock.len in H2. apply Forall_app in Hb as [_ Hb]. apply IH; [done|lia..].
Qed.
(** with what was read of the file: whole segments *)
Lemma read_file_spec n s q r : Forall Websock.byte (q ++ r) → (length q <= n)%nat →
  match read_file n s q with
  | Wait s' q' => suffix_of q' q ∧ ∀ m, (length (q ++ r) <= m)%nat → read_file m s (q ++ r) = read_file m s' (q' ++ r)
  | Got s' q' a => (∃ l, s' = with_segments (segments s ++ l) s ∧ q = mjoin l ++ q')
      ∧ ∀ m, (length (q ++ r) <= m)%nat → read_file m s (q ++ r) = Got s' (q' ++ r) a
  | Threw s' q' ds => suffix_of q' q ∧ ∀ m, (length (q ++ r) <= m)%nat → ∃ q2, read_file m s (q ++ r) = Threw s' q2 ds
  end.
Proof.
  revert s q. induction n as [|n IH]; intros s q Hb Hn.
  { assert (q = []) as -> by (destruct q; simpl in *; [done|lia]). simpl. split; [apply suffix_refl|done]. }
  pose proof (readSegment_spec q r Hb) as Hs. simpl. destruct (readSegment q) as [|q'|seg q'].
  - split; [apply suffix_refl|done].
  - destruct Hs as (Hx & q2 & Er). split; [done|]. intros m _. exists q2. destruct m; simpl; by rewrite Er.
  - destruct Hs as (-> & H2 & Er). rewrite <- app_assoc in *. apply Forall_app in Hb as [_ Hb].
    rewrite length_app in Hn. unfold Websock.len in H2. set (s1 := with_segments _ s).
    destruct (at_ seg 1 =? 217) eqn:Ee.
    + split; [exists [seg]; simpl; by rewrite app_nil_r|]. intros [|m] _; simpl; by rewrite Er, Ee.
    + specialize (IH s1 q' Hb ltac:(lia)).
      assert (∀ m, (length (seg ++ q' ++ r) <= m)%nat → read_file m s (seg ++ q' ++ r) = read_file m s1 (q' ++ r)) as Hm.
      { intros [|m] Hm; rewrite !length_app in Hm; [lia|]. rewrite (read_file_fuel (S m) m s1) by (done || rewrite length_app; lia).
        simpl. by rewrite Er, Ee. }
      assert (∀ m, (length (seg ++ q' ++ r) <= m)%nat → (length (q' ++ r) <= m)%nat) as Hle by (intros m; rewrite !length_app; lia).
      destruct (read_file n s1 q') as [s' q2|s' q2 a|s' q2 ds].
      * destruct IH as (Hx & IH). split; [eapply suffix_trans; [exact Hx|by exists seg]|]. intros m Hl. rewrite Hm by done. auto.
      * destruct IH as ((l & -> & ->) & IH). split; [exists (seg :: l); split; [unfold with_segments; simpl; by rewrite <- app_assoc|simpl; by rewrite app_assoc]|].
        intros m Hl. rewrite Hm by done. auto.
      * destruct IH as (Hx & IH). split; [eapply suffix_trans; [exact Hx|by exists seg]|]. intros m Hl. rewrite Hm by done. auto.
Qed.
Lemma jpeg_steady x y w h : steady (λ _, True) (λ s, True) (decodeRect x y w h).
Proof.
  apply steady_then with (J := λ _, True); [|done]. intros s q r _ Hb.
  pose proof (read_file_spec (length q) s q r Hb ltac:(done)) as H. destruct (read_file (length q) s q) as [s' q'|s' q' a|s' q' ds].
  - destruct H as (Hx & H). split_and!; [done|done|]. rewrite (H (length (q ++ r))) by done.
    pose proof (suffix_bytes q' q r Hx Hb). apply read_file_fuel; [done| |done].
    destruct Hx as [p ->]. rewrite !length_app. lia.
  - destruct H as ((l & -> & ->) & H). split_and!; [done|by eexists|]. by apply H.
  - destruct H as (Hx & H). split; [done|]. by apply H.
Qed.

(** The browser is given the file that came, byte for byte, when it has its
    tables, and otherwise with the ones kept, behind its start of frame. *)
Lemma jpeg_image x y w h s q s' q' ds :
  Forall Websock.byte q → segments s = [] → decodeRect x y w h s q = Got s' q' ds →
  ∃ l i, q = mjoin l ++ q' ∧ segments s' = [] ∧ findIndex l = Some i
    ∧ let quant := of_type 219 l in let huff := of_type 196 l in
      cachedQuantTables s' = (if bool_decide (quant = []) then cachedQuantTables s else quant)
      ∧ cachedHuffmanTables s' = (if bool_decide (huff = []) then cachedHuffmanTables s else huff)
      ∧ ds = [ImageRect x y w h true (mjoin (take (S i) l)
               ++ mjoin (if bool_decide (huff = []) then cachedHuffmanTables s else [])
               ++ mjoin (if bool_decide (quant = []) then cachedQuantTables s else []) ++ mjoin (drop (S i) l))].
Proof.
  intros Hb Es. unfold decodeRect, then_do. pose proof (read_file_spec (length q) s q []) as Hf. rewrite app_nil_r in Hf.
  specialize (Hf Hb ltac:(done)). destruct (read_file (length q) s q) as [|s1 q1 []|]; [done| |done].
  destruct Hf as ((l & -> & ->) & _). rewrite Es. unfold draws. simpl. destruct (findIndex l) as [i|] eqn:Ei; [|done].
  intros [= <- <- <-]. exists l, i. simpl. split_and!; [done..|]. do 2 f_equal.
  assert (S i <= length l)%nat as Hi.
  { clear - Ei. revert i Ei. induction l as [|seg l IH]; intros i; simpl; [done|]. case_match; [intros [= <-]; lia|].
    destruct (findIndex l); simpl; [intros [= <-]; specialize (IH _ eq_refl); lia|done]. }
  assert (∀ l', take (S i) (take (S i) l ++ l') = take (S i) l ∧ drop (S i) (take (S i) l ++ l') = l') as Hsp.
  { intros l'. split; [rewrite take_app_le by (rewrite length_take; lia); rewrite take_take; f_equal; lia|].
    rewrite drop_app_ge by (rewrite length_take; lia). rewrite length_take. replace (S i - (S i `min` length l))%nat with 0%nat by lia. done. }
  unfold splice. case_bool_decide; case_bool_decide; rewrite ?(proj1 (Hsp _)), ?(proj2 (Hsp _)), ?join_app; simpl; try done.
  by rewrite <- join_app, take_drop.
Qed.
Example tables_are_kept :
  let own := [255; 216; 255; 219; 0; 3; 7; 255; 196; 0; 3; 8; 255; 192; 0; 2; 255; 218; 0; 3; 1; 5; 255; 0; 6; 255; 217] in
  let short := [255; 216; 255; 192; 0; 2; 255; 217] in
  match decodeRect 0 0 8 8 jpeg_start (own ++ short) with
  | Got s q ds => q = short ∧ ds = [ImageRect 0 0 8 8 true own]
      ∧ (to_result (decodeRect 0 0 8 8 s q)).2 = [ImageRect 0 0 8 8 true [255; 216; 255; 192; 0; 2; 255; 196; 0; 3; 8; 255; 219; 0; 3; 7; 255; 217]]
  | _ => False
  end.
Proof. by vm_compute. Qed.
End Jpeg.
