(* ===== verification/AllDecoders.v ===== *)
(** * noVNC: the console's decoders together, static/js/novnc/core/rfb.js

    The table of decoders an [RFB] object makes, behind the interface the
    server's messages use ([RectDecoders] of Decoders.v), whose laws hold of all
    of them; H.264, which is the browser's video decoder, is not in it. *)
From S2P Require Import Prelude Words Websock Decoders Inflator Resumable Tight Zrle Jpeg.

#[local] Open Scope list_scope.
#[local] Open Scope Z_scope.

Module AllDecoders.
Import Decoders Resumable.
Section all.
Context `{Zrle.Capacity}.
Record all := All {
  d_plain : decoders; d_zlib : Zlib.zlib; d_tight : Tight.tight; d_tightpng : Tight.tight;
  d_zrle : Zrle.zrle; d_jpeg : Jpeg.jpeg }.
Definition all_start : all :=
  All decoders_start Zlib.zlib_start Tight.tight_start Tight.tight_start Zrle.zrle_start Jpeg.jpeg_start.
Definition with_plain (t : decoders) (d : all) : all := All t (d_zlib d) (d_tight d) (d_tightpng d) (d_zrle d) (d_jpeg d).
Definition with_zlib (t : Zlib.zlib) (d : all) : all := All (d_plain d) t (d_tight d) (d_tightpng d) (d_zrle d) (d_jpeg d).
Definition with_tight (t : Tight.tight) (d : all) : all := All (d_plain d) (d_zlib d) t (d_tightpng d) (d_zrle d) (d_jpeg d).
Definition with_tightpng (t : Tight.tight) (d : all) : all := All (d_plain d) (d_zlib d) (d_tight d) t (d_zrle d) (d_jpeg d).
Definition with_zrle (t : Zrle.zrle) (d : all) : all := All (d_plain d) (d_zlib d) (d_tight d) (d_tightpng d) t (d_jpeg d).
Definition with_jpeg (t : Jpeg.jpeg) (d : all) : all := All (d_plain d) (d_zlib d) (d_tight d) (d_tightpng d) (d_zrle d) t.

(** a decoder of the table, and where it is kept *)
Definition entry {T} (f : reader T (list drawing)) (get : all → T) (put : T → all → all) (d : all) (q : bytes) : result all bytes :=
  with_state (λ t, put t d) (to_result (f (get d) q)).
Definition decode_all (e : Z) (rc : rect) (depth : Z) (d : all) (q : bytes) : option (result all bytes) :=
  let '(Rect x y w h) := rc in
  if e =? 6 then Some (entry (Zlib.decodeRect x y w h) d_zlib with_zlib d q)
  else if e =? 7 then Some (entry (Tight.decodeRect x y w h false) d_tight with_tight d q)
  else if e =? -260 then Some (entry (Tight.decodeRect x y w h true) d_tightpng with_tightpng d q)
  else if e =? 16 then Some (entry (Zrle.decodeRect x y w h) d_zrle with_zrle d q)
  else if e =? 21 then Some (entry (Jpeg.decodeRect x y w h) d_jpeg with_jpeg d q)
  else with_state (λ t, with_plain t d) <$> decode e rc depth (d_plain d) q.
#[export] Instance all_decoders : RectDecoders all := decode_all.

Definition sound (d : all) : Prop :=
  Zlib.good (d_zlib d) ∧ Tight.good (d_tight d) ∧ Tight.good (d_tightpng d) ∧ Zrle.good (d_zrle d).

(** what the interface asks of a decoder of the table *)
Definition goes_on (I : all → Prop) (f : all → bytes → result all bytes) : Prop := ∀ d q r v d' q' ds,
  I d → Forall Websock.byte (q ++ r) → f d q = (v, d', q', ds) →
  len q' <= len q ∧ (v ≠ Thrown → Forall Websock.byte q') ∧
  match v with
  | Done => f d (q ++ r) = (Done, d', q' ++ r, ds) ∧ I d'
  | Again => f d (q ++ r) = behind ds (f d' (q' ++ r)) ∧ I d'
  | Thrown => ∃ q2, f d (q ++ r) = (Thrown, d', q2, ds)
  end.
Lemma entry_goes_on {T} (I : all → Prop) (G J : T → Prop) (f : reader T (list drawing)) get put :
  steady G J f → (∀ t, J t → G t) → (∀ d, I d → G (get d)) → (∀ d t, I d → G t → I (put t d)) →
  (∀ d t, get (put t d) = t) → (∀ d t t', put t' (put t d) = put t' d) → goes_on I (entry f get put).
Proof.
  intros Hf HJ Hget Hput Hgp Hpp d q r v d' q' ds Hd Hb. unfold entry. specialize (Hf (get d) q r (Hget d Hd) Hb).
  assert (∀ q1, suffix_of q1 q → len q1 <= len q ∧ Forall Websock.byte q1) as Hx.
  { intros q1 Hs. split; [by apply suffix_len|]. pose proof (suffix_bytes q1 q r Hs Hb) as H1. by apply Forall_app in H1 as [? _]. }
  destruct (f (get d) q) as [t q1|t q1 a|t q1 ds1]; simpl; intros [= <- <- <- <-].
  - destruct Hf as (Ht & Hs & ->). destruct (Hx q1 Hs) as [? ?]. split_and!; [done|done| |by apply Hput].
    rewrite Hgp. destruct (to_result (f t (q1 ++ r))) as [[[v t2] q2] ds2]. simpl. by rewrite Hpp.
  - destruct Hf as (Ht & Hs & ->). destruct (Hx q1 Hs) as [? ?]. split_and!; [done|done|done|by apply Hput, HJ].
  - destruct Hf as (Hs & q2 & ->). destruct (Hx q1 Hs) as [? ?]. split_and!; [done|done|by eexists].
Qed.
(** no plain rectangle is half read while another decoder reads *)
Definition apart (d : all) : Prop := idle (d_plain d) ∧ sound d.
Lemma zlib_goes_on x y w h : goes_on apart (entry (Zlib.decodeRect x y w h) d_zlib with_zlib).
Proof.
  apply entry_goes_on with (G := Zlib.good) (J := Zlib.good); [apply Zlib.zlib_steady|done|by intros d (_ & ? & _)| |done|done].
  unfold apart, sound. intros d t Hd Ht. simpl. tauto.
Qed.
Lemma tight_goes_on x y w h : 0 <= w → 0 <= h → goes_on apart (entry (Tight.decodeRect x y w h false) d_tight with_tight).
Proof.
  intros Hw Hh. eapply entry_goes_on; [by apply Tight.tight_steady|by intros t [? _]|by intros d (_ & _ & ? & _)| |done|done].
  unfold apart, sound. intros d t Hd Ht. simpl. tauto.
Qed.
Lemma tightpng_goes_on x y w h : 0 <= w → 0 <= h → goes_on apart (entry (Tight.decodeRect x y w h true) d_tightpng with_tightpng).
Proof.
  intros Hw Hh. eapply entry_goes_on; [by apply Tight.tight_steady|by intros t [? _]|by intros d (_ & _ & _ & ? & _)| |done|done].
  unfold apart, sound. intros d t Hd Ht. simpl. tauto.
Qed.
Lemma zrle_goes_on x y w h : goes_on apart (entry (Zrle.decodeRect x y w h) d_zrle with_zrle).
Proof.
  apply entry_goes_on with (G := Zrle.good) (J := Zrle.good); [apply Zrle.zrle_steady|done|by intros d (_ & _ & _ & _ & ?)| |done|done].
  unfold apart, sound. intros d t Hd Ht. simpl. tauto.
Qed.
Lemma jpeg_goes_on x y w h : goes_on apart (entry (Jpeg.decodeRect x y w h) d_jpeg with_jpeg).
Proof. eapply entry_goes_on; [apply Jpeg.jpeg_steady|done|done|by intros d t ? _|done|done]. Qed.

#[export] Instance all_laws : RectLaws all.
Proof.
  refine {| resting d := resting (d_plain d) ∧ sound d; reading e rc d := reading e rc (d_plain d) ∧ sound d |}.
  - intros e rc d [Hd Hs]. split; [by apply resting_reading|done].
  - intros e [x y w h] depth d d' q q'. unfold decode, all_decoders, decode_all. repeat case_match; try done.
    intros Hn. apply fmap_None in Hn. apply fmap_None. by eapply decode_known.
  - intros e [x y w h] depth d q r v d' q' ds Hw Hh Hb Hr. change (@decode all all_decoders) with decode_all. unfold decode_all. simpl in Hw, Hh.
    assert (∀ f, goes_on apart f → apart d → (∀ d, apart d → reading e (Rect x y w h) (d_plain d)) →
      Some (f d q) = Some (v, d', q', ds) →
      len q' <= len q ∧ (v ≠ Thrown → Forall Websock.byte q') ∧
      match v with
      | Done => Some (f d (q ++ r)) = Some (Done, d', q' ++ r, ds) ∧ resting (d_plain d') ∧ sound d'
      | Again => Some (f d (q ++ r)) = behind ds <$> Some (f d' (q' ++ r)) ∧ reading e (Rect x y w h) (d_plain d') ∧ sound d'
      | Thrown => ∃ q2, Some (f d (q ++ r)) = Some (Thrown, d', q2, ds)
      end) as Hentry.
    { intros f Hf Ha Hre [= E]. destruct (Hf d q r v d' q' ds Ha Hb E) as (H1 & H2 & H3). split_and!; [done|done|].
      destruct v; [destruct H3 as [-> [? ?]]; done|destruct H3 as [-> H3]; split_and!; [done|by apply Hre|apply H3]|].
      destruct H3 as [q2 ->]. by exists q2. }
    destruct (e =? 6) eqn:E6; [apply Z.eqb_eq in E6; subst e; apply (Hentry _ (zlib_goes_on x y w h) Hr); by intros ? [? _]|].
    destruct (e =? 7) eqn:E7; [apply Z.eqb_eq in E7; subst e; apply (Hentry _ (tight_goes_on x y w h Hw Hh) Hr); by intros ? [? _]|].
    destruct (e =? -260) eqn:E8; [apply Z.eqb_eq in E8; subst e; apply (Hentry _ (tightpng_goes_on x y w h Hw Hh) Hr); by intros ? [? _]|].
    destruct (e =? 16) eqn:E9; [apply Z.eqb_eq in E9; subst e; apply (Hentry _ (zrle_goes_on x y w h) Hr); by intros ? [? _]|].
    destruct (e =? 21) eqn:E10; [apply Z.eqb_eq in E10; subst e; apply (Hentry _ (jpeg_goes_on x y w h) Hr); by intros ? [? _]|].
    clear Hentry. destruct Hr as [Hr Hs]. intros Hd. apply fmap_Some in Hd as ([[[v0 t] q0] ds0] & Hd & E). injection E as -> -> -> ->.
    destruct (decode_more e (Rect x y w h) depth (d_plain d) q r v0 t q0 ds0 Hw Hh Hb Hr Hd) as (H1 & H2 & H3).
    split_and!; [done|done|]. destruct v0.
    + destruct H3 as [-> H3]. by split.
    + destruct H3 as [-> H3]. split; [|by split]. simpl. destruct (decode e (Rect x y w h) depth t (q0 ++ r)) as [[[[v1 t1] q1] ds1]|]; done.
    + destruct H3 as [q2 ->]. by exists q2.
Defined.
End all.

(** ** A rectangle in messages

    What [handleRect] makes of a rectangle as the messages come: it calls the
    decoder again while it waits. *)
Section feed.
Context {D : Type} `{RectDecoders D} `{!RectLaws D}.
Definition feed (e : Z) (rc : rect) (depth : Z) (o : option (result D bytes)) (chunk : bytes) : option (result D bytes) :=
  match o with
  | Some (Again, d, q, ds) => behind ds <$> decode e rc depth d (q ++ chunk)
  | Some (Done, d, q, ds) => Some (Done, d, q ++ chunk, ds)
  | o => o
  end.
(** as far as the bytes [p] go *)
Definition tracks (e : Z) (rc : rect) (depth : Z) (d0 : D) (p : bytes) (o : option (result D bytes)) : Prop :=
  ∃ v d q q' ds, o = Some (v, d, q, ds) ∧ decode e rc depth d0 p = Some (v, d, q', ds) ∧ (v ≠ Thrown → q = q').
Lemma feed_tracks e rc depth d0 p o c :
  0 <= r_width rc → 0 <= r_height rc → Forall Websock.byte (p ++ c) → reading e rc d0 →
  tracks e rc depth d0 p o → tracks e rc depth d0 (p ++ c) (feed e rc depth o c).
Proof.
  intros Hw Hh Hb Hd (v & d & q & q' & ds & -> & Hp & Hq).
  destruct (decode_more e rc depth d0 p c v d q' ds Hw Hh Hb Hd Hp) as (_ & _ & H1). unfold tracks, feed.
  destruct v; [rewrite Hq by done|rewrite Hq by done|].
  - destruct H1 as [H1 _]. by repeat eexists.
  - destruct H1 as [H1 _]. rewrite H1. destruct (decode e rc depth d (q' ++ c)) as [[[[v2 d2] q2] ds2]|] eqn:E; [by repeat eexists|].
    apply (decode_known e rc depth d d0 (q' ++ c) p) in E. congruence.
  - destruct H1 as [q2 H1]. by exists Thrown, d, q, q2, ds.
Qed.
Lemma messages_track e rc depth d0 chunks : 0 <= r_width rc → 0 <= r_height rc → reading e rc d0 →
  ∀ p o, Forall Websock.byte (p ++ concat chunks) → tracks e rc depth d0 p o →
  tracks e rc depth d0 (p ++ concat chunks) (foldl (feed e rc depth) o chunks).
Proof.
  intros Hw Hh Hd. induction chunks as [|c chunks IH]; intros p o Hb Ho; simpl in *; [by rewrite app_nil_r|].
  rewrite app_assoc in Hb |- *. apply IH; [done|]. apply feed_tracks; try done. by apply Forall_app in Hb as [? _].
Qed.
End feed.

(** C19: How the bytes of a rectangle come does not matter, whatever its
    encoding: raw, copied, RRE, hextile, zlib, tight, TightPNG, ZRLE or JPEG, in
    any messages, with the decoder called again on each of them, it ends with
    the same verdict, the same drawings in the same order, the same state of
    every decoder and the same bytes left as if all of them had been there at
    once; and when it is done no decoder is half way. *)
Theorem any_rectangle_in_any_messages `{Zrle.Capacity} e rc depth d q chunks v d' q' ds :
  0 <= r_width rc → 0 <= r_height rc → Forall Websock.byte (q ++ concat chunks) → resting d →
  decode (D := all) e rc depth d (q ++ concat chunks) = Some (v, d', q', ds) →
  ∃ q2, foldl (feed e rc depth) (decode e rc depth d q) chunks = Some (v, d', q2, ds)
    ∧ (v ≠ Thrown → q2 = q') ∧ (v = Done → resting d').
Proof.
  intros Hw Hh Hb Hd Hall. assert (reading e rc d) as Hr by by apply resting_reading.
  assert (tracks e rc depth d q (decode e rc depth d q)) as Htr.
  { destruct (decode e rc depth d q) as [[[[v1 d1] q1] ds1]|] eqn:E; [by exists v1, d1, q1, q1, ds1|].
    apply (decode_known e rc depth d d q (q ++ concat chunks)) in E. congruence. }
  destruct (messages_track e rc depth d chunks Hw Hh Hr q _ Hb Htr) as (v1 & d1 & q1 & q2 & ds1 & -> & E & Hq).
  rewrite E in Hall. injection Hall as -> -> -> ->. exists q1. split_and!; [done|done|]. intros ->.
  rewrite <- (app_nil_r (q ++ concat chunks)) in Hb. by destruct (decode_more e rc depth d (q ++ concat chunks) [] Done d' q' ds Hw Hh Hb Hr E) as (_ & _ & _ & ?).
Qed.
#[local] Instance stored_capacity : @Zrle.Capacity Tight.stored.
Proof.
  refine (@Zrle.Build_Capacity Tight.stored (λ _ input, length input) _).
  intros z input n code rest out z'. simpl. intros [= <- <- <- <-]. rewrite length_take, length_drop. lia.
Defined.
(** a ZRLE rectangle of two pixels as a run, and a byte after it *)
Definition zrle_bytes : bytes := [0; 0; 0; 5; 128; 10; 20; 30; 1; 77].
Definition small : all := All decoders_start (Zlib.Zlib_ 0 (Inflator.Inflator_ inflateInit [] [[0]])) (Tight.light Tight.tight_start) (Tight.light Tight.tight_start)
  (Zrle.Zrle_ 0 (Inflator.Inflator_ inflateInit [] [[0; 0; 0]]) (replicate 16 0)) Jpeg.jpeg_start.
Lemma any_rectangle_in_any_messages_witness :
  let rc := Rect 5 6 2 1 in let chunks := (λ b, [b]) <$> zrle_bytes in
  ∃ d', foldl (feed 16 rc 24) (decode (D := all) 16 rc 24 small []) chunks = Some (Done, d', [77], [BlitImage 5 6 2 1 [10; 20; 30; 255; 10; 20; 30; 255]])
    ∧ resting d'.
Proof.
  intros rc chunks.
  assert ((λ o : result all bytes, (o.1.1.1, o.1.2, o.2)) <$> decode (D := all) 16 rc 24 small ([] ++ concat chunks)
    = Some (Done, [77], [BlitImage 5 6 2 1 [10; 20; 30; 255; 10; 20; 30; 255]])) as Hwhole by (by vm_compute).
  destruct (decode (D := all) 16 rc 24 small ([] ++ concat chunks)) as [[[[v d'] q'] ds]|] eqn:E; [|done].
  destruct (any_rectangle_in_any_messages 16 rc 24 small [] chunks v d' q' ds) as (q2 & Hf & Hq & Hr); [by vm_compute|by vm_compute| | |exact E|].
  - apply (bool_decide_unpack _). vm_compute. exact I.
  - by vm_compute.
  - injection Hwhole as -> -> ->. exists d'. rewrite Hf, Hq by done. split; [done|by apply Hr].
Defined.
End AllDecoders.
