(* ===== verification/View.v ===== *)
(** * noVNC: the size of the screen, static/js/novnc/core/rfb.js

    How the console fits the remote screen to its window: clipping, scaling and
    asking the server for another size, the console's properties that choose
    among them, and the answers of the server.  The canvas is [Display]'s; a
    handler is a function of the state and, where it reads the clock, of the
    time.  What a box of the page measures is the browser's: [client_size]. *)
From Stdlib Require Import QArith Qround Qabs Lqa.
From S2P Require Import Prelude Words Display Messages Decoders Websock ServerMessages.

#[local] Open Scope list_scope.
#[local] Open Scope Z_scope.

Module View.
Import Messages.
Section view.
Context {P : Type} `{Display.Compositing P} (image : nat → Display.picture (P := P)).
(** [_screen.clientWidth] and [clientHeight]: the box of the screen less its
    scrollbars, from its size, the canvas's and its scale *)
Context (client_size : Q * Q → Z * Z → option Q → Z * Z).
(** whether the browser decodes H.264, for the list of encodings *)
Context (h264 : bool).

(** ** State *)
Definition set_connected (c : bool) (b : rfb) : rfb :=
  Rfb c (viewOnly b) (qemuExtKeyEventSupported b) (extendedPointerEventSupported b) (rfbXvpVer b) (fbDepth b) (qualityLevel b)
    (compressionLevel b) (remoteCapsLock b) (remoteNumLock b) (clipboardFormats b) (clipboardActions b) (clipboardText b).
Definition set_only (v : bool) (b : rfb) : rfb :=
  Rfb (connected b) v (qemuExtKeyEventSupported b) (extendedPointerEventSupported b) (rfbXvpVer b) (fbDepth b) (qualityLevel b)
    (compressionLevel b) (remoteCapsLock b) (remoteNumLock b) (clipboardFormats b) (clipboardActions b) (clipboardText b).
Definition set_depth (d : Z) (b : rfb) : rfb :=
  Rfb (connected b) (viewOnly b) (qemuExtKeyEventSupported b) (extendedPointerEventSupported b) (rfbXvpVer b) d (qualityLevel b)
    (compressionLevel b) (remoteCapsLock b) (remoteNumLock b) (clipboardFormats b) (clipboardActions b) (clipboardText b).
Definition set_quality (q : Z) (b : rfb) : rfb :=
  Rfb (connected b) (viewOnly b) (qemuExtKeyEventSupported b) (extendedPointerEventSupported b) (rfbXvpVer b) (fbDepth b) q
    (compressionLevel b) (remoteCapsLock b) (remoteNumLock b) (clipboardFormats b) (clipboardActions b) (clipboardText b).
Definition set_compression (c : Z) (b : rfb) : rfb :=
  Rfb (connected b) (viewOnly b) (qemuExtKeyEventSupported b) (extendedPointerEventSupported b) (rfbXvpVer b) (fbDepth b) (qualityLevel b)
    c (remoteCapsLock b) (remoteNumLock b) (clipboardFormats b) (clipboardActions b) (clipboardText b).

(** [connecting]: the state before [connected (base s)], which is gone when both
    are false.  [scale]: none where it is not a number that is finite.
    [window]: the rectangle of the screen on the page.  [timers]: those that
    still run and when they fire; [frames]: the animation frames asked for. *)
Record screen := Screen {
  base : rfb; connecting : bool; grabbed : bool; observing : bool;
  clipViewport : bool; clippingViewport : bool; scaleViewport : bool; resizeSession : bool; dragViewport : bool;
  window : Q * Q; display : Display.display (P := P); scale : option Q;
  fbWidth : Z; fbHeight : Z; enabledContinuousUpdates : bool;
  expectedClientSize : option (Z * Z); frames : nat;
  supportsSetDesktopSize : bool; screenID : Z; screenFlags : Z;
  pendingRemoteResize : bool; lastResize : Z;
  timers : gmap nat Z; next_timer : nat; resizeTimeout : option nat }.

Definition with_base (b : rfb) (s : screen) : screen :=
  Screen b (connecting s) (grabbed s) (observing s) (clipViewport s) (clippingViewport s) (scaleViewport s) (resizeSession s) (dragViewport s) (window s) (display s) (scale s) (fbWidth s) (fbHeight s) (enabledContinuousUpdates s) (expectedClientSize s) (frames s) (supportsSetDesktopSize s) (screenID s) (screenFlags s) (pendingRemoteResize s) (lastResize s) (timers s) (next_timer s) (resizeTimeout s).
Definition with_phase (b : rfb) (c o : bool) (s : screen) : screen :=
  Screen b c (grabbed s) o (clipViewport s) (clippingViewport s) (scaleViewport s) (resizeSession s) (dragViewport s) (window s) (display s) (scale s) (fbWidth s) (fbHeight s) (enabledContinuousUpdates s) (expectedClientSize s) (frames s) (supportsSetDesktopSize s) (screenID s) (screenFlags s) (pendingRemoteResize s) (lastResize s) (timers s) (next_timer s) (resizeTimeout s).
Definition with_grab (g : bool) (s : screen) : screen :=
  Screen (base s) (connecting s) g (observing s) (clipViewport s) (clippingViewport s) (scaleViewport s) (resizeSession s) (dragViewport s) (window s) (display s) (scale s) (fbWidth s) (fbHeight s) (enabledContinuousUpdates s) (expectedClientSize s) (frames s) (supportsSetDesktopSize s) (screenID s) (screenFlags s) (pendingRemoteResize s) (lastResize s) (timers s) (next_timer s) (resizeTimeout s).
Definition with_settings (clip scale_ resize drag : bool) (s : screen) : screen :=
  Screen (base s) (connecting s) (grabbed s) (observing s) clip (clippingViewport s) scale_ resize drag (window s) (display s) (scale s) (fbWidth s) (fbHeight s) (enabledContinuousUpdates s) (expectedClientSize s) (frames s) (supportsSetDesktopSize s) (screenID s) (screenFlags s) (pendingRemoteResize s) (lastResize s) (timers s) (next_timer s) (resizeTimeout s).
Definition with_clipping (b : bool) (s : screen) : screen :=
  Screen (base s) (connecting s) (grabbed s) (observing s) (clipViewport s) b (scaleViewport s) (resizeSession s) (dragViewport s) (window s) (display s) (scale s) (fbWidth s) (fbHeight s) (enabledContinuousUpdates s) (expectedClientSize s) (frames s) (supportsSetDesktopSize s) (screenID s) (screenFlags s) (pendingRemoteResize s) (lastResize s) (timers s) (next_timer s) (resizeTimeout s).
Definition with_window (w : Q * Q) (s : screen) : screen :=
  Screen (base s) (connecting s) (grabbed s) (observing s) (clipViewport s) (clippingViewport s) (scaleViewport s) (resizeSession s) (dragViewport s) w (display s) (scale s) (fbWidth s) (fbHeight s) (enabledContinuousUpdates s) (expectedClientSize s) (frames s) (supportsSetDesktopSize s) (screenID s) (screenFlags s) (pendingRemoteResize s) (lastResize s) (timers s) (next_timer s) (resizeTimeout s).
Definition with_display (d : Display.display (P := P)) (k : option Q) (s : screen) : screen :=
  Screen (base s) (connecting s) (grabbed s) (observing s) (clipViewport s) (clippingViewport s) (scaleViewport s) (resizeSession s) (dragViewport s) (window s) d k (fbWidth s) (fbHeight s) (enabledContinuousUpdates s) (expectedClientSize s) (frames s) (supportsSetDesktopSize s) (screenID s) (screenFlags s) (pendingRemoteResize s) (lastResize s) (timers s) (next_timer s) (resizeTimeout s).
Definition with_size (w h : Z) (s : screen) : screen :=
  Screen (base s) (connecting s) (grabbed s) (observing s) (clipViewport s) (clippingViewport s) (scaleViewport s) (resizeSession s) (dragViewport s) (window s) (display s) (scale s) w h (enabledContinuousUpdates s) (expectedClientSize s) (frames s) (supportsSetDesktopSize s) (screenID s) (screenFlags s) (pendingRemoteResize s) (lastResize s) (timers s) (next_timer s) (resizeTimeout s).
Definition with_updates (b : bool) (s : screen) : screen :=
  Screen (base s) (connecting s) (grabbed s) (observing s) (clipViewport s) (clippingViewport s) (scaleViewport s) (resizeSession s) (dragViewport s) (window s) (display s) (scale s) (fbWidth s) (fbHeight s) b (expectedClientSize s) (frames s) (supportsSetDesktopSize s) (screenID s) (screenFlags s) (pendingRemoteResize s) (lastResize s) (timers s) (next_timer s) (resizeTimeout s).
Definition with_expected (e : option (Z * Z)) (s : screen) : screen :=
  Screen (base s) (connecting s) (grabbed s) (observing s) (clipViewport s) (clippingViewport s) (scaleViewport s) (resizeSession s) (dragViewport s) (window s) (display s) (scale s) (fbWidth s) (fbHeight s) (enabledContinuousUpdates s) e (frames s) (supportsSetDesktopSize s) (screenID s) (screenFlags s) (pendingRemoteResize s) (lastResize s) (timers s) (next_timer s) (resizeTimeout s).
Definition with_frames (n : nat) (s : screen) : screen :=
  Screen (base s) (connecting s) (grabbed s) (observing s) (clipViewport s) (clippingViewport s) (scaleViewport s) (resizeSession s) (dragViewport s) (window s) (display s) (scale s) (fbWidth s) (fbHeight s) (enabledContinuousUpdates s) (expectedClientSize s) n (supportsSetDesktopSize s) (screenID s) (screenFlags s) (pendingRemoteResize s) (lastResize s) (timers s) (next_timer s) (resizeTimeout s).
Definition with_support (id flags : Z) (s : screen) : screen :=
  Screen (base s) (connecting s) (grabbed s) (observing s) (clipViewport s) (clippingViewport s) (scaleViewport s) (resizeSession s) (dragViewport s) (window s) (display s) (scale s) (fbWidth s) (fbHeight s) (enabledContinuousUpdates s) (expectedClientSize s) (frames s) true id flags (pendingRemoteResize s) (lastResize s) (timers s) (next_timer s) (resizeTimeout s).
Definition with_pending (b : bool) (last : Z) (s : screen) : screen :=
  Screen (base s) (connecting s) (grabbed s) (observing s) (clipViewport s) (clippingViewport s) (scaleViewport s) (resizeSession s) (dragViewport s) (window s) (display s) (scale s) (fbWidth s) (fbHeight s) (enabledContinuousUpdates s) (expectedClientSize s) (frames s) (supportsSetDesktopSize s) (screenID s) (screenFlags s) b last (timers s) (next_timer s) (resizeTimeout s).
Definition with_timers (t : gmap nat Z) (n : nat) (k : option nat) (s : screen) : screen :=
  Screen (base s) (connecting s) (grabbed s) (observing s) (clipViewport s) (clippingViewport s) (scaleViewport s) (resizeSession s) (dragViewport s) (window s) (display s) (scale s) (fbWidth s) (fbHeight s) (enabledContinuousUpdates s) (expectedClientSize s) (frames s) (supportsSetDesktopSize s) (screenID s) (screenFlags s) (pendingRemoteResize s) (lastResize s) t n k.
(** [constructor]: a canvas of no size *)
Definition start (b : rfb) (w : Q * Q) : screen :=
  Screen b true false true false false false false false w (Display.constructor 0 0 (λ _ _, Display.transparent)) (Some 1%Q) 0 0 false
    None 0 false 0 0 false 0 ∅ 0 None.

(** ** What the handlers do outside the console *)
Inductive effect :=
  | Sent (m : message)
  | Asked (now w h id flags : Z)      (* [SetDesktopSize] goes out, at this time *)
  | Answered                          (* our request has its answer *)
  | ClippingTold (on : bool)          (* the event [clippingviewport] *)
  | Grabbed (on : bool).              (* the keyboard's listeners *)
#[local] Abbreviation handler := (Prelude.handler screen effect).
#[local] Open Scope handler_scope.

(** ** Sizes *)
Definition client (s : screen) : Z * Z :=
  let v := Display.viewportLoc (display s) in client_size (window s) (Display.vw v, Display.vh v) (scale s).
Definition saveExpectedClientSize : handler := modify (λ s, with_expected (Some (client s)) s).
Definition clientHasExpectedSize (s : screen) : bool := bool_decide (expectedClientSize s = Some (client s)).
Definition screenSize (s : screen) : Q * Q := window s.
(** [display.autoscale]: the quotients of a viewport without pixels as well *)
Definition autoscale (w h : Q) (vw vh : Z) : option Q :=
  if Qeq_bool w 0 || Qeq_bool h 0 then Some 0%Q
  else if vh =? 0 then (if vw =? 0 then None else Some (w / inject_Z vw)%Q)
  else if vw =? 0 then Some (h / inject_Z vh)%Q
  else Some (Scale.autoscale w h vw vh).

Definition setClippingViewport (on : bool) : handler := with_state (λ s,
  if Bool.eqb on (clippingViewport s) then skip else modify (with_clipping on) ▸ emit (ClippingTold on)).
Definition Qltb (a b : Q) : bool := negb (Qle_bool b a).
Definition new_clip (s : screen) : bool := clipViewport s && negb (scaleViewport s).
Definition on_display (f : Display.display (P := P) → Display.display) (s : screen) : screen := with_display (f (display s)) (scale s) s.
Definition updateClip : handler := with_state (λ s0,
  let changed := negb (Bool.eqb (Display.clipViewport (display s0)) (new_clip s0)) in
  (if changed then modify (on_display (Display.set_clipViewport image (new_clip s0))) else skip)
  ▸ (if new_clip s0 then
       with_state (λ s, let '(w, h) := screenSize s in
         modify (on_display (Display.viewportChangeSize image (Some (w, h))))
         ▸ with_state (λ s, setClippingViewport (Qltb w (inject_Z (Display.fbWidth (display s)))
                                                 || Qltb h (inject_Z (Display.fbHeight (display s))))))
     else setClippingViewport false)
  ▸ (if changed then saveExpectedClientSize else skip)).
Definition updateScale : handler := modify (λ s,
  let v := Display.viewportLoc (display s) in
  with_display (display s) (if scaleViewport s then autoscale (window s).1 (window s).2 (Display.vw v) (Display.vh v) else Some 1%Q) s).

(** ** Asking for another size *)
(** [clearTimeout(this._resizeTimeout)] *)
Definition clear_timeout (s : screen) : gmap nat Z :=
  match resizeTimeout s with Some k => delete k (timers s) | None => timers s end.
Definition arm (now delay : Z) (s : screen) : screen :=
  with_timers (<[next_timer s := now + delay]> (clear_timeout s)) (S (next_timer s)) (Some (next_timer s)) s.
Definition requestRemoteResize (now : Z) : handler := with_state (λ s,
  if negb (resizeSession s) then skip
  else if viewOnly (base s) then skip
  else if negb (supportsSetDesktopSize s) then skip
  else if pendingRemoteResize s then skip
  else if now - lastResize s <? 100 then modify (arm now (100 - (now - lastResize s)))
  else
    let '(w, h) := screenSize s in
    modify (λ s, with_timers (timers s) (next_timer s) None s)
    ▸ if Qeq_bool w (inject_Z (fbWidth s)) && Qeq_bool h (inject_Z (fbHeight s)) then skip
      else modify (with_pending true now) ▸ emit (Asked now (Qfloor w) (Qfloor h) (screenID s) (screenFlags s))).
Definition handleResize (now : Z) : handler := with_state (λ s,
  if clientHasExpectedSize s then skip else modify (with_frames (S (frames s))) ▸ requestRemoteResize now).
(** what [handleResize] asks of the next animation frame *)
Definition resize_frame : handler := modify (λ s, with_frames (pred (frames s)) s) ▸ updateClip ▸ updateScale ▸ saveExpectedClientSize.
(** the timer of [requestRemoteResize] *)
Definition resize_timer (k : nat) (now : Z) : handler :=
  modify (λ s, with_timers (delete k (timers s)) (next_timer s) (resizeTimeout s) s) ▸ requestRemoteResize now.

(** ** The server *)
Definition updateContinuousUpdates : handler := with_state (λ s,
  if enabledContinuousUpdates s then emit (Sent (EnableContinuousUpdates 1 0 0 (fbWidth s) (fbHeight s))) else skip).
Definition resize (w h : Z) : handler :=
  modify (λ s, on_display (Display.resize image w h) (with_size w h s)) ▸ updateClip ▸ updateScale ▸ updateContinuousUpdates ▸ saveExpectedClientSize.
(** [_handleExtendedDesktopSize] after the screens: [x] and [y] of the rectangle,
    and the first screen's [id] and [flags] when there is one *)
Definition desktop_size (x y w h : Z) (first : option (Z * Z)) (now : Z) : handler := with_state (λ s,
  let firstUpdate := negb (supportsSetDesktopSize s) in
  modify (match first with Some (id, flags) => with_support id flags | None => with_support (screenID s) (screenFlags s) end)
  ▸ (if x =? 1 then modify (λ s, with_pending false (lastResize s) s) ▸ emit Answered else skip)
  ▸ (if (x =? 1) && negb (y =? 0) then skip else resize w h)
  ▸ (if firstUpdate then requestRemoteResize now else skip)
  ▸ (if (x =? 1) && (y =? 0) then requestRemoteResize now else skip)).
(** a server of Intel AMT has 8 bits of color *)
Definition server_init (w h : Z) (amt : bool) : handler :=
  resize w h
  ▸ with_state (λ s, if viewOnly (base s) then skip else modify (with_grab true) ▸ emit (Grabbed true))
  ▸ modify (λ s, with_base (set_depth (if amt then 8 else 24) (base s)) s)
  ▸ with_state (λ s, emit (Sent (PixelFormat (fbDepth (base s)) true)) ▸ emit (Sent (sendEncodings h264 (base s)))
                     ▸ emit (Sent (FbUpdateRequest false 0 0 (fbWidth s) (fbHeight s))))
  ▸ modify (λ s, with_phase (set_connected true (base s)) false (observing s) s).
(** the message 150 of [_normalMsg]: [first], the first of them *)
Definition end_of_updates (first : bool) : handler :=
  modify (with_updates first) ▸ updateContinuousUpdates.

(** ** The properties of the console *)
Definition set_viewOnly (b : bool) : handler := with_state (λ s,
  modify (with_base (set_only b (base s)))
  ▸ if connecting s || connected (base s) then modify (with_grab (negb b)) ▸ emit (Grabbed (negb b)) else skip).
Definition set_clipViewport (b : bool) : handler :=
  modify (λ s, with_settings b (scaleViewport s) (resizeSession s) (dragViewport s) s) ▸ updateClip.
(** scaling trumps clipping: the clip changes before the scale is right, or after *)
Definition set_scaleViewport (b : bool) : handler :=
  modify (λ s, with_settings (clipViewport s) b (resizeSession s) (dragViewport s) s)
  ▸ with_state (λ s, if b && clipViewport s then updateClip else skip)
  ▸ updateScale
  ▸ with_state (λ s, if negb b && clipViewport s then updateClip else skip).
Definition set_resizeSession (b : bool) (now : Z) : handler :=
  modify (λ s, with_settings (clipViewport s) (scaleViewport s) b (dragViewport s) s) ▸ if b then requestRemoteResize now else skip.
Definition set_dragViewport (b : bool) : handler :=
  modify (λ s, with_settings (clipViewport s) (scaleViewport s) (resizeSession s) b s).
(** a level that is not a whole number is none *)
Definition set_level (get : rfb → Z) (put : Z → rfb → rfb) (level : option Z) : handler := with_state (λ s,
  match level with
  | Some n =>
    if (n <? 0) || (9 <? n) then skip
    else if get (base s) =? n then skip
    else modify (with_base (put n (base s)))
         ▸ if connected (base s) then with_state (λ s, emit (Sent (sendEncodings h264 (base s)))) else skip
  | None => skip
  end).
Definition set_qualityLevel : option Z → handler := set_level qualityLevel set_quality.
Definition set_compressionLevel : option Z → handler := set_level compressionLevel set_compression.
(** [disconnect]: of its parts, those of the screen and the keyboard *)
Definition disconnect : handler :=
  modify (λ s, with_phase (set_connected false (base s)) false false s)
  ▸ modify (with_grab false) ▸ emit (Grabbed false)
  ▸ modify (λ s, with_timers (clear_timeout s) (next_timer s) (resizeTimeout s) s).

(** ** The View menu of the page, [applyView] of static/js/console_vnc.js *)
Record menu := Menu { m_resize : string; m_clip : bool; m_drag : bool; m_only : bool; m_quality : option Z; m_compression : option Z }.
Definition applyView (m : menu) (now : Z) : handler :=
  set_scaleViewport (bool_decide (m_resize m = "scale"))
  ▸ set_resizeSession (bool_decide (m_resize m = "remote")) now
  ▸ with_state (λ s, set_clipViewport (m_clip m && negb (scaleViewport s)))
  ▸ with_state (λ s, set_dragViewport (m_drag m && clipViewport s))
  ▸ set_viewOnly (m_only m)
  ▸ set_qualityLevel (m_quality m)
  ▸ set_compressionLevel (m_compression m).

(** ** Events *)
Inductive event :=
  | Window (w h : Q)                    (* the page's layout changes *)
  | Observed (now : Z)                  (* the observer of the screen's size *)
  | FrameDrawn
  | TimerFires (k : nat) (now : Z)
  | ServerInit (w h : Z) (amt : bool)
  | DesktopSize (w h : Z)
  | ExtendedDesktopSize (x y w h : Z) (first : option (Z * Z)) (now : Z)
  | EndOfUpdates (first : bool)         (* the server's message 150 *)
  | Paint (c : Display.call)            (* the decoders and the dragged viewport *)
  | SetViewOnly (b : bool) | SetClip (b : bool) | SetScale (b : bool) | SetResize (b : bool) (now : Z)
  | SetQuality (level : option Z) | SetCompression (level : option Z)
  | MenuChanged (m : menu) (now : Z)
  | Disconnect.
Definition step (s : screen) (e : event) : screen * list effect :=
  match e with
  | Window w h => (with_window (w, h) s, [])
  | Observed now => handleResize now s
  | FrameDrawn => resize_frame s
  | TimerFires k now => resize_timer k now s
  | ServerInit w h amt => server_init w h amt s
  | DesktopSize w h => resize w h s
  | ExtendedDesktopSize x y w h first now => desktop_size x y w h first now s
  | EndOfUpdates first => end_of_updates first s
  | Paint c => (on_display (λ d, Display.step image d c) s, [])
  | SetViewOnly b => set_viewOnly b s
  | SetClip b => set_clipViewport b s
  | SetScale b => set_scaleViewport b s
  | SetResize b now => set_resizeSession b now s
  | SetQuality level => set_qualityLevel level s
  | SetCompression level => set_compressionLevel level s
  | MenuChanged m now => applyView m now s
  | Disconnect => disconnect s
  end.
(** a drawing, or a change of the viewport's position *)
Definition paints (c : Display.call) : bool :=
  match c with Display.CResize _ _ | Display.CSize _ | Display.CClip _ => false | _ => true end.
Definition u16 (n : Z) : Prop := 0 <= n < 2 ^ 16.
Definition enabled (s : screen) (e : event) : Prop :=
  match e with
  | Window w h => (0 <= w)%Q ∧ (0 <= h)%Q
  | Observed _ => observing s = true
  | FrameDrawn => (0 < frames s)%nat
  | TimerFires k now => ∃ due, timers s !! k = Some due ∧ due <= now
  | ServerInit w h _ => connecting s = true ∧ u16 w ∧ u16 h
  | DesktopSize w h => connected (base s) = true ∧ u16 w ∧ u16 h
  | ExtendedDesktopSize _ _ w h _ _ => connected (base s) = true ∧ u16 w ∧ u16 h
  | EndOfUpdates _ => connected (base s) = true
  | Paint c => Display.enabled (display s) c ∧ paints c = true
  | Disconnect => connecting s = true ∨ connected (base s) = true
  | _ => True
  end.

(** ** Requests of another size *)
(** the times of the requests; whether one waits for its answer, none where a
    request goes out while another waits *)
Definition times (os : list effect) : list Z := omap (λ o, match o with Asked t _ _ _ _ => Some t | _ => None end) os.
Fixpoint spaced (last : Z) (ts : list Z) : Prop :=
  match ts with [] => True | t :: ts => last + 100 <= t ∧ spaced t ts end.
Definition waiting1 (b : option bool) (o : effect) : option bool :=
  match b, o with
  | Some false, Asked _ _ _ _ _ => Some true
  | Some true, Asked _ _ _ _ _ | None, _ => None
  | Some _, Answered => Some false
  | Some b, _ => Some b
  end.
Definition waiting (b : bool) (os : list effect) : option bool := foldl waiting1 (Some b) os.

(** what the page was told of the clipping: news each time, or none *)
Definition told1 (b : option bool) (o : effect) : option bool :=
  match b, o with
  | Some b, ClippingTold on => if Bool.eqb b on then None else Some on
  | _, _ => b
  end.
Definition told (b : bool) (os : list effect) : option bool := foldl told1 (Some b) os.

(** what a handler's requests and events do to the state that paces them *)
Definition paces (s : screen) (os : list effect) (s' : screen) : Prop :=
  spaced (lastResize s) (times os) ∧ lastResize s' = default (lastResize s) (last (times os))
  ∧ waiting (pendingRemoteResize s) os = Some (pendingRemoteResize s')
  ∧ told (clippingViewport s) os = Some (clippingViewport s').
Lemma spaced_app l ts1 ts2 : spaced l ts1 → spaced (default l (last ts1)) ts2 → spaced l (ts1 ++ ts2).
Proof.
  revert l. induction ts1 as [|t ts1 IH]; intros l; [done|]. simpl. intros [H1 H2] H3. split; [done|]. apply IH; [done|].
  rewrite last_cons in H3. by destruct (last ts1).
Qed.
Lemma default_last_app (l : Z) ts1 ts2 : default l (last (ts1 ++ ts2)) = default (default l (last ts1)) (last ts2).
Proof. rewrite last_app. by destruct (last ts2). Qed.
Lemma paces_app s1 os1 s2 os2 s3 : paces s1 os1 s2 → paces s2 os2 s3 → paces s1 (os1 ++ os2) s3.
Proof.
  intros (H1 & H2 & H3 & Ht) (H4 & H5 & H6 & Ht'). unfold paces, times, waiting, told in *.
  rewrite omap_app, !foldl_app, H3, Ht, default_last_app, <- H2.
  split_and!; [|done..]. apply spaced_app; [done|by rewrite <- H2].
Qed.
Definition orderly (h : handler) : Prop := ∀ s, paces s (h s).2 (h s).1.
Lemma orderly_skip : orderly skip.
Proof. by intros s. Qed.
Lemma orderly_modify f :
  (∀ s, (lastResize (f s), pendingRemoteResize (f s), clippingViewport (f s)) = (lastResize s, pendingRemoteResize s, clippingViewport s)) →
  orderly (modify f).
Proof. intros Hf s. specialize (Hf s). injection Hf as H1 H2 H3. unfold paces. simpl. by rewrite H1, H2, H3. Qed.
Lemma orderly_emit o : match o with Asked _ _ _ _ _ | Answered | ClippingTold _ => False | _ => True end → orderly (emit o).
Proof. intros Ho s. unfold paces, waiting. simpl. by destruct o, (pendingRemoteResize s). Qed.
Lemma orderly_seq f g : orderly f → orderly g → orderly (f ▸ g).
Proof. intros Hf Hg s. rewrite seq_fst, seq_snd. by eapply paces_app. Qed.
Lemma orderly_with_state f : (∀ s, orderly (f s)) → orderly (with_state f).
Proof. intros Hf s. apply Hf. Qed.
Lemma orderly_clipping on : orderly (setClippingViewport on).
Proof.
  intros s. unfold setClippingViewport, with_state. destruct (Bool.eqb on (clippingViewport s)) eqn:E; [done|]. unfold paces, waiting, told. simpl.
  replace (Bool.eqb (clippingViewport s) on) with false by (by destruct on, (clippingViewport s)). by destruct (pendingRemoteResize s).
Qed.
Lemma orderly_answer : orderly (modify (λ s, with_pending false (lastResize s) s) ▸ emit Answered).
Proof. intros s. unfold paces, waiting. simpl. by destruct (pendingRemoteResize s). Qed.
Create HintDb orderly_db.
Ltac orderly := cbv zeta; repeat (lazymatch goal with
  | |- orderly skip => apply orderly_skip
  | |- orderly (modify _) => apply orderly_modify; intros ?; reflexivity
  | |- orderly (emit _) => apply orderly_emit; exact I
  | |- orderly (modify _ ▸ emit Answered) => apply orderly_answer
  | |- orderly (_ ▸ _) => apply orderly_seq
  | |- orderly (with_state _) => apply orderly_with_state; intros ?; cbv zeta
  | |- orderly (if ?b then _ else _) => destruct b
  | |- orderly (match ?x with _ => _ end) => destruct x
  | |- orderly _ => solve [auto with orderly_db]
  end).
#[local] Hint Resolve orderly_clipping : orderly_db.
Lemma orderly_clip : orderly updateClip.
Proof. unfold updateClip, saveExpectedClientSize. orderly. Qed.
Lemma orderly_ask now : orderly (requestRemoteResize now).
Proof.
  intros s. unfold requestRemoteResize, with_state. destruct (resizeSession s); [|by apply orderly_skip]. destruct (viewOnly _); [by apply orderly_skip|].
  destruct (supportsSetDesktopSize s); [|by apply orderly_skip]. simpl.
  destruct (pendingRemoteResize s) eqn:Ep; [by apply orderly_skip|].
  destruct (Z.ltb_spec (now - lastResize s) 100); [by apply (orderly_modify (arm _ _))|].
  destruct (screenSize s) as [w h]. unfold paces, seq, modify, emit, skip, screenSize. simpl.
  destruct (_ && _); simpl; [by rewrite Ep|]. rewrite Ep. split_and!; [lia|done..].
Qed.
#[local] Hint Resolve orderly_clip orderly_ask : orderly_db.
Lemma orderly_resize w h : orderly (resize w h).
Proof. unfold resize, updateScale, updateContinuousUpdates, saveExpectedClientSize. orderly. Qed.
#[local] Hint Resolve orderly_resize : orderly_db.
Lemma orderly_clip_setter b : orderly (set_clipViewport b).
Proof. unfold set_clipViewport. orderly. Qed.
Lemma orderly_scale_setter b : orderly (set_scaleViewport b).
Proof. unfold set_scaleViewport, updateScale. orderly. Qed.
Lemma orderly_session_setter b now : orderly (set_resizeSession b now).
Proof. unfold set_resizeSession. orderly. Qed.
Lemma orderly_only_setter b : orderly (set_viewOnly b).
Proof. unfold set_viewOnly. orderly. Qed.
Lemma orderly_level get put level : orderly (set_level get put level).
Proof. unfold set_level. orderly. Qed.
#[local] Hint Resolve orderly_clip_setter orderly_scale_setter orderly_session_setter orderly_only_setter orderly_level : orderly_db.
Lemma orderly_answers x y w h first now : orderly (desktop_size x y w h first now).
Proof. unfold desktop_size. destruct first as [[]|]; orderly. Qed.
Lemma paces_step s e : paces s (step s e).2 (step s e).1.
Proof.
  destruct e; try (by unfold paces); cbn [step]; lazymatch goal with |- paces s (?h s).2 _ => cut (orderly h); [by auto|] end.
  - unfold handleResize. orderly.
  - unfold resize_frame, updateScale, saveExpectedClientSize. orderly.
  - unfold resize_timer. orderly.
  - unfold server_init. orderly.
  - apply orderly_resize.
  - apply orderly_answers.
  - unfold end_of_updates, updateContinuousUpdates. orderly.
  - apply orderly_only_setter.
  - apply orderly_clip_setter.
  - apply orderly_scale_setter.
  - apply orderly_session_setter.
  - apply orderly_level.
  - apply orderly_level.
  - unfold applyView, set_dragViewport, set_qualityLevel, set_compressionLevel. orderly.
  - unfold disconnect. orderly.
Qed.

(** what a request rests on, and the requests that rest on it *)
Definition rights (s : screen) : bool * bool * bool * (Q * Q) :=
  (viewOnly (base s), resizeSession s, supportsSetDesktopSize s, window s).
Definition ask_ok (r : bool * bool * bool * (Q * Q)) (o : effect) : Prop :=
  match o with
  | Asked _ w h _ _ => r.1.1.1 = false ∧ r.1.1.2 = true ∧ r.1.2 = true ∧ w = Qfloor r.2.1 ∧ h = Qfloor r.2.2
  | _ => True
  end.
Definition proper (h : handler) : Prop := ∀ s, rights (h s).1 = rights s ∧ Forall (ask_ok (rights s)) (h s).2.
Lemma proper_skip : proper skip.
Proof. by intros s. Qed.
Lemma proper_modify f : (∀ s, rights (f s) = rights s) → proper (modify f).
Proof. intros Hf s. by split; [apply Hf|constructor]. Qed.
Lemma proper_emit o : match o with Asked _ _ _ _ _ => False | _ => True end → proper (emit o).
Proof. intros Ho s. split; [done|]. constructor; [|constructor]. by destruct o. Qed.
Lemma proper_seq f g : proper f → proper g → proper (f ▸ g).
Proof.
  intros Hf Hg s. rewrite seq_fst, seq_snd. destruct (Hf s) as [H1 H2], (Hg (f s).1) as [H3 H4]. rewrite H1 in *.
  split; [done|]. by apply Forall_app.
Qed.
Lemma proper_with_state f : (∀ s, proper (f s)) → proper (with_state f).
Proof. intros Hf s. apply Hf. Qed.
Create HintDb proper_db.
Ltac proper := cbv zeta; repeat (lazymatch goal with
  | |- proper skip => apply proper_skip
  | |- proper (modify _) => apply proper_modify; intros ?; reflexivity
  | |- proper (emit _) => apply proper_emit; exact I
  | |- proper (_ ▸ _) => apply proper_seq
  | |- proper (with_state _) => apply proper_with_state; intros ?; cbv zeta
  | |- proper (if ?b then _ else _) => destruct b
  | |- proper (match ?x with _ => _ end) => destruct x
  | |- proper _ => solve [auto with proper_db]
  end).
Lemma proper_ask now : proper (requestRemoteResize now).
Proof.
  intros s. unfold requestRemoteResize, with_state.
  destruct (resizeSession s) eqn:E1; [|done]. destruct (viewOnly _) eqn:E2; [done|]. destruct (supportsSetDesktopSize s) eqn:E3; [|done]. simpl.
  destruct (pendingRemoteResize s); [done|]. destruct (_ <? 100); [done|]. unfold screenSize, rights. destruct (window s) as [w h] eqn:Ew.
  unfold seq, modify, emit, skip. simpl. destruct (_ && _); simpl; (split; [by rewrite Ew|]); [constructor|].
  constructor; [|constructor]. simpl. by rewrite ?E1, ?E2, ?E3.
Qed.
Lemma proper_clip : proper updateClip.
Proof. unfold updateClip, setClippingViewport, saveExpectedClientSize. proper. Qed.
#[local] Hint Resolve proper_clip proper_ask : proper_db.
Lemma proper_resize w h : proper (resize w h).
Proof. unfold resize, updateScale, updateContinuousUpdates, saveExpectedClientSize. proper. Qed.
Lemma proper_clip_setter b : proper (set_clipViewport b).
Proof. unfold set_clipViewport. proper. Qed.
Lemma proper_scale_setter b : proper (set_scaleViewport b).
Proof. unfold set_scaleViewport, updateScale. proper. Qed.
Lemma proper_level get put level : (∀ n b, viewOnly (put n b) = viewOnly b) → proper (set_level get put level).
Proof.
  intros Hp s. unfold set_level, with_state. destruct level as [n|]; [|done].
  destruct (_ || _); [done|]. destruct (get (base s) =? n); [done|]. unfold seq, modify, emit, skip, rights. simpl.
  destruct (connected _); simpl; rewrite Hp; (split; [done|]); repeat constructor.
Qed.
#[local] Hint Resolve proper_resize proper_clip_setter proper_scale_setter : proper_db.

(** the settings change what a request rests on, and then it is made *)
Definition asks_rightly (s : screen) (os : list effect) (s' : screen) : Prop :=
  Forall (λ o, match o with
    | Asked _ w h _ _ => viewOnly (base s) = false ∧ resizeSession s' = true ∧ supportsSetDesktopSize s' = true
                         ∧ w = Qfloor (window s).1 ∧ h = Qfloor (window s).2
    | _ => True end) os.
Lemma proper_asks h s s0 :
  proper h → viewOnly (base s) = viewOnly (base s0) → window s = window s0 → asks_rightly s0 (h s).2 (h s).1.
Proof.
  intros Hh Hv Hw. destruct (Hh s) as [H1 H2]. eapply Forall_impl; [exact H2|]. intros o. unfold rights in *. simplify_eq.
  destruct o; [done| |done..]. unfold ask_ok. simpl. rewrite Hv, Hw. naive_solver congruence.
Qed.
Lemma asks_then s f g :
  asks_rightly s (f s).2 (f s).1 → viewOnly (base (f s).1) = viewOnly (base s) → window (f s).1 = window s → proper g →
  asks_rightly s ((f ▸ g) s).2 ((f ▸ g) s).1.
Proof.
  intros Hf Hv Hw Hg. rewrite seq_fst, seq_snd. apply Forall_app. split; [|by apply proper_asks].
  destruct (Hg (f s).1) as [Hr _]. unfold rights in Hr. eapply Forall_impl; [exact Hf|]. intros []; try done. simplify_eq. naive_solver congruence.
Qed.
Lemma no_asks s os s' : times os = [] → asks_rightly s os s'.
Proof. intros Ht. induction os as [|o os IH]; [constructor|]. destruct o; try discriminate Ht; (constructor; [exact I|by apply IH]). Qed.
(** handlers that ask for nothing and keep the other settings *)
Lemma asks_quiet s f g :
  asks_rightly s (f s).2 (f s).1 → (∀ s, resizeSession (g s).1 = resizeSession s ∧ supportsSetDesktopSize (g s).1 = supportsSetDesktopSize s) →
  (∀ s, times (g s).2 = []) → asks_rightly s ((f ▸ g) s).2 ((f ▸ g) s).1.
Proof.
  intros Hf Hg Ht. rewrite seq_fst, seq_snd. destruct (Hg (f s).1) as [H1 H2]. apply Forall_app. split.
  - eapply Forall_impl; [exact Hf|]. intros []; try done. naive_solver congruence.
  - by apply no_asks.
Qed.
Lemma only_quiet b s :
  (resizeSession (set_viewOnly b s).1 = resizeSession s ∧ supportsSetDesktopSize (set_viewOnly b s).1 = supportsSetDesktopSize s)
  ∧ times (set_viewOnly b s).2 = [].
Proof. unfold set_viewOnly, with_state, seq, modify, emit, skip. by destruct (_ || _). Qed.
Lemma level_quiet get put level s :
  (resizeSession (set_level get put level s).1 = resizeSession s
   ∧ supportsSetDesktopSize (set_level get put level s).1 = supportsSetDesktopSize s)
  ∧ times (set_level get put level s).2 = [].
Proof.
  unfold set_level, with_state. destruct level as [n|]; [|done]. destruct (_ || _); [done|]. destruct (_ =? _); [done|].
  unfold seq, modify, emit, skip. simpl. by destruct (connected _).
Qed.
Lemma scale_quiet b : emits (λ o, match o with Asked _ _ _ _ _ => False | _ => True end) (set_scaleViewport b).
Proof. unfold set_scaleViewport, updateScale, updateClip, setClippingViewport, saveExpectedClientSize. cbv zeta. solve_emits ltac:(exact I). Qed.
Lemma session_asks b now s s0 :
  viewOnly (base s) = viewOnly (base s0) → window s = window s0 →
  asks_rightly s0 (set_resizeSession b now s).2 (set_resizeSession b now s).1.
Proof.
  intros Hv Hw. unfold set_resizeSession. rewrite seq_fst, seq_snd. apply proper_asks; [|done..].
  destruct b; [apply proper_ask|apply proper_skip].
Qed.
Lemma session_keeps b now s :
  viewOnly (base (set_resizeSession b now s).1) = viewOnly (base s) ∧ window (set_resizeSession b now s).1 = window s.
Proof.
  unfold set_resizeSession. rewrite seq_fst. assert (proper (if b then requestRemoteResize now else skip)) as Hq by proper.
  set (s1 := (modify _ _).1). destruct (Hq s1) as [H1 _]. unfold rights in H1. injection H1 as E1 _ _ E4. by rewrite E1, E4.
Qed.
Lemma menu_asks m now s : asks_rightly s (applyView m now s).2 (applyView m now s).1.
Proof.
  unfold applyView. repeat (apply asks_quiet; [|intros ?; apply level_quiet|intros ?; apply level_quiet]).
  apply asks_quiet; [|intros ?; apply only_quiet|intros ?; apply only_quiet].
  set (h := set_scaleViewport _). assert (proper h) as Hh by apply proper_scale_setter. destruct (Hh s) as [H1 H2].
  rewrite seq_assoc. unfold rights in H1. simplify_eq. apply asks_then.
  - rewrite seq_fst, seq_snd. apply Forall_app. split; [|by apply session_asks].
    eapply Forall_impl; [apply (scale_quiet _ s)|]. by intros [].
  - rewrite seq_fst. rewrite (proj1 (session_keeps _ _ _)). congruence.
  - rewrite seq_fst. rewrite (proj2 (session_keeps _ _ _)). congruence.
  - unfold set_dragViewport. proper.
Qed.
Lemma step_asks s e : asks_rightly s (step s e).2 (step s e).1.
Proof.
  destruct e; try (by constructor); cbn [step].
  - apply proper_asks; [|done..]. unfold handleResize. proper.
  - apply proper_asks; [|done..]. unfold resize_frame, updateScale, saveExpectedClientSize. proper.
  - apply proper_asks; [|done..]. unfold resize_timer. proper.
  - apply proper_asks; [|done..]. unfold server_init. proper.
  - apply proper_asks; [|done..]. proper.
  - unfold desktop_size, with_state. rewrite !seq_assoc, seq_fst, seq_snd. destruct first as [[]|]; apply proper_asks; proper || done.
  - apply proper_asks; [|done..]. unfold end_of_updates, updateContinuousUpdates. proper.
  - apply no_asks, only_quiet.
  - apply proper_asks; [|done..]. proper.
  - apply proper_asks; [|done..]. proper.
  - by apply session_asks.
  - apply no_asks, level_quiet.
  - apply no_asks, level_quiet.
  - apply menu_asks.
Qed.

(** C21: Requests of another screen size are orderly: in whatever order the
    window, the timers, the server and the user act, the console never sends one
    before 100 ms have passed since the one before, never one while another
    still waits for its answer, and only when the console may act, the session
    is to be resized and the server has said that it can be; and it asks for the
    whole pixels of the window. *)
Theorem resize_requests_are_orderly b w es s os :
  trace enabled step (start b w) es s os →
  spaced 0 (times os) ∧ waiting false os = Some (pendingRemoteResize s)
  ∧ ∀ e, enabled s e → ∀ t ww hh id flags, Asked t ww hh id flags ∈ (step s e).2 →
      viewOnly (base s) = false ∧ resizeSession (step s e).1 = true ∧ supportsSetDesktopSize (step s e).1 = true
      ∧ ww = Qfloor (window s).1 ∧ hh = Qfloor (window s).2.
Proof.
  intros Ht. assert (paces (start b w) os s) as (H1 & _ & H3 & _).
  { revert es s os Ht. apply trace_snoc_ind; [done|]. intros es s os e _ IH _. eapply paces_app; [exact IH|apply paces_step]. }
  split_and!; [done..|]. intros e _ t ww hh id flags Hin. exact (proj1 (Forall_forall _ _) (step_asks s e) _ Hin).
Qed.
(** ** The remote screen follows the window *)
Definition same_size (s : screen) : bool :=
  Qeq_bool (window s).1 (inject_Z (fbWidth s)) && Qeq_bool (window s).2 (inject_Z (fbHeight s)).
Definition may_ask (s : screen) : Prop :=
  connected (base s) = true ∧ viewOnly (base s) = false ∧ resizeSession s = true ∧ supportsSetDesktopSize s = true.
Definition armed (s : screen) : Prop := ∃ k due, resizeTimeout s = Some k ∧ timers s !! k = Some due.
Definition followed (s : screen) : Prop := may_ask s → pendingRemoteResize s = true ∨ armed s ∨ same_size s = true.
(** the timer that is kept fires when the pause since the last request is over *)
Definition timers_right (s : screen) : Prop :=
  (∀ k, is_Some (timers s !! k) ∨ resizeTimeout s = Some k → (k < next_timer s)%nat)
  ∧ ∀ k due, resizeTimeout s = Some k → timers s !! k = Some due → due = lastResize s + 100.
Definition idle (s : screen) :=
  (rights s, connected (base s), fbWidth s, fbHeight s,
   (pendingRemoteResize s, lastResize s, timers s, next_timer s, resizeTimeout s)).
Lemma idle_keeps s s' : idle s' = idle s → (followed s → followed s') ∧ (timers_right s → timers_right s').
Proof.
  unfold idle, rights, followed, may_ask, armed, same_size, timers_right. intros Hi. simplify_eq.
  repeat match goal with E : _ _ = _ _ |- _ => rewrite E; clear E | E : _ (_ _) = _ |- _ => rewrite E; clear E end. done.
Qed.

Lemma idle_fields s s' : idle s' = idle s → fbWidth s' = fbWidth s ∧ fbHeight s' = fbHeight s ∧ window s' = window s.
Proof. unfold idle, rights. intros Hi. by simplify_eq. Qed.
Definition still (h : handler) : Prop := ∀ s, idle (h s).1 = idle s.
Lemma still_modify f : (∀ s, idle (f s) = idle s) → still (modify f).
Proof. intros Hf s. apply Hf. Qed.
Lemma still_seq f g : still f → still g → still (f ▸ g).
Proof. intros Hf Hg s. rewrite seq_fst. by rewrite Hg, Hf. Qed.
Lemma still_with_state f : (∀ s, still (f s)) → still (with_state f).
Proof. intros Hf s. apply Hf. Qed.
Create HintDb still_db.
Ltac still := cbv zeta; repeat (lazymatch goal with
  | |- still skip => by intros ?
  | |- still (emit _) => by intros ?
  | |- still (modify _) => apply still_modify; intros ?; reflexivity
  | |- still (_ ▸ _) => apply still_seq
  | |- still (with_state _) => apply still_with_state; intros ?; cbv zeta
  | |- still (if ?b then _ else _) => destruct b
  | |- still (match ?x with _ => _ end) => destruct x
  | |- still _ => solve [auto with still_db]
  end).
Lemma still_clip : still updateClip.
Proof. unfold updateClip, setClippingViewport, saveExpectedClientSize. still. Qed.
Lemma still_updates : still updateContinuousUpdates.
Proof. unfold updateContinuousUpdates. still. Qed.
#[local] Hint Resolve still_clip still_updates : still_db.
Lemma still_scale_setter b : still (set_scaleViewport b).
Proof. unfold set_scaleViewport, updateScale. still. Qed.
Lemma still_clip_setter b : still (set_clipViewport b).
Proof. unfold set_clipViewport. still. Qed.
#[local] Hint Resolve still_scale_setter still_clip_setter : still_db.
Lemma still_level get put level :
  (∀ n b, viewOnly (put n b) = viewOnly b ∧ connected (put n b) = connected b) → still (set_level get put level).
Proof.
  intros Hp s. unfold set_level, with_state. destruct level as [n|]; [|done]. destruct (_ || _); [done|]. destruct (_ =? _); [done|].
  unfold seq, modify, emit, skip, idle, rights. destruct (Hp n (base s)) as [H1 H2].
  simpl. destruct (connected (base s)) eqn:E; simpl; rewrite H1, H2; congruence.
Qed.
Lemma resize_sets w h s :
  idle (resize w h s).1 = idle (with_size w h s) .
Proof.
  unfold resize. rewrite !seq_assoc, seq_fst.
  match goal with |- idle (?g _).1 = _ => assert (still g) as Hg by (unfold updateScale, saveExpectedClientSize; still) end.
  by rewrite Hg.
Qed.
(** a request: nothing to ask, or the state is followed afterwards *)
Lemma ask_follows now s :
  timers_right s →
  followed (requestRemoteResize now s).1 ∧ timers_right (requestRemoteResize now s).1
  ∧ fbWidth (requestRemoteResize now s).1 = fbWidth s ∧ fbHeight (requestRemoteResize now s).1 = fbHeight s
  ∧ connected (base (requestRemoteResize now s).1) = connected (base s).
Proof.
  intros [Hk Hd]. unfold requestRemoteResize, with_state, followed, may_ask.
  destruct (resizeSession s) eqn:E1; [|by split_and!; [naive_solver congruence|done..]]. simpl.
  destruct (viewOnly (base s)) eqn:E2; [by split_and!; [naive_solver congruence|done..]|].
  destruct (supportsSetDesktopSize s) eqn:E3; [|by split_and!; [naive_solver congruence|done..]]. simpl.
  destruct (pendingRemoteResize s) eqn:E4; [by split_and!; auto|].
  destruct (Z.ltb_spec (now - lastResize s) 100).
  - unfold modify, arm. simpl. split_and!; [|split|done..].
    + intros _. right. left. eexists _, _. split; [done|]. simpl. by rewrite lookup_insert_eq.
    + simpl. intros k [Ht|Ht]; [|simplify_eq; lia]. destruct (decide (k = next_timer s)) as [->|Hn]; [lia|].
      rewrite lookup_insert_ne in Ht by done. assert (k < next_timer s)%nat; [|lia]. apply Hk. left. unfold clear_timeout in Ht.
      destruct (resizeTimeout s) as [k0|]; [|done]. destruct (decide (k0 = k)) as [->|]; [by rewrite lookup_delete_eq in Ht; destruct Ht|].
      by rewrite lookup_delete_ne in Ht.
    + simpl. intros k due ? Ht. simplify_eq. rewrite lookup_insert_eq in Ht. simplify_eq. lia.
  - unfold screenSize. destruct (window s) as [w h] eqn:Ew. unfold seq, modify, emit, skip. simpl.
    destruct (Qeq_bool w _ && Qeq_bool h _) eqn:Es; simpl; (split_and!; [|split|done..]).
    + intros _. right. right. unfold same_size. simpl. by rewrite Ew.
    + simpl. intros k [Ht|Ht]; [|done]. apply Hk. by left.
    + done.
    + by left.
    + simpl. intros k [Ht|Ht]; [|done]. apply Hk. by left.
    + done.
Qed.
Lemma still_timers h : still h → preserves timers_right h.
Proof. intros Hh s. by apply (idle_keeps s (h s).1 (Hh s)). Qed.
Lemma ask_timers now : preserves timers_right (requestRemoteResize now).
Proof. intros s Hs. by apply ask_follows. Qed.
Lemma set_timers f : (∀ s, (timers (f s), next_timer (f s), resizeTimeout (f s), lastResize (f s)) = (timers s, next_timer s, resizeTimeout s, lastResize s)) →
  preserves timers_right (modify f : handler).
Proof.
  intros Hf s. specialize (Hf s). unfold timers_right, modify. simpl. simplify_eq.
  repeat match goal with E : _ (f s) = _ |- _ => rewrite E; clear E end. done.
Qed.
Lemma resize_timers w h : preserves timers_right (resize w h).
Proof. intros s. by apply (idle_keeps (with_size w h s) _ (resize_sets w h s)). Qed.
Ltac keeps_timers := cbv zeta; repeat (lazymatch goal with
  | |- preserves _ (requestRemoteResize _) => apply ask_timers
  | |- preserves _ (resize _ _) => apply resize_timers
  | |- preserves _ (set_level _ _ _) => by apply still_timers, still_level
  | |- preserves _ (modify _) => apply set_timers; intros ?; reflexivity
  | |- preserves _ (_ ▸ _) => apply preserves_seq
  | |- preserves _ skip => apply preserves_skip
  | |- preserves _ (emit _) => apply preserves_emit
  | |- preserves _ (with_state _) => apply preserves_with_state; intros ?; cbv zeta
  | |- preserves _ (if ?b then _ else _) => destruct b
  | |- preserves _ (match ?x with _ => _ end) => destruct x
  | |- preserves _ _ => solve [auto using still_timers with still_db]
  end).
Lemma kept_timers t n k s :
  timers_right s → (∀ i x, t !! i = Some x → timers s !! i = Some x) → k = resizeTimeout s ∨ k = None → n = next_timer s →
  timers_right (with_timers t n k s).
Proof.
  intros [H1 H2] Ht Hk ->. split; simpl.
  - intros i [[x Hx]|Hi]; apply H1; [left; eexists; by apply Ht|right]. destruct Hk; congruence.
  - intros i due Hi Hd. apply (H2 i); [destruct Hk; congruence|by apply Ht].
Qed.
Lemma deleted (t : gmap nat Z) k i x : delete k t !! i = Some x → t !! i = Some x.
Proof. destruct (decide (k = i)) as [->|]; [by rewrite lookup_delete_eq|by rewrite lookup_delete_ne]. Qed.
Lemma timer_timers k now : preserves timers_right (resize_timer k now).
Proof.
  unfold resize_timer. apply preserves_seq; [|apply ask_timers]. intros s Hs. apply kept_timers; [done| |by left|done]. intros i x. apply deleted.
Qed.
Lemma step_timers s e : timers_right s → timers_right (step s e).1.
Proof.
  intros Hs. destruct e; cbn [step]; try exact Hs;
    lazymatch goal with |- timers_right (?h s).1 => cut (preserves timers_right h); [by auto|] end.
  - unfold handleResize. keeps_timers.
  - unfold resize_frame, updateScale, saveExpectedClientSize. keeps_timers.
  - apply timer_timers.
  - unfold server_init. keeps_timers.
  - keeps_timers.
  - unfold desktop_size. destruct first as [[]|]; keeps_timers.
  - unfold end_of_updates. keeps_timers.
  - unfold set_viewOnly. keeps_timers.
  - keeps_timers.
  - keeps_timers.
  - unfold set_resizeSession. keeps_timers.
  - by apply still_timers, still_level.
  - by apply still_timers, still_level.
  - unfold applyView, set_resizeSession, set_dragViewport, set_viewOnly, set_qualityLevel, set_compressionLevel. keeps_timers.
  - unfold disconnect. apply preserves_seq; [keeps_timers|]. intros s1 H1. apply kept_timers; [done| |by left|done].
    intros i x. unfold clear_timeout. destruct (resizeTimeout s1); [apply deleted|done].
Qed.
(** what asks the server for the window's size, and what changes the screen or
    the window without asking: a page or a server that changes its size by
    itself, a refusal, an end of the view-only mode *)
Definition excuse (s : screen) (e : event) : Prop :=
  match e with
  | Window _ _ | ServerInit _ _ _ | DesktopSize _ _ => True
  | ExtendedDesktopSize x y _ _ _ _ => supportsSetDesktopSize s = true ∧ ¬ (x = 1 ∧ y = 0)
  | SetViewOnly b => b = false
  | MenuChanged m _ => viewOnly (base s) = true ∧ m_only m = false
  | Disconnect => True
  | _ => False
  end.
Definition checks (s : screen) (e : event) : Prop :=
  match e with
  | Observed _ => expectedClientSize s ≠ Some (client s)
  | TimerFires _ _ => True
  | ExtendedDesktopSize x y _ _ _ _ => supportsSetDesktopSize s = false ∨ x = 1 ∧ y = 0
  | SetResize b _ => b = true
  | MenuChanged m _ => m_resize m = "remote"%string ∧ (viewOnly (base s) = true → m_only m = true)
  | _ => False
  end.
Lemma ask_last f now s : preserves timers_right f → timers_right s → followed ((f ▸ requestRemoteResize now) s).1.
Proof. intros Hf Hs. rewrite seq_fst. apply ask_follows. by apply Hf. Qed.
Lemma then_still f g s : followed (f s).1 → still g → followed ((f ▸ g) s).1.
Proof. intros Hf Hg. rewrite seq_fst. by apply (idle_keeps (f s).1 _ (Hg _)). Qed.
Lemma still_follows h s : still h → followed s → followed (h s).1.
Proof. intros Hh. by apply (idle_keeps s _ (Hh s)). Qed.
Lemma session_follows b now s : timers_right s → followed (set_resizeSession b now s).1.
Proof.
  intros Hs. unfold set_resizeSession. destruct b; [by apply ask_last; [keeps_timers|]|]. rewrite seq_fst. unfold followed, may_ask. naive_solver.
Qed.
Lemma desktop_follows x y w h first now s :
  timers_right s → supportsSetDesktopSize s = false ∨ x = 1 ∧ y = 0 → followed (desktop_size x y w h first now s).1.
Proof.
  intros Hs Hc. unfold desktop_size, with_state. destruct (decide (x = 1 ∧ y = 0)) as [[-> ->]|Hn].
  - simpl. apply ask_last; [|done]. destruct first as [[]|]; keeps_timers.
  - destruct Hc as [->|]; [|done].
    assert ((x =? 1) && (y =? 0) = false) as -> by (apply andb_false_iff; rewrite !Z.eqb_neq; lia). simpl.
    apply then_still; [|still]. apply ask_last; [|done]. destruct first as [[]|]; keeps_timers.
Qed.
Lemma only_follows b s : (viewOnly (base s) = true → b = true) → followed s → followed (set_viewOnly b s).1.
Proof.
  intros Hb Hf. destruct b.
  - unfold set_viewOnly, with_state, seq, modify, emit, skip, followed, may_ask. simpl. destruct (_ || _); simpl; naive_solver.
  - assert (viewOnly (base s) = false) as E by (destruct (viewOnly (base s)); [by discriminate Hb|done]).
    apply (idle_keeps s); [|done]. unfold set_viewOnly, with_state, seq, modify, emit, skip, idle, rights. simpl.
    destruct (_ || _); simpl; by rewrite E.
Qed.
Lemma still_rights h s : still h → viewOnly (base (h s).1) = viewOnly (base s).
Proof. intros Hh. specialize (Hh s). unfold idle, rights in Hh. by simplify_eq. Qed.
Lemma menu_follows m now s :
  timers_right s → (viewOnly (base s) = true → m_only m = true) → followed (applyView m now s).1.
Proof.
  intros Hs Ho. unfold applyView. do 2 (apply then_still; [|by apply still_level]). rewrite seq_fst, seq_assoc, seq_fst, (seq_fst _ _ s).
  set (s1 := (set_scaleViewport _ s).1). set (s2 := (set_resizeSession _ now s1).1). set (g := _ ▸ _).
  assert (still g) as Hg by (unfold g, set_dragViewport; still). apply only_follows.
  - rewrite (still_rights g s2 Hg). unfold s2. rewrite (proj1 (session_keeps _ _ _)). unfold s1. by rewrite (still_rights _ _ (still_scale_setter _)).
  - apply still_follows; [done|]. apply session_follows. apply still_timers; [apply still_scale_setter|done].
Qed.
(** a check leaves a screen that is followed, and nothing but the excuses ends it *)
Lemma step_follows s e :
  timers_right s → checks s e ∨ ¬ excuse s e ∧ followed s → followed (step s e).1.
Proof.
  intros Hs Hc. destruct e; cbn [step].
  - destruct Hc as [[]|[Hc _]]. by destruct Hc.
  - unfold handleResize, with_state. destruct (clientHasExpectedSize s) eqn:Ee; [|by apply ask_last; [keeps_timers|]].
    apply bool_decide_eq_true in Ee. by destruct Hc as [Hc|[_ Hc]].
  - apply still_follows; [|by destruct Hc as [[]|[_ ?]]]. unfold resize_frame, updateScale, saveExpectedClientSize. still.
  - unfold resize_timer. rewrite seq_fst. apply ask_follows, kept_timers; [done| |by left|done]. intros i x. apply deleted.
  - destruct Hc as [[]|[Hc _]]. by destruct Hc.
  - destruct Hc as [[]|[Hc _]]. by destruct Hc.
  - destruct (decide (supportsSetDesktopSize s = false ∨ x = 1 ∧ y = 0)) as [Hd|Hn]; [by apply desktop_follows|].
    destruct Hc as [Hc|[Hc _]]; [done|]. destruct Hc. simpl. destruct (supportsSetDesktopSize s); naive_solver.
  - apply still_follows; [|by destruct Hc as [[]|[_ ?]]]. unfold end_of_updates. still.
  - by destruct Hc as [[]|[_ ?]].
  - destruct Hc as [[]|[Hc ?]]. apply only_follows; [|done]. by destruct b.
  - apply still_follows; [still|]. by destruct Hc as [[]|[_ ?]].
  - apply still_follows; [still|]. by destruct Hc as [[]|[_ ?]].
  - by apply session_follows.
  - apply still_follows; [by apply still_level|]. by destruct Hc as [[]|[_ ?]].
  - apply still_follows; [by apply still_level|]. by destruct Hc as [[]|[_ ?]].
  - apply menu_follows; [done|]. destruct Hc as [[_ Hc]|[Hc _]]; [done|]. simpl in Hc. destruct (m_only m); [done|]. intros Hv. by destruct Hc.
  - destruct Hc as [[]|[Hc _]]. by destruct Hc.
Qed.
(** a server that gives what it is asked, and the timers *)
Definition helpful (w h : Z) (e : event) : Prop :=
  match e with
  | TimerFires _ _ => True
  | ExtendedDesktopSize x y w' h' _ _ => x = 1 ∧ y = 0 ∧ w' = w ∧ h' = h
  | _ => False
  end.
Definition whole (s : screen) (w h : Z) : Prop := ((window s).1 == inject_Z w)%Q ∧ ((window s).2 == inject_Z h)%Q.
Lemma same_size_spec s : same_size s = true ↔ whole s (fbWidth s) (fbHeight s).
Proof. unfold same_size, whole. by rewrite andb_true_iff, !Qeq_bool_iff. Qed.
Lemma parts_fst (a1 a2 a3 a4 : handler) s : ((a1 ▸ a2 ▸ a3 ▸ skip ▸ a4) s).1 = (a4 (a3 (a2 (a1 s).1).1).1).1.
Proof. by rewrite !seq_fst. Qed.
Lemma granted_sets w h now s :
  supportsSetDesktopSize s = true →
  ∃ s1, (desktop_size 1 0 w h None now s).1 = (requestRemoteResize now (resize w h s1).1).1
        ∧ s1 = with_pending false (lastResize s) (with_support (screenID s) (screenFlags s) s).
Proof.
  intros Hd. eexists. split; [|reflexivity]. unfold desktop_size, with_state. rewrite Hd.
  generalize (resize w h) (requestRemoteResize now). intros a3 a4. exact (parts_fst _ _ a3 a4 s).
Qed.
Lemma grant_syncs w h s :
  timers_right s → may_ask s → whole s w h → u16 w → u16 h →
  let e := ExtendedDesktopSize 1 0 w h None 0 in enabled s e ∧ same_size (step s e).1 = true.
Proof.
  intros Hs (Hc & _ & _ & Hd) Hw Hw0 Hh0. split; [by split|]. cbn [step]. destruct (granted_sets w h 0 s Hd) as (s1 & -> & E1).
  destruct (idle_fields _ _ (resize_sets w h s1)) as (Ew & Eh & Ev).
  assert (timers_right (resize w h s1).1) as Ht by (apply resize_timers; by rewrite E1).
  assert (window s1 = window s) as E2 by by rewrite E1. revert Ht Ew Eh Ev.
  generalize (resize w h s1).1. intros s2 Ht Ew Eh Ev.
  destruct (ask_follows 0 _ Ht) as (_ & _ & Ew' & Eh' & _). destruct (proper_ask 0 s2) as [Hr _].
  injection Hr as _ _ _ Hr. apply same_size_spec. unfold whole. rewrite Ew', Eh', Ew, Eh, Hr, Ev. change (window (with_size w h s1)) with (window s1). rewrite E2. exact Hw.
Qed.

Lemma timer_fires s k due :
  timers_right s → may_ask s → pendingRemoteResize s = false → resizeTimeout s = Some k → timers s !! k = Some due →
  let e := TimerFires k due in let s' := (step s e).1 in
  enabled s e ∧ timers_right s' ∧ window s' = window s ∧ may_ask s' ∧ (pendingRemoteResize s' = true ∨ same_size s' = true).
Proof.
  intros Ht Hm Hp Hk Hd e s'. split; [by exists due|]. split; [by apply step_timers|].
  assert (due = lastResize s + 100) as -> by by apply (proj2 Ht k). destruct Hm as (H1 & H2 & H3 & H4).
  subst s' e. cbn [step]. unfold resize_timer. rewrite seq_fst. unfold requestRemoteResize, with_state. cbn.
  rewrite H3, H2, H4, Hp. cbn. assert (lastResize s + 100 - lastResize s <? 100 = false) as -> by (apply Z.ltb_ge; lia).
  unfold screenSize. cbn. destruct (window s) as [w h] eqn:Ew. unfold seq, modify, emit, skip, may_ask, same_size. cbn.
  destruct (Qeq_bool w _ && Qeq_bool h _) eqn:Es; cbn; rewrite Ew; split_and!; auto.
Qed.
(** from a screen that is followed, a helpful server soon gives the window's size *)
Lemma soon_the_same s w h :
  timers_right s → followed s → may_ask s → whole s w h → u16 w → u16 h →
  ∃ es, (length es <= 2)%nat ∧ Forall (helpful w h) es ∧ admissible enabled step s es ∧ same_size (run step s es).1 = true.
Proof.
  intros Ht Hf Hm Hw Hw0 Hh0.
  assert (∀ s, timers_right s → may_ask s → whole s w h → ∃ e, helpful w h e ∧ enabled s e ∧ same_size (step s e).1 = true) as Hg.
  { intros s1 H1 H2 H3. destruct (grant_syncs w h s1) as [H4 H5]; [done..|]. eexists. split_and!; [|exact H4|exact H5]; done. }
  assert (∀ s e, (run step s [e]).1 = (step s e).1) as H1 by (intros s1 e; cbn [run]; by destruct (step s1 e)).
  destruct (pendingRemoteResize s) eqn:Ep.
  - destruct (Hg s) as (e & He & Ha & Hs); [done..|]. exists [e]. rewrite H1. split_and!; [simpl; lia|by apply Forall_singleton|by split|done].
  - destruct (Hf Hm) as [?|[(k & due & Hk & Hd)|Hs]]; [congruence| |by exists []; split_and!; [simpl; lia|constructor|..]].
    destruct (timer_fires s k due) as (Ha & Ht' & Ew & Hm' & Hq); [done..|]. set (e := TimerFires k due) in *.
    destruct Hq as [Hq|Hq]; [|exists [e]; rewrite H1; by split_and!; [simpl; lia|by apply Forall_singleton|..]].
    assert (whole (step s e).1 w h) as Hw' by (unfold whole; by rewrite Ew).
    destruct (Hg (step s e).1) as (e' & He' & Ha' & Hs'); [done..|]. exists [e; e']. split_and!; [simpl; lia|by repeat (constructor; [done|])|by split_and!|].
    change [e; e'] with ([e] ++ [e']). by rewrite run_app, H1; cbn [fst]; rewrite H1.
Qed.
Lemma reachable_timers b w s : reachable enabled step (start b w) s → timers_right s.
Proof.
  revert s. apply reachable_invariant; [|intros; by apply step_timers]. split; [|done]. simpl. intros k [[? H1]|?]; [|done].
  by rewrite lookup_empty in H1.
Qed.

(** C11: The remote screen follows the window.  Once the console has looked at
    the window (it was resized, remote resizing was chosen, the server said that
    it can resize or answered a request, the pause of 100 ms was over), then
    whatever happens but a new size of the window, a size the server chose, a
    refusal or the end of the view-only mode, the console always has a request
    that waits for its answer or a timer that will make one, or the remote
    screen has the window's size; and in a window of whole pixels a server that
    gives what it is asked makes it that within two events. *)
Theorem remote_size_follows_the_window b win s0 e es s os :
  reachable enabled step (start b win) s0 → enabled s0 e → checks s0 e →
  trace (λ s e, enabled s e ∧ ¬ excuse s e) step (step s0 e).1 es s os →
  followed s
  ∧ ∀ w h, may_ask s → whole s w h → u16 w → u16 h →
      ∃ es', (length es' <= 2)%nat ∧ Forall (helpful w h) es' ∧ admissible enabled step s es' ∧ same_size (run step s es').1 = true.
Proof.
  intros Hr He Hc Ht. assert (timers_right s ∧ followed s) as [H1 H2]; [|split; [done|intros; by apply soon_the_same]].
  pose proof (reachable_timers _ _ _ Hr) as H0. revert es s os Ht. apply trace_snoc_ind.
  - split; [by apply step_timers|]. apply step_follows; by auto.
  - intros es s os e' _ [H1 H2] [_ Hn]. split; [by apply step_timers|]. apply step_follows; by auto.
Qed.

(** ** The canvas fits the window *)
(** what [Display]'s viewport operations set *)
Notation disp := (Display.display (P := P)).
Notation vp d := (Display.viewportLoc d).
Definition redraw (d : disp) : disp :=
  Display.flip image (Display.damage (Display.vx (vp d)) (Display.vy (vp d)) (Display.vw (vp d)) (Display.vh (vp d)) d).
Lemma redraw_view (d : disp) : Display.same_view d (redraw d).
Proof. destruct (Display.draw_keeps image Display.Flip _ (Display.shows_damage_all d)) as [_ (H1 & H2 & H3 & H4)]. by repeat split. Qed.
Lemma pos_same_size dx dy (d : disp) : Display.same_size d (Display.viewportChangePos image dx dy d).
Proof.
  unfold Display.viewportChangePos. match goal with |- context [if ?b then _ else _] => destruct b end; [by repeat split|].
  lazymatch goal with |- Display.same_size d (Display.flip image (Display.damage _ _ _ _ ?d1)) => destruct (redraw_view d1) as (H1 & H2 & H3 & H4) end.
  unfold redraw in *. unfold Display.same_size. simpl in *. rewrite H1, H2, H3, H4. done.
Qed.
Definition clip_width (d : disp) (w : Q) : Z := if Display.clipViewport d then Z.min (Qfloor w) (Display.fbWidth d) else Display.fbWidth d.
Definition clip_height (d : disp) (h : Q) : Z := if Display.clipViewport d then Z.min (Qfloor h) (Display.fbHeight d) else Display.fbHeight d.
Definition same_clip (d d' : disp) : Prop :=
  Display.fbWidth d' = Display.fbWidth d ∧ Display.fbHeight d' = Display.fbHeight d ∧ Display.clipViewport d' = Display.clipViewport d.
Lemma size_sets w h (d : disp) :
  let d' := Display.viewportChangeSize image (Some (w, h)) d in
  Display.vw (vp d') = clip_width d w ∧ Display.vh (vp d') = clip_height d h ∧ same_clip d d'.
Proof.
  intros d'. unfold d', Display.viewportChangeSize, clip_width, clip_height.
  destruct (if Display.clipViewport d then _ else _) as [w' h'] eqn:E.
  assert (Z.min w' (Display.fbWidth d) = (if Display.clipViewport d then Z.min (Qfloor w) (Display.fbWidth d) else Display.fbWidth d)
    ∧ Z.min h' (Display.fbHeight d) = (if Display.clipViewport d then Z.min (Qfloor h) (Display.fbHeight d) else Display.fbHeight d)) as [<- <-].
  { destruct (Display.clipViewport d); simplify_eq; split; lia. }
  destruct ((Display.vw (vp d) =? Z.min w' _) && _) eqn:Eq.
  - apply andb_true_iff in Eq as [Ew%Z.eqb_eq Eh%Z.eqb_eq]. by repeat split.
  - set (d1 := Display.with_view _ _ d). destruct (pos_same_size 0 0 d1) as (H1 & H2 & H3 & H4 & H5).
    destruct (redraw_view (Display.viewportChangePos image 0 0 d1)) as (H6 & H7 & H8 & H9). unfold redraw, same_clip in *.
    rewrite H6, H7, H8, H9, H1, H2, H3, H4, H5. done.
Qed.
Lemma refit_clip (d : disp) : same_clip d (Display.refit image d).
Proof.
  unfold Display.refit. set (w := inject_Z _). set (h := inject_Z _). destruct (size_sets w h d) as (_ & _ & H1 & H2 & H3).
  destruct (pos_same_size 0 0 (Display.viewportChangeSize image (Some (w, h)) d)) as (_ & _ & H4 & H5 & H6).
  unfold same_clip. by rewrite H4, H5, H6.
Qed.
Lemma clip_sets b (d : disp) :
  let d' := Display.set_clipViewport image b d in
  Display.fbWidth d' = Display.fbWidth d ∧ Display.fbHeight d' = Display.fbHeight d ∧ Display.clipViewport d' = b.
Proof. intros d'. unfold d', Display.set_clipViewport. match goal with |- context [Display.refit image ?d] => exact (refit_clip d) end. Qed.
Lemma resized w h (d : disp) :
  let d' := Display.resize image w h d in
  Display.fbWidth d' = w ∧ Display.fbHeight d' = h ∧ Display.clipViewport d' = Display.clipViewport d.
Proof. intros d'. unfold d', Display.resize. match goal with |- context [Display.refit image ?d] => exact (refit_clip d) end. Qed.
Lemma paints_same_size c (d : disp) : paints c = true → Display.shows d → Display.same_size d (Display.step image d c).
Proof.
  intros Hc Hs. assert (∀ f : disp → disp, Display.keeps_view f → Display.same_size d (f d)) as Hk.
  { intros f Hf. destruct (Hf d Hs) as [_ (H1 & H2 & H3 & H4)]. unfold Display.same_size. by rewrite H1, H2, H3, H4. }
  destruct c; try done; unfold Display.step; try apply pos_same_size; apply Hk.
  - apply Display.draw_keeps.
  - apply Display.draw_keeps.
  - apply Display.draw_keeps.
  - apply Display.blit_keeps.
  - apply Display.image_keeps.
  - apply Display.push_keeps.
  - apply Display.flush_keeps.
  - apply Display.ready_keeps.
Qed.

(** what holds of the canvas whatever the settings; the clip is the settings';
    the viewport and the scale are the window's *)
Definition sound (s : screen) : Prop :=
  Display.view_inside (display s) ∧ Display.shows (display s)
  ∧ Display.fbWidth (display s) = fbWidth s ∧ Display.fbHeight (display s) = fbHeight s
  ∧ (0 <= (window s).1)%Q ∧ (0 <= (window s).2)%Q.
Definition clipped (s : screen) : Prop := Display.clipViewport (display s) = new_clip s.
Definition clip_fits (s : screen) : Prop :=
  Display.vw (vp (display s)) = clip_width (display s) (window s).1
  ∧ Display.vh (vp (display s)) = clip_height (display s) (window s).2
  ∧ clippingViewport s = (Display.clipViewport (display s)
      && (Qltb (window s).1 (inject_Z (fbWidth s)) || Qltb (window s).2 (inject_Z (fbHeight s)))).
Definition scale_of (s : screen) : option Q :=
  if scaleViewport s then autoscale (window s).1 (window s).2 (Display.vw (vp (display s))) (Display.vh (vp (display s))) else Some 1%Q.
Definition scale_fits (s : screen) : Prop := scale s = scale_of s.

(** the parts [updateClip] does not touch *)
Definition frame (s : screen) := (clipViewport s, scaleViewport s, window s, fbWidth s, fbHeight s, scale s, enabledContinuousUpdates s).
Definition clip_display (s : screen) : disp :=
  let d := if negb (Bool.eqb (Display.clipViewport (display s)) (new_clip s)) then Display.set_clipViewport image (new_clip s) (display s) else display s in
  if new_clip s then Display.viewportChangeSize image (Some (window s)) d else d.
Lemma clipping_sets on s :
  let s' := (setClippingViewport on s).1 in clippingViewport s' = on ∧ display s' = display s ∧ frame s' = frame s.
Proof.
  unfold setClippingViewport, with_state. destruct (Bool.eqb on (clippingViewport s)) eqn:E; [|done].
  apply eqb_prop in E. by rewrite E.
Qed.
Lemma clip_fields s :
  let s' := (updateClip s).1 in
  display s' = clip_display s ∧ frame s' = frame s
  ∧ clippingViewport s' = (new_clip s && (Qltb (window s).1 (inject_Z (Display.fbWidth (clip_display s)))
                                         || Qltb (window s).2 (inject_Z (Display.fbHeight (clip_display s))))).
Proof.
  unfold updateClip, with_state, clip_display. cbv zeta. rewrite !seq_fst.
  set (changed := negb _). set (s1 := ((if changed then _ else skip) s).1).
  assert (display s1 = (if changed then Display.set_clipViewport image (new_clip s) (display s) else display s) ∧ frame s1 = frame s) as [Hd Hf].
  { unfold s1. by destruct changed. }
  assert (∀ s, display ((if changed then saveExpectedClientSize else skip) s).1 = display s
    ∧ frame ((if changed then saveExpectedClientSize else skip) s).1 = frame s
    ∧ clippingViewport ((if changed then saveExpectedClientSize else skip) s).1 = clippingViewport s) as Hl by (intros s2; by destruct changed).
  rewrite <- Hd. clearbody s1.
  destruct (new_clip s); [|destruct (clipping_sets false s1) as (H1 & H2 & H3); destruct (Hl (setClippingViewport false s1).1) as (-> & -> & ->);
    rewrite H1, H2, H3; done].
  assert (window s1 = window s) as Ew by (unfold frame in Hf; by simplify_eq). unfold screenSize. rewrite Ew. destruct (window s) as [w h]. rewrite seq_fst.
  set (s2 := (modify _ s1).1). assert (display s2 = Display.viewportChangeSize image (Some (w, h)) (display s1)) as Hd2 by done.
  assert (frame s2 = frame s) as Hf2 by (rewrite <- Hf; done). clearbody s2. rewrite <- Hd2.
  match goal with |- context [setClippingViewport ?on s2] => destruct (clipping_sets on s2) as (H1 & H2 & H3); destruct (Hl (setClippingViewport on s2).1) as (-> & -> & ->) end.
  by rewrite H1, H2, H3.
Qed.

Lemma clip_display_sound s :
  sound s → let d := clip_display s in
  Display.view_inside d ∧ Display.shows d ∧ Display.fbWidth d = fbWidth s ∧ Display.fbHeight d = fbHeight s
  ∧ Display.clipViewport d = new_clip s
  ∧ Display.vw (vp d) = clip_width d (window s).1 ∧ Display.vh (vp d) = clip_height d (window s).2.
Proof.
  intros (Hi & Hs & Hw & Hh & Hx & Hy). unfold clip_display. cbv zeta. set (d1 := if negb _ then _ else _).
  assert (Display.view_inside d1 ∧ Display.shows d1 ∧ Display.fbWidth d1 = fbWidth s ∧ Display.fbHeight d1 = fbHeight s
    ∧ Display.clipViewport d1 = new_clip s) as (Hi1 & Hs1 & Hw1 & Hh1 & Hc1).
  { unfold d1. destruct (Bool.eqb _ _) eqn:E; simpl; [apply eqb_prop in E; done|].
    destruct (clip_sets (new_clip s) (display s)) as (-> & -> & ->). by destruct (Display.clip_keeps image (new_clip s) (display s)). }
  clearbody d1. destruct (window s) as [w h]. simpl in *. destruct (new_clip s).
  - destruct (size_sets w h d1) as (H1 & H2 & H3 & H4 & H5). pose proof Hi1 as Hi1'. unfold Display.view_inside in Hi1'.
    destruct (Display.size_keeps image (Some (w, h)) d1) as (_ & H6 & H7); [lia..|done|].
    unfold clip_width, clip_height in *. rewrite H1, H2, H3, H4, H5. split_and!; auto.
  - unfold clip_width, clip_height. rewrite Hc1. pose proof Hi1 as Hz. destruct Hz as (_ & _ & _ & _ & _ & _ & Hz). by destruct (Hz Hc1).
Qed.
Lemma frame_fields s s' : frame s' = frame s →
  new_clip s' = new_clip s ∧ window s' = window s ∧ fbWidth s' = fbWidth s ∧ fbHeight s' = fbHeight s ∧ scaleViewport s' = scaleViewport s
  ∧ scale s' = scale s ∧ enabledContinuousUpdates s' = enabledContinuousUpdates s.
Proof. unfold frame, new_clip. intros Hf. injection Hf as -> -> -> -> -> -> ->. done. Qed.
Lemma clip_makes s : sound s → let s' := (updateClip s).1 in sound s' ∧ clipped s' ∧ clip_fits s'.
Proof.
  intros Hs s'. destruct (clip_fields s) as (Hd & Hf & Hc). destruct (frame_fields _ _ Hf) as (E1 & E2 & E3 & E4 & _).
  destruct (clip_display_sound s Hs) as (H1 & H2 & H3 & H4 & H5 & H6 & H7). destruct Hs as (_ & _ & _ & _ & Hx & Hy). fold s' in Hd, Hc, E1, E2, E3, E4.
  unfold sound, clipped, clip_fits. rewrite Hd, Hc, E1, E2, E3, E4, H3, H4, H5. done.
Qed.
Lemma clip_keeps_scale s : (scaleViewport s = true → clipped s) → scale_fits s → scale_fits (updateClip s).1.
Proof.
  intros Hc Hs. destruct (clip_fields s) as (Hd & Hf & _). destruct (frame_fields _ _ Hf) as (_ & E2 & _ & _ & E5 & E6 & _).
  unfold scale_fits, scale_of in *. rewrite Hd, E2, E5, E6, Hs. destruct (scaleViewport s) eqn:E; [|done].
  specialize (Hc eq_refl). unfold clipped in Hc. unfold clip_display. rewrite Hc, eqb_reflx. simpl. unfold new_clip. by rewrite E, andb_false_r.
Qed.
Lemma scale_makes s : let s' := (updateScale s).1 in
  scale_fits s' ∧ (sound s → sound s') ∧ (clipped s → clipped s') ∧ (clip_fits s → clip_fits s').
Proof. done. Qed.

(** what no other handler changes *)
Definition pictured (s : screen) :=
  (display s, clipViewport s, clippingViewport s, scaleViewport s, window s, fbWidth s, fbHeight s, scale s).
Definition good (b : bool) (s : screen) : Prop := sound s ∧ clipped s ∧ (b = true → clip_fits s ∧ scale_fits s).
Lemma pictured_good b s s' : pictured s' = pictured s → good b s → good b s'.
Proof.
  unfold pictured, good, sound, clipped, new_clip, clip_fits, scale_fits, scale_of. intros Hp. injection Hp as -> -> -> -> -> -> -> ->. done.
Qed.

Definition pics (h : handler) : Prop := ∀ s, pictured (h s).1 = pictured s.
Lemma pics_good b h : pics h → preserves (good b) h.
Proof. intros Hh s. by apply pictured_good. Qed.
Lemma pics_modify f : (∀ s, pictured (f s) = pictured s) → pics (modify f).
Proof. intros Hf s. apply Hf. Qed.
Lemma pics_seq f g : pics f → pics g → pics (f ▸ g).
Proof. intros Hf Hg s. rewrite seq_fst. by rewrite Hg, Hf. Qed.
Lemma pics_ask now : pics (requestRemoteResize now).
Proof.
  intros s. unfold requestRemoteResize, with_state. destruct (resizeSession s); [|done]. destruct (viewOnly _); [done|].
  destruct (supportsSetDesktopSize s); [|done]. simpl. destruct (pendingRemoteResize s); [done|]. destruct (_ <? 100); [done|].
  unfold screenSize. destruct (window s) eqn:Ew. unfold pictured. unfold seq, modify, emit, skip. cbn.
  match goal with |- context [if ?c then _ else _] => destruct c end; cbn; by rewrite Ew.
Qed.
Lemma pics_level get put level : pics (set_level get put level).
Proof.
  intros s. unfold set_level, with_state. destruct level as [n|]; [|done]. destruct (_ || _); [done|]. destruct (_ =? _); [done|].
  unfold seq, modify, emit, skip. simpl. by destruct (connected _).
Qed.
Lemma good_clip b : preserves (good b) updateClip.
Proof.
  intros s (Hs & Hc & Hf). destruct (clip_makes s Hs) as (H1 & H2 & H3). split_and!; [done..|]. intros Hb. split; [done|].
  apply clip_keeps_scale; [done|]. by apply Hf.
Qed.
Lemma good_scale b : preserves (good b) updateScale.
Proof. intros s (Hs & Hc & Hf). destruct (scale_makes s) as (H1 & H2 & H3 & H4). split_and!; [by auto..|]. intros Hb. destruct (Hf Hb). by auto. Qed.
Lemma good_expected b : preserves (good b) saveExpectedClientSize.
Proof. by apply pics_good, pics_modify. Qed.
Lemma good_updates b : preserves (good b) updateContinuousUpdates.
Proof. apply pics_good. intros s. unfold updateContinuousUpdates, with_state. by destruct (enabledContinuousUpdates s). Qed.
Lemma good_clip_setter b c : preserves (good b) (set_clipViewport c).
Proof.
  intros s (Hs & Hc & Hf). unfold set_clipViewport. rewrite seq_fst. set (s1 := (modify _ s).1).
  assert (sound s1) as Hs1 by done. destruct (clip_makes s1 Hs1) as (H1 & H2 & H3). split_and!; [done..|]. intros Hb. split; [done|].
  apply clip_keeps_scale; [|by apply Hf]. unfold clipped in *. simpl. unfold new_clip in *. simpl. intros Hk. by rewrite Hc, Hk, !andb_false_r.
Qed.
Lemma good_scale_setter b c : preserves (good b) (set_scaleViewport c).
Proof.
  intros s (Hs & Hc & Hf). unfold set_scaleViewport. rewrite !seq_fst. set (s1 := (modify _ s).1).
  assert (sound s1) as Hs1 by done. unfold with_state. destruct (clipViewport s) eqn:Ec.
  - assert (clipViewport s1 = true) as -> by done. destruct c; cbn [andb negb].
    + destruct (clip_makes s1 Hs1) as (H1 & H2 & H3). revert H1 H2 H3. generalize (updateClip s1).1. intros s2 H1 H2 H3.
      destruct (scale_makes s2) as (H4 & H5 & H6 & H7). split_and!; auto.
    + change (skip s1).1 with s1. set (s2 := (updateScale s1).1). destruct (scale_makes s1) as (H4 & H5 & _). assert (clipViewport s2 = true) as -> by done.
      destruct (clip_makes s2 (H5 Hs1)) as (H1 & H2 & H3). split_and!; [done..|]. intros _. split; [done|]. by apply clip_keeps_scale.
  - assert (clipViewport s1 = false) as -> by done. rewrite !andb_false_r. change (skip s1).1 with s1.
    destruct (scale_makes s1) as (H4 & H5 & H6 & H7). set (s2 := (updateScale s1).1) in *. assert (clipViewport s2 = false) as -> by done.
    rewrite andb_false_r. change (skip s2).1 with s2. assert (clipped s1) as Hc1 by (unfold clipped, new_clip in *; simpl; by rewrite Hc, Ec).
    split_and!; [by auto..|]. intros Hb. destruct (Hf Hb) as [Hf1 _]. split; [|done]. by apply H7.
Qed.

Lemma with_display_sound d k w h s :
  sound s → clipped s → Display.view_inside d → Display.shows d → Display.fbWidth d = w → Display.fbHeight d = h →
  Display.clipViewport d = Display.clipViewport (display s) →
  sound (with_display d k (with_size w h s)) ∧ clipped (with_display d k (with_size w h s)).
Proof. intros (_ & _ & _ & _ & Hx & Hy) Hc ?? E1 E2 E3. split; [by split_and!|]. unfold clipped, new_clip in *. simpl. by rewrite E3. Qed.
Lemma resize_makes b w h s : 0 <= w → 0 <= h → good b s → good true (resize w h s).1.
Proof.
  intros Hw Hh (Hs & Hc & _). unfold resize. rewrite !seq_fst. apply good_expected, good_updates.
  destruct (resized w h (display s)) as (E1 & E2 & E3). pose proof Hs as (Hi & Hsh & _).
  assert (Display.view_inside (Display.resize image w h (display s)) ∧ Display.shows (Display.resize image w h (display s))) as [H3 H4].
  { unfold Display.view_inside in Hi. apply Display.resize_keeps; [lia..|done]. }
  destruct (with_display_sound _ (scale s) w h s Hs Hc H3 H4 E1 E2 E3) as [H1 H2].
  unfold modify at 1. cbn [fst]. change (on_display _ (with_size w h s)) with (with_display (Display.resize image w h (display s)) (scale s) (with_size w h s)).
  revert H1 H2. generalize (with_display (Display.resize image w h (display s)) (scale s) (with_size w h s)). intros s1 H1 _.
  destruct (clip_makes s1 H1) as (H5 & H6 & H7).
  destruct (scale_makes (updateClip s1).1) as (H8 & H9 & H10 & H11). split_and!; [by auto..|]. by auto.
Qed.
Lemma frame_makes b s : good b s → good true (resize_frame s).1.
Proof.
  intros (Hs & Hc & _). unfold resize_frame. rewrite !seq_fst. apply good_expected. set (s1 := (modify _ s).1). assert (sound s1) as H1 by done.
  destruct (clip_makes s1 H1) as (H3 & H4 & H5). destruct (scale_makes (updateClip s1).1) as (H6 & H7 & H8 & H9). split_and!; [by auto..|]. by auto.
Qed.
Lemma session_good b c now : preserves (good b) (set_resizeSession c now).
Proof. apply pics_good. unfold set_resizeSession. apply pics_seq; [by apply pics_modify|]. destruct c; [apply pics_ask|done]. Qed.
Lemma only_good b c : preserves (good b) (set_viewOnly c).
Proof. apply pics_good. intros s. unfold set_viewOnly, with_state, seq, modify, emit, skip. by destruct (_ || _). Qed.
Lemma desktop_good b x y w h first now s : u16 w → u16 h → good b s → good b (desktop_size x y w h first now s).1.
Proof.
  intros Hw Hh Hg. unfold desktop_size, with_state. rewrite !seq_fst.
  assert (∀ c, preserves (good b) (if c : bool then requestRemoteResize now else skip)) as Hq.
  { intros c. apply pics_good. destruct c; [apply pics_ask|done]. }
  apply Hq, Hq.
  match goal with |- good b ((if ?c then skip else _) (?f ?s1).1).1 => assert (good b (f s1).1) as Hg1; [|revert Hg1; generalize (f s1).1] end.
  { apply pics_good; [by destruct (x =? 1)|]. by destruct first as [[]|]. }
  intros s2 Hg2. destruct (_ && _); [done|]. destruct (resize_makes b w h s2) as (H1 & H2 & H3); [unfold u16 in *; lia..|done|].
  split_and!; auto.
Qed.

(** the events that change the window, and those that fit the canvas to it anew *)
Definition new_window (e : event) : bool := match e with Window _ _ => true | _ => false end.
Definition refits (e : event) : bool := match e with FrameDrawn | ServerInit _ _ _ | DesktopSize _ _ => true | _ => false end.
Lemma paint_good b c s : Display.enabled (display s) c → paints c = true → good b s → good b (on_display (λ d, Display.step image d c) s).
Proof.
  intros He Hp ((Hi & Hs & Hw & Hh & Hx & Hy) & Hc & Hf). destruct (Display.step_keeps_screen image _ _ He Hi Hs) as [H1 H2].
  destruct (paints_same_size c _ Hp Hs) as (E1 & E2 & E3 & E4 & E5). unfold good, sound, clipped, new_clip, clip_fits, clip_width, clip_height,
    scale_fits, scale_of in *. simpl. rewrite E1, E2, E3, E4, E5. done.
Qed.
Lemma init_good b w h amt s : u16 w → u16 h → good b s → good true (server_init w h amt s).1.
Proof.
  intros Hw Hh Hg. apply (resize_makes b w h) in Hg; [|unfold u16 in *; lia..]. unfold server_init. rewrite !seq_assoc, seq_fst. apply pics_good; [|done].
  intros s1. rewrite !seq_fst. unfold with_state. destruct (viewOnly (base s1)); [|rewrite !seq_fst]; done.
Qed.
Lemma menu_good b m now : preserves (good b) (applyView m now).
Proof.
  unfold applyView. do 2 (apply preserves_seq; [|apply pics_good; by apply pics_level]). apply preserves_seq; [|apply only_good].
  apply preserves_seq; [|by apply pics_good].
  apply preserves_seq; [|apply preserves_with_state; intros ?; apply good_clip_setter]. apply preserves_seq; [apply good_scale_setter|apply session_good].
Qed.
Lemma event_good b s e :
  enabled s e → new_window e = false ∨ b = false → good b s → good (b || refits e) (step s e).1.
Proof.
  intros He Hn Hg. destruct e; cbn [refits step]; rewrite ?orb_false_r, ?orb_true_r.
  - destruct Hn as [Hn|Hn]; [done|]. subst b. destruct Hg as ((Hi & Hs & Hw & Hh & _) & Hc & _). destruct He. by split_and!.
  - apply pics_good; [|done]. intros s1. unfold handleResize, with_state. destruct (clientHasExpectedSize s1); [done|]. by rewrite seq_fst, pics_ask.
  - by apply (frame_makes b).
  - apply pics_good; [|done]. intros s1. unfold resize_timer. by rewrite seq_fst, pics_ask.
  - destruct He as (_ & Hw' & Hh'). by apply (init_good b).
  - destruct He as (_ & Hw' & Hh'). unfold u16 in *. apply (resize_makes b); [lia..|done].
  - destruct He as (_ & Hw' & Hh'). by apply desktop_good.
  - unfold end_of_updates. rewrite seq_fst. by apply good_updates.
  - destruct He. by apply paint_good.
  - by apply only_good.
  - by apply good_clip_setter.
  - by apply good_scale_setter.
  - by apply session_good.
  - by apply pics_good; [apply pics_level|].
  - by apply pics_good; [apply pics_level|].
  - apply menu_good, Hg.
  - apply pics_good; [|done]. intros s1. reflexivity.
Qed.
Lemma start_good b win : (0 <= win.1)%Q → (0 <= win.2)%Q → good false (start b win).
Proof.
  intros Hx Hy. split_and!; try done. split_and!; try done.
  - intros i j Hin. unfold Display.in_view in Hin. simpl in Hin. lia.
Qed.

(** The canvas fits the window.  Whatever the user sets, the server sends and
    the window does, the viewport is clipped exactly when clipping is chosen and
    scaling is not, and the page is told of it at each change and only then.
    Once the canvas was fitted to the window, and until the window has another
    size, a clipped viewport is as large as the window and the screen allow and
    the page knows whether something is cut off, one that is not clipped is the
    whole screen, and the scale is the one that fits it into the window, or 1. *)
Theorem canvas_fits_the_window b win es s os e es' s' os' :
  (0 <= win.1)%Q → (0 <= win.2)%Q →
  trace enabled step (start b win) es s os → enabled s e → refits e = true →
  trace (λ s e, enabled s e ∧ new_window e = false) step (step s e).1 es' s' os' →
  told false (os ++ (step s e).2 ++ os') = Some (clippingViewport s')
  ∧ Display.clipViewport (display s') = clipViewport s' && negb (scaleViewport s')
  ∧ clip_fits s' ∧ scale_fits s'.
Proof.
  intros Hx Hy Ht He Hr Ht'.
  assert (paces (start b win) os s ∧ good false s) as [Hp Hg].
  { clear He Hr Ht'. revert es s os Ht. apply trace_snoc_ind; [split; [done|by apply start_good]|].
    intros es s os e' _ [H1 H2] He'. split; [eapply paces_app; [exact H1|apply paces_step]|].
    destruct (event_good false s e') as (H3 & H4 & _); [done|by right|done|]. by split_and!. }
  assert (paces (step s e).1 os' s' ∧ good true s') as [Hp' (Hs & Hc & Hf)].
  { revert es' s' os' Ht'. apply trace_snoc_ind.
    - split; [done|]. rewrite <- Hr. apply (event_good false); [done|by right|done].
    - intros es' s' os' e' _ [H1 H2] [He' Hn]. split; [eapply paces_app; [exact H1|apply paces_step]|].
      apply (event_good true); [done|by left|done]. }
  split; [|by split_and!; [apply Hc|apply Hf..]].
  apply (paces_app _ _ _ _ _ Hp (paces_app _ _ _ _ _ (paces_step s e) Hp')).
Qed.

(** ** The server's messages: the effects [ServerMessages] has on the screen *)
Definition on_effect (now : Z) (o : ServerMessages.effect) : handler :=
  match o with
  | ServerMessages.ResizeScreen w h =>
    modify (λ s, on_display (Display.resize image w h) (with_size w h s)) ▸ updateClip ▸ updateScale ▸ saveExpectedClientSize
  | ServerMessages.Send m => emit (Sent m)
  | ServerMessages.ResizeAnswered => modify (λ s, with_pending false (lastResize s) s) ▸ emit Answered
  | ServerMessages.RequestRemoteResize => requestRemoteResize now
  | _ => skip
  end.
Definition follows_server {D} (s : screen) (v : ServerMessages.server (D := D)) : Prop :=
  supportsSetDesktopSize s = ServerMessages.supportsSetDesktopSize v ∧ enabledContinuousUpdates s = ServerMessages.enabledContinuousUpdates v.
Lemma seq_eq (f g : handler) s s1 o1 : f s = (s1, o1) → (f ▸ g) s = ((g s1).1, o1 ++ (g s1).2).
Proof. intros E. unfold seq. rewrite E. by destruct (g s1). Qed.
Lemma resize_effects {D} w h (v : ServerMessages.server (D := D)) now s :
  enabledContinuousUpdates s = ServerMessages.enabledContinuousUpdates v →
  for_each (ServerMessages.resize w h v).2 (on_effect now) s = resize w h s.
Proof.
  intros He. unfold ServerMessages.resize, resize, ServerMessages.updateContinuousUpdates. cbn [for_each snd]. unfold on_effect at 1.
  set (f := modify _ ▸ updateClip ▸ updateScale). destruct (f s) as [s1 o1] eqn:E1.
  assert (fbWidth s1 = w ∧ fbHeight s1 = h ∧ enabledContinuousUpdates s1 = enabledContinuousUpdates s) as (Hw & Hh & Hu).
  { replace s1 with (f s).1 by (by rewrite E1). unfold f. rewrite !seq_fst. set (s0 := (modify _ s).1).
    destruct (clip_fields s0) as (_ & Hf & _). destruct (frame_fields _ _ Hf) as (_ & _ & H1 & H2 & _ & _ & H3). by split_and!. }
  clearbody f. erewrite seq_eq; [|by rewrite (seq_eq f _ s s1 o1 E1)]. erewrite (seq_eq (f ▸ _)); [|by rewrite (seq_eq f _ s s1 o1 E1)].
  change (ServerMessages.enabledContinuousUpdates (ServerMessages.with_size w h v)) with (ServerMessages.enabledContinuousUpdates v).
  rewrite <- He, <- Hu. unfold updateContinuousUpdates, saveExpectedClientSize, with_state, modify, emit, skip, seq. subst w h.
  destruct (enabledContinuousUpdates s1); cbn; by rewrite ?app_nil_r.
Qed.
Lemma seq_same (f f' g g' : handler) s : f s = f' s → g (f s).1 = g' (f s).1 → (f ▸ g) s = (f' ▸ g') s.
Proof. intros E1 E2. unfold seq. rewrite <- E1. destruct (f s) as [s1 o1]. cbn in *. by rewrite E2. Qed.
Lemma one_effect (c : bool) o now s : for_each (if c then [o] else []) (on_effect now) s = (if c then on_effect now o else skip) s.
Proof. destruct c; [|done]. cbn [for_each]. unfold seq. destruct (on_effect now o s) as [s1 o1]. cbn. by rewrite app_nil_r. Qed.
Lemma effects_app l1 l2 now (f g : handler) s :
  for_each l1 (on_effect now) s = f s → for_each l2 (on_effect now) (f s).1 = g (f s).1 → for_each (l1 ++ l2) (on_effect now) s = (f ▸ g) s.
Proof. intros E1 E2. rewrite for_each_app. apply seq_same; [done|]. by rewrite E1. Qed.
(** the answer of a server, as [ServerMessages] reads it and as it is handled here *)
Lemma desktop_message {D} (v v' : ServerMessages.server (D := D)) q q' fx now s :
  follows_server s v → ServerMessages.handleExtendedDesktopSize v q = (ServerMessages.Done, v', q', fx) →
  let rc := ServerMessages.f_rect v in
  for_each fx (on_effect now) (with_support (ServerMessages.screenID v') (ServerMessages.screenFlags v') s)
  = desktop_size (Decoders.r_x rc) (Decoders.r_y rc) (Decoders.r_width rc) (Decoders.r_height rc)
      (Some (ServerMessages.screenID v', ServerMessages.screenFlags v')) now s.
Proof.
  intros [Hs Hu] Hm rc. unfold ServerMessages.handleExtendedDesktopSize in Hm. destruct (rQwait 4 q); [done|]. destruct (rQwait _ q); [done|].
  destruct (rQshiftBytes 4 q) as [b1 q1]. destruct (ServerMessages.first_screen _ v q1) as [id flags].
  destruct (rQshiftBytes _ q1) as [b2 q2]. set (v1 := ServerMessages.with_desktop id flags v) in *.
  change (ServerMessages.f_rect v1) with rc in Hm. set (x := Decoders.r_x rc) in *. set (y := Decoders.r_y rc) in *.
  destruct (if (x =? 1) && negb (y =? 0) then _ else _) as [v2 fx1] eqn:E. simplify_eq.
  assert (ServerMessages.screenID v' = id ∧ ServerMessages.screenFlags v' = flags) as [-> ->].
  { destruct ((x =? 1) && negb (y =? 0)); unfold ServerMessages.resize in E; by simplify_eq. }
  unfold desktop_size, with_state. rewrite Hs. rewrite !seq_assoc. set (s1 := with_support id flags s).
  transitivity (((if x =? 1 then modify (λ s, with_pending false (lastResize s) s) ▸ emit Answered else skip)
    ▸ ((if (x =? 1) && negb (y =? 0) then skip else resize (Decoders.r_width rc) (Decoders.r_height rc))
    ▸ ((if negb (ServerMessages.supportsSetDesktopSize v) then requestRemoteResize now else skip)
       ▸ (if (x =? 1) && (y =? 0) then requestRemoteResize now else skip)))) s1).
  - apply effects_app; [by rewrite one_effect|]. apply effects_app; [|apply effects_app; apply one_effect].
    destruct ((x =? 1) && negb (y =? 0)); [by simplify_eq|]. replace fx1 with (ServerMessages.resize (Decoders.r_width rc) (Decoders.r_height rc) v1).2 by (by rewrite E).
    apply resize_effects. change (ServerMessages.enabledContinuousUpdates v1) with (ServerMessages.enabledContinuousUpdates v). rewrite <- Hu.
    by destruct (x =? 1).
  - match goal with |- ?h s1 = _ => generalize h end. intros h. unfold seq, modify. subst s1. by destruct (h _).
Qed.

(** The whole pixels that are asked for are compared with the window's size: a
    server that gives them is asked again, each time it has given them. *)
Lemma fractions_ask_again s now :
  let w := Qfloor (window s).1 in let h := Qfloor (window s).2 in
  timers_right s → may_ask s → ¬ ((window s).1 == inject_Z w)%Q → 100 <= now - lastResize s →
  let s' := (step s (ExtendedDesktopSize 1 0 w h None now)).1 in
  timers_right s' ∧ may_ask s' ∧ window s' = window s ∧ lastResize s' = now ∧ pendingRemoteResize s' = true.
Proof.
  intros w h Ht Hm Hw Hn s'. pose proof Hm as (H1 & H2 & H3 & H4). split; [by apply step_timers|]. subst s'. cbn [step].
  destruct (granted_sets w h now s H4) as (s1 & -> & E1). pose proof (resize_sets w h s1) as Hi. revert Hi. generalize (resize w h s1).1. intros s2 Hi.
  destruct (idle_fields _ _ Hi) as (Ew & _ & Ev). unfold idle, rights in Hi. injection Hi as R1 R2 R3 R4 R5 R6 R7 R8 R9 R10 R11 R12.
  subst s1. cbn in *. unfold requestRemoteResize, with_state. rewrite R2, H3, R1, H2, R3, R8, R9. cbn.
  destruct (Z.ltb_spec (now - lastResize s) 100); [lia|]. unfold screenSize. rewrite Ev. destruct (window s) as [ww hh] eqn:Ewin.
  assert (Qeq_bool ww (inject_Z (fbWidth s2)) = false) as Eq.
  { apply not_true_is_false. intros Hq%Qeq_bool_iff. apply Hw. by rewrite Ew in Hq. }
  unfold may_ask, seq, modify, emit. cbn. rewrite Eq. cbn. rewrite R1, R2, R3, R5, Ev. by split_and!.
Qed.

End view.

(** ** Concrete runs *)
#[local] Existing Instance Display.bytes_canvas.
Definition no_pictures (k : nat) : Display.picture (P := option (Z * Z * Z * Z)) := Display.two_by_two.
(** a page that never has scrollbars *)
Definition whole_pixels (w : Q * Q) (v : Z * Z) (k : option Q) : Z * Z := (Qfloor w.1, Qfloor w.2).
Definition a_console : rfb := Rfb false false false false 0 24 6 2 None None [] [] None.
Abbreviation step1 := (step no_pictures whole_pixels false).
Abbreviation start1 := (start (P := option (Z * Z * Z * Z)) a_console (800, 600)%Q).
Definition told_it_can : list event := [ServerInit 640 480 false; ExtendedDesktopSize 0 0 640 480 (Some (7, 0)) 1000].
Definition a_session : list event :=
  told_it_can ++ [SetResize true 1000; Window 900 700; Observed 1050; ExtendedDesktopSize 1 0 800 600 None 1060; TimerFires 0 1100].
Ltac allowed := cbn [admissible app a_session told_it_can]; repeat match goal with
  | |- _ ∧ _ => split | |- enabled _ (TimerFires _ _) => eexists; split; [vm_compute; reflexivity|] | |- _ => by vm_compute end.
Lemma resize_requests_are_orderly_witness :
  (run step1 start1 a_session).2 ≠ [] ∧ times (run step1 start1 a_session).2 = [1000; 1100]
  ∧ spaced 0 (times (run step1 start1 a_session).2).
Proof.
  split; [by vm_compute|]. split; [by vm_compute|].
  refine (proj1 (resize_requests_are_orderly no_pictures whole_pixels false a_console (800, 600)%Q a_session (run step1 start1 a_session).1 _ _)).
  apply run_trace. allowed.
Defined.
(** remote resizing is chosen, then the screen is clipped *)
Lemma remote_size_follows_the_window_witness :
  let s0 := (run step1 start1 told_it_can).1 in
  let s := (run step1 (step1 s0 (SetResize true 1000)).1 [SetClip true]).1 in
  may_ask s ∧ (pendingRemoteResize s = true ∨ armed s ∨ same_size s = true).
Proof.
  intros s0 s. assert (may_ask s) as Hm by by vm_compute. split; [done|].
  refine (proj1 (remote_size_follows_the_window no_pictures whole_pixels false a_console (800, 600)%Q s0
    (SetResize true 1000) [SetClip true] s _ _ _ _ _) Hm).
  - eapply trace_reachable; [constructor|]. apply run_trace. allowed.
  - exact I.
  - reflexivity.
  - apply (run_trace _ _ _ [SetClip true]). split; [|exact I]. split; [exact I|]. by intros [].
Defined.
(** the screen has its size, then it is clipped, then scaled *)
Lemma canvas_fits_the_window_witness :
  let s := (run step1 (step1 start1 (ServerInit 1600 900 false)).1 [SetClip true; SetScale true]).1 in
  (scale s = Some (800 / 1600)%Q ∧ clippingViewport s = false) ∧ scale_fits s.
Proof.
  intros s. split; [by vm_compute|].
  refine (proj2 (proj2 (proj2 (canvas_fits_the_window no_pictures whole_pixels false a_console (800, 600)%Q [] start1 []
    (ServerInit 1600 900 false) [SetClip true; SetScale true] s _ _ _ _ _ _ _)))).
  - by vm_compute.
  - by vm_compute.
  - constructor.
  - by vm_compute.
  - reflexivity.
  - apply (run_trace _ _ _ [SetClip true; SetScale true]). by repeat split.
Defined.

(** The View menu with remote resizing chosen: when view-only is unticked, the
    session is to be resized before it is no longer view-only, and the server is
    not asked. *)
Example unticked_view_only_asks_nothing :
  let only := Menu "remote" false false true (Some 6) (Some 2) in
  let s := (run step1 start1 (told_it_can ++ [SetViewOnly true; MenuChanged only 1000])).1 in
  let '(s', os) := step1 s (MenuChanged (Menu "remote" false false false (Some 6) (Some 2)) 2000) in
  times os = [] ∧ may_ask s' ∧ same_size s' = false ∧ pendingRemoteResize s' = false ∧ timers s' = ∅.
Proof. by vm_compute. Qed.

End View.
