(* ===== verification/H264.v ===== *)
(** * noVNC: the H.264 encoding: static/js/novnc/core/decoders/h264.js

    [Parser]: a payload is cut into frames, one coded slice to each.  [H264]: the
    contexts of the decoder, one to a rectangle, each with its [VideoDecoder]
    (the browser's) and the places in the drawing queue that wait for its frames.
    Frames and contexts are objects that several parts share: they are in a
    store, by number. *)
From Stdlib Require Import Ascii.
From S2P Require Import Prelude Words Websock Decoders.

#[local] Open Scope list_scope.
#[local] Open Scope Z_scope.

(** ** The stream of a payload *)
Module Parser.
Abbreviation bytes := (list Z).
(** a field that is read from the stream: [null], [undefined] past its end *)
Inductive jsval := Null | Undefined | Num (n : Z).
#[export] Instance jsval_eq_dec : EqDecision jsval.
Proof. solve_decision. Defined.
Record profile := Profile { profileIdc : jsval; constraintSet : jsval; levelIdc : jsval }.
Definition read (data : bytes) (i : nat) : jsval := match data !! i with Some n => Num n | None => Undefined end.
Definition is_at (data : bytes) (i : nat) (n : Z) : bool := bool_decide (data !! i = Some n).

Definition getStartSequenceLen (data : bytes) (i : nat) : nat :=
  if is_at data i 0 && is_at data (i + 1) 0 && is_at data (i + 2) 0 && is_at data (i + 3) 1 then 4
  else if is_at data i 0 && is_at data (i + 1) 0 && is_at data (i + 2) 1 then 3
  else 0.
(** the [for] loop, [n] places from [i] on; none: -1 *)
Fixpoint next_from (data : bytes) (n i : nat) : option nat :=
  match n with
  | 0%nat => None
  | S n => if bool_decide (getStartSequenceLen data i = 0%nat) then next_from data n (S i) else Some i
  end.
Definition indexOfNextNalUnit (data : bytes) (i : nat) : option nat := next_from data (length data - i) i.
Definition parseSps (data : bytes) (i : nat) : profile := Profile (read data i) (read data (i + 1)) (read data (i + 2)).
(** a slice or not, a key or not; none: the forbidden bit is set, it throws *)
Definition parseNalUnit (data : bytes) (i : nat) (p : profile) : option (bool * bool * profile) :=
  let firstByte := default 0 (data !! i) in
  if negb (Z.land firstByte 128 =? 0) then None
  else
    let unitType := Z.land firstByte 31 in
    if unitType =? 1 then Some (true, false, p)
    else if unitType =? 5 then Some (true, true, p)
    else if unitType =? 7 then Some (false, false, parseSps data (i + 1))
    else Some (false, false, p).

(** the parser: where it is, and the profile it saw last *)
Record parser := Parser_ { index : nat; seen : profile }.
Definition fresh : parser := Parser_ 0 (Profile Null Null Null).
Inductive parsed := Throws | End | Frame (frame : bytes) (key : bool) (p : parser).
(** the [while] loop of [parse] *)
Fixpoint units (n : nat) (data : bytes) (key : bool) (p : parser) : option (bool * parser) :=
  match n with
  | 0%nat => Some (key, p)
  | S n =>
    if (length data <=? index p)%nat then Some (key, p)
    else
      match getStartSequenceLen data (index p) with
      | 0%nat => None
      | l =>
        match parseNalUnit data (index p + l) (seen p) with
        | None => None
        | Some (slice, k, prof) =>
          let p := Parser_ (default (length data) (indexOfNextNalUnit data (index p + l))) prof in
          if slice then Some (key || k, p) else units n data (key || k) p
        end
      end
  end.
Definition parse (data : bytes) (p : parser) : parsed :=
  match units (length data) data false p with
  | None => Throws
  | Some (key, p') =>
    if bool_decide (index p = index p') then End
    else Frame (take (index p' - index p) (drop (index p) data)) key p'
  end.
(** the frames of a payload, until the end or a throw *)
Fixpoint frames (n : nat) (data : bytes) (p : parser) : list (bytes * bool) * bool :=
  match n with
  | 0%nat => ([], true)
  | S n =>
    match parse data p with
    | Throws => ([], false)
    | End => ([], true)
    | Frame f k p' => let '(fs, ok) := frames n data p' in ((f, k) :: fs, ok)
    end
  end.

(** ** The parser goes on, and loses nothing *)
Lemma next_bounds data n i j : next_from data n i = Some j → (i <= j < i + n)%nat.
Proof.
  revert i. induction n as [|n IH]; intros i; [done|]. simpl. case_bool_decide; [|intros [= ->]; lia].
  intros Hj. apply IH in Hj. lia.
Qed.
Lemma start_bounds data i l : getStartSequenceLen data i = S l → (i + S l <= length data)%nat.
Proof.
  unfold getStartSequenceLen, is_at. repeat case_bool_decide; simpl; intros Hl; simplify_eq;
    repeat match goal with E : data !! _ = Some _ |- _ => apply lookup_lt_Some in E end; lia.
Qed.
Lemma units_forward n data key p key' p' :
  (index p <= length data)%nat → units n data key p = Some (key', p') →
  (index p <= index p' <= length data)%nat ∧ ((0 < n)%nat → (index p < length data)%nat → (index p < index p')%nat).
Proof.
  revert key p. induction n as [|n IH]; intros key p Hp; simpl; [intros [= <- <-]; lia|].
  destruct (Nat.leb_spec (length data) (index p)); [intros [= <- <-]; lia|].
  destruct (getStartSequenceLen data (index p)) as [|l] eqn:El; [done|]. apply start_bounds in El.
  destruct (parseNalUnit _ _ _) as [[[slice k] prof]|]; [|done]. set (p1 := Parser_ _ prof).
  assert (index p < index p1 <= length data)%nat as Hp1.
  { subst p1. simpl. unfold indexOfNextNalUnit. destruct (next_from _ _ _) as [j|] eqn:Ej; [apply next_bounds in Ej|]; simpl; lia. }
  destruct slice; [intros [= <- <-]; lia|]. intros Hu. apply IH in Hu; lia.
Qed.
(** turns enough: more give the same *)
Lemma units_fuel n m data key p :
  (length data - index p <= n)%nat → (length data - index p <= m)%nat → (index p <= length data)%nat →
  units n data key p = units m data key p.
Proof.
  revert m key p. induction n as [|n IH]; intros m key p Hn Hm Hp.
  { destruct m; simpl; [done|]. destruct (Nat.leb_spec (length data) (index p)); [done|lia]. }
  destruct m; simpl; destruct (Nat.leb_spec (length data) (index p)); [done|lia|done|].
  destruct (getStartSequenceLen data (index p)) as [|l] eqn:El; [done|]. apply start_bounds in El.
  destruct (parseNalUnit _ _ _) as [[[slice k] prof]|]; [|done]. destruct slice; [done|].
  assert (index p < default (length data) (indexOfNextNalUnit data (index p + S l)) <= length data)%nat.
  { unfold indexOfNextNalUnit. destruct (next_from _ _ _) as [j|] eqn:Ej; [apply next_bounds in Ej|]; simpl; lia. }
  apply IH; simpl; lia.
Qed.
Lemma parse_forward data p :
  (index p <= length data)%nat →
  match parse data p with
  | Throws => True
  | End => index p = length data
  | Frame f k p' => (index p < index p' <= length data)%nat ∧ f ++ drop (index p') data = drop (index p) data
  end.
Proof.
  intros Hp. unfold parse. destruct (units _ _ _ _) as [[key p']|] eqn:Eu; [|done]. apply units_forward in Eu as [H1 H2]; [|done].
  case_bool_decide as Hi; [destruct (decide (index p = length data)); lia|]. split; [lia|].
  rewrite <- (take_drop (index p' - index p) (drop (index p) data)) at 2. f_equal. rewrite drop_drop. f_equal. lia.
Qed.
(** Every byte of a payload that is read to its end is in one of its frames. *)
Lemma frames_are_the_payload n data p :
  (length data - index p < n)%nat → (index p <= length data)%nat →
  let '(fs, ok) := frames n data p in
  (∃ rest, concat fs.*1 ++ rest = drop (index p) data ∧ (ok = true → rest = []))
  ∧ Forall (λ f, f.1 ≠ []) fs.
Proof.
  revert p. induction n as [|n IH]; intros p Hn Hp; [lia|]. simpl. pose proof (parse_forward data p Hp) as Hf.
  destruct (parse data p) as [| |f k p'].
  - split; [|constructor]. by exists (drop (index p) data).
  - split; [|constructor]. exists []. split; [|done]. by rewrite drop_ge by lia.
  - destruct Hf as [Hi Hf]. specialize (IH p'). destruct (frames n data p') as [fs ok]. destruct IH as [(rest & H1 & H2) H3]; [lia..|].
    split; [exists rest; split; [|done]|constructor; [|done]].
    + rewrite <- Hf, <- H1, app_assoc. done.
    + simpl. intros ->. simpl in Hf. apply (f_equal length) in Hf. rewrite !length_drop in Hf. lia.
Qed.
End Parser.

(** ** Contexts and their decoders *)
Module H264.
Import Parser.
Abbreviation key := (Z * Z * Z * Z)%type.
(** a number of a byte in two hexadecimal digits *)
Definition hex (n : Z) : ascii := default "0"%char (String.list_ascii_of_string "0123456789abcdef" !! Z.to_nat n).
Definition hex2 (n : Z) : string := String (hex (n / 16)) (String (hex (n mod 16)) "").
(** none: [toString] of [undefined] throws *)
Definition codec (p : profile) : option string :=
  match profileIdc p, constraintSet p, levelIdc p with
  | Num a, Num b, Num c => Some ("avc1." +:+ hex2 a +:+ hex2 b +:+ hex2 c)%string
  | _, _, _ => None
  end.

(** A [VideoDecoder]: [inside], the timestamps of the chunks it has not given
    the frame of. *)
Inductive video_decoder := Unconfigured | Configured (inside : list Z) | Closed.
Record context := Context { lastUsed : Z; c_width : Z; c_height : Z; decoder : option video_decoder; pendingFrames : list nat }.
Record pending := Pending { timestamp : Z; ready : bool; keep : bool }.
(** [table]: [_contexts], the contexts by rectangle; [self_profile]: the
    properties [_profileIdc], [_constraintSet] and [_levelIdc] of [self], the window *)
Record h264 := H264 {
  tick : Z; table : list (key * nat); contexts : list context; pendings : list pending; self_profile : profile }.
Definition start : h264 := H264 0 [] [] [] (Profile Undefined Undefined Undefined).
Definition with_context (c : nat) (f : context → context) (s : h264) : h264 :=
  H264 (tick s) (table s) (alter f c (contexts s)) (pendings s) (self_profile s).
Definition with_table (t : list (key * nat)) (s : h264) : h264 := H264 (tick s) t (contexts s) (pendings s) (self_profile s).
Definition with_pending (k : nat) (f : pending → pending) (s : h264) : h264 :=
  H264 (tick s) (table s) (contexts s) (alter f k (pendings s)) (self_profile s).
Definition with_profile (p : profile) (s : h264) : h264 := H264 (tick s) (table s) (contexts s) (pendings s) p.
Definition with_decoder (d : option video_decoder) (c : context) : context := Context (lastUsed c) (c_width c) (c_height c) d (pendingFrames c).
Definition with_frames (l : list nat) (c : context) : context := Context (lastUsed c) (c_width c) (c_height c) (decoder c) l.
Definition no_context : context := Context 0 0 0 None [].
Definition context_at (s : h264) (c : nat) : context := default no_context (contexts s !! c).

Inductive effect :=
  | Configure (c : nat) (codec : string) (width height : Z)
  | DecodeChunk (c : nat) (time : Z) (key : bool) (data : bytes)
  | VideoFrame (x y w h : Z) (place : nat)       (* [display.videoFrame] *)
  | Ready (place : nat)                          (* its promise is resolved *)
  | CloseFrame (place : nat)                     (* its frame is not kept *)
  | CallbackThrows.

Section h264.
(** whether [configure] takes a codec and a size; it throws when they are not valid *)
Variable configurable : string → Z → Z → bool.

(** [_handleFrame], the output callback of a context's decoder *)
Definition handleFrame (c : nat) (time : Z) (s : h264) : h264 * list effect :=
  match pendingFrames (context_at s c) with
  | [] => (s, [CallbackThrows])
  | k :: l =>
    let s := with_context c (with_frames l) s in
    match pendings s !! k with
    | Some p =>
      if negb (timestamp p =? time) then (s, [CallbackThrows])
      else (with_pending k (λ p, Pending (timestamp p) true (keep p)) s, Ready k :: if keep p then [] else [CloseFrame k])
    | None => (s, [])
    end
  end.
(** [_configureDecoder]; false: it throws *)
Definition configureDecoder (c : nat) (p : profile) (s : h264) : bool * h264 * list effect :=
  let ctx := context_at s c in
  let d := match decoder ctx with None | Some Closed => Some Unconfigured | d => d end in
  let s := with_context c (with_decoder d) s in
  match codec p with
  | None => (false, s, [])
  | Some name =>
    if configurable name (c_width ctx) (c_height ctx)
    then (true, with_context c (with_decoder (Some (Configured []))) s, [Configure c name (c_width ctx) (c_height ctx)])
    else (false, s, [])
  end.
Definition preparePendingFrame (c : nat) (time : Z) (s : h264) : nat * h264 :=
  let k := length (pendings s) in
  (k, H264 (tick s) (table s) (alter (λ x, with_frames (pendingFrames x ++ [k]) x) c (contexts s)) (pendings s ++ [Pending time false false]) (self_profile s)).
Definition configured (c : context) : bool := match decoder c with Some (Configured _) => true | _ => false end.
(** the decoder takes a chunk *)
Definition take_chunk (time : Z) (c : context) : context :=
  match decoder c with Some (Configured l) => with_decoder (Some (Configured (l ++ [time]))) c | _ => c end.
Inductive outcome := Skipped | Made (place : nat) | Thrown.
(** one turn of [decode]'s loop on a frame; [fails]: the decoder's [decode] throws *)
Definition decode_frame (c : nat) (time : Z) (fails : bool) (frame : bytes) (k : bool) (p : parser) (s : h264) : outcome * h264 * list effect :=
  let s := if decide (profileIdc (seen p) = Null) then s else with_profile (seen p) s in
  let send s :=
    let '(place, s) := preparePendingFrame c time s in
    (Made place, if fails then s else with_context c (take_chunk time) s, [DecodeChunk c time k frame]) in
  if configured (context_at s c) then send s
  else if negb k then (Skipped, s, [])
  else if decide (profileIdc (self_profile s) = Null) then (Skipped, s, [])
  else
    let '(ok, s, fx) := configureDecoder c (self_profile s) s in
    if ok then let '(o, s, fx') := send s in (o, s, fx ++ fx') else (Thrown, s, fx).
(** the loop; [fails]: for each chunk, and none after them *)
Fixpoint decode_loop (n : nat) (data : bytes) (c : nat) (time : Z) (fails : list bool) (p : parser) (result : option nat) (s : h264)
    : bool * option nat * h264 * list effect :=
  match n with
  | 0%nat => (true, result, s, [])
  | S n =>
    match parse data p with
    | Throws => (false, result, s, [])
    | End => (true, result, s, [])
    | Frame f k p' =>
      let '(o, s, fx) := decode_frame c time (default false (head fails)) f k p' s in
      match o with
      | Thrown => (false, result, s, fx)
      | Skipped => let '(ok, r, s, fx') := decode_loop n data c time fails p' result s in (ok, r, s, fx ++ fx')
      | Made place => let '(ok, r, s, fx') := decode_loop n data c time (tail fails) p' (Some place) s in (ok, r, s, fx ++ fx')
      end
    end
  end.
(** [decode]; only the last frame of a payload is kept *)
Definition decode (c : nat) (data : bytes) (time : Z) (fails : list bool) (s : h264) : bool * option nat * h264 * list effect :=
  let '(ok, result, s, fx) := decode_loop (S (length data)) data c time fails fresh None s in
  match ok, result with
  | true, Some k => (true, result, with_pending k (λ p, Pending (timestamp p) (ready p) true) s, fx)
  | _, _ => (ok, result, s, fx)
  end.

(** ** The table of contexts *)
Definition maxContexts : nat := 64.
Definition findOldestContextId (s : h264) : option key :=
  (fold_left (λ best e, let t := lastUsed (context_at s e.2) in
     match best with Some (_, t0) => if t <? t0 then Some (e.1, t) else best | None => Some (e.1, t) end) (table s) None) ≫= λ b, Some b.1.
Definition remove (k : key) (t : list (key * nat)) : list (key * nat) := filter (λ e, e.1 ≠ k) t.
Fixpoint find (k : key) (t : list (key * nat)) : option nat :=
  match t with [] => None | (k', c) :: t => if decide (k = k') then Some c else find k t end.
Definition createContext (k : key) (w h : Z) (s : h264) : nat * h264 :=
  let t := if (maxContexts <=? length (table s))%nat
           then match findOldestContextId s with Some k => remove k (table s) | None => table s end else table s in
  let c := length (contexts s) in
  (c, H264 (tick s) (t ++ [(k, c)]) (contexts s ++ [Context 0 w h None []]) (pendings s) (self_profile s)).
Definition getContext (k : key) (w h : Z) (s : h264) : nat * h264 :=
  match find k (table s) with Some c => (c, s) | None => createContext k w h s end.
Definition use (c : nat) (s : h264) : h264 :=
  H264 (tick s + 1) (table s) (alter (λ x, Context (tick s) (c_width x) (c_height x) (decoder x) (pendingFrames x)) c (contexts s))
    (pendings s) (self_profile s).
Definition decodeRect (x y w h : Z) (time : Z) (fails : list bool) (s : h264) (q : bytes) : Decoders.verdict * h264 * bytes * list effect :=
  if rQwait 8 q then (Decoders.Again, s, q, [])
  else
    let '(n, q1) := rQshift 4 q in
    let '(flags, q2) := rQshift 4 q1 in
    if rQwait n q2 then (Decoders.Again, s, q, [])
    else
      let k := (x, y, w, h) in
      let s := if Z.testbit flags 1 then with_table [] s else if Z.testbit flags 0 then with_table (remove k (table s)) s else s in
      let '(c, s) := getContext k w h s in
      let s := use c s in
      if n =? 0 then (Decoders.Done, s, q2, [])
      else
        let '(payload, q3) := rQshiftBytes n q2 in
        let '(ok, result, s, fx) := decode c payload time fails s in
        if ok then (Decoders.Done, s, q3, fx ++ match result with Some place => [VideoFrame x y w h place] | None => [] end)
        else (Decoders.Thrown, s, q3, fx).

(** ** Events *)
Inductive event :=
  | Rect (x y w h : Z) (time : Z) (fails : list bool) (q : bytes)
  | FrameOut (c : nat)            (* a decoder gives the frame of its oldest chunk *)
  | DecoderError (c : nat).       (* it fails and closes *)
Definition step (s : h264) (e : event) : h264 * list effect :=
  match e with
  | Rect x y w h time fails q => let '(_, s, _, fx) := decodeRect x y w h time fails s q in (s, fx)
  | FrameOut c =>
    match decoder (context_at s c) with
    | Some (Configured (t :: l)) => handleFrame c t (with_context c (with_decoder (Some (Configured l))) s)
    | _ => (s, [])
    end
  | DecoderError c => (with_context c (with_decoder (Some Closed)) s, [CallbackThrows])
  end.
Definition enabled (s : h264) (e : event) : Prop :=
  match e with
  | Rect _ _ _ _ _ _ _ => True
  | FrameOut c => ∃ t l, decoder (context_at s c) = Some (Configured (t :: l))
  | DecoderError c => configured (context_at s c) = true
  end.

(** ** Every place gets its frame, as long as the decoders do not fail *)
Definition no_failure (e : event) : Prop :=
  match e with Rect _ _ _ _ _ fails _ => fails = [] | FrameOut _ => True | DecoderError _ => False end.
(** the chunks inside a context's decoder are those of its places, in order *)
Definition meets (ps : list pending) (x : context) : Prop :=
  match decoder x with
  | Some (Configured l) => Forall2 (λ k t, timestamp <$> ps !! k = Some t) (pendingFrames x) l
  | _ => pendingFrames x = []
  end.
Definition waits (s : h264) (k : nat) : Prop := ∃ c x, contexts s !! c = Some x ∧ k ∈ pendingFrames x.
Definition good (s : h264) : Prop :=
  Forall (meets (pendings s)) (contexts s) ∧ ∀ k p, pendings s !! k = Some p → ready p = true ∨ waits s k.
(** what decoding a payload does to the places *)
Definition grows (s s' : h264) : Prop :=
  table s' = table s ∧ length (contexts s') = length (contexts s)
  ∧ ∃ new, pendings s' = pendings s ++ new ∧ Forall (λ p, ready p = false ∧ keep p = false) new.
Definition quiet (o : effect) : Prop := match o with Configure _ _ _ _ | DecodeChunk _ _ _ _ => True | _ => False end.

Lemma meets_more ps ps' x : (∀ k t, timestamp <$> ps !! k = Some t → timestamp <$> ps' !! k = Some t) → meets ps x → meets ps' x.
Proof. intros Hp. unfold meets. destruct (decoder x) as [[| |]|]; try done. intros Hf. eapply Forall2_impl; [exact Hf|]. auto. Qed.
Lemma grows_refl s : grows s s.
Proof. split_and!; [done..|]. exists []. by rewrite app_nil_r. Qed.
Lemma grows_trans s1 s2 s3 : grows s1 s2 → grows s2 s3 → grows s1 s3.
Proof.
  intros (E1 & E2 & n1 & E3 & H1) (E4 & E5 & n2 & E6 & H2). split_and!; [congruence..|].
  exists (n1 ++ n2). rewrite E6, E3, app_assoc. split; [done|]. by apply Forall_app.
Qed.
Lemma meets_at s c : good s → meets (pendings s) (context_at s c).
Proof. intros [Hm _]. unfold context_at. destruct (contexts s !! c) eqn:E; [|done]. exact (Forall_lookup_1 _ _ _ _ Hm E). Qed.
(** one context changes and keeps its places *)
Lemma with_context_good s c f :
  good s → (∀ x, contexts s !! c = Some x → pendingFrames (f x) = pendingFrames x ∧ meets (pendings s) (f x)) → good (with_context c f s).
Proof.
  intros [Hm Hr] Hf. split.
  - apply Forall_lookup_2. intros i x. simpl. rewrite list_lookup_alter. case_decide as Hi; [subst i|intros Hx; exact (Forall_lookup_1 _ _ _ _ Hm Hx)].
    destruct (contexts s !! c) as [x0|] eqn:E; [|done]. intros [= <-]. by apply Hf.
  - intros k p Hp. destruct (Hr k p Hp) as [|(i & x & Hi & Hk)]; [by left|]. right. exists i.
    destruct (decide (i = c)) as [->|]; [exists (f x)|exists x]; unfold with_context; simpl; rewrite list_lookup_alter.
    + rewrite decide_True by done. rewrite Hi. split; [done|]. by rewrite (proj1 (Hf x Hi)).
    + by rewrite decide_False by done.
Qed.
Lemma send_good s c time :
  good s → (c < length (contexts s))%nat → configured (context_at s c) = true →
  let '(k, s1) := preparePendingFrame c time s in let s' := with_context c (take_chunk time) s1 in
  good s' ∧ grows s s' ∧ k = length (pendings s) ∧ length (pendings s') = S k.
Proof.
  intros [Hm Hr] Hc Hd. unfold preparePendingFrame. set (k := length (pendings s)). set (s' := with_context _ _ _).
  destruct (lookup_lt_is_Some_2 _ _ Hc) as [x Hx]. unfold context_at, configured in Hd. rewrite Hx in Hd. simpl in Hd.
  destruct (decoder x) as [[|l|]|] eqn:Ed; try done.
  assert (contexts s' = alter (take_chunk time) c (alter (λ x, with_frames (pendingFrames x ++ [k]) x) c (contexts s))) as Ec by done.
  assert (pendings s' = pendings s ++ [Pending time false false]) as Ep by done.
  assert (∀ i y, contexts s' !! i = Some y → i = c ∧ y = Context (lastUsed x) (c_width x) (c_height x) (Some (Configured (l ++ [time]))) (pendingFrames x ++ [k])
    ∨ i ≠ c ∧ contexts s !! i = Some y) as Hl.
  { intros i y. rewrite Ec, !list_lookup_alter. case_decide as Hi; [subst i|by right]. rewrite decide_True, Hx by done. intros [= <-]. left.
    unfold take_chunk. simpl. rewrite Ed. done. }
  assert (∀ i t, timestamp <$> pendings s !! i = Some t → timestamp <$> pendings s' !! i = Some t) as Hmore.
  { intros i t Ht. destruct (pendings s !! i) as [p|] eqn:E; [|done]. rewrite Ep, (lookup_app_l_Some _ _ _ _ E). done. }
  split; [split|].
  - apply Forall_lookup_2. intros i y Hy. destruct (Hl i y Hy) as [[-> ->]|[_ Hy']].
    + unfold meets. simpl. apply Forall2_app; [|constructor; [|constructor]].
      * pose proof (Forall_lookup_1 _ _ _ _ Hm Hx) as H0. unfold meets in H0. rewrite Ed in H0. eapply Forall2_impl; [exact H0|]. auto.
      * by rewrite list_lookup_middle by done.
    + eapply meets_more; [exact Hmore|]. exact (Forall_lookup_1 _ _ _ _ Hm Hy').
  - intros i p. rewrite Ep. intros Hi%lookup_app_Some. assert (∀ j y, contexts s !! j = Some y → i ∈ pendingFrames y ∨ j = c ∧ i = k → waits s' i) as Hw.
    { intros j y Hj Hin. destruct (contexts s' !! j) as [y'|] eqn:E.
      - exists j, y'. split; [done|]. destruct (Hl j y' E) as [[-> ->]|[Hn Hy']]; simpl; [|by simplify_eq; destruct Hin as [|[-> _]]].
        apply elem_of_app. simplify_eq. destruct Hin as [|[_ ->]]; [by left|right; by apply list_elem_of_singleton].
      - apply lookup_ge_None in E. rewrite Ec, !length_alter in E. apply lookup_lt_Some in Hj. lia. }
    destruct Hi as [Hi|[Hk Hi]].
    + destruct (Hr i p Hi) as [|(j & y & Hj & Hin)]; [by left|right]. apply (Hw j y Hj). by left.
    + right. apply (Hw c x Hx). right. split; [done|]. apply list_lookup_singleton_Some in Hi as [Hi _]. unfold k. lia.
  - split; [|split; [done|rewrite Ep, length_app; simpl; unfold k; lia]]. split; [done|]. split; [by rewrite Ec, !length_alter|].
    exists [Pending time false false]. split; [done|]. by repeat constructor.
Qed.

Lemma configure_good c p s :
  good s → configured (context_at s c) = false →
  let '(ok, s', fx) := configureDecoder c p s in
  good s' ∧ grows s s' ∧ Forall quiet fx ∧ ((c < length (contexts s))%nat → ok = true → configured (context_at s' c) = true).
Proof.
  intros Hg Hc. unfold configureDecoder. set (d := match decoder (context_at s c) with None => _ | _ => _ end).
  assert (∀ x, contexts s !! c = Some x → pendingFrames x = [] ∧ match d with Some (Configured _) => False | _ => True end) as Hx.
  { intros x Hx. pose proof (meets_at s c Hg) as Hm. unfold d, context_at, configured, meets in *. rewrite Hx in *. simpl in *.
    by destruct (decoder x) as [[| |]|]. }
  assert (good (with_context c (with_decoder d) s) ∧ grows s (with_context c (with_decoder d) s)) as [H1 H2].
  { split; [|split_and!; [done|by simpl; rewrite length_alter|exists []; by rewrite app_nil_r]].
    apply with_context_good; [done|]. intros x E. destruct (Hx x E) as [E1 E2]. split; [done|]. unfold meets. simpl. by destruct d as [[| |]|]. }
  destruct (codec p) as [name|]; [|split_and!; [done..|constructor|done]].
  destruct (configurable _ _ _); [|split_and!; [done..|constructor|done]]. split_and!.
  - apply with_context_good; [done|]. intros y. simpl. rewrite list_lookup_alter, decide_True by done.
    destruct (contexts s !! c) as [x|] eqn:E; [|done]. intros [= <-]. destruct (Hx x eq_refl) as [E1 _]. unfold meets. simpl. rewrite E1. split; [done|constructor].
  - eapply grows_trans; [exact H2|]. split_and!; [done|by simpl; rewrite !length_alter|exists []; by rewrite app_nil_r].
  - by repeat constructor.
  - intros Hl _. destruct (lookup_lt_is_Some_2 _ _ Hl) as [x E]. unfold configured, context_at. simpl.
    by rewrite !list_lookup_alter, !decide_True, E by done.
Qed.
Definition made (o : outcome) (s s' : h264) : Prop := ∀ k, o = Made k → (length (pendings s) <= k < length (pendings s'))%nat.
Lemma frame_good c time f k p s :
  good s → (c < length (contexts s))%nat →
  let '(o, s', fx) := decode_frame c time false f k p s in good s' ∧ grows s s' ∧ Forall quiet fx ∧ made o s s'.
Proof.
  intros Hg Hc. unfold decode_frame. set (s0 := if decide _ then s else _).
  assert (good s0 ∧ grows s s0 ∧ pendings s0 = pendings s ∧ contexts s0 = contexts s) as (H1 & H2 & E1 & E2).
  { unfold s0. case_decide; [split_and!; [done|apply grows_refl|done..]|]. split_and!; [done| |done..].
    split_and!; [done..|]. exists []. by rewrite app_nil_r. }
  clearbody s0. cbv zeta.
  assert (∀ s1, good s1 → grows s0 s1 → configured (context_at s1 c) = true →
    let '(o, s', fx) := let '(place, s2) := preparePendingFrame c time s1 in (Made place, with_context c (take_chunk time) s2, [DecodeChunk c time k f]) in
    good s' ∧ grows s s' ∧ Forall quiet fx ∧ made o s s') as Hsend.
  { intros s1 Hg1 Hr1 Hc1. destruct Hr1 as (E3 & E4 & new & E5 & E6).
    pose proof (send_good s1 c time Hg1) as Hs. destruct (preparePendingFrame c time s1) as [place s2].
    destruct Hs as (G1 & G2 & G3 & G4); [by rewrite E4, E2|done|]. split_and!; [done| |by repeat constructor|].
    - eapply grows_trans; [exact H2|]. eapply grows_trans; [|exact G2]. split_and!; eauto.
    - intros i [= <-]. rewrite G4, G3, E5, E1, length_app. lia. }
  destruct (configured (context_at s0 c)) eqn:Ec; [by apply Hsend; [|apply grows_refl|]|].
  destruct (negb k); [by split_and!; [..|constructor|]|]. case_decide; [by split_and!; [..|constructor|]|].
  pose proof (configure_good c (self_profile s0) s0 H1 Ec) as Hf. destruct (configureDecoder _ _ _) as [[ok s1] fx].
  destruct Hf as (G1 & G2 & G3 & G4). destruct ok; [|by split_and!; [|eapply grows_trans|..]].
  specialize (Hsend s1 G1 G2). destruct (preparePendingFrame c time s1) as [place s2].
  destruct Hsend as (G5 & G6 & G7 & G8); [apply G4; [by rewrite E2|done]|]. split_and!; [done..|by apply Forall_app|done].
Qed.
Lemma loop_good n data c time p r s :
  good s → (c < length (contexts s))%nat →
  let '(ok, r', s', fx) := decode_loop n data c time [] p r s in
  good s' ∧ grows s s' ∧ Forall quiet fx ∧ (r' = r ∨ made (from_option Made Skipped r') s s').
Proof.
  revert p r s. induction n as [|n IH]; intros p r s Hg Hc; simpl; [by split_and!; [|apply grows_refl|constructor|left]|].
  destruct (parse data p) as [| |f k p']; [by split_and!; [|apply grows_refl|constructor|left]..|].
  pose proof (frame_good c time f k p' s Hg Hc) as Hf. change (default false (head [])) with false.
  destruct (decode_frame c time false f k p' s) as [[o s1] fx]. destruct Hf as (G1 & G2 & G3 & G4).
  assert (c < length (contexts s1))%nat as Hc1 by (destruct G2 as (_ & -> & _); lia).
  assert (∀ s2, grows s1 s2 → (length (pendings s) <= length (pendings s1))%nat ∧ (length (pendings s1) <= length (pendings s2))%nat) as Hlen.
  { destruct G2 as (_ & _ & n1 & E1 & _). intros s2 (_ & _ & n2 & E2 & _). rewrite E2, E1, !length_app. lia. }
  destruct o as [|place|]; [| |by split_and!; [..|left]].
  - specialize (IH p' r s1 G1 Hc1). destruct (decode_loop _ _ _ _ _ _ _ _) as [[[ok r'] s2] fx']. destruct IH as (G5 & G6 & G7 & G8).
    split_and!; [done|by eapply grows_trans|by apply Forall_app|]. destruct G8 as [|G8]; [by left|right]. intros i Hi. specialize (G8 i Hi).
    specialize (Hlen s2 G6). lia.
  - specialize (IH p' (Some place) s1 G1 Hc1). simpl. destruct (decode_loop _ _ _ _ _ _ _ _) as [[[ok r'] s2] fx'].
    destruct IH as (G5 & G6 & G7 & G8). specialize (Hlen s2 G6). split_and!; [done|by eapply grows_trans|by apply Forall_app|]. right.
    intros i Hi. destruct G8 as [->|G8]; [|specialize (G8 i Hi); lia]. simpl in Hi. specialize (G4 i Hi). lia.
Qed.

(** a payload adds places: none has its frame, and the last one is kept *)
Definition adds (last : option nat) (s s' : h264) : Prop :=
  good s' ∧ table s' = table s ∧ length (contexts s') = length (contexts s)
  ∧ ∃ new, pendings s' = pendings s ++ new
    ∧ (∀ i p, new !! i = Some p → ready p = false ∧ (keep p = true ↔ last = Some (length (pendings s) + i)%nat))
    ∧ ∀ k, last = Some k → (length (pendings s) <= k < length (pendings s) + length new)%nat.
Lemma keep_good s k : good s → good (with_pending k (λ p, Pending (timestamp p) (ready p) true) s).
Proof.
  intros [Hm Hr]. split.
  - eapply Forall_impl; [exact Hm|]. intros x. apply meets_more. intros i t. simpl. rewrite list_lookup_alter. case_decide; [subst i|done].
    by destruct (pendings s !! k).
  - intros i p. simpl. rewrite list_lookup_alter. case_decide; [subst i|exact (Hr i p)].
    destruct (pendings s !! k) as [p0|] eqn:E; [|done]. intros [= <-]. exact (Hr k p0 E).
Qed.
Lemma decode_adds c data time s :
  good s → (c < length (contexts s))%nat →
  let '(ok, r, s', fx) := decode c data time [] s in
  adds (if ok then r else None) s s' ∧ Forall quiet fx.
Proof.
  intros Hg Hc. unfold decode. pose proof (loop_good (S (length data)) data c time fresh None s Hg Hc) as Hl.
  destruct (decode_loop _ _ _ _ _ _ _ _) as [[[ok r] s1] fx]. destruct Hl as (G1 & (E1 & E2 & new & E3 & Hn) & G3 & G4).
  assert (∀ i p, new !! i = Some p → ready p = false ∧ keep p = false) as Hf by (intros i p; exact (Forall_lookup_1 _ _ _ _ Hn)).
  assert (r = None ∨ ok = false ∨ ∃ k, r = Some k ∧ ok = true) as [->|[->|(k & -> & ->)]] by (destruct r, ok; naive_solver).
  - replace (if ok then None else None) with (@None nat) by (by destruct ok). destruct ok; (split; [|done]); split_and!; try done;
      exists new; (split; [done|]); (split; [|done]); intros i p Hi; destruct (Hf i p Hi) as [-> ->]; (split; [done|]); by split.
  - split; [|done]. split_and!; try done. exists new. split; [done|]. split; [|done]. intros i p Hi. destruct (Hf i p Hi) as [-> ->]. by repeat split.
  - split; [|done]. destruct G4 as [|G4]; [done|]. specialize (G4 k eq_refl). rewrite E3, length_app in G4.
    split_and!; [by apply keep_good|done..|]. exists (alter (λ p, Pending (timestamp p) (ready p) true) (k - length (pendings s))%nat new). split_and!.
    + simpl. rewrite E3. by rewrite alter_app_r_alt by lia.
    + intros i p. rewrite list_lookup_alter. case_decide as Hi.
      * subst i. destruct (new !! _) as [p0|] eqn:E; [|done]. intros [= <-]. simpl. destruct (Hf _ _ E) as [-> _]. split; [done|]. split; [|done].
        intros _. f_equal. lia.
      * intros Hp. destruct (Hf i p Hp) as [-> ->]. split; [done|]. split; [done|]. intros [= Hk]. lia.
    + intros k' [= <-]. rewrite length_alter. lia.
Qed.

(** the table never has more rectangles than it may *)
Definition table_ok (s : h264) : Prop :=
  (length (table s) <= maxContexts)%nat ∧ Forall (λ e, (e.2 < length (contexts s))%nat) (table s).
Lemma remove_ok k s : table_ok s → Forall (λ e, (e.2 < length (contexts s))%nat) (remove k (table s)) ∧ (length (remove k (table s)) <= length (table s))%nat.
Proof. intros [_ Hf]. split; [|apply length_filter]. apply Forall_forall. intros e [_ He]%list_elem_of_filter. exact (proj1 (Forall_forall _ _) Hf e He). Qed.
Lemma removed k t c : (k, c) ∈ t → (length (remove k t) < length t)%nat.
Proof. intros Hin. apply (length_filter_lt _ _ (k, c)); [done|]. by intros []. Qed.
Lemma oldest_in s : table s ≠ [] → ∃ c, (default (0, 0, 0, 0) (findOldestContextId s), c) ∈ table s ∧ findOldestContextId s ≠ None.
Proof.
  unfold findOldestContextId.
  set (f := λ best e, _). assert (∀ t best, match fold_left f t best with
    | Some (k, _) => (∃ c, (k, c) ∈ t) ∨ (∃ t0, best = Some (k, t0)) | None => t = [] ∧ best = None end) as Hf.
  { induction t as [|[k c] t IH]; intros best; simpl; [destruct best as [[k t0]|]; eauto|]. specialize (IH (f best (k, c))).
    destruct (fold_left f t (f best (k, c))) as [[k' t']|].
    - destruct IH as [[c' Hc]|[t0 E]]; [left; exists c'; by right|]. unfold f in E. destruct best as [[kb tb]|]; simpl in E; [|simplify_eq; left; exists c; by left].
      destruct (_ <? _); simplify_eq; [left; exists c; by left|right; by eexists].
    - destruct IH as [_ E]. unfold f in E. destruct best as [[kb tb]|]; simpl in E; [by destruct (_ <? _)|done]. }
  intros Hn. specialize (Hf (table s) None). destruct (fold_left f (table s) None) as [[k t]|]; [|by destruct Hf].
  simpl. destruct Hf as [[c Hc]|[t0 E]]; [by exists c|done].
Qed.

(** a rectangle's context is there *)
Lemma find_in k t c : find k t = Some c → (k, c) ∈ t.
Proof. induction t as [|[k' c'] t IH]; simpl; [done|]. case_decide; [intros [= ->]; subst; by left|]. intros Hf. right. by apply IH. Qed.
Definition same_places (s s' : h264) : Prop := pendings s' = pendings s ∧ (good s → good s').
Lemma context_ok k w h s :
  table_ok s → let '(c, s') := getContext k w h s in table_ok s' ∧ (c < length (contexts s'))%nat ∧ same_places s s'.
Proof.
  intros Ht. unfold getContext. destruct (find k (table s)) as [c|] eqn:Ef.
  { apply find_in in Ef. split; [done|]. split; [|by split]. exact (proj1 (Forall_forall _ _) (proj2 Ht) _ Ef). }
  unfold createContext. set (t := if (_ <=? _)%nat then _ else _).
  assert (Forall (λ e, (e.2 < length (contexts s))%nat) t ∧ (length t < maxContexts)%nat) as [Hf Hl].
  { unfold t. destruct (Nat.leb_spec maxContexts (length (table s))) as [Hm|Hm]; [|destruct Ht; by split].
    destruct (oldest_in s) as (c & Hin & Hn); [by intros E; rewrite E in Hm; simpl in Hm; unfold maxContexts in Hm; lia|].
    destruct (findOldestContextId s) as [k0|]; [|done]. simpl in Hin. destruct (remove_ok k0 s Ht) as [H1 _]. split; [done|].
    apply removed in Hin. destruct Ht. lia. }
  split; [|split; [|split]].
  - split; simpl; [rewrite length_app; simpl; lia|]. rewrite length_app. apply Forall_app. split; [eapply Forall_impl; [exact Hf|]; simpl; lia|].
    constructor; [simpl; lia|constructor].
  - simpl. rewrite length_app. simpl. lia.
  - done.
  - intros [Hm Hr]. split; simpl; [apply Forall_app; split; [done|by constructor]|].
    intros i p Hp. destruct (Hr i p Hp) as [|(j & x & Hj & Hi)]; [by left|right]. exists j, x. simpl. split; [|done]. by apply lookup_app_l_Some.
Qed.
Lemma use_ok c s : table_ok s → table_ok (use c s) ∧ length (contexts (use c s)) = length (contexts s) ∧ same_places s (use c s).
Proof.
  intros [H1 H2]. unfold use, table_ok. simpl. rewrite length_alter. split; [done|]. split; [done|]. split; [done|]. intros Hg. apply (with_context_good s c _ Hg).
  intros x Hx. split; [done|]. destruct Hg as [Hm _]. exact (Forall_lookup_1 _ _ _ _ Hm Hx).
Qed.
Lemma handle_frame s c t l :
  good s → decoder (context_at s c) = Some (Configured (t :: l)) →
  let '(s', fx) := handleFrame c t (with_context c (with_decoder (Some (Configured l))) s) in
  ∃ k p, pendings s !! k = Some p ∧ good s' ∧ table s' = table s ∧ length (contexts s') = length (contexts s)
    ∧ pendings s' = alter (λ p, Pending (timestamp p) true (keep p)) k (pendings s) ∧ fx = Ready k :: (if keep p then [] else [CloseFrame k]).
Proof.
  intros Hg Hd. pose proof (meets_at s c Hg) as Hm. unfold meets in Hm. rewrite Hd in Hm. inversion Hm as [|k t' ks ts Hk Hks Ek Et]. subst t' ts.
  unfold handleFrame. set (s1 := with_context _ _ s).
  assert (contexts s !! c = Some (context_at s c)) as Ex.
  { unfold context_at in *. destruct (contexts s !! c); [done|]. by simpl in Hd. }
  assert (context_at s1 c = with_decoder (Some (Configured l)) (context_at s c)) as Ec.
  { unfold context_at at 1. simpl. rewrite list_lookup_alter, decide_True by done. by rewrite Ex. }
  rewrite Ec. simpl. rewrite <- Ek. destruct (pendings s !! k) as [p|] eqn:Ep; [|done]. injection Hk as Ht.
  rewrite (proj2 (Z.eqb_eq _ _) Ht). simpl. exists k, p. split_and!; [done| |done|by simpl; rewrite !length_alter|done..].
  assert (∀ i y, alter (with_frames ks) c (alter (with_decoder (Some (Configured l))) c (contexts s)) !! i = Some y →
    i = c ∧ y = with_frames ks (with_decoder (Some (Configured l)) (context_at s c)) ∨ i ≠ c ∧ contexts s !! i = Some y) as Hl.
  { intros i y. rewrite !list_lookup_alter. case_decide as Hi; [subst i|by right]. rewrite decide_True, Ex by done. intros [= <-]. by left. }
  destruct Hg as [Hall Hr]. split; simpl.
  - apply Forall_lookup_2. intros i y Hy. apply (meets_more (pendings s)).
    { intros j u. rewrite list_lookup_alter. case_decide; [subst j; rewrite Ep; by intros [= <-]|done]. }
    destruct (Hl i y Hy) as [[-> ->]|[_ Hy']]; [exact Hks|exact (Forall_lookup_1 _ _ _ _ Hall Hy')].
  - intros i q. rewrite list_lookup_alter. case_decide as Hi; [subst i; rewrite Ep; intros [= <-]; by left|]. intros Hq.
    destruct (Hr i q Hq) as [|(j & x & Hj & Hin)]; [by left|right]. exists j. unfold waits. simpl. rewrite !list_lookup_alter.
    destruct (decide (c = j)) as [<-|Hn]; [|by exists x]. rewrite decide_True, Ex by done. eexists. split; [done|]. simpl.
    rewrite Ex in Hj. injection Hj as <-. rewrite <- Ek in Hin. by apply elem_of_cons in Hin as [|].
Qed.

(** ** Runs *)
Definition shown (os : list effect) (k : nat) : Prop := ∃ x y w h, VideoFrame x y w h k ∈ os.
Record told (s : h264) (os : list effect) : Prop := Told {
  t_good : good s; t_table : table_ok s; t_throws : CallbackThrows ∉ os;
  t_shown : ∀ k, shown os k ↔ ∃ p, pendings s !! k = Some p ∧ keep p = true;
  t_ready : ∀ k, Ready k ∈ os ↔ ∃ p, pendings s !! k = Some p ∧ ready p = true;
  t_closed : ∀ k, CloseFrame k ∈ os ↔ ∃ p, pendings s !! k = Some p ∧ ready p = true ∧ keep p = false }.
Lemma quiet_not fx o : Forall quiet fx → ¬ quiet o → o ∉ fx.
Proof. intros Hf Ho Hin. apply Ho. exact (proj1 (Forall_forall _ _) Hf o Hin). Qed.
Definition placed (x y w h : Z) (r : option nat) : list effect := match r with Some k => [VideoFrame x y w h k] | None => [] end.
Lemma told_adds s s' os fx x y w h r :
  told s os → adds r s s' → table_ok s' → Forall quiet fx → told s' (os ++ fx ++ placed x y w h r).
Proof.
  intros [H1 H2 H3 H4 H5 H6] (G1 & _ & _ & new & Ep & Hn & Hr) Ht Hq.
  assert (∀ o, ¬ quiet o → o ∈ os ++ fx ++ placed x y w h r ↔ o ∈ os ∨ o ∈ placed x y w h r) as Hin.
  { intros o Ho. rewrite !elem_of_app. pose proof (quiet_not fx o Hq Ho). tauto. }
  assert (∀ o, o ∈ placed x y w h r → ∃ k, o = VideoFrame x y w h k ∧ r = Some k) as Hpl.
  { intros o. destruct r as [k|]; [|by intros ?%elem_of_nil]. intros ->%list_elem_of_singleton. by exists k. }
  assert (∀ (f : pending → Prop) k, (∀ i q, new !! i = Some q → ¬ f q) → (∃ p, pendings s' !! k = Some p ∧ f p) ↔ ∃ p, pendings s !! k = Some p ∧ f p) as Hold.
  { intros f k Hf. rewrite Ep. split; [|intros (p & Hp & Hfp); exists p; by rewrite (lookup_app_l_Some _ _ _ _ Hp)].
    intros (p & [Hp|[Hk Hp]]%lookup_app_Some & Hfp); [by exists p|]. by destruct (Hf _ _ Hp). }
  split; [done|done| | | |].
  - rewrite (Hin CallbackThrows) by (by intros []). intros [|(k & ? & _)%Hpl]; done.
  - intros k. split.
    + intros (x' & y' & w' & h' & Hv). apply Hin in Hv as [Hv|(k' & [= -> -> -> -> ->] & Hk)%Hpl]; [| |by intros []].
      * assert (shown os k) as (p & Hp & Hkp)%H4 by (by exists x', y', w', h'). exists p. by rewrite Ep, (lookup_app_l_Some _ _ _ _ Hp).
      * specialize (Hr k' Hk). destruct (lookup_lt_is_Some_2 new (k' - length (pendings s))) as [p Hp]; [lia|]. exists p.
        rewrite Ep, lookup_app_r by lia. split; [done|]. apply (Hn _ _ Hp). rewrite Hk. f_equal. lia.
    + intros (p & Hp & Hkp). rewrite Ep in Hp. apply lookup_app_Some in Hp as [Hp|[Hk Hp]].
      * destruct (proj2 (H4 k)) as (x' & y' & w' & h' & Hv); [by exists p|]. exists x', y', w', h'. apply elem_of_app. by left.
      * destruct (Hn _ _ Hp) as [_ [Hl _]]. specialize (Hl Hkp). exists x, y, w, h. apply Hin; [by intros []|]. right. rewrite Hl. simpl.
        apply list_elem_of_singleton. f_equal. lia.
  - intros k. rewrite (Hin (Ready k)), Hold by (first [by intros []|by intros i q Hq'; destruct (Hn i q Hq') as [-> _]]).
    rewrite H5. split; [intros [|(k' & ? & _)%Hpl]; done|by left].
  - intros k. rewrite (Hin (CloseFrame k)), Hold by (first [by intros []|by intros i q Hq'; destruct (Hn i q Hq') as [-> _]; intros []]).
    rewrite H6. split; [intros [|(k' & ? & _)%Hpl]; done|by left].
Qed.
Lemma told_silent s s' os : told s os → same_places s s' → table_ok s' → told s' os.
Proof. intros [H1 H2 H3 H4 H5 H6] [Ep Hg] Ht. split; [by apply Hg|done|done|..]; intros k; rewrite Ep; auto. Qed.
Lemma told_rect x y w h time q s os :
  told s os → let '(_, s', _, fx) := decodeRect x y w h time [] s q in told s' (os ++ fx).
Proof.
  intros Ht. unfold decodeRect. destruct (rQwait 8 q); [by rewrite app_nil_r|]. destruct (rQshift 4 q) as [n q1]. destruct (rQshift 4 q1) as [flags q2].
  destruct (rQwait n q2); [by rewrite app_nil_r|]. cbv zeta. set (s1 := if Z.testbit flags 1 then _ else _).
  assert (told s1 os) as Ht1.
  { apply (told_silent s); [done|by unfold s1; repeat case_match|]. destruct (t_table _ _ Ht) as [H1 H2].
    destruct (remove_ok (x, y, w, h) s (t_table _ _ Ht)) as [H3 H4]. unfold s1. destruct (Z.testbit flags 1); [by split; simpl; [lia|]|].
    destruct (Z.testbit flags 0); [split; simpl; [lia|done]|done]. }
  clearbody s1. pose proof (context_ok (x, y, w, h) w h s1 (t_table _ _ Ht1)) as Hc.
  destruct (getContext _ w h s1) as [c s2]. destruct Hc as (Hc1 & Hc2 & Hc3). destruct (use_ok c s2 Hc1) as (Hu1 & Hu2 & Hu3).
  assert (told (use c s2) os) as Ht3 by (apply (told_silent s2); [by apply (told_silent s1)|done..]).
  destruct (n =? 0); [by rewrite app_nil_r|]. destruct (rQshiftBytes n q2) as [payload q3].
  pose proof (decode_adds c payload time (use c s2) (t_good _ _ Ht3)) as Hd. destruct (decode _ _ _ _ _) as [[[ok r] s4] fx].
  destruct Hd as [Ha Hq]; [lia|]. assert (table_ok s4) as Ht4.
  { destruct Ha as (_ & E1 & E2 & _). unfold table_ok. by rewrite E1, E2. }
  pose proof (told_adds _ _ _ _ x y w h _ Ht3 Ha Ht4 Hq) as Hfin. unfold placed in Hfin. destruct ok; [done|]. by rewrite app_nil_r in Hfin.
Qed.

Lemma told_frame s s' os k p :
  told s os → pendings s !! k = Some p → good s' → table_ok s' →
  pendings s' = alter (λ p, Pending (timestamp p) true (keep p)) k (pendings s) →
  told s' (os ++ Ready k :: (if keep p then [] else [CloseFrame k])).
Proof.
  intros [H1 H2 H3 H4 H5 H6] Hp Hg Ht Ep. set (fx := Ready k :: _).
  assert (∀ i, pendings s' !! i = if decide (k = i) then Some (Pending (timestamp p) true (keep p)) else pendings s !! i) as Hl.
  { intros i. rewrite Ep, list_lookup_alter. case_decide; [subst i; by rewrite Hp|done]. }
  assert (∀ o, o ∈ fx ↔ o = Ready k ∨ keep p = false ∧ o = CloseFrame k) as Hfx.
  { intros o. unfold fx. rewrite elem_of_cons. destruct (keep p); rewrite ?elem_of_nil, ?list_elem_of_singleton; naive_solver. }
  split; [done|done| | | |].
  - rewrite elem_of_app, Hfx. naive_solver.
  - intros i. transitivity (shown os i).
    + split; intros (x & y & w & h & Hv); exists x, y, w, h; rewrite elem_of_app, ?Hfx in *; naive_solver.
    + rewrite H4, Hl. case_decide; [subst i|done]. rewrite Hp. split; intros (q & [= <-] & Hq); eexists; (split; [done|]); done.
  - intros i. rewrite elem_of_app, H5, Hfx, Hl. case_decide as Hi; [subst i|].
    + split; [intros _; by eexists|intros _; right; by left].
    + split; [intros [|[[= ->]|[_ ?]]]; done|by left].
  - intros i. rewrite elem_of_app, H6, Hfx, Hl. case_decide as Hi; [subst i|].
    + split.
      * intros [(q & Hq & _ & Hk)|[|[Hk _]]]; [|done|]; eexists; split_and!; try done. simpl. congruence.
      * intros (q & [= <-] & _ & Hk). right. by right.
    + split; [intros [|[|[_ [= ->]]]]; done|by left].
Qed.

(** C26: Every frame finds its place.  As long as no decoder fails, whatever
    rectangles come and in whatever order the decoders give their frames, no
    callback of a decoder throws; a place that is drawn has its frame or waits in
    a context for a chunk its decoder still has; of the frames that have come
    those that are drawn are kept and all the others closed; and there are at
    most 64 contexts. *)
Theorem frames_find_their_places es s os :
  trace (λ s e, enabled s e ∧ no_failure e) step start es s os →
  CallbackThrows ∉ os
  ∧ (∀ k, shown os k → Ready k ∈ os
     ∨ ∃ c l, decoder (context_at s c) = Some (Configured l) ∧ length l = length (pendingFrames (context_at s c)) ∧ k ∈ pendingFrames (context_at s c))
  ∧ (∀ k, Ready k ∈ os → (CloseFrame k ∈ os ↔ ¬ shown os k))
  ∧ (length (table s) <= 64)%nat.
Proof.
  intros Ht. assert (told s os) as [H1 H2 H3 H4 H5 H6].
  { revert es s os Ht. apply trace_snoc_ind.
    - split; try done; try (by split); try apply not_elem_of_nil; [by split; simpl; [unfold maxContexts; lia|]|..].
      + intros k. split; [intros (x & y & w & h & []%elem_of_nil)|by intros (p & Hp & _)].
      + intros k. split; [by intros ?%elem_of_nil|by intros (p & Hp & _)].
      + intros k. split; [by intros ?%elem_of_nil|by intros (p & Hp & _)].
    - intros es s os e _ IH [He Hn]. destruct e; simpl in *; [| |done].
      + subst fails. pose proof (told_rect x y w h time q s os IH) as Hr. by destruct (decodeRect _ _ _ _ _ _ _ _) as [[[v s'] q'] fx].
      + destruct He as (t & l & Hd). rewrite Hd. pose proof (handle_frame s c t l (t_good _ _ IH) Hd) as Hf. destruct (handleFrame _ _ _) as [s' fx].
        destruct Hf as (k & p & Hp & Hg & Et & Ec & Ep & ->). simpl. apply (told_frame s); try done. destruct (t_table _ _ IH). split; by rewrite ?Et, ?Ec. }
  split_and!; [done| | |apply H2].
  - intros k (p & Hp & _)%H4. destruct H1 as [Hm Hr]. destruct (Hr k p Hp) as [Hk|(c & x & Hx & Hk)]; [left; apply H5; by exists p|right].
    exists c. unfold context_at. rewrite Hx. simpl. pose proof (Forall_lookup_1 _ _ _ _ Hm Hx) as Hx'. unfold meets in Hx'.
    destruct (decoder x) as [[|l|]|]; try (rewrite Hx' in Hk; by apply elem_of_nil in Hk). exists l. split; [done|]. split; [|done]. symmetry. by eapply Forall2_length.
  - intros k (p & Hp & Hk)%H5. rewrite H6, H4. split.
    + intros (q & Hq & _ & Hf) (q' & Hq' & Ht'). congruence.
    + intros Hn. exists p. split_and!; [done..|]. destruct (keep p) eqn:E; [|done]. destruct Hn. by exists p.
Qed.

End h264.

(** ** Concrete streams *)
Definition sps : bytes := [0; 0; 0; 1; 103; 66; 0; 31].
Definition key_slice : bytes := [0; 0; 1; 101; 170].
Definition other_slice : bytes := [0; 0; 1; 65; 7].
Definition rectangle (payload : bytes) : bytes := [0; 0; 0; len payload; 0; 0; 0; 0] ++ payload.
Abbreviation step1 := (step (λ _ _ _, true)).
Definition two_frames : list event := [Rect 0 0 16 16 5 [] (rectangle (sps ++ key_slice ++ other_slice)); FrameOut 0; FrameOut 0].
Lemma frames_find_their_places_witness :
  let os := (run step1 start two_frames).2 in
  (shown os 1 ∧ os = [Configure 0 "avc1.42001f" 16 16; DecodeChunk 0 5 true (sps ++ key_slice); DecodeChunk 0 5 false other_slice;
     VideoFrame 0 0 16 16 1; Ready 0; CloseFrame 0; Ready 1])
  ∧ CallbackThrows ∉ os.
Proof.
  intros os. split; [split; [exists 0, 0, 16, 16|]; vm_compute; [|reflexivity]; do 3 right; by left|].
  refine (proj1 (frames_find_their_places (λ _ _ _, true) two_frames (run step1 start two_frames).1 os _)).
  apply run_trace. cbn [admissible two_frames no_failure enabled]. split_and!; try done; eexists _, _; by vm_compute.
Defined.

(** [self] is the window, not the context: the profile of one rectangle's stream
    configures the decoder of another's, and before any there is none, not [null]. *)
Example a_profile_of_another_rectangle :
  (run step1 start [Rect 0 0 16 16 5 [] (rectangle (sps ++ key_slice)); Rect 16 0 16 16 6 [] (rectangle key_slice)]).2 !! 3%nat
  = Some (Configure 1 "avc1.42001f" 16 16).
Proof. by vm_compute. Qed.
Example a_key_frame_without_profile_throws :
  let '(v, s, q, fx) := decodeRect (λ _ _ _, true) 0 0 16 16 5 [] start (rectangle key_slice) in v = Decoders.Thrown ∧ fx = [].
Proof. by vm_compute. Qed.
(** The places of a decoder that failed stay in the context: the frame of the
    next one is taken for the first of them, no place gets its frame, and the
    drawings wait behind the places for ever. *)
Example a_failed_decoder_is_not_replaced :
  let '(s, os) := run step1 start
    [Rect 0 0 16 16 5 [] (rectangle (sps ++ key_slice)); DecoderError 0; Rect 0 0 16 16 6 [] (rectangle (sps ++ key_slice)); FrameOut 0] in
  shown os 1 ∧ os !! 7%nat = Some CallbackThrows ∧ (ready <$> pendings s) = [false; false]
  ∧ decoder (context_at s 0) = Some (Configured []) ∧ pendingFrames (context_at s 0) = [1%nat].
Proof. vm_compute. split_and!; try reflexivity. exists 0, 0, 16, 16. do 6 right. by left. Qed.
End H264.
