(* ===== verification/Aes.v ===== *)
(** * AES in two modes: static/js/novnc/core/crypto/aes.js

    ECB for the Apple login and EAX for the RSA-AES login, over the browser's
    AES-CBC and AES-CTR ([WebCrypto], with the behaviour they are documented to
    have).  The tags of EAX are proved to be the CMAC of the standard (NIST SP
    800-38B), and a text is accepted exactly when it is one that was made. *)
From S2P Require Import Prelude Words Websock.

#[local] Open Scope list_scope.
#[local] Open Scope Z_scope.

Module Aes.
Abbreviation bytes := (list Z).
Abbreviation byte := Websock.byte.
Definition zeroBlock : bytes := replicate 16 0.
Definition xor (a b : bytes) : bytes := zip_with Z.lxor a b.
(** the first [n] blocks of 16 bytes *)
Definition blocks (n : nat) (x : bytes) : list bytes := (λ i, take 16 (drop (16 * i) x)) <$> List.seq 0 n.
(** each block is encrypted after the text of the one before is added *)
Fixpoint chain (enc : bytes → bytes) (prev : bytes) (l : list bytes) : list bytes :=
  match l with [] => [] | b :: l => let c := enc (xor prev b) in c :: chain enc c l end.

(** What the scripts use of [crypto.subtle], by the bytes of the key: AES of a
    block, AES-CBC from a vector of zeros, AES-CTR from a counter.  A whole
    number of blocks is padded with a block of 16s. *)
Class WebCrypto := {
  aes : bytes → bytes → bytes;
  cbc : bytes → bytes → bytes;
  ctr : bytes → bytes → bytes → bytes;
  ctr_decrypt : bytes → bytes → bytes → bytes;
  aes_block k b : length (aes k b) = 16%nat ∧ Forall byte (aes k b);
  cbc_chain k n x : length x = (16 * n)%nat → Forall byte x → cbc k x = concat (chain (aes k) zeroBlock (blocks n x ++ [replicate 16 16]));
  ctr_length k c x : length (ctr k c x) = length x;
  ctr_bytes k c x : Forall byte x → Forall byte (ctr k c x);
  ctr_there k c x : Forall byte x → ctr_decrypt k c (ctr k c x) = x;
  ctr_back k c x : Forall byte x → ctr k c (ctr_decrypt k c x) = x;
  ctr_decrypt_bytes k c x : Forall byte x → Forall byte (ctr_decrypt k c x) }.

Section aes.
Context `{WebCrypto}.
Variable key : bytes.

(** ** ECB; none: [null] *)
Definition ecb_encrypt (plaintext : bytes) : option bytes :=
  if (length plaintext mod 16 =? 0)%nat then Some (concat ((λ b, take 16 (cbc key b)) <$> blocks (length plaintext / 16) plaintext)) else None.

(** ** EAX *)
Definition encryptBlock (block : bytes) : bytes := take 16 (cbc key block).
Definition get (l : bytes) (i : nat) : Z := nth i l 0.
Definition u8 (n : Z) : Z := Z.land n 255.
Definition lut (v : Z) : Z := if v =? 1 then 135 else if v =? 2 then 14 else if v =? 3 then 137 else 0.
(** the loop of [_initCMAC], on [k1] and [k2] *)
Definition shift_step (ks : bytes * bytes) (i : nat) : bytes * bytes :=
  let '(k1, k2) := ks in
  (<[i := u8 (Z.lor (Z.shiftr (get k1 (i + 1)) 7) (Z.shiftl (get k1 i) 1))]> k1,
   <[i := u8 (Z.lor (Z.shiftr (get k1 (i + 1)) 6) (Z.shiftl (get k1 i) 2))]> k2).
Definition initCMAC : bytes * bytes :=
  let k1 := encryptBlock zeroBlock in
  let v := Z.shiftr (get k1 0) 6 in
  let '(k1, k2) := fold_left shift_step (List.seq 0 15) (k1, zeroBlock) in
  let k2 := <[14%nat := Z.lxor (get k2 14) (Z.shiftr v 1)]> k2 in
  let k2 := <[15%nat := u8 (Z.lxor (Z.shiftl (get k1 15) 2) (lut v))]> k2 in
  let k1 := <[15%nat := u8 (Z.lxor (Z.shiftl (get k1 15) 1) (lut (Z.shiftr v 1)))]> k1 in
  (k1, k2).
(** [data\[at + i\] ^= k\[i\]] for the 16 of them *)
Definition xor_at (at_ : nat) (k data : bytes) : bytes :=
  take at_ data ++ xor (take 16 (drop at_ data)) k ++ drop (at_ + 16) data.
(** [prefixBlock]: 16 bytes *)
Definition computeCMAC (data prefixBlock : bytes) : bytes :=
  let '(k1, k2) := initCMAC in
  let n := (length data / 16)%nat in
  let m := ((length data + 15) / 16)%nat in
  let r := (length data - n * 16)%nat in
  let cbcData := prefixBlock ++ data ++ replicate (m * 16 - length data) 0 in
  let cbcData := if (r =? 0)%nat then xor_at (n * 16) k1 cbcData
                 else xor_at ((n + 1) * 16) k2 (<[((n + 1) * 16 + r)%nat := 128]> cbcData) in
  let cbcEncrypted := cbc key cbcData in
  take 16 (drop (length cbcEncrypted - 32) cbcEncrypted).
Definition prefixBlock (n : Z) : bytes := replicate 15 0 ++ [n].
Definition tag (ad nonce_mac encrypted : bytes) : bytes :=
  xor (computeCMAC encrypted (prefixBlock 2)) (xor nonce_mac (computeCMAC ad (prefixBlock 1))).
Definition eax_encrypt (iv ad message : bytes) : bytes :=
  let nCMAC := computeCMAC iv (prefixBlock 0) in
  let encrypted := ctr key nCMAC message in
  encrypted ++ tag ad nCMAC encrypted.
(** none: [null]; of fewer than 16 bytes the tag has another length *)
Definition eax_decrypt (iv ad data : bytes) : option bytes :=
  if (length data <? 16)%nat then None
  else
    let encrypted := take (length data - 16) data in
    let mac := drop (length data - 16) data in
    let nCMAC := computeCMAC iv (prefixBlock 0) in
    if decide (tag ad nCMAC encrypted = mac) then Some (ctr_decrypt key nCMAC encrypted) else None.

(** ** The standard *)
(** doubling in the field of 2^128 elements, of a block as a number *)
Definition dbl (n : Z) : Z := Z.lxor ((2 * n) mod 2 ^ 128) (if 2 ^ 127 <=? n then 135 else 0).
Definition number : bytes → Z := Websock.be.
Definition K1 : Z := dbl (number (aes key zeroBlock)).
Definition K2 : Z := dbl K1.
(** CMAC: the blocks are chained; the last has the first subkey, or is filled up
    with a bit and zeros and has the second *)
Definition cmac (m : bytes) : bytes :=
  let n := Nat.max ((length m + 15) / 16) 1 in
  let full := (16 * (n - 1))%nat in
  let last_ := drop full m in
  let final := if (length last_ =? 16)%nat then xor last_ (Websock.be_bytes 16 K1)
               else xor (last_ ++ [128] ++ replicate (15 - length last_) 0) (Websock.be_bytes 16 K2) in
  default [] (last (chain (aes key) zeroBlock (blocks (n - 1) m ++ [final]))).

(** ** Subkeys *)
Lemma list16 {A} (l : list A) : length l = 16%nat →
  ∃ a b c d e f g h i j k m n o p q, l = [a; b; c; d; e; f; g; h; i; j; k; m; n; o; p; q].
Proof. intros Hl. do 16 (destruct l as [|? l]; [done|]). destruct l; [|done]. by repeat eexists. Qed.
Lemma shifted k a b : 0 <= k <= 8 → byte a → byte b →
  u8 (Z.lor (Z.shiftr b (8 - k)) (Z.shiftl a k)) = (a * 2 ^ k) mod 256 + b / 2 ^ (8 - k).
Proof.
  intros Hk Ha Hb. unfold u8, byte in *. rewrite Z.shiftr_div_pow2, Z.shiftl_mul_pow2 by lia.
  assert (0 <= b / 2 ^ (8 - k) < 2 ^ k) as Hr.
  { split; [apply Z.div_pos; lia|]. apply Z.div_lt_upper_bound; [lia|]. rewrite <- Z.pow_add_r by lia. replace (8 - k + k) with 8 by lia. lia. }
  rewrite Z.lor_comm, Words.lor_low by lia. change 255 with (Z.ones 8). rewrite Z.land_ones by lia. change (2 ^ 8) with 256.
  assert (256 = 2 ^ k * 2 ^ (8 - k)) as E by (rewrite <- Z.pow_add_r by lia; by replace (k + (8 - k)) with 8 by lia).
  assert (a * 2 ^ k mod 256 = 2 ^ k * (a mod 2 ^ (8 - k))) as E1.
  { rewrite E, Z.mul_comm, Z.mul_mod_distr_l by lia. done. }
  rewrite E1. symmetry. apply (Z.mod_unique _ _ (a / 2 ^ (8 - k))).
  - left. pose proof (Z.mod_pos_bound a (2 ^ (8 - k)) ltac:(lia)). nia.
  - rewrite E at 1. pose proof (Z.div_mod a (2 ^ (8 - k)) ltac:(lia)). nia.
Qed.
(** a text's bytes shifted by [k] bits *)
Fixpoint shl_bytes (k : Z) (l : bytes) : bytes :=
  match l with [] => [] | a :: l => u8 (Z.lor (Z.shiftr (hd 0 l) (8 - k)) (Z.shiftl a k)) :: shl_bytes k l end.
Lemma shl_length k l : length (shl_bytes k l) = length l.
Proof. induction l; simpl; congruence. Qed.
Lemma number_cons a l : number (a :: l) = a * 2 ^ (8 * Z.of_nat (length l)) + number l.
Proof. done. Qed.
Lemma number_range l : Forall byte l → 0 <= number l < 2 ^ (8 * Z.of_nat (length l)).
Proof. apply Websock.be_range. Qed.
Lemma shl_number k l : 0 <= k <= 8 → Forall byte l → number (shl_bytes k l) = (number l * 2 ^ k) mod 2 ^ (8 * Z.of_nat (length l)).
Proof.
  intros Hk. induction 1 as [|a l Ha Hl IH]; [by rewrite Z.mod_1_r|]. cbn [shl_bytes]. rewrite !number_cons, shl_length, IH.
  assert (byte (hd 0 l)) as Hh by (destruct Hl; [by unfold byte|done]).
  rewrite shifted by done. set (B := 2 ^ (8 * Z.of_nat (length l))). assert (0 < B) as HB by (unfold B; lia).
  assert (2 ^ (8 * Z.of_nat (length (a :: l))) = 256 * B) as -> by (unfold B; simpl length; rewrite Nat2Z.inj_succ, Z.mul_succ_r, Z.pow_add_r by lia; lia).
  assert (number l * 2 ^ k = hd 0 l / 2 ^ (8 - k) * B + (number l * 2 ^ k) mod B) as E.
  { pose proof (Z.div_mod (number l * 2 ^ k) B ltac:(lia)) as Hdm. rewrite Hdm at 1. f_equal. rewrite Z.mul_comm. f_equal.
    destruct Hl as [|b l Hb Hl]; [reflexivity|]. simpl hd. pose proof (number_range l Hl) as Hn.
    unfold B. rewrite number_cons. simpl length. rewrite Nat2Z.inj_succ, Z.mul_succ_r, Z.pow_add_r by lia. set (C := 2 ^ (8 * Z.of_nat (length l))) in *.
    assert (C * 2 ^ 8 = (C * 2 ^ (8 - k)) * 2 ^ k) as -> by (rewrite <- Z.mul_assoc, <- Z.pow_add_r by lia; by replace (8 - k + k) with 8 by lia).
    rewrite Z.div_mul_cancel_r by lia. rewrite <- Z.div_div by lia. f_equal. rewrite Z.div_add_l by lia. rewrite Z.div_small by lia. lia. }
  pose proof (Z.mod_pos_bound (number l * 2 ^ k) B HB) as Hr. set (r := (number l * 2 ^ k) mod B) in *. rewrite (Z.mul_add_distr_r _ _ (2 ^ k)), E.
  set (q := hd 0 l / 2 ^ (8 - k)). pose proof (Z.div_mod (a * 2 ^ k) 256 ltac:(lia)) as Ha2. set (h := a * 2 ^ k / 256) in *. set (g := (a * 2 ^ k) mod 256) in *.
  assert (g + q < 256 ∧ 0 <= g + q) as Hgq.
  { pose proof (shifted k a (hd 0 l) Hk Ha Hh) as Hs. fold g q in Hs. rewrite <- Hs. unfold u8. change 255 with (Z.ones 8). rewrite Z.land_ones by lia.
    pose proof (Z.mod_pos_bound (Z.lor (Z.shiftr (hd 0 l) (8 - k)) (Z.shiftl a k)) (2 ^ 8) ltac:(lia)). lia. }
  apply (Z.mod_unique _ _ h); [left; nia|]. nia.
Qed.
(** the last byte takes what falls out *)
Lemma xor_low p x c : 0 <= c < 256 → byte x → Z.lxor (p * 256 + x) c = p * 256 + Z.lxor x c ∧ byte (Z.lxor x c).
Proof.
  intros Hc Hx. assert (byte (Z.lxor x c)) as Hb.
  { unfold byte in *. assert (Z.lxor x c = Z.land (Z.lxor x c) (Z.ones 8)) as ->; [|rewrite Z.land_ones by lia; apply Z.mod_pos_bound; lia].
    apply Z.bits_inj'. intros i Hi. rewrite Z.land_spec, Z.lxor_spec. destruct (decide (i < 8)); [by rewrite Z.ones_spec_low, andb_true_r by lia|].
    by rewrite (Words.testbit_high x 8), (Words.testbit_high c 8) by lia. }
  split; [|done]. unfold byte in *. change 256 with (2 ^ 8). rewrite <- !Words.lor_low by lia. apply Z.bits_inj'. intros i Hi.
  rewrite Z.lxor_spec, !Z.lor_spec, Z.lxor_spec. destruct (decide (i < 8)).
  - by rewrite Z.mul_pow2_bits_low by lia.
  - rewrite (Words.testbit_high x 8), (Words.testbit_high c 8) by lia. by rewrite !orb_false_r, xorb_false_r.
Qed.
Lemma number_snoc l x : number (l ++ [x]) = number l * 256 + x.
Proof.
  induction l as [|a l IH]; cbn [app]; [rewrite number_cons; change (number []) with 0; change (2 ^ (8 * Z.of_nat (length (A := Z) []))) with 1; lia|].
  rewrite !number_cons, IH, length_app, Nat.add_1_r, Nat2Z.inj_succ, Z.mul_succ_r, Z.pow_add_r by lia.
  change (2 ^ 8) with 256. lia.
Qed.
Lemma number_inj l l' : length l = length l' → Forall byte l → Forall byte l' → number l = number l' → l = l'.
Proof.
  intros Hlen Hl. revert l' Hlen. induction Hl as [|a l Ha Hl IH]; intros [|a' l'] Hlen; try done. intros [Ha' Hl']%Forall_cons Hn.
  injection Hlen as Hlen. rewrite !number_cons, Hlen in Hn. pose proof (number_range l Hl) as H1. pose proof (number_range l' Hl') as H2. rewrite Hlen in H1.
  unfold byte in *. assert (a = a') as -> by nia. f_equal. apply IH; [done..|]. lia.
Qed.
Lemma be_bytes_good n num : length (Websock.be_bytes n num) = n ∧ Forall byte (Websock.be_bytes n num).
Proof. induction n as [|n [IH1 IH2]]; [by split|]. simpl. split; [by rewrite IH1|]. constructor; [|done]. apply Z.mod_pos_bound. lia. Qed.
Lemma of_number l n : length l = n → Forall byte l → l = Websock.be_bytes n (number l).
Proof.
  intros Hlen Hl. destruct (be_bytes_good n (number l)) as [H1 H2]. apply number_inj; [by rewrite H1|done|done|]. unfold number at 2. rewrite Websock.be_be_bytes.
  pose proof (number_range l Hl). rewrite Hlen in *. by rewrite Z.mod_small.
Qed.
Lemma from_number l n z : length l = n → Forall byte l → number l = z → l = Websock.be_bytes n z.
Proof. intros Hl Hb <-. by apply of_number. Qed.
Lemma shl_good k l : Forall byte (shl_bytes k l).
Proof.
  induction l; constructor; [|done]. unfold u8, byte. change 255 with (Z.ones 8). rewrite Z.land_ones by lia. apply Z.mod_pos_bound. lia.
Qed.
Lemma xor_zero b : length b = 16%nat → xor zeroBlock b = b.
Proof. intros (?&?&?&?&?&?&?&?&?&?&?&?&?&?&?&?&->)%list16. done. Qed.
Lemma encryptBlock_aes b : length b = 16%nat → Forall byte b → encryptBlock b = aes key b.
Proof.
  intros Hl Hb. unfold encryptBlock. rewrite (cbc_chain key 1) by done. cbn -[xor zeroBlock take replicate].
  rewrite drop_0, (firstn_all2 b), xor_zero by lia. destruct (aes_block key b) as [E _]. by apply take_app_length'.
Qed.
Lemma u8_last x k c : byte x → 0 <= c < 256 → u8 (Z.lxor (Z.shiftl x k) c) = Z.lxor (u8 (Z.shiftl x k)) c.
Proof.
  intros Hx Hc. unfold u8. apply Z.bits_inj'. intros i Hi. rewrite Z.land_spec, !Z.lxor_spec, Z.land_spec. change 255 with (Z.ones 8).
  destruct (decide (i < 8)); [by rewrite Z.ones_spec_low, !andb_true_r by lia|].
  by rewrite Z.ones_spec_high, (Words.testbit_high c 8), !andb_false_r by lia.
Qed.
Lemma lxor_mod a c n : 0 <= n → Z.lxor a c mod 2 ^ n = Z.lxor (a mod 2 ^ n) (c mod 2 ^ n).
Proof.
  intros Hn. rewrite <- !Z.land_ones by done. apply Z.bits_inj'. intros i Hi. rewrite Z.land_spec, !Z.lxor_spec, !Z.land_spec.
  destruct (Z.testbit (Z.ones n) i); by rewrite ?andb_true_r, ?andb_false_r.
Qed.
Lemma lxor_double a c : 2 * Z.lxor a c = Z.lxor (2 * a) (2 * c).
Proof.
  rewrite !(Z.mul_comm 2). change 2 with (2 ^ 1) at 1 2 3. rewrite <- !Z.shiftl_mul_pow2 by lia. apply Z.shiftl_lxor.
Qed.
Lemma lxor_above w c : 0 <= w → 0 <= c < 256 → (2 ^ 127 <=? Z.lxor w c) = (2 ^ 127 <=? w).
Proof.
  intros Hw Hc. pose proof (Z.div_mod w 256 ltac:(lia)) as Hd. pose proof (Z.mod_pos_bound w 256 ltac:(lia)) as Hm. rewrite Hd at 1.
  rewrite (Z.mul_comm 256). destruct (xor_low (w / 256) (w mod 256) c Hc Hm) as [-> Hb]. unfold byte in Hb.
  change (2 ^ 127) with (2 ^ 119 * 256). destruct (Z.leb_spec (2 ^ 119 * 256) w), (Z.leb_spec (2 ^ 119 * 256) (w / 256 * 256 + Z.lxor (w mod 256) c)); lia.
Qed.
(** a number doubled, and twice *)
Lemma dbl_two n : 0 <= n < 2 ^ 128 →
  let v := n / 2 ^ 126 in
  0 <= v < 4
  ∧ dbl n = Z.lxor ((n * 2 ^ 1) mod 2 ^ 128) (lut (Z.shiftr v 1))
  ∧ dbl (dbl n) = Z.lxor ((n * 2 ^ 2) mod 2 ^ 128) (Z.shiftr v 1 * 256 + lut v).
Proof.
  intros Hn v. assert (0 <= v < 4) as Hv by (unfold v; split; [apply Z.div_pos; lia|apply Z.div_lt_upper_bound; lia]). split; [done|].
  pose proof (Z.div_mod n (2 ^ 126) ltac:(lia)) as Hd. fold v in Hd. pose proof (Z.mod_pos_bound n (2 ^ 126) ltac:(lia)) as Hm.
  set (m := n mod 2 ^ 126) in *. clearbody v m. rewrite Z.pow_1_r. set (w := (n * 2) mod 2 ^ 128).
  assert (∃ b, 0 <= b < 2 ∧ w = b * 2 ^ 127 + 2 * m ∧ v = 2 * (if 2 ^ 127 <=? n then 1 else 0) + b) as (b & Hb & Hw & Hvb).
  { exists (v mod 2). split; [apply Z.mod_pos_bound; lia|]. pose proof (Z.div_mod v 2 ltac:(lia)) as Hdv. pose proof (Z.mod_pos_bound v 2 ltac:(lia)).
    split; [|destruct (Z.leb_spec (2 ^ 127) n); lia]. unfold w. symmetry. apply (Z.mod_unique _ _ (v / 2)); [left; lia|]. lia. }
  set (c := if 2 ^ 127 <=? n then 135 else 0).
  assert (0 <= c < 256 ∧ c = lut (Z.shiftr v 1) ∧ Z.shiftr v 1 = if 2 ^ 127 <=? n then 1 else 0) as (Hc & Ec & Es).
  { unfold c. rewrite Z.shiftr_div_pow2, Z.pow_1_r by lia. assert (v / 2 = if 2 ^ 127 <=? n then 1 else 0) as ->.
    { symmetry. apply (Z.div_unique _ _ _ b); [left; lia|]. destruct (_ <=? _); lia. }
    by destruct (2 ^ 127 <=? n). }
  assert (dbl n = Z.lxor w c) as Ed by (unfold dbl, w, c; by rewrite (Z.mul_comm 2)). split; [by rewrite Ed, Ec|].
  rewrite Ed. unfold dbl. rewrite lxor_above, lxor_double, lxor_mod by lia. rewrite (Z.mod_small (2 * c)) by lia.
  assert ((2 * w) mod 2 ^ 128 = (n * 2 ^ 2) mod 2 ^ 128) as ->.
  { unfold w. rewrite Z.mul_mod_idemp_r by lia. f_equal. lia. }
  rewrite Z.lxor_assoc. f_equal. rewrite Es. subst c.
  assert ((2 ^ 127 <=? w) = (b =? 1)) as ->.
  { destruct (Z.leb_spec (2 ^ 127) w), (Z.eqb_spec b 1); lia. }
  assert (b = 0 ∨ b = 1) as [-> | ->] by lia; rewrite Hvb; by destruct (2 ^ 127 <=? n).
Qed.
Lemma be_xor_last l x c : 0 <= c < 256 → byte x → number (l ++ [Z.lxor x c]) = Z.lxor (number (l ++ [x])) c.
Proof. intros Hc Hx. rewrite !number_snoc. by rewrite (proj1 (xor_low (number l) x c Hc Hx)). Qed.
Lemma byte_u8 n : byte (u8 n).
Proof. unfold u8, byte. change 255 with (Z.ones 8). rewrite Z.land_ones by lia. apply Z.mod_pos_bound. lia. Qed.
Lemma initCMAC_loop l : length l = 16%nat →
  fold_left shift_step (List.seq 0 15) (l, zeroBlock)
  = (take 15 (shl_bytes 1 l) ++ [get l 15], take 14 (shl_bytes 2 l) ++ [get (shl_bytes 2 l) 14; 0]).
Proof. intros (a&b&c&d&e&f&g&h&i&j&m&n&o&p&q&r&->)%list16. reflexivity. Qed.
Lemma shl_last k l : 0 <= k <= 8 → length l = 16%nat → Forall byte l → shl_bytes k l = take 15 (shl_bytes k l) ++ [u8 (Z.shiftl (get l 15) k)].
Proof.
  intros Hk (a&b&c&d&e&f&g&h&i&j&m&n&o&p&q&r&->)%list16 _. cbn [shl_bytes take app hd get nth]. unfold get. cbn [nth].
  by rewrite Z.shiftr_0_l, Z.lor_0_l.
Qed.
Lemma shl_last_two k l : length l = 16%nat → take 15 (shl_bytes k l) = take 14 (shl_bytes k l) ++ [get (shl_bytes k l) 14].
Proof. intros (a&b&c&d&e&f&g&h&i&j&m&n&o&p&q&r&->)%list16. reflexivity. Qed.
Lemma be_xor_two l y x s c : 0 <= s < 256 → 0 <= c < 256 → byte y → byte x →
  number (l ++ [Z.lxor y s; Z.lxor x c]) = Z.lxor (number (l ++ [y; x])) (s * 256 + c).
Proof.
  intros Hs Hc Hy Hx. change [Z.lxor y s; Z.lxor x c] with ([Z.lxor y s] ++ [Z.lxor x c]). change [y; x] with ([y] ++ [x]).
  rewrite !app_assoc, number_snoc, be_xor_last by done. rewrite (number_snoc (l ++ [y])). set (w := number (l ++ [y])).
  change 256 with (2 ^ 8). rewrite <- !Words.lor_low by (unfold byte in *; change (2 ^ 8) with 256; first [lia | apply (xor_low 0 x c Hc Hx)]).
  apply Z.bits_inj'. intros i Hi. rewrite Z.lxor_spec, !Z.lor_spec, Z.lxor_spec. destruct (decide (i < 8)).
  - by rewrite !Z.mul_pow2_bits_low, !orb_false_l by lia.
  - rewrite (Words.testbit_high x 8), (Words.testbit_high c 8) by (done || lia). rewrite !Z.mul_pow2_bits by lia. by rewrite !orb_false_r, Z.lxor_spec.
Qed.
Lemma subkeys : initCMAC = (Websock.be_bytes 16 K1, Websock.be_bytes 16 K2).
Proof.
  destruct (aes_block key zeroBlock) as [Hl Hb]. unfold initCMAC. rewrite encryptBlock_aes by (done || by repeat constructor).
  unfold K2, K1. set (n := number (aes key zeroBlock)). pose proof (number_range _ Hb) as Hn. rewrite Hl in Hn. fold n in Hn. change (8 * Z.of_nat 16) with 128 in Hn.
  destruct (dbl_two n Hn) as (Hv & E1 & E2).
  pose proof (shl_number 1 _ ltac:(lia) Hb) as S1. pose proof (shl_number 2 _ ltac:(lia) Hb) as S2. rewrite Hl in S1, S2. fold n in S1, S2.
  pose proof (shl_good 1 (aes key zeroBlock)) as G1. pose proof (shl_good 2 (aes key zeroBlock)) as G2.
  assert (Z.shiftr (get (aes key zeroBlock) 0) 6 = n / 2 ^ 126) as Ev.
  { unfold n. destruct (aes key zeroBlock) as [|x l] eqn:El; [done|]. injection Hl as Hl. apply Forall_cons in Hb as [Hx Hb]. cbn [get nth]. unfold get. simpl nth.
    rewrite number_cons, Hl. pose proof (number_range l Hb) as Hr. rewrite Hl in Hr. change (8 * Z.of_nat 15) with 120 in *. rewrite Z.shiftr_div_pow2 by lia.
    change (2 ^ 126) with (2 ^ 120 * 2 ^ 6). rewrite <- Z.div_div by lia. rewrite Z.div_add_l by lia. rewrite (Z.div_small (number l)) by lia. by rewrite Z.add_0_r. }
  rewrite Ev. set (v := n / 2 ^ 126) in *. set (l := aes key zeroBlock) in *. clearbody l n v.
  assert (0 <= Z.shiftr v 1 < 2 ∧ (∀ w, 0 <= lut w < 256)) as [Hs Hlut].
  { split; [rewrite Z.shiftr_div_pow2 by lia; change (2 ^ 1) with 2; split; [apply Z.div_pos; lia|apply Z.div_lt_upper_bound; lia]|].
    intros w. unfold lut. repeat case_match; lia. }
  pose proof (shl_last 1 l ltac:(lia) Hl Hb) as L1. pose proof (shl_last 2 l ltac:(lia) Hl Hb) as L2.
  assert (byte (get l 15)) as Hq by (unfold get; apply Forall_nth; [done|lia]).
  assert (byte (get (shl_bytes 2 l) 14)) as Hp by (unfold get; apply Forall_nth; [done|rewrite shl_length; lia]).
  assert (byte 0) as H0 by (by unfold byte). rewrite initCMAC_loop by done. rewrite shl_last_two in L2 by done.
  set (A := take 15 (shl_bytes 1 l)) in *. set (B := take 14 (shl_bytes 2 l)) in *. set (p := get (shl_bytes 2 l) 14) in *. set (q := get l 15) in *.
  assert (length A = 15%nat) as HA by (unfold A; rewrite length_take, shl_length; lia).
  assert (length B = 14%nat) as HB by (unfold B; rewrite length_take, shl_length; lia).
  unfold get. rewrite !app_nth2, !insert_app_r_alt, HA, HB by lia. cbn [nth Nat.sub insert list_insert].
  rewrite !u8_last by done. rewrite L1 in S1, G1. rewrite L2, <- app_assoc in S2, G2. cbn [app] in S2, G2.
  apply Forall_app in G1 as [GA _]. apply Forall_app in G2 as [GB _].
  assert (∀ x c, byte x → 0 <= c < 256 → byte (Z.lxor x c)) as Hx by (intros x c ??; by apply (xor_low 0 x c)).
  f_equal; apply from_number; rewrite ?length_app, ?HA, ?HB; try done.
  - apply Forall_app; split; [done|]. apply Forall_singleton, Hx; [apply byte_u8|apply Hlut].
  - rewrite be_xor_last, S1, E1; [done|apply Hlut|apply byte_u8].
  - apply Forall_app; split; [done|]. apply Forall_cons; split; [|apply Forall_singleton]; apply Hx; (done || apply byte_u8 || apply Hlut || lia).
  - rewrite be_xor_two, S2, E2; (done || apply byte_u8 || apply Hlut || lia).
Qed.

(** ** Tags *)
Lemma xor_good a b : Forall byte a → Forall byte b → Forall byte (xor a b).
Proof.
  intros Ha. revert b. induction Ha as [|x a Hx Ha IH]; intros b Hb; [constructor|]. destruct Hb as [|y b Hy Hb]; constructor; [|by apply IH].
  by apply (xor_low 0 x y Hy Hx).
Qed.
Lemma blocks_S n x : blocks (S n) x = blocks n x ++ [take 16 (drop (16 * n) x)].
Proof. unfold blocks. by rewrite List.seq_S, fmap_app. Qed.
Lemma blocks_app n x y : (16 * n <= length x)%nat → blocks n (x ++ y) = blocks n x.
Proof.
  induction n as [|n IH]; intros Hn; [done|]. rewrite !blocks_S, IH by lia. f_equal. f_equal. rewrite drop_app_le by lia. apply take_app_le. rewrite length_drop. lia.
Qed.
Lemma blocks_xor m k X : length X = (16 * (m + 1))%nat → length k = 16%nat →
  blocks (m + 1) (xor_at (m * 16) k X) = blocks m X ++ [xor (drop (16 * m) X) k].
Proof.
  intros HX Hk. rewrite Nat.add_1_r, blocks_S. unfold xor_at. rewrite (drop_ge X (m * 16 + 16)), app_nil_r by lia.
  assert (length (take (m * 16) X) = (16 * m)%nat) as Ht by (rewrite length_take; lia). f_equal.
  - rewrite blocks_app by lia. rewrite <- (take_drop (m * 16) X) at 2. by rewrite blocks_app by lia.
  - rewrite drop_app_length' by done. f_equal. rewrite (Nat.mul_comm m). rewrite (firstn_all2 (drop (16 * m) X)) by (rewrite length_drop; lia).
    apply firstn_all2. unfold xor. rewrite length_zip_with, length_drop. lia.
Qed.
Lemma chain_snoc p l x : ∃ c, chain (aes key) p (l ++ [x]) = chain (aes key) p l ++ [c] ∧ length c = 16%nat ∧ Forall byte c.
Proof.
  revert p. induction l as [|b l IH]; intros p; cbn.
  - eexists. split; [done|]. apply aes_block.
  - destruct (IH (aes key (xor p b))) as (c & -> & Hc). by exists c.
Qed.
Lemma chain_length p l : length (concat (chain (aes key) p l)) = (16 * length l)%nat.
Proof. revert p. induction l as [|b l IH]; intros p; cbn; [done|]. rewrite length_app, IH. destruct (aes_block key (xor p b)) as [-> _]. lia. Qed.
(** the last block but the padding *)
Lemma cbc_last m k X : length X = (16 * (m + 1))%nat → length k = 16%nat → Forall byte X → Forall byte k →
  let e := cbc key (xor_at (m * 16) k X) in
  let c := take 16 (drop (length e - 32) e) in
  last (chain (aes key) zeroBlock (blocks m X ++ [xor (drop (16 * m) X) k])) = Some c ∧ length c = 16%nat ∧ Forall byte c.
Proof.
  intros HX Hk HbX Hbk e c. unfold c, e. rewrite (cbc_chain key (m + 1)).
  - rewrite blocks_xor by done. set (bs := blocks m X). set (f := xor (drop (16 * m) X) k).
    assert (length bs = m) as Hm by (unfold bs, blocks; by rewrite length_fmap, length_seq).
    destruct (chain_snoc zeroBlock (bs ++ [f]) (replicate 16 16)) as (z & -> & Hz & _).
    destruct (chain_snoc zeroBlock bs f) as (y & -> & Hy & Hby). rewrite last_snoc, !concat_app, <- app_assoc. cbn [concat]. rewrite !app_nil_r.
    rewrite !length_app, chain_length, Hm, Hy, Hz.
    rewrite drop_app_length' by (rewrite chain_length; lia). rewrite take_app_length' by done. done.
  - unfold xor_at, xor. rewrite !length_app, length_take, length_zip_with, length_take, !length_drop. lia.
  - unfold xor_at. rewrite !Forall_app. repeat split; [by apply Forall_take| |by apply Forall_drop].
    apply xor_good; [|done]. by apply Forall_take, Forall_drop.
Qed.
Lemma prefixBlock_good t : byte t → length (prefixBlock t) = 16%nat ∧ Forall byte (prefixBlock t).
Proof. intros Ht. split; [done|]. unfold prefixBlock. apply Forall_app; split; [by repeat constructor|by apply Forall_singleton]. Qed.
(** [_computeCMAC] is the CMAC of the prefix and the data *)
Lemma computeCMAC_cmac t data : byte t → Forall byte data →
  computeCMAC data (prefixBlock t) = cmac (prefixBlock t ++ data)
  ∧ length (computeCMAC data (prefixBlock t)) = 16%nat ∧ Forall byte (computeCMAC data (prefixBlock t)).
Proof.
  intros Ht Hd. destruct (prefixBlock_good t Ht) as [Hp Hbp]. unfold computeCMAC, cmac. rewrite subkeys. set (P := prefixBlock t) in *. clearbody P.
  set (N := length data). pose proof (Nat.div_mod_eq N 16) as HN. set (n := (N / 16)%nat) in *. set (r := (N mod 16)%nat) in *.
  assert (r < 16)%nat as Hr by (apply Nat.mod_upper_bound; lia). replace (N - n * 16)%nat with r by lia.
  set (M := P ++ data). assert (length M = 16 + N)%nat as HM by (unfold M; rewrite length_app, Hp; done).
  assert (Forall byte M) as HbM by (by apply Forall_app). rewrite app_assoc. fold M. rewrite HM.
  destruct (Nat.eqb_spec r 0) as [Hr0|Hr0].
  - assert ((N + 15) / 16 = n)%nat as Em by (symmetry; apply (Nat.div_unique _ _ _ 15); lia).
    assert ((16 + N + 15) / 16 = n + 1)%nat as -> by (symmetry; apply (Nat.div_unique _ _ _ 15); lia).
    rewrite Em. replace (n * 16 - N)%nat with 0%nat by lia. rewrite app_nil_r. replace (Nat.max (n + 1) 1 - 1)%nat with n by lia.
    rewrite length_drop, HM. replace (16 + N - 16 * n)%nat with 16%nat by lia. cbn [Nat.eqb].
    destruct (be_bytes_good 16 K1) as [HK HbK]. destruct (cbc_last n _ M ltac:(lia) HK HbM HbK) as (-> & Hc). by split.
  - assert ((N + 15) / 16 = n + 1)%nat as Em by (symmetry; apply (Nat.div_unique _ _ _ (r - 1)); lia).
    assert ((16 + N + 15) / 16 = n + 2)%nat as -> by (symmetry; apply (Nat.div_unique _ _ _ (r - 1)); lia).
    rewrite Em. replace ((n + 1) * 16 - N)%nat with (S (15 - r)) by lia. replace (Nat.max (n + 2) 1 - 1)%nat with (n + 1)%nat by lia.
    rewrite length_drop, HM. replace (16 + N - 16 * (n + 1))%nat with r by lia. destruct (Nat.eqb_spec r 16) as [|_]; [lia|].
    cbn [replicate]. replace ((n + 1) * 16 + r)%nat with (length M + 0)%nat by lia. rewrite insert_app_r. cbn [insert list_insert].
    set (pad := 128 :: replicate (15 - r) 0). assert (length pad = 16 - r)%nat as Hpad by (unfold pad; cbn [length]; rewrite length_replicate; lia).
    assert (Forall byte pad) as Hbpad by (constructor; [by unfold byte|apply Forall_replicate; by unfold byte]).
    destruct (be_bytes_good 16 K2) as [HK HbK].
    destruct (cbc_last (n + 1) _ (M ++ pad) ltac:(rewrite length_app; lia) HK ltac:(by apply Forall_app) HbK) as (Hl & Hc).
    rewrite blocks_app, drop_app_le in Hl by lia. cbn [app]. fold pad. rewrite Hl. by split.
Qed.
(** ECB is AES on every block *)
Lemma ecb_aes n x : length x = (16 * n)%nat → Forall byte x → ecb_encrypt x = Some (concat (aes key <$> blocks n x)).
Proof.
  intros Hx Hb. unfold ecb_encrypt. rewrite Hx, Nat.mul_comm, Nat.Div0.mod_mul, Nat.div_mul by lia. cbn [Nat.eqb]. do 2 f_equal.
  apply list_fmap_ext. intros i b Hi. unfold blocks in Hi. rewrite list_lookup_fmap, fmap_Some in Hi. destruct Hi as (j & Hj & ->).
  apply lookup_seq in Hj as [-> Hj]. apply encryptBlock_aes; [rewrite length_take, length_drop; lia|]. by apply Forall_take, Forall_drop.
Qed.
(** ** EAX, as its authors give it *)
Definition omac (t : Z) (m : bytes) : bytes := cmac (prefixBlock t ++ m).
Definition eax (nonce header m : bytes) : bytes :=
  let c := ctr key (omac 0 nonce) m in c ++ xor (xor (omac 0 nonce) (omac 1 header)) (omac 2 c).
Lemma xor_comm a b : xor a b = xor b a.
Proof. revert b. induction a as [|x a IH]; intros [|y b]; try done. unfold xor in *. cbn. by rewrite Z.lxor_comm, (IH b). Qed.
#[local] Opaque computeCMAC cmac.
Lemma tag_omac ad iv c : Forall byte ad → Forall byte iv → Forall byte c →
  tag ad (computeCMAC iv (prefixBlock 0)) c = xor (xor (omac 0 iv) (omac 1 ad)) (omac 2 c)
  ∧ length (tag ad (computeCMAC iv (prefixBlock 0)) c) = 16%nat.
Proof.
  intros Ha Hi Hc. unfold tag, omac.
  assert (byte 0 ∧ byte 1 ∧ byte 2) as (B0 & B1 & B2) by (unfold byte; lia).
  destruct (computeCMAC_cmac 0 iv B0 Hi) as (E0 & L0 & _), (computeCMAC_cmac 1 ad B1 Ha) as (E1 & L1 & _), (computeCMAC_cmac 2 c B2 Hc) as (E2 & L2 & _).
  rewrite E0, E1, E2 in *.
  split; [|unfold xor; rewrite !length_zip_with; lia]. apply xor_comm.
Qed.
Lemma eax_is_eax iv ad m : Forall byte iv → Forall byte ad → Forall byte m → eax_encrypt iv ad m = eax iv ad m.
Proof.
  intros Hi Ha Hm. unfold eax_encrypt, eax. pose proof (ctr_bytes key (computeCMAC iv (prefixBlock 0)) m Hm) as Hc.
  destruct (tag_omac ad iv _ Ha Hi Hc) as [-> _]. unfold omac. by destruct (computeCMAC_cmac 0 iv ltac:(unfold byte; lia) Hi) as [<- _].
Qed.
(** and back *)
Lemma eax_there iv ad m : Forall byte iv → Forall byte ad → Forall byte m →
  eax_decrypt iv ad (eax_encrypt iv ad m) = Some m ∧ length (eax_encrypt iv ad m) = (length m + 16)%nat.
Proof.
  intros Hi Ha Hm. unfold eax_decrypt, eax_encrypt. set (k := computeCMAC iv (prefixBlock 0)).
  pose proof (ctr_bytes key k m Hm) as Hc. destruct (tag_omac ad iv _ Ha Hi Hc) as [_ Hl]. fold k in Hl.
  rewrite length_app, Hl. destruct (Nat.ltb_spec (length (ctr key k m) + 16) 16); [lia|].
  split; [|by rewrite ctr_length]. rewrite Nat.add_sub, take_app_length, drop_app_length, decide_True by done. by rewrite ctr_there.
Qed.
(** C29: what [AESEAXCipher] encrypts is what EAX is defined to be (the text in
    counter mode from the CMAC of the nonce, then the three CMACs added, over
    subkeys the script shifts by hand), and it decrypts exactly what was
    encrypted with the key, nonce and header: to the text, and anything else to
    [null]. *)
Theorem eax_accepts_its_own iv ad m data : Forall byte iv → Forall byte ad → Forall byte m → Forall byte data →
  eax_encrypt iv ad m = eax iv ad m
  ∧ (eax_decrypt iv ad data = Some m ↔ data = eax iv ad m).
Proof.
  intros Hi Ha Hm Hd. split; [by apply eax_is_eax|]. rewrite <- eax_is_eax by done. split; [|intros ->; by apply eax_there].
  unfold eax_decrypt, eax_encrypt. destruct (Nat.ltb_spec (length data) 16) as [|Hl]; [done|]. case_decide as Ht; [|done]. intros [= <-].
  rewrite ctr_back by (by apply Forall_take). rewrite Ht. symmetry. apply take_drop.
Qed.
End aes.

(** a cipher to try it with *)
Definition toy_aes (k b : bytes) : bytes := Websock.be_bytes 16 (number k + 3 * number b + 1).
Definition toy_ctr (k c x : bytes) : bytes := (λ b, Z.lxor b (u8 (number k + number c))) <$> x.
Lemma toy_twice k c x : toy_ctr k c (toy_ctr k c x) = x.
Proof.
  unfold toy_ctr. set (z := u8 _). clearbody z. induction x as [|b x IH]; [done|]. rewrite !fmap_cons, IH. f_equal.
  by rewrite Z.lxor_assoc, Z.lxor_nilpotent, Z.lxor_0_r.
Qed.
Lemma toy_bytes k c x : Forall byte x → Forall byte (toy_ctr k c x).
Proof. intros Hx. apply Forall_fmap. eapply Forall_impl; [done|]. intros b Hb. by apply (xor_low 0 b _ (byte_u8 _) Hb). Qed.
#[refine, local] Instance toy : WebCrypto := {
  aes := toy_aes; ctr := toy_ctr; ctr_decrypt := toy_ctr;
  cbc k x := concat (chain (toy_aes k) zeroBlock (blocks (length x / 16) x ++ [replicate 16 16])) }.
Proof.
  - intros. apply be_bytes_good.
  - intros k n x Hx _. by rewrite Hx, Nat.mul_comm, Nat.div_mul by lia.
  - intros. apply length_fmap.
  - apply toy_bytes.
  - intros. apply toy_twice.
  - intros. apply toy_twice.
  - apply toy_bytes.
Defined.
Lemma eax_accepts_its_own_witness :
  eax_decrypt [7] [1; 2] [0; 20] (eax_encrypt [7] [1; 2] [0; 20] [104; 105]) = Some [104; 105]
  ∧ eax_decrypt [7] [1; 2] [0; 20] [104; 105] = None.
Proof.
  split; [|reflexivity].
  apply (eax_accepts_its_own [7] [1; 2] [0; 20] [104; 105]); [by repeat constructor..| |].
  - apply (bool_decide_unpack (Forall (λ b, 0 <= b < 256) _)). by vm_compute.
  - apply (eax_accepts_its_own [7] [1; 2] [0; 20] [104; 105] []); by repeat constructor.
Defined.
End Aes.
