(* ===== verification/Rsa.v ===== *)
(** * RSA: static/js/novnc/core/crypto/rsa.js

    The keys of the RSA-AES login and PKCS #1 v1.5 with them: what is encrypted
    to a key is decrypted by it.  The browser draws the key ([jwk], an RSA key
    as its standard defines one) and the random bytes. *)
From Stdlib Require Import Znumtheory Zpow_facts.
From S2P Require Import Prelude Words Websock Base64 DiffieHellman Aes.

#[local] Open Scope list_scope.
#[local] Open Scope Z_scope.

(** ** The numbers of an RSA key *)
Module Numbers.
Fixpoint bin (n k : nat) : Z :=
  match k, n with 0%nat, _ => 1 | S _, 0%nat => 0 | S k', S n => bin n k' + bin n k end.
Fixpoint sum (f : nat → Z) (n : nat) : Z := match n with 0%nat => 0 | S n => sum f n + f n end.
Lemma bin_0 n : bin n 0 = 1.
Proof. by destruct n. Qed.
Lemma bin_S n k : bin (S n) (S k) = bin n k + bin n (S k).
Proof. done. Qed.
Lemma bin_above n k : (n < k)%nat → bin n k = 0.
Proof. revert k. induction n as [|n IH]; intros [|k] Hk; try lia; [done|]. rewrite bin_S, !IH by lia. done. Qed.
Lemma bin_full n : bin n n = 1.
Proof. induction n; [done|]. rewrite bin_S, IHn, bin_above by lia. done. Qed.
Lemma sum_ext f g n : (∀ k, (k < n)%nat → f k = g k) → sum f n = sum g n.
Proof. induction n as [|n IH]; intros E; [done|]. simpl. rewrite IH, E by auto with lia. done. Qed.
Lemma sum_add f g n : sum (λ k, f k + g k) n = sum f n + sum g n.
Proof. induction n; simpl; lia. Qed.
Lemma sum_mul f c n : sum (λ k, c * f k) n = c * sum f n.
Proof. induction n; simpl; lia. Qed.
Lemma sum_first f n : sum f (S n) = f 0%nat + sum (λ k, f (S k)) n.
Proof. induction n as [|n IH]; [simpl; lia|]. change (sum f (S (S n))) with (sum f (S n) + f (S n)). rewrite IH. simpl. lia. Qed.
Lemma binomial a n : (a + 1) ^ Z.of_nat n = sum (λ k, bin n k * a ^ Z.of_nat k) (S n).
Proof.
  induction n as [|n IH]; [done|]. rewrite Nat2Z.inj_succ, Z.pow_succ_r, IH by lia.
  rewrite (sum_first (λ k, bin (S n) k * a ^ Z.of_nat k) (S n)). cbn beta. rewrite bin_0, Z.mul_1_l.
  rewrite (sum_ext (λ k, bin (S n) (S k) * a ^ Z.of_nat (S k)) (λ k, a * (bin n k * a ^ Z.of_nat k) + bin n (S k) * a ^ Z.of_nat (S k))).
  2: { intros k _. rewrite bin_S, Nat2Z.inj_succ, Z.pow_succ_r by lia. lia. }
  rewrite sum_add, sum_mul, Z.mul_add_distr_r, Z.mul_1_l.
  pose proof (sum_first (λ k, bin n k * a ^ Z.of_nat k) (S n)) as Hf. cbn beta in Hf. rewrite bin_0 in Hf.
  change (sum (λ k, bin n k * a ^ Z.of_nat k) (S (S n))) with (sum (λ k, bin n k * a ^ Z.of_nat k) (S n) + bin n (S n) * a ^ Z.of_nat (S n)) in Hf.
  rewrite (bin_above n (S n)) in Hf by lia. simpl Z.of_nat in *. lia.
Qed.
Lemma absorb n k : Z.of_nat (S k) * bin (S n) (S k) = Z.of_nat (S n) * bin n k.
Proof.
  revert k. induction n as [|n IH]; intros k; [destruct k; simpl; lia|].
  rewrite bin_S, Z.mul_add_distr_l, IH. destruct k as [|k]; [rewrite !bin_0; lia|].
  pose proof (IH k) as E. rewrite (bin_S n k) in *. lia.
Qed.
Lemma sum_divides p f n : (∀ k, (0 < k < n)%nat → (p | f k)) → (0 < n)%nat → (p | sum f n - f 0%nat).
Proof.
  intros Hf Hn. destruct n as [|n]; [lia|]. rewrite sum_first. replace (_ + _ - _) with (sum (λ k, f (S k)) n) by lia.
  clear Hn. induction n as [|n IH]; simpl; [apply Z.divide_0_r|]. apply Z.divide_add_r; [apply IH; intros; apply Hf; lia|apply Hf; lia].
Qed.
(** Fermat's little theorem *)
Lemma fermat p a : prime p → 0 <= a → (p | a ^ p - a).
Proof.
  intros Hp. pose proof (prime_ge_2 _ Hp) as H2. revert a. apply natlike_ind.
  - rewrite Z.pow_0_l by lia. apply Z.divide_0_r.
  - intros a Ha IH. unfold Z.succ. replace (p) with (Z.of_nat (Z.to_nat p)) at 2 by lia. rewrite binomial. simpl sum.
    set (f := λ k, bin (Z.to_nat p) k * a ^ Z.of_nat k). fold (f (Z.to_nat p)).
    assert (p | sum f (Z.to_nat p) - f 0%nat) as Hs.
    { apply sum_divides; [|lia]. intros k Hk. unfold f. apply Z.divide_mul_l.
      destruct k as [|k]; [lia|]. destruct (Z.to_nat p) as [|n] eqn:En; [lia|]. pose proof (absorb n k) as E.
      apply (Gauss p (Z.of_nat (S k))).
      - rewrite E. exists (bin n k). lia.
      - apply prime_rel_prime; [done|]. intros Hd. apply Z.divide_pos_le in Hd; lia. }
    assert (f 0%nat = 1 ∧ f (Z.to_nat p) = a ^ p) as [E0 Ep] by (unfold f; rewrite bin_0, bin_full, Z2Nat.id by lia; simpl Z.of_nat; split; lia).
    rewrite E0 in Hs. rewrite Ep.
    replace (sum f (Z.to_nat p) + a ^ p - (a + 1)) with ((sum f (Z.to_nat p) - 1) + (a ^ p - a)) by lia.
    by apply Z.divide_add_r.
Qed.
Lemma fermat_more p a j : prime p → 0 <= a → 0 <= j → (p | a ^ (1 + j * (p - 1)) - a).
Proof.
  intros Hp Ha. pose proof (prime_ge_2 _ Hp) as H2. revert j. apply natlike_ind.
  - rewrite Z.pow_1_r, Z.sub_diag. apply Z.divide_0_r.
  - intros j Hj IH. replace (1 + Z.succ j * (p - 1)) with (1 + j * (p - 1) + (p - 1)) by lia. rewrite Z.pow_add_r by nia.
    pose proof (fermat p a Hp Ha) as Hf. assert (a ^ p = a * a ^ (p - 1)) as E by (rewrite <- Z.pow_succ_r by lia; f_equal; lia).
    replace (a ^ (1 + j * (p - 1)) * a ^ (p - 1) - a) with ((a ^ (1 + j * (p - 1)) - a) * a ^ (p - 1) + (a ^ p - a)) by lia.
    apply Z.divide_add_r; [by apply Z.divide_mul_l|done].
Qed.

(** An RSA key (RFC 8017): the modulus is a product of different primes and the
    exponents undo each other, for each of them *)
Definition product (rs : list Z) : Z := foldr Z.mul 1 rs.
Record rsa (rs : list Z) (n e d : Z) : Prop := {
  r_prime : Forall prime rs; r_different : NoDup rs; r_product : n = product rs;
  r_e : 0 < e; r_d : 0 < d; r_inverse : Forall (λ r, (e * d) mod (r - 1) = 1 mod (r - 1)) rs }.
Lemma rel_prime_product r rs : prime r → Forall prime rs → r ∉ rs → rel_prime r (product rs).
Proof.
  intros Hr. induction 1 as [|q rs Hq _ IH]; intros Hn; [apply rel_prime_sym, rel_prime_1|]. apply not_elem_of_cons in Hn as [Hne Hn].
  simpl. apply rel_prime_mult; [|by apply IH]. apply prime_rel_prime; [done|]. intros Hd. by apply prime_div_prime in Hd.
Qed.
Lemma product_divides rs x : Forall prime rs → NoDup rs → (∀ r, r ∈ rs → (r | x)) → (product rs | x).
Proof.
  induction 1 as [|r rs Hr Hrs IH]; intros Hd Hx; [apply Z.divide_1_l|]. apply NoDup_cons in Hd as [Hn Hd].
  destruct IH as [y ->]; [done|intros; apply Hx; by right|]. simpl.
  destruct (Gauss r (product rs) y) as [z ->]; [rewrite Z.mul_comm; apply Hx; by left|by apply rel_prime_product|]. exists z. lia.
Qed.
Lemma decrypts rs n e d m : rsa rs n e d → 0 <= m < n → (m ^ e mod n) ^ d mod n = m.
Proof.
  intros [Hp Hdiff Hn He Hd Hinv] Hm. rewrite <- Zpower_mod by lia. rewrite <- Z.pow_mul_r by lia.
  assert (n | m ^ (e * d) - m) as [k Hk].
  { rewrite Hn. apply product_divides; [done..|]. intros r Hr. rewrite Forall_forall in Hp, Hinv. specialize (Hp r Hr). specialize (Hinv r Hr).
    pose proof (prime_ge_2 _ Hp) as H2.
    assert (∃ j, 0 <= j ∧ e * d = 1 + j * (r - 1)) as (j & Hj & ->); [|apply fermat_more; by (lia || done)].
    exists ((e * d - 1) / (r - 1)). assert ((r - 1 | e * d - 1)) as [j Hj].
    { apply Z.mod_divide; [lia|]. rewrite Zminus_mod, Hinv, Z.sub_diag. apply Z.mod_0_l. lia. }
    rewrite Hj, Z.div_mul by lia. split; [|lia]. apply (Z.mul_nonneg_cancel_l (r - 1)); [lia|]. rewrite Z.mul_comm, <- Hj. nia. }
  replace (m ^ (e * d)) with (m + k * n) by lia. rewrite Z.mod_add, Z.mod_small by lia. done.
Qed.
End Numbers.

Module Rsa.
Abbreviation bytes := (list Z).
Abbreviation byte := Websock.byte.
Abbreviation be := Websock.be.
(** ** The cipher; the fields of a key that has none are [None] *)
Record cipher := Cipher {
  keyLength : Z; keyBytes : nat; n : bytes; e : bytes; d : option bytes;
  nBigInt : Z; eBigInt : Z; dBigInt : option Z; extractable : bool }.
(** Base64 for URLs: two other characters, and no padding *)
Definition from_url (c : Z) : Z := if c =? 45 then 43 else if c =? 95 then 47 else c.
Definition padEnd (k : nat) (l : list Z) : list Z := l ++ replicate (k - length l) 61.
Definition base64urlDecode (data : list Z) : option (list (option Z)) :=
  let data := from_url <$> data in
  Base64.decode (padEnd ((length data + 3) / 4 * 4) data) 0.
(** none: [set] throws on what does not fit; a hole is 0 *)
Definition padArray (arr : list (option Z)) (len : nat) : option bytes :=
  if (len <? length arr)%nat then None else Some (replicate (len - length arr) 0 ++ (default 0 <$> arr)).
(** the private key of [subtle.exportKey], its texts *)
Record jwk := Jwk { jn : list Z; je : list Z; jd : list Z }.
Definition field_ (text : list Z) (len : nat) : option bytes := arr ← base64urlDecode text; padArray arr len.
(** none: it throws *)
Definition generateKey (modulusLength : Z) (privateKey : jwk) (extractable_ : bool) : option cipher :=
  let keyBytes_ := Z.to_nat ((modulusLength + 7) / 8) in
  n ← field_ (jn privateKey) keyBytes_;
  nb ← DiffieHellman.u8ArrayToBigInt n;
  e ← field_ (je privateKey) keyBytes_;
  eb ← DiffieHellman.u8ArrayToBigInt e;
  d ← field_ (jd privateKey) keyBytes_;
  db ← DiffieHellman.u8ArrayToBigInt d;
  Some (Cipher modulusLength keyBytes_ n e (Some d) nb eb (Some db) extractable_).
Definition importKey (n e : bytes) (extractable_ : bool) (keyUsages : list string) : option cipher :=
  if negb (bool_decide (keyUsages = ["encrypt"%string])) then None
  else if negb (length n =? length e)%nat then None
  else
    nb ← DiffieHellman.u8ArrayToBigInt n;
    eb ← DiffieHellman.u8ArrayToBigInt e;
    Some (Cipher (Z.of_nat (length n) * 8) (length n) n e None nb eb None extractable_).
(** [ps\[i\] * 254 / 255 + 1], rounded down *)
Definition nonzero (b : Z) : Z := b * 254 / 255 + 1.
(** none: it throws; [Some None]: null.  [random]: the bytes drawn for [ps] *)
Definition encrypt (c : cipher) (random message : bytes) : option (option bytes) :=
  if Z.of_nat (keyBytes c) - 11 <? Z.of_nat (length message) then Some None
  else
    let ps := nonzero <$> take (keyBytes c - length message - 3) random in
    let em := [0; 2] ++ ps ++ [0] ++ message in
    emBigInt ← DiffieHellman.u8ArrayToBigInt em;
    c' ← DiffieHellman.modPow emBigInt (eBigInt c) (nBigInt c);
    Some (Some (DiffieHellman.bigIntToU8Array c' (keyBytes c))).
(** a key that has no [d] has an exponent that is not above 0 *)
Definition decrypt (c : cipher) (message : bytes) : option (option bytes) :=
  if negb (length message =? keyBytes c)%nat then Some None
  else
    msgBigInt ← DiffieHellman.u8ArrayToBigInt message;
    emBigInt ← DiffieHellman.modPow msgBigInt (default 0 (dBigInt c)) (nBigInt c);
    let em := DiffieHellman.bigIntToU8Array emBigInt (keyBytes c) in
    Some (match em with
          | 0 :: 2 :: l => match list_find (λ b, b = 0) l with Some (i, _) => Some (drop (i + 1) l) | None => None end
          | _ => None
          end).
(** none: it throws *)
Definition exportKey (c : cipher) : option (bytes * bytes * option bytes) :=
  if extractable c then Some (n c, e c, d c) else None.

Example a_key : (λ c, (nBigInt c, eBigInt c, dBigInt c)) <$> generateKey 16 (Jwk (Base64.codes "DQE"%string) (Base64.codes "AQ"%string) (Base64.codes "_-8"%string)) true = Some (3329, 1, Some 65519).
Proof. by vm_compute. Qed.

(** ** Keys *)
(** RFC 7515: Base64 with the characters of URLs, without padding *)
Definition to_url (c : Z) : Z := if c =? 43 then 45 else if c =? 47 then 95 else c.
Definition base64url (l : bytes) : list Z := to_url <$> filter (λ c, c ≠ 61) (Base64.encode l).
Lemma url_char s : 0 <= s < 64 → from_url (to_url (Base64.char_of s)) = Base64.char_of s.
Proof.
  intros Hs. assert ((from_url (to_url (Base64.char_of s)) =? Base64.char_of s) = true) as H; [|by apply Z.eqb_eq].
  apply (Words.checked_below (λ s, from_url (to_url (Base64.char_of s)) =? Base64.char_of s) 64); [by vm_compute|done].
Qed.
Lemma url_decoded l : Forall byte l → base64urlDecode (base64url l) = Some (Some <$> l).
Proof.
  intros Hl. rewrite <- Base64.decode_encode by done. unfold base64urlDecode, base64url. f_equal.
  pose proof (Base64.length_encode l) as HL. destruct (Base64.encoded l Hl) as (t & k & E & Ht & Hk). rewrite E, length_app, length_replicate in HL. rewrite E.
  assert (from_url <$> (to_url <$> filter (λ c, c ≠ 61) (t ++ replicate k Base64.base64Pad)) = t) as ->.
  { rewrite filter_app. assert (filter (λ c, c ≠ 61) (replicate k Base64.base64Pad) = []) as ->.
    { clear. induction k; [done|]. cbn [replicate]. rewrite filter_cons_False by (intros H; by apply H). done. }
    rewrite app_nil_r. clear HL E. induction Ht as [|c t (s & Hs & ->) _ IH]; [done|].
    rewrite filter_cons_True; [|by apply Base64.tables]. rewrite !fmap_cons, url_char by done. f_equal. exact IH. }
  unfold padEnd. f_equal. f_equal. assert (∃ m, length t + k = m * 4)%nat as [m Hm] by (exists (Z.to_nat ((Z.of_nat (length l) + 2) / 3)); lia).
  assert ((length t + 3) / 4 = m)%nat as ->; [|lia]. symmetry. apply (Nat.div_unique _ _ _ (3 - k)); lia.
Qed.
Lemma be_append l r : be (l ++ r) = be l * 2 ^ (8 * Z.of_nat (length r)) + be r.
Proof.
  induction l as [|b l IH]; [done|]. cbn [app Websock.be]. rewrite IH. unfold Websock.len. rewrite length_app, Nat2Z.inj_add, Z.mul_add_distr_l, Z.pow_add_r by lia. lia.
Qed.
Lemma be_zeros k l : be (replicate k 0 ++ l) = be l.
Proof. rewrite be_append. induction k; [done|]. simpl. lia. Qed.
Lemma field_of l k : Forall byte l → (length l <= k)%nat → field_ (base64url l) k = Some (replicate (k - length l) 0 ++ l).
Proof.
  intros Hl Hk. unfold field_. rewrite url_decoded by done. simpl. unfold padArray. rewrite length_fmap.
  destruct (Nat.ltb_spec k (length l)); [lia|]. rewrite <- list_fmap_compose. do 2 f_equal. rewrite <- (list_fmap_id l) at 2. by apply list_fmap_ext.
Qed.
(** a key the browser draws, of a modulus of [8 * k] bits *)
Definition drawn (k : nat) (rs : list Z) (bn be_ bd : bytes) : Prop :=
  (0 < k)%nat ∧ Numbers.rsa rs (be bn) (be be_) (be bd) ∧ 2 ^ (8 * Z.of_nat k - 1) <= be bn
  ∧ Forall (λ l, Forall byte l ∧ length l <= k)%nat [bn; be_; bd].
(** the peer's key, and ours *)
Lemma key_generated k rs bn be_ bd x : drawn k rs bn be_ bd →
  let pad l := replicate (k - length l) 0 ++ l in
  generateKey (8 * Z.of_nat k) (Jwk (base64url bn) (base64url be_) (base64url bd)) x
  = Some (Cipher (8 * Z.of_nat k) k (pad bn) (pad be_) (Some (pad bd)) (be bn) (be be_) (Some (be bd)) x)
  ∧ (∀ y, importKey (pad bn) (pad be_) y ["encrypt"%string] = Some (Cipher (8 * Z.of_nat k) k (pad bn) (pad be_) None (be bn) (be be_) None y)).
Proof.
  intros (Hk & _ & _ & (Hn & (He & (Hd & _)%Forall_cons)%Forall_cons)%Forall_cons) pad.
  assert (∀ l, Forall byte l ∧ (length l <= k)%nat → length (pad l) = k ∧ DiffieHellman.u8ArrayToBigInt (pad l) = Some (be l)) as Hp.
  { intros l [Hl Hlen]. assert (length (pad l) = k) as E by (unfold pad; rewrite length_app, length_replicate; lia). split; [done|].
    rewrite DiffieHellman.from_u8; [unfold pad; by rewrite be_zeros|intros Ep; rewrite Ep in E; simpl in E; lia|].
    unfold pad. apply Forall_app; split; [apply Forall_replicate; by unfold byte|done]. }
  destruct (Hp bn Hn) as [Ln En], (Hp be_ He) as [Le Ee], (Hp bd Hd) as [Ld Ed]. split.
  - unfold generateKey. cbn [jn je jd]. replace (Z.to_nat ((8 * Z.of_nat k + 7) / 8)) with k.
    2: { rewrite Z.mul_comm, Z.div_add_l by lia. change (7 / 8) with 0. lia. }
    rewrite !field_of by tauto. fold (pad bn) (pad be_) (pad bd). simpl. rewrite En. simpl. rewrite Ee. simpl. by rewrite Ed.
  - intros y. unfold importKey. rewrite bool_decide_eq_true_2, Ln, Le, Nat.eqb_refl by done. simpl. rewrite En. simpl. rewrite Ee. simpl. by rewrite (Z.mul_comm _ 8).
Qed.

(** ** What is encrypted *)
Lemma nonzero_byte b : byte b → byte (nonzero b) ∧ nonzero b ≠ 0.
Proof. unfold nonzero, Websock.byte. intros Hb. Z.to_euclidean_division_equations. lia. Qed.
Lemma find_zero ps m : Forall (λ b, b ≠ 0) ps → list_find (λ b, b = 0) (ps ++ 0 :: m) = Some (length ps, 0).
Proof. induction 1 as [|b ps Hb _ IH]; [done|]. cbn. rewrite decide_False by done. by rewrite IH. Qed.
(** the block is a number below the modulus *)
Lemma block_below k ps m : (length ps + length m + 3 = k)%nat → Forall byte ps → Forall byte m →
  let em := [0; 2] ++ ps ++ [0] ++ m in length em = k ∧ Forall byte em ∧ 0 <= be em < 2 ^ (8 * Z.of_nat k - 1).
Proof.
  intros Hk Hps Hm em. assert (length em = k) as Hl by (unfold em; rewrite !length_app; simpl; lia).
  assert (Forall byte (2 :: ps ++ [0] ++ m)) as Hb.
  { constructor; [by unfold byte|]. rewrite !Forall_app. split; [done|]. split; [|done]. apply Forall_singleton. by unfold byte. }
  split; [done|]. split; [constructor; [by unfold byte|done]|].
  assert (be em = be (2 :: ps ++ [0] ++ m)) as -> by (unfold em; simpl; lia). pose proof (Websock.be_range _ Hb) as Hr. unfold Websock.len in Hr.
  assert (length (2 :: ps ++ [0] ++ m) = (k - 1)%nat) as Hl' by (unfold em in Hl; simpl in *; lia). rewrite Hl' in Hr.
  assert (2 ^ (8 * Z.of_nat (k - 1)) <= 2 ^ (8 * Z.of_nat k - 1)); [|lia]. apply Z.pow_le_mono_r; lia.
Qed.
(** the two halves of a key, as [key_generated] has them *)
Definition pad (k : nat) (l : bytes) : bytes := replicate (k - length l) 0 ++ l.
Definition private_half (k : nat) (bn be_ bd : bytes) (x : bool) : cipher :=
  Cipher (8 * Z.of_nat k) k (pad k bn) (pad k be_) (Some (pad k bd)) (be bn) (be be_) (Some (be bd)) x.
Definition public_half (k : nat) (bn be_ : bytes) (x : bool) : cipher :=
  Cipher (8 * Z.of_nat k) k (pad k bn) (pad k be_) None (be bn) (be be_) None x.
Lemma encrypted_decrypts k rs bn be_ bd x y random m : drawn k rs bn be_ bd →
  Forall byte m → Forall byte random → (length m + 11 <= k)%nat → length random = (k - length m - 3)%nat →
  ∃ c, encrypt (public_half k bn be_ x) random m = Some (Some c) ∧ length c = k ∧ decrypt (private_half k bn be_ bd y) c = Some (Some m).
Proof.
  intros (Hk & Hrsa & Hn & Hls) Hm Hr Hlm Hlr. unfold public_half, private_half.
  unfold encrypt, decrypt. cbn [keyBytes nBigInt eBigInt dBigInt default].
  destruct (Z.ltb_spec (Z.of_nat k - 11) (Z.of_nat (length m))); [lia|]. rewrite firstn_all2 by lia.
  set (ps := nonzero <$> random). assert (Forall byte ps ∧ Forall (λ b, b ≠ 0) ps) as [Hps Hnz].
  { unfold ps. rewrite !Forall_fmap, <- Forall_and. eapply Forall_impl; [exact Hr|]. apply nonzero_byte. }
  destruct (block_below k ps m) as (Hlen & Hbytes & Hlt); [unfold ps; rewrite length_fmap; lia|done..|].
  set (em := [0; 2] ++ ps ++ [0] ++ m) in *. rewrite DiffieHellman.from_u8 by done. simpl mbind.
  pose proof (Numbers.r_e _ _ _ _ Hrsa) as He. pose proof (Numbers.r_d _ _ _ _ Hrsa) as Hdd. assert (1 < be bn) as H1n.
  { assert (2 ^ 1 <= 2 ^ (8 * Z.of_nat k - 1)) by (apply Z.pow_le_mono_r; lia). lia. }
  rewrite DiffieHellman.modPow_spec by lia. simpl mbind. set (c' := be em ^ be be_ mod be bn).
  assert (be bn < 2 ^ (8 * Z.of_nat k)) as Hbn.
  { apply Forall_cons in Hls as [[Hb Hl] _]. pose proof (Websock.be_range _ Hb) as Hr'. unfold Websock.len in Hr'.
    assert (2 ^ (8 * Z.of_nat (length bn)) <= 2 ^ (8 * Z.of_nat k)) by (apply Z.pow_le_mono_r; lia). lia. }
  pose proof (Z.mod_pos_bound (be em ^ be be_) (be bn) ltac:(lia)) as Hc. fold c' in Hc.
  destruct (DiffieHellman.to_u8 c' k Hk ltac:(lia)) as (_ & Hlc & _ & Hub). exists (DiffieHellman.bigIntToU8Array c' k). split; [done|]. split; [done|].
  rewrite Hlc, Nat.eqb_refl. cbn [negb]. rewrite Hub. simpl mbind. rewrite DiffieHellman.modPow_spec by lia. simpl mbind.
  unfold c'. rewrite (Numbers.decrypts _ _ _ _ _ Hrsa) by lia.
  destruct (DiffieHellman.to_u8 (be em) k Hk ltac:(lia)) as (Eb & Hl & Hby & _).
  rewrite (Aes.number_inj (DiffieHellman.bigIntToU8Array (be em) k) em); [|congruence|done..].
  unfold em. cbn [app]. rewrite find_zero by done. do 2 f_equal. rewrite Nat.add_1_r, drop_app. 
  rewrite drop_ge by lia. by replace (S (length ps) - length ps)%nat with 1%nat by lia.
Qed.
(** C30: a key pair the browser draws, as RFC 8017 defines one, is taken over from
    its Base64 texts, and its public half is exported and imported by the peer;
    whatever the peer then encrypts to it (up to 11 bytes less than the key) with
    whatever random bytes is a block of the key's length that decrypts to the
    very message. *)
Theorem decrypts_what_was_encrypted k rs bn be_ bd : drawn k rs bn be_ bd →
  ∃ key n e d pub,
    generateKey (8 * Z.of_nat k) (Jwk (base64url bn) (base64url be_) (base64url bd)) true = Some key
    ∧ exportKey key = Some (n, e, d) ∧ importKey n e false ["encrypt"%string] = Some pub
    ∧ ∀ random m, Forall byte m → Forall byte random → (length m + 11 <= k)%nat → length random = (k - length m - 3)%nat →
      ∃ c, encrypt pub random m = Some (Some c) ∧ length c = k ∧ decrypt key c = Some (Some m).
Proof.
  intros Hd. destruct (key_generated k rs bn be_ bd true Hd) as [Hg Hi].
  do 5 eexists. split; [exact Hg|]. split; [done|]. split; [apply Hi|]. intros random m. by apply (encrypted_decrypts k rs).
Qed.

(** ** A key to try it with *)
Definition primes : list Z := [3; 5; 7; 11; 13; 17; 23; 29; 31; 37; 41; 43; 47; 53; 59; 61; 67; 71; 73; 79; 127].
Definition modulus : bytes := [135; 187; 26; 93; 237; 224; 118; 147; 190; 59; 127; 165; 77].
Definition is_prime (p : Z) : bool := (2 <=? p) && forallb (λ i, Z.gcd (Z.of_nat i) p =? 1) (List.seq 1 (Z.to_nat p - 1)).
Lemma is_prime_spec p : is_prime p = true → prime p.
Proof.
  unfold is_prime. intros [H2%Z.leb_le Hg]%andb_true_iff. apply prime_intro; [lia|]. intros n Hn. apply Zgcd_1_rel_prime, Z.eqb_eq.
  rewrite forallb_forall in Hg. specialize (Hg (Z.to_nat n)). rewrite Z2Nat.id in Hg by lia. apply Hg, in_seq. lia.
Qed.
Lemma a_drawn_key : drawn 13 primes modulus [1; 0; 1] [24; 55; 244; 225].
Proof.
  split; [lia|]. split; [|split; [by vm_compute|]].
  - split; [|by apply (bool_decide_unpack _); vm_compute|by vm_compute..|by apply (bool_decide_unpack _); vm_compute].
    unfold primes. repeat (apply Forall_cons; split; [by apply is_prime_spec; vm_compute|]). constructor.
  - repeat (apply Forall_cons; split; [split; [by apply (bool_decide_unpack (Forall (λ b, 0 <= b < 256) _)); vm_compute|simpl; lia]|]). constructor.
Qed.
Lemma decrypts_what_was_encrypted_witness :
  ∃ key n e d pub c,
    generateKey (8 * Z.of_nat 13) (Jwk (base64url modulus) (base64url [1; 0; 1]) (base64url [24; 55; 244; 225])) true = Some key
    ∧ exportKey key = Some (n, e, d) ∧ importKey n e false ["encrypt"%string] = Some pub
    ∧ encrypt pub (replicate 8 0) [104; 105] = Some (Some c) ∧ decrypt key c = Some (Some [104; 105]).
Proof.
  destruct (decrypts_what_was_encrypted 13 primes modulus [1; 0; 1] [24; 55; 244; 225] a_drawn_key) as (key & n & e & d & pub & H1 & H2 & H3 & H).
  destruct (H (replicate 8 0) [104; 105]) as (c & H4 & _ & H5);
    [by apply (bool_decide_unpack (Forall (λ b, 0 <= b < 256) _)); vm_compute..|simpl; lia|done|].
  exists key, n, e, d, pub, c. exact (conj H1 (conj H2 (conj H3 (conj H4 H5)))).
Defined.
End Rsa.
