(* ===== verification/Ra2.v ===== *)
(** * The RSA-AES login: static/js/novnc/core/ra2.js

    [negotiateRA2neAuthAsync] as a machine: a stage for every place where it
    waits, for bytes of the queue, the user's approval, credentials, or an answer
    of the browser's cryptography ([Tick]).  The ciphers are those of [Aes] and
    [Rsa]; SHA-1, the key and the bytes the browser draws are arguments. *)
From Stdlib Require Import Sorted.
From S2P Require Import Prelude Words Websock Base64 Decoders DiffieHellman Aes Rsa Utf8 Handshake.

#[local] Open Scope list_scope.
#[local] Open Scope Z_scope.

Module Ra2.
Abbreviation bytes := (list Z).
Abbreviation byte := Websock.byte.
Abbreviation rQwait := (Decoders.rQwait (W := bytes)).
Abbreviation rQshift := (Decoders.rQshift (W := bytes)).
Abbreviation rQshiftBytes := (Decoders.rQshiftBytes (W := bytes)).

(** ** [RA2Cipher] *)
Record RA2Cipher := Cipher { key : bytes; counter : bytes }.
Definition setKey (k : bytes) : RA2Cipher := Cipher k (replicate 16 0).
(** the counter's first byte goes up, a carry goes on to the next *)
Fixpoint bump (l : bytes) : bytes := match l with [] => [] | b :: l => if b =? 255 then 0 :: bump l else (b + 1) :: l end.
Definition word16 (n : Z) : bytes := [Z.shiftr (Z.land n 65280) 8; Z.land n 255].
Section ra2.
Context {web : Aes.WebCrypto}.
Definition makeMessage (c : RA2Cipher) (message : bytes) : bytes * RA2Cipher :=
  let ad := word16 (Websock.len message) in
  (ad ++ Aes.eax_encrypt (key c) (counter c) ad message, Cipher (key c) (bump (counter c))).
(** none: null *)
Definition receiveMessage (c : RA2Cipher) (len : Z) (encrypted : bytes) : option bytes * RA2Cipher :=
  (Aes.eax_decrypt (key c) (counter c) (word16 len) encrypted, Cipher (key c) (bump (counter c))).

(** ** [RSAAESAuthenticationState] *)
(** [sha1]: [subtle.digest]; [privateKey]: the key [generateKey] draws;
    [clientRandom], [padding]: what [getRandomValues] draws *)
Variables (sha1 : bytes → bytes) (privateKey : Rsa.jwk) (clientRandom padding : bytes).
Record keys := Keys { serverPublickey : bytes; serverKeyBytes : Z; serverRSACipher : Rsa.cipher }.
Record own := Own { clientPublicKey : bytes; clientRSACipher : Rsa.cipher }.
Inductive error := TooShort (n : Z) | TooLong (n : Z) | WrongLength | Corrupted | WrongHash | NotAuthentic | WrongSubtype.
(** waiting: [KeyLength], [ServerKey], [ServerRandom], [ServerHash], [Subtype] for
    bytes, [Approval], [Credentials]; [Misread]: it read bytes that had not come *)
Inductive stage :=
  | KeyLength
  | ServerKey (lengthBuffer : bytes) (n : Z)
  | Importing (lengthBuffer serverN serverE : bytes)
  | Approval (k : keys)
  | Generating (k : keys)
  | EncryptingRandom (k : keys) (o : own)
  | ServerRandom (k : keys) (o : own)
  | DecryptingRandom (k : keys) (o : own) (encrypted : bytes)
  | ServerHash (clientCipher serverCipher : RA2Cipher) (serverHash : bytes)
  | CheckingHash (clientCipher serverCipher : RA2Cipher) (serverHash encrypted : bytes)
  | Subtype (clientCipher serverCipher : RA2Cipher)
  | DecryptingSubtype (clientCipher serverCipher : RA2Cipher) (encrypted : bytes)
  | Credentials (clientCipher : RA2Cipher) (subtype : Z)
  | Sending (clientCipher : RA2Cipher) (credentials : bytes)
  | Completed | Failed (e : error) | Threw | Disconnected | Misread.
Record state := State { at_ : stage; queue : bytes; creds : Handshake.credentials }.
Inductive act := Verify (publickey : bytes) | Ask (types : list string) | Send (b : bytes).
Inductive event := Data (b : bytes) | Approve | Login (c : Handshake.credentials) | Disconnect | Tick.

Definition clientKeyLength : Z := 2048.
Definition clientKeyBytes : Z := 256.
(** what is done when there are enough bytes; none: it waits *)
Definition read (st : stage) (q : bytes) : option (stage * bytes) :=
  match st with
  | KeyLength =>
    if rQwait 4 q then None
    else
      let '(n, q') := rQshift 4 q in
      Some (if n <? 1024 then Failed (TooShort n) else if 8192 <? n then Failed (TooLong n)
            else ServerKey (Decoders.rQpeekBytes 4 q) ((n + 7) / 8), q')
  | ServerKey lengthBuffer n =>
    if rQwait (n * 2) q then None
    else
      let '(serverN, q) := rQshiftBytes n q in
      let '(serverE, q) := rQshiftBytes n q in
      Some (Importing lengthBuffer serverN serverE, q)
  | ServerRandom k o =>
    if rQwait 2 q then None
    else
      let '(n, q) := rQshift 2 q in
      if negb (n =? clientKeyBytes) then Some (Failed WrongLength, q)
      else if rQwait clientKeyBytes q then Some (Misread, q)
      else let '(encrypted, q) := rQshiftBytes clientKeyBytes q in Some (DecryptingRandom k o encrypted, q)
  | ServerHash c s h =>
    if rQwait (2 + 20 + 16) q then None
    else
      let '(n, q) := rQshift 2 q in
      if negb (n =? 20) then Some (Failed WrongHash, q)
      else let '(encrypted, q) := rQshiftBytes (20 + 16) q in Some (CheckingHash c s h encrypted, q)
  | Subtype c s =>
    if rQwait (2 + 1 + 16) q then None
    else
      let '(n, q) := rQshift 2 q in
      if negb (n =? 1) then Some (Failed WrongSubtype, q)
      else let '(encrypted, q) := rQshiftBytes (1 + 16) q in Some (DecryptingSubtype c s encrypted, q)
  | _ => None
  end.
(** one wait may follow another at once, no third *)
Fixpoint settle (fuel : nat) (st : stage) (q : bytes) : stage * bytes :=
  match fuel with
  | 0%nat => (st, q)
  | S fuel => match read st q with Some (st, q) => settle fuel st q | None => (st, q) end
  end.
Definition into (st : stage) (s : state) : state := let '(st, q) := settle 2 st (queue s) in State st q (creds s).

Definition hasCredentials (subtype : Z) (c : Handshake.credentials) : bool :=
  if subtype =? 1 then bool_decide (is_Some (Handshake.username c)) && bool_decide (is_Some (Handshake.password c))
  else if subtype =? 2 then bool_decide (is_Some (Handshake.password c)) else false.
(** none: a text that is not one of characters throws *)
Definition credentials_of (subtype : Z) (c : Handshake.credentials) : option bytes :=
  username ← (if subtype =? 1 then Handshake.encode (default [] (Handshake.username c)) else Some []);
  password ← Handshake.encode (default [] (Handshake.password c));
  let username := take 255 username in
  let password := take 255 password in
  Some ([Websock.len username] ++ username ++ [Websock.len password] ++ password).
Definition provide (c : RA2Cipher) (subtype : Z) (s : state) : state :=
  if hasCredentials subtype (creds s) then
    into (match credentials_of subtype (creds s) with Some b => Sending c b | None => Threw end) s
  else into (Credentials c subtype) s.

(** an answer of the browser's cryptography, and what follows up to the next *)
Definition tick (s : state) : state * list act :=
  match at_ s with
  | Importing lengthBuffer serverN serverE =>
    match Rsa.importKey serverN serverE false ["encrypt"%string] with
    | None => (into Threw s, [])
    | Some c =>
      let pub := lengthBuffer ++ serverN ++ serverE in
      (into (Approval (Keys pub (Websock.len serverN) c)) s, [Verify pub])
    end
  | Generating k =>
    match (c ← Rsa.generateKey clientKeyLength privateKey true; ne ← Rsa.exportKey c; Some (c, ne.1)) with
    | None => (into Threw s, [])
    | Some (c, (clientN, clientE)) =>
      let pub := Websock.be_bytes 4 clientKeyLength ++ clientN ++ clientE in
      (into (EncryptingRandom k (Own pub c)) s, [Send pub])
    end
  | EncryptingRandom k o =>
    match Rsa.encrypt (serverRSACipher k) padding clientRandom with
    | Some (Some c) => (into (ServerRandom k o) s, [Send (word16 (serverKeyBytes k) ++ c)])
    | _ => (into Threw s, [])
    end
  | DecryptingRandom k o encrypted =>
    match Rsa.decrypt (clientRSACipher o) encrypted with
    | None => (into Threw s, [])
    | Some serverRandom =>
      match serverRandom with
      | Some serverRandom =>
        if negb (length serverRandom =? 16)%nat then (into (Failed Corrupted) s, [])
        else
          let clientSessionKey := take 16 (sha1 (serverRandom ++ clientRandom)) in
          let serverSessionKey := take 16 (sha1 (clientRandom ++ serverRandom)) in
          let serverHash := sha1 (serverPublickey k ++ clientPublicKey o) in
          let clientHash := sha1 (clientPublicKey o ++ serverPublickey k) in
          let '(m, c) := makeMessage (setKey clientSessionKey) clientHash in
          (into (ServerHash c (setKey serverSessionKey) serverHash) s, [Send m])
      | None => (into (Failed Corrupted) s, [])
      end
    end
  | CheckingHash c d serverHash encrypted =>
    let '(received, d) := receiveMessage d 20 encrypted in
    match received with
    | None => (into (Failed NotAuthentic) s, [])
    | Some h => if bool_decide (take 20 h = take 20 serverHash) then (into (Subtype c d) s, []) else (into (Failed WrongHash) s, [])
    end
  | DecryptingSubtype c d encrypted =>
    match (receiveMessage d 1 encrypted).1 with
    | None => (into (Failed NotAuthentic) s, [])
    | Some b =>
      let subtype := default 0 (head b) in
      if subtype =? 1 then
        (provide c subtype s, if hasCredentials 1 (creds s) then [] else [Ask ["username"; "password"]%string])
      else if subtype =? 2 then
        (provide c subtype s, if hasCredentials 2 (creds s) then [] else [Ask ["password"]%string])
      else (into (Failed WrongSubtype) s, [])
    end
  | Sending c b => let '(m, _) := makeMessage c b in (into Completed s, [Send m])
  | _ => (s, [])
  end.
Definition waits (st : stage) : bool :=
  match st with
  | KeyLength | ServerKey _ _ | Approval _ | ServerRandom _ _ | ServerHash _ _ _ | Subtype _ _ | Credentials _ _ => true
  | _ => false
  end.
(** [checkInternalEvents], [approveServer], [disconnect]: while the browser works
    there is nothing that could be rejected *)
Definition step (s : state) (e : event) : state * list act :=
  match e with
  | Data b => (into (at_ s) (State (at_ s) (queue s ++ b) (creds s)), [])
  | Approve => (match at_ s with Approval k => into (Generating k) s | _ => s end, [])
  | Login c =>
    let s := State (at_ s) (queue s) c in
    (match at_ s with Credentials cipher subtype => provide cipher subtype s | _ => s end, [])
  | Disconnect => (if waits (at_ s) then into Disconnected s else s, [])
  | Tick => tick s
  end.
Fixpoint run (s : state) (es : list event) : state * list act :=
  match es with
  | [] => (s, [])
  | e :: es => let '(s, a) := step s e in let '(s, a') := run s es in (s, a ++ a')
  end.
Definition start (q : bytes) (c : Handshake.credentials) : state := into KeyLength (State KeyLength q c).

(** ** What goes out, and when *)
Lemma run_snoc s es e :
  run s (es ++ [e]) = let '(s1, a1) := run s es in let '(s2, a2) := step s1 e in (s2, a1 ++ a2).
Proof.
  revert s. induction es as [|e' es IH]; intros s; simpl; [destruct (step s e); by rewrite app_nil_r|].
  destruct (step s e') as [s1 a1]. rewrite IH. destruct (run s1 es) as [s2 a2]. destruct (step s2 e) as [s3 a3]. by rewrite app_assoc.
Qed.
Definition sent (a : list act) : list bytes := omap (λ x, match x with Send b => Some b | _ => None end) a.
Definition received (es : list event) : bytes := es ≫= λ e, match e with Data b => b | _ => [] end.
(** a message of two bytes of length and what is encrypted *)
Definition framed (n : Z) (enc m : bytes) : Prop := ∃ w, m = w ++ enc ∧ length w = 2%nat ∧ Websock.be w = n.
Section history.
Variables (q0 : bytes) (c0 : Handshake.credentials).
(** [pub] was shown and then approved, and nothing had been sent till then *)
Definition approved (pub : bytes) (es : list event) : Prop :=
  ∃ es1 es2 k, es = es1 ++ Approve :: es2 ∧ at_ (run (start q0 c0) es1).1 = Approval k ∧ serverPublickey k = pub
    ∧ Verify pub ∈ (run (start q0 c0) es1).2 ∧ sent (run (start q0 c0) es1).2 = [].
Definition drawn_key (o : own) : Prop := Rsa.generateKey clientKeyLength privateKey true = Some (clientRSACipher o).
(** the server's random, from what the stream holds after its key *)
Definition random_of (o : own) (m serverRandom : bytes) : Prop :=
  ∃ enc, framed clientKeyBytes enc m ∧ Rsa.decrypt (clientRSACipher o) enc = Some (Some serverRandom).
Definition session (first second : bytes) : RA2Cipher := setKey (take 16 (sha1 (first ++ second))).
(** the next message holds, under the key of both randoms, the digest of both keys *)
Definition proven (pub : bytes) (o : own) (serverRandom m : bytes) : Prop :=
  ∃ enc h, framed 20 enc m ∧ (receiveMessage (session clientRandom serverRandom) 20 enc).1 = Some h
    ∧ take 20 h = take 20 (sha1 (pub ++ clientPublicKey o)).
Definition agreed (pub : bytes) (o : own) (S : list bytes) (es : list event) : Prop :=
  approved pub es ∧ drawn_key o ∧ S !! 0%nat = Some (clientPublicKey o).
Definition verified (C : bytes) (S : list bytes) (es : list event) : Prop :=
  ∃ pub o m1 serverRandom m2 rest, C = pub ++ m1 ++ m2 ++ rest ∧ agreed pub o S es ∧ random_of o m1 serverRandom ∧ proven pub o serverRandom m2.
(** [C]: what was taken of the stream; [S]: what was sent *)
Definition ok (st : stage) (C : bytes) (S : list bytes) (a : list act) (es : list event) : Prop :=
  match st with
  | KeyLength => C = [] ∧ S = []
  | ServerKey buf _ => C = buf ∧ S = []
  | Importing buf N E => C = buf ++ N ++ E ∧ S = []
  | Approval k => C = serverPublickey k ∧ S = [] ∧ Verify (serverPublickey k) ∈ a
  | Generating k => C = serverPublickey k ∧ S = [] ∧ approved (serverPublickey k) es
  | EncryptingRandom k o => C = serverPublickey k ∧ length S = 1%nat ∧ agreed (serverPublickey k) o S es
  | ServerRandom k o => C = serverPublickey k ∧ length S = 2%nat ∧ agreed (serverPublickey k) o S es
  | DecryptingRandom k o enc => ∃ m, C = serverPublickey k ++ m ∧ framed clientKeyBytes enc m ∧ length S = 2%nat ∧ agreed (serverPublickey k) o S es
  | ServerHash _ s h => ∃ pub o m r, C = pub ++ m ∧ length S = 3%nat ∧ agreed pub o S es ∧ random_of o m r
      ∧ s = session clientRandom r ∧ h = sha1 (pub ++ clientPublicKey o)
  | CheckingHash _ s h enc => ∃ pub o m r m2, C = pub ++ m ++ m2 ∧ framed 20 enc m2 ∧ length S = 3%nat ∧ agreed pub o S es ∧ random_of o m r
      ∧ s = session clientRandom r ∧ h = sha1 (pub ++ clientPublicKey o)
  | Subtype _ _ | DecryptingSubtype _ _ _ | Credentials _ _ | Sending _ _ => length S = 3%nat ∧ verified C S es
  | Completed => verified C S es
  | Failed _ | Threw | Disconnected | Misread => (length S <= 3)%nat ∧ (S ≠ [] → ∃ pub, approved pub es)
  end.
Lemma approved_more pub es e : approved pub es → approved pub (es ++ [e]).
Proof. intros (es1 & es2 & k & -> & H'). exists es1, (es2 ++ [e]), k. split; [by rewrite <- app_assoc|done]. Qed.
Lemma agreed_more pub o S S' es e : agreed pub o S es → agreed pub o (S ++ S') (es ++ [e]).
Proof. intros (Ha & Hd & Hs). split; [by apply approved_more|]. split; [done|]. by apply lookup_app_l_Some. Qed.
Lemma verified_more C S S' es e : verified C S es → verified C (S ++ S') (es ++ [e]).
Proof. intros (pub & o & m & r & m2 & rest & HC & Ha & H'). exists pub, o, m, r, m2, rest. split; [done|]. split; [by apply agreed_more|done]. Qed.
Lemma ok_more st C S a a' es e : ok st C S a es → ok st C S (a ++ a') (es ++ [e]).
Proof.
  assert (∀ pub o, agreed pub o S es → agreed pub o S (es ++ [e])) as Hag.
  { intros pub o Ha. rewrite <- (app_nil_r S). by apply agreed_more. }
  assert (verified C S es → verified C S (es ++ [e])) as Hv.
  { intros Ha. rewrite <- (app_nil_r S). by apply verified_more. }
  destruct st; simpl; try tauto.
  - intros (? & ? & ?). split_and!; [done..|]. apply elem_of_app. by left.
  - intros (? & ? & ?). split_and!; [done..|]. by apply approved_more.
  - naive_solver.
  - naive_solver.
  - intros (m & ? & ? & ? & ?). exists m. auto.
  - intros (pub & o & m & r & ?). exists pub, o, m, r. naive_solver.
  - intros (pub & o & m & r & m2 & ?). exists pub, o, m, r, m2. naive_solver.
  - intros [? H']. split; [done|]. intros Hs. destruct (H' Hs) as [pub Hp]. exists pub. by apply approved_more.
  - intros [? H']. split; [done|]. intros Hs. destruct (H' Hs) as [pub Hp]. exists pub. by apply approved_more.
  - intros [? H']. split; [done|]. intros Hs. destruct (H' Hs) as [pub Hp]. exists pub. by apply approved_more.
  - intros [? H']. split; [done|]. intros Hs. destruct (H' Hs) as [pub Hp]. exists pub. by apply approved_more.
Qed.
(** nothing was taken back: the end of any stage but the last *)
Lemma ok_ends st C S a es : ok st C S a es → st ≠ Completed → (length S <= 3)%nat ∧ (S ≠ [] → ∃ pub, approved pub es).
Proof.
  assert (∀ pub o, agreed pub o S es → ∃ pub, approved pub es) as Hag by (intros pub o (Ha & _); by exists pub).
  intros Hok Hc. destruct st; simpl in Hok; try done.
  all: try (destruct Hok as (_ & -> & _); split; [simpl; lia|done]).
  all: try (destruct Hok as (_ & ->); split; [simpl; lia|done]).
  all: try (destruct Hok as (_ & Hl & Ha); split; [lia|intros _; by eapply Hag]).
  - destruct Hok as (m & _ & _ & Hl & Ha). split; [lia|intros _; by eapply Hag].
  - destruct Hok as (pub & o & m & r & _ & Hl & Ha & _). split; [lia|intros _; by eapply Hag].
  - destruct Hok as (pub & o & m & r & m2 & _ & _ & Hl & Ha & _). split; [lia|intros _; by eapply Hag].
  - destruct Hok as (Hl & pub & o & m & r & m2 & rest & _ & Ha & _). split; [lia|intros _; by eapply Hag].
  - destruct Hok as (Hl & pub & o & m & r & m2 & rest & _ & Ha & _). split; [lia|intros _; by eapply Hag].
  - destruct Hok as (Hl & pub & o & m & r & m2 & rest & _ & Ha & _). split; [lia|intros _; by eapply Hag].
  - destruct Hok as (Hl & pub & o & m & r & m2 & rest & _ & Ha & _). split; [lia|intros _; by eapply Hag].
Qed.
Lemma framed_read n k q : 2 <= n → rQwait n q = false → Websock.be (take 2 q) = k → ∀ l, framed k (take l (drop 2 q)) (take (2 + l) q).
Proof.
  intros Hn Hw Hk l. exists (take 2 q). split_and!; [|rewrite length_take|done].
  - destruct q as [|x [|y q]]; [by destruct l..|done].
  - apply bool_decide_eq_false in Hw. unfold Decoders.len, Websock.len in Hw. lia.
Qed.
Lemma take_two l (q : bytes) : q = take (2 + l) q ++ drop l (drop 2 q).
Proof. by rewrite drop_drop, take_drop. Qed.
Lemma read_ok st q st' q' C S a es : read st q = Some (st', q') → ok st C S a es → ∃ D, q = D ++ q' ∧ ok st' (C ++ D) S a es.
Proof.
  intros Hr Hok. pose proof (ok_ends _ _ _ _ _ Hok) as He. destruct st; simpl in Hr; try done; case_bool_decide as Hw; try done.
  - injection Hr as <- <-. exists (take 4 q). split; [by rewrite take_drop|]. destruct Hok as [-> ->]. repeat case_match; simpl; split; auto with lia; done.
  - injection Hr as <- <-. set (n' := Z.to_nat n). exists (take n' q ++ take n' (drop n' q)). split; [by rewrite <- app_assoc, !take_drop|]. destruct Hok as [-> ->]. simpl. by split.
  - destruct (negb _) eqn:En; [injection Hr as <- <-; exists (take 2 q); split; [by rewrite take_drop|by apply He]|]. apply negb_false_iff, Z.eqb_eq in En.
    case_bool_decide as Hq; injection Hr as <- <-; [exists (take 2 q); split; [by rewrite take_drop|by apply He]|].
    destruct Hok as (-> & Hl & Ha). eexists. split; [apply (take_two (Z.to_nat clientKeyBytes))|]. eexists. split; [done|].
    split; [|done]. apply (framed_read 2); [done|by apply bool_decide_eq_false|done].
  - destruct (negb _) eqn:En; [injection Hr as <- <-; exists (take 2 q); split; [by rewrite take_drop|by apply He]|]. apply negb_false_iff, Z.eqb_eq in En.
    injection Hr as <- <-. destruct Hok as (pub & o & m & r & -> & Hl & Ha). eexists. split; [apply (take_two 36)|].
    exists pub, o, m, r, (take (2 + 36) q). split; [by rewrite <- app_assoc|]. split; [|done].
    apply (framed_read 38); [done|by apply bool_decide_eq_false|done].
  - destruct Hok as (Hl & pub & o & m & r & m2 & rest & -> & Ha).
    assert (∀ D, verified (((pub ++ m ++ m2 ++ rest)) ++ D) S es) as Hv.
    { intros D. exists pub, o, m, r, m2, (rest ++ D). split; [by rewrite <- !app_assoc|done]. }
    destruct (negb _) eqn:En; injection Hr as <- <-; [exists (take 2 q); split; [by rewrite take_drop|by apply He]|].
    eexists. split; [apply (take_two 17)|]. split; [done|apply Hv].
Qed.
Lemma settle_ok fuel st q C S a es : ok st C S a es → ∃ D, q = D ++ (settle fuel st q).2 ∧ ok (settle fuel st q).1 (C ++ D) S a es.
Proof.
  revert st q C. induction fuel as [|fuel IH]; intros st q C Hok; simpl; [exists []; by rewrite app_nil_r|].
  destruct (read st q) as [[st' q']|] eqn:Hr; [|exists []; by rewrite app_nil_r].
  destruct (read_ok _ _ _ _ _ _ _ _ Hr Hok) as (D & -> & Hok'). destruct (IH st' q' _ Hok') as (D' & Hq & Ho). exists (D ++ D'). rewrite Hq at 1. by rewrite !app_assoc.
Qed.
(** [X]: the stream so far *)
Definition keeps (X : bytes) (s : state) (S : list bytes) (a : list act) (es : list event) : Prop :=
  ∃ C, X = C ++ queue s ∧ ok (at_ s) C S a es.
Lemma into_keeps X C st s S a es : ok st C S a es → X = C ++ queue s → keeps X (into st s) S a es.
Proof.
  intros Hok ->. unfold into. pose proof (settle_ok 2 st (queue s) C S a es Hok) as (D & Hq & Ho). destruct (settle 2 st (queue s)) as [st' q'].
  exists (C ++ D). simpl in *. by rewrite Hq, <- app_assoc.
Qed.
Lemma keeps_more X s S a a' es e : keeps X s S a es → keeps X s S (a ++ a') (es ++ [e]).
Proof. intros (C & HX & Hok). exists C. split; [done|by apply ok_more]. Qed.
(** it ends without a further message *)
Lemma ends_keeps X s S a a' es e st : keeps X s S a es → at_ s ≠ Completed → (∀ C S a es, ok st C S a es = ok Threw C S a es) → keeps X (into st s) S (a ++ a') (es ++ [e]).
Proof.
  intros (C & HX & Hok) Hc Hst. apply (into_keeps X C); [|done]. rewrite Hst. destruct (ok_ends _ _ _ _ _ Hok Hc) as [Hl Hs]. split; [done|].
  intros Hne. destruct (Hs Hne) as [pub Hp]. exists pub. by apply approved_more.
Qed.
Lemma provide_keeps X s S a es C c subtype : length S = 3%nat → verified C S es → X = C ++ queue s → keeps X (provide c subtype s) S a es.
Proof.
  intros Hl Hv HX. unfold provide. destruct (hasCredentials _ _); [|by apply (into_keeps X C)].
  destruct (credentials_of _ _); apply (into_keeps X C); try done. split; [lia|]. intros _. destruct Hv as (pub & o & m & r & m2 & rest & _ & (Ha & _) & _). by exists pub.
Qed.
Lemma tick_keeps es s a : keeps (q0 ++ received es) s (sent a) a es →
  let '(s', a') := tick s in keeps (q0 ++ received es) s' (sent a ++ sent a') (a ++ a') (es ++ [Tick]).
Proof.
  intros Hk. set (X := q0 ++ received es) in *. set (S := sent a) in *.
  assert (∀ st, (∀ C S a es, ok st C S a es = ok Threw C S a es) → at_ s ≠ Completed → keeps X (into st s) (S ++ sent []) (a ++ []) (es ++ [Tick])) as He.
  { intros st Hst Hc. change (sent []) with (@nil bytes). rewrite (app_nil_r S). by apply ends_keeps. }
  assert (keeps X s (S ++ sent []) (a ++ []) (es ++ [Tick])) as Hsame by (change (sent []) with (@nil bytes); rewrite (app_nil_r S); by apply keeps_more).
  pose proof Hk as (C & HX & Hok).
  assert (∀ st S' a', ok st C S' (a ++ a') (es ++ [Tick]) → keeps X (into st s) S' (a ++ a') (es ++ [Tick])) as Hinto.
  { intros st S' a' Ho. by apply (into_keeps X C). }
  unfold tick. destruct (at_ s) eqn:Hst; try exact Hsame; simpl in Hok.
  - destruct (Rsa.importKey _ _ _ _) as [c|]; [|by apply He]. apply Hinto. destruct Hok as [-> ->]. split; [done|]. split; [done|].
    apply elem_of_app. right. by left.
  - destruct (Rsa.generateKey _ _ _) as [c|] eqn:Hg; [|by apply He]. cbn [mbind option_bind]. destruct (Rsa.exportKey c) as [[[cn ce] d]|]; [|by apply He].
    apply Hinto. destruct Hok as (-> & -> & Ha). split; [done|]. split; [done|]. split; [by apply approved_more|]. by split.
  - destruct (Rsa.encrypt _ _ _) as [[c|]|]; [|by apply He..]. apply Hinto. destruct Hok as (-> & Hl & Ha). split; [done|].
    split; [rewrite length_app, Hl; done|by apply agreed_more].
  - destruct (Rsa.decrypt _ _) as [[r|]|] eqn:Hd; [|by apply He..]. destruct (negb _); [by apply He|]. destruct (makeMessage _ _) as [m c]. apply Hinto.
    destruct Hok as (m1 & -> & Hf & Hl & Ha). exists (serverPublickey k), o, m1, r. split; [done|]. split; [rewrite length_app, Hl; done|].
    split; [by apply agreed_more|]. split; [by exists encrypted|done].
  - destruct Hok as (pub & o & m & r & m2 & HC & Hf & Hl & Ha & Hr & Hs & Hh). destruct (receiveMessage serverCipher 20 encrypted) as [[h|] d] eqn:Hm; [|by apply He].
    case_bool_decide as Hq; [|by apply He]. apply Hinto. split; [rewrite app_nil_r; done|].
    exists pub, o, m, r, m2, []. rewrite app_nil_r. split; [done|]. split; [by apply agreed_more|]. split; [done|].
    exists encrypted, h. split; [done|]. rewrite <- Hs, Hm, <- Hh. by split.
  - destruct Hok as [Hl Hv]. destruct (receiveMessage _ _ _).1 as [b|]; [|by apply He].
    assert (∀ (x : bool) t, sent (if x then [] else [Ask t]) = []) as Hz by (by intros []).
    assert (∀ sub a', keeps X (provide clientCipher sub s) (S ++ []) (a ++ a') (es ++ [Tick])) as Hp.
    { intros sub a'. apply (provide_keeps X s _ _ _ C); [by rewrite app_nil_r|by apply verified_more|done]. }
    cbv zeta. destruct (_ =? 1); [rewrite Hz; apply Hp|]. destruct (_ =? 2); [rewrite Hz; apply Hp|by apply He].
  - destruct Hok as [Hl Hv]. destruct (makeMessage _ _) as [m c]. apply Hinto. by apply verified_more.
Qed.
Lemma step_keeps_history es e s a : run (start q0 c0) es = (s, a) → keeps (q0 ++ received es) s (sent a) a es →
  let '(s', a') := step s e in keeps (q0 ++ received (es ++ [e])) s' (sent (a ++ a')) (a ++ a') (es ++ [e]).
Proof.
  intros Hr Hk. assert (q0 ++ received (es ++ [e]) = (q0 ++ received es) ++ received [e]) as -> by (unfold received; by rewrite bind_app, app_assoc).
  assert (∀ a', sent (a ++ a') = sent a ++ sent a') as Hsent by (intros; apply omap_app).
  assert (e ≠ Tick → ∀ s' a', step s e = (s', a') → a' = []) as Ha' by (intros Hne s' a' Hs; destruct e; simpl in Hs; by inversion Hs).
  assert (e = Tick ∨ e ≠ Tick) as [-> |Hne] by (destruct e; by (left + right)).
  { simpl. rewrite app_nil_r. pose proof (tick_keeps es s a Hk) as Ht. destruct (tick s) as [s' a']. by rewrite Hsent. }
  specialize (Ha' Hne). destruct (step s e) as [s' a'] eqn:Hs. rewrite (Ha' _ _ eq_refl), app_nil_r. clear Ha'.
  assert (∀ C, ok (at_ s) C (sent a) a es → ok (at_ s) C (sent a) a (es ++ [e])) as Hm by (intros C Ho; rewrite <- (app_nil_r a) at 2; by apply ok_more).
  assert (received [e] = [] → keeps (q0 ++ received es ++ received [e]) s (sent a) a (es ++ [e])) as Hsame.
  { intros ->. rewrite app_nil_r. rewrite <- (app_nil_r a) at 2. by apply keeps_more. }
  destruct Hk as (C & HX & Hok). rewrite <- app_assoc. destruct e; cbn [step] in Hs; try done; inversion Hs; subst s' a'; clear Hs.
  - apply (into_keeps _ C); [by apply Hm|]. simpl. by rewrite app_assoc, HX, <- app_assoc, app_nil_r.
  - destruct (at_ s) eqn:Hst; try by apply Hsame. apply (into_keeps _ C); [|by rewrite app_nil_r].
    simpl in Hok. destruct Hok as (-> & Hz & Hv). split; [done|]. split; [done|]. exists es, [], k. by rewrite Hr.
  - assert (keeps (q0 ++ received es ++ []) (State (at_ s) (queue s) c) (sent a) a (es ++ [Login c])) as Hl.
    { exists C. rewrite app_nil_r. split; [done|by apply Hm]. }
    destruct (at_ s) eqn:Hst; try exact Hl. destruct (Hm C Hok) as [H1 H2]. apply (provide_keeps _ _ _ _ _ C); [done..|by rewrite app_nil_r].
  - destruct (waits (at_ s)) eqn:Hw; [|by apply Hsame]. rewrite app_nil_r.
    pose proof (ends_keeps (q0 ++ received es) s (sent a) a [] es Disconnect Disconnected) as He. rewrite (app_nil_r a) in He. apply He; [by exists C| |done]. by destruct (at_ s).
Qed.
Lemma run_keeps es : keeps (q0 ++ received es) (run (start q0 c0) es).1 (sent (run (start q0 c0) es).2) (run (start q0 c0) es).2 es.
Proof.
  induction es as [|e es IH] using rev_ind.
  - simpl. rewrite app_nil_r. by apply (into_keeps _ []).
  - destruct (run (start q0 c0) es) as [s a] eqn:Hr. pose proof (step_keeps_history es e s a Hr IH) as Hs. rewrite run_snoc, Hr. by destruct (step s e).
Qed.
(** C14: nothing is sent to a server whose key was not shown and then approved;
    and the fourth message, the one with the password, only after the stream has
    brought, behind the approved key, a random that the drawn key decrypts and a
    message that, under the key of both randoms, holds the digest of both public
    keys: whatever bytes come in whatever pieces, and whatever the user and the
    browser do in between. *)
Theorem no_password_before_the_server_is_known es :
  let '(_, a) := run (start q0 c0) es in
  (sent a ≠ [] → ∃ pub, approved pub es)
  ∧ (4 <= length (sent a) → ∃ pub o m1 serverRandom m2 rest,
      q0 ++ received es = pub ++ m1 ++ m2 ++ rest ∧ approved pub es
      ∧ drawn_key o ∧ sent a !! 0 = Some (clientPublicKey o)
      ∧ random_of o m1 serverRandom ∧ proven pub o serverRandom m2)%nat.
Proof.
  destruct (run_keeps es) as (C & HX & Hok). destruct (run (start q0 c0) es) as [s a]. simpl in *.
  assert (at_ s = Completed ∨ at_ s ≠ Completed) as [Hc|Hc] by (clear -s; destruct (at_ s); (left; reflexivity) || (right; discriminate)).
  - rewrite Hc in Hok. destruct Hok as (pub & o & m1 & r & m2 & rest & -> & (Ha & Hd & Hs) & Hr & Hp). split; [intros _; by exists pub|]. intros _.
    exists pub, o, m1, r, m2, (rest ++ queue s). split; [by rewrite HX, <- !app_assoc|]. exact (conj Ha (conj Hd (conj Hs (conj Hr Hp)))).
  - destruct (ok_ends _ _ _ _ _ Hok Hc) as [Hl Hs]. split; [done|]. lia.
Qed.
End history.

(** ** In any chunks *)
(** how many waits there may still be before something else *)
Definition ahead (st : stage) : nat :=
  match st with KeyLength => 2 | ServerKey _ _ | ServerRandom _ _ | ServerHash _ _ _ | Subtype _ _ => 1 | _ => 0 end.
Lemma read_ahead st q st' q' : read st q = Some (st', q') → (ahead st' < ahead st)%nat.
Proof. destruct st; simpl; intros Hr; repeat case_match; simplify_eq; simpl; lia. Qed.
Lemma read_more st q r st' q' : (∀ k o, st ≠ ServerRandom k o) → read st q = Some (st', q') → read st (q ++ r) = Some (st', q' ++ r).
Proof.
  assert (∀ n, ¬ Decoders.len q < n → bool_decide (Decoders.len (q ++ r) < n) = false ∧ (Z.to_nat n <= length q)%nat) as Hlen.
  { intros n Hl. unfold Decoders.len, Websock.len in *. rewrite length_app, bool_decide_eq_false. lia. }
  intros Hne. destruct st; cbn [read Decoders.rQwait Decoders.rQshift Decoders.rQshiftBytes Decoders.rQpeekBytes Decoders.list_buffer]; try done.
  all: case_bool_decide as Hw; try done; destruct (Hlen _ Hw) as [-> Hl].
  - change (Z.to_nat 4) with 4%nat in *. rewrite take_app_le, drop_app_le by lia. by intros [= <- <-].
  - assert (Z.to_nat n <= length (drop (Z.to_nat n) q))%nat as Hl2 by (rewrite length_drop; lia).
    rewrite take_app_le, drop_app_le by lia. rewrite take_app_le, drop_app_le by done. by intros [= <- <-].
  - by destruct (Hne k o).
  - change (Z.to_nat (2 + 20 + 16)) with 38%nat in *. change (Z.to_nat (20 + 16)) with 36%nat.
    assert (36 <= length (drop 2 q))%nat as Hl2 by (rewrite length_drop; lia).
    rewrite take_app_le, drop_app_le by lia. destruct (negb _); [by intros [= <- <-]|]. rewrite take_app_le, drop_app_le by done. by intros [= <- <-].
  - change (Z.to_nat (2 + 1 + 16)) with 19%nat in *. change (Z.to_nat (1 + 16)) with 17%nat.
    assert (17 <= length (drop 2 q))%nat as Hl2 by (rewrite length_drop; lia).
    rewrite take_app_le, drop_app_le by lia. destruct (negb _); [by intros [= <- <-]|]. rewrite take_app_le, drop_app_le by done. by intros [= <- <-].
Qed.
Lemma settled fuel st q : (ahead st <= fuel)%nat → settle (S fuel) st q = settle fuel st q.
Proof.
  revert st q. induction fuel as [|fuel IH]; intros st q Hf.
  - simpl. destruct (read st q) as [[st' q']|] eqn:Hr; [apply read_ahead in Hr; lia|done].
  - change (settle (S (S fuel)) st q) with (match read st q with Some (st, q) => settle (S fuel) st q | None => (st, q) end).
    cbn [settle]. destruct (read st q) as [[st' q']|] eqn:Hr; [|done]. apply IH. apply read_ahead in Hr. lia.
Qed.
Lemma read_apart st q st' q' : read st q = Some (st', q') → ∀ k o, st' ≠ ServerRandom k o.
Proof. destruct st; simpl; intros Hr k' o'; repeat case_match; simplify_eq; done. Qed.
Lemma settle_ahead fuel st q : (ahead (settle fuel st q).1 <= ahead st)%nat.
Proof.
  revert st q. induction fuel as [|fuel IH]; intros st q; [done|]. cbn [settle]. destruct (read st q) as [[st' q']|] eqn:Hr; [|done].
  apply read_ahead in Hr. specialize (IH st' q'). lia.
Qed.
Lemma settle_more fuel st q r : (∀ k o, st ≠ ServerRandom k o) → (ahead st <= fuel)%nat →
  let '(st', q') := settle fuel st q in settle fuel st (q ++ r) = settle fuel st' (q' ++ r).
Proof.
  revert st q. induction fuel as [|fuel IH]; intros st q Hne Hf; [done|]. cbn [settle].
  destruct (read st q) as [[st' q']|] eqn:Hr; [|done]. rewrite (read_more _ _ _ _ _ Hne Hr).
  pose proof (read_ahead _ _ _ _ Hr) as Ha. specialize (IH st' q'). 
  pose proof (settle_ahead fuel st' q') as Hs. destruct (settle fuel st' q') as [st2 q2] eqn:E2. simpl in Hs.
  change (match read st2 (q2 ++ r) with Some (st0, q0) => settle fuel st0 q0 | None => (st2, q2 ++ r) end) with (settle (S fuel) st2 (q2 ++ r)).
  rewrite settled by lia. apply IH; [by eapply read_apart|lia].
Qed.
Lemma settle_apart fuel st q : (∀ k o, st ≠ ServerRandom k o) → ∀ k o, (settle fuel st q).1 ≠ ServerRandom k o.
Proof.
  revert st q. induction fuel as [|fuel IH]; intros st q Hne; [done|]. cbn [settle]. destruct (read st q) as [[st' q']|] eqn:Hr; [|done].
  apply IH. by eapply read_apart.
Qed.
Lemma ahead_two st : (ahead st <= 2)%nat.
Proof. destruct st; simpl; lia. Qed.
Lemma exchange_app s es es' : run s (es ++ es') = let '(s1, a1) := run s es in let '(s2, a2) := run s1 es' in (s2, a1 ++ a2).
Proof.
  revert s. induction es as [|e es IH]; intros s; simpl; [by destruct (run s es')|].
  destruct (step s e) as [s1 a1]. rewrite IH. destruct (run s1 es) as [s2 a2]. destruct (run s2 es') as [s3 a3]. by rewrite app_assoc.
Qed.
(** bytes in any chunks, unless it is the server's random that comes *)
Lemma chunks s cs : read (at_ s) (queue s) = None → (∀ k o, at_ s ≠ ServerRandom k o) →
  run s (Data <$> cs) = (into (at_ s) (State (at_ s) (queue s ++ concat cs) (creds s)), []).
Proof.
  intros Hr Hne. induction cs as [|c cs IH] using rev_ind.
  - simpl. rewrite app_nil_r. unfold into. cbn [settle queue]. rewrite Hr. by destruct s.
  - rewrite fmap_app, exchange_app, IH, concat_app. cbn [fmap list_fmap run step app concat]. rewrite !app_nil_r, app_assoc. apply (f_equal (λ x, (x, []))). unfold into. cbn [queue creds].
    pose proof (settle_more 2 (at_ s) (queue s ++ concat cs) c Hne (ahead_two _)) as Hm.
    destruct (settle 2 (at_ s) (queue s ++ concat cs)) as [st' q']. cbn [at_ queue creds]. by rewrite Hm.
Qed.

(** ** An exchange with a server that plays its part *)
Lemma word16_good n : 0 <= n < 65536 → Forall byte (word16 n) ∧ Websock.be (word16 n) = n.
Proof.
  intros Hn. unfold word16. change 65280 with (Z.shiftl (Z.ones 8) 8). change 255 with (Z.ones 8).
  rewrite Z.shiftr_land, Z.shiftr_shiftl_l, !Z.land_ones, Z.shiftr_div_pow2 by lia. change (8 - 8) with 0. rewrite Z.shiftl_0_r, Z.land_ones by lia.
  change (2 ^ 8) with 256. split; [repeat constructor; Z.to_euclidean_division_equations; lia|].
  unfold Websock.be, Websock.len. simpl length. change (2 ^ (8 * Z.of_nat 1)) with 256. change (2 ^ (8 * Z.of_nat 0)) with 1. Z.to_euclidean_division_equations. lia.
Qed.
Lemma bump_bytes l : Forall byte l → Forall byte (bump l).
Proof.
  induction 1 as [|b l Hb Hl IH]; [constructor|]. simpl. destruct (Z.eqb_spec b 255); constructor; try done; unfold Websock.byte in *; lia.
Qed.
(** a message is received as it was made, and both go on to the next *)
Lemma made_received c m : Forall byte (counter c) → Forall byte m → Websock.len m < 65536 →
  ∃ enc c', makeMessage c m = (word16 (Websock.len m) ++ enc, c') ∧ length enc = (length m + 16)%nat
    ∧ receiveMessage c (Websock.len m) enc = (Some m, c') ∧ Forall byte (counter c').
Proof.
  intros Hc Hm Hl. destruct (word16_good (Websock.len m)) as [Hb _]; [pose proof (Websock.len_nonneg m); lia|].
  eexists _, _. split; [done|]. destruct (Aes.eax_there (key c) (counter c) (word16 (Websock.len m)) m Hc Hb Hm) as [Hd He].
  split; [done|]. split; [|by apply bump_bytes]. unfold receiveMessage. by rewrite Hd.
Qed.
Lemma leads_app s s1 s2 es es' a a' : run s es = (s1, a) → run s1 es' = (s2, a') → run s (es ++ es') = (s2, a ++ a').
Proof. intros H1 H2. by rewrite exchange_app, H1, H2. Qed.
(** a message of a length and what is encrypted, in any chunks, at a stage that waits for it *)
Lemma message_comes st st' n enc c cs : (∀ k o, st ≠ ServerRandom k o) → read st [] = None → (∀ q, read st' q = None) →
  concat cs = word16 n ++ enc → read st (word16 n ++ enc) = Some (st', []) →
  run (State st [] c) (Data <$> cs) = (State st' [] c, []).
Proof.
  intros Hne H0 H' Hcs Hr. rewrite chunks by done. cbn [at_ queue creds app]. rewrite Hcs. unfold into. cbn [queue settle creds]. by rewrite Hr, H'.
Qed.
Lemma key_comes k N E c cs : 1024 <= 8 * Z.of_nat k <= 8192 → length N = k → length E = k →
  concat cs = Websock.be_bytes 4 (8 * Z.of_nat k) ++ N ++ E →
  run (start [] c) (Data <$> cs) = (State (Importing (Websock.be_bytes 4 (8 * Z.of_nat k)) N E) [] c, []).
Proof.
  intros Hk HN HE Hcs. change (start [] c) with (State KeyLength [] c). rewrite chunks by done. cbn [at_ queue creds app]. rewrite Hcs.
  set (n := 8 * Z.of_nat k) in *. set (w := Websock.be_bytes 4 n).
  assert (read KeyLength (w ++ N ++ E) = Some (ServerKey w (Z.of_nat k), N ++ E)) as H1.
  { cbn [read]. assert (rQwait 4 (w ++ N ++ E) = false) as ->.
    { apply bool_decide_eq_false. unfold Decoders.len, Websock.len. rewrite length_app. change (length w) with 4%nat. lia. }
    change (rQshift 4 (w ++ N ++ E)) with (Websock.be w, N ++ E). change (Decoders.rQpeekBytes 4 (w ++ N ++ E)) with w.
    unfold w at 1 2 3. rewrite Websock.be_be_bytes, Z.mod_small by lia. destruct (Z.ltb_spec n 1024); [lia|]. destruct (Z.ltb_spec 8192 n); [lia|].
    do 2 f_equal. f_equal. unfold n. rewrite Z.mul_comm, Z.div_add_l by lia. change (7 / 8) with 0. lia. }
  assert (read (ServerKey w (Z.of_nat k)) (N ++ E) = Some (Importing w N E, [])) as H2.
  { cbn [read Decoders.rQwait Decoders.rQshiftBytes Decoders.list_buffer]. rewrite bool_decide_eq_false_2 by (unfold Decoders.len, Websock.len; rewrite length_app; lia).
    rewrite Nat2Z.id, take_app_length', drop_app_length', firstn_all2, drop_ge by lia. done. }
  unfold into. cbn [queue settle creds]. by rewrite H1, H2.
Qed.
(** the texts are encoded in bytes, of which 255 are sent *)
Definition unit_ (u : Z) : Prop := 0 <= u < 65536.
Lemma points_range u : Forall unit_ u → Forall (λ c, 0 <= c < 1114112) (Handshake.points u).
Proof.
  remember (length u) as n eqn:Hn. revert u Hn. induction (lt_wf n) as [n _ IH]. intros u -> Hu.
  destruct u as [|h [|l u]]; [constructor| |].
  - apply Forall_cons in Hu as [Hh _]. constructor; [unfold unit_ in *; lia|constructor].
  - apply Forall_cons in Hu as [Hh Hu]. pose proof Hu as [Hl Hu']%Forall_cons. unfold unit_ in *. cbn [Handshake.points]. destruct (_ && _) eqn:Ec.
    + constructor; [lia|]. apply (IH (length u)); [simpl; lia|done|done].
    + constructor; [lia|]. refine (IH (length (l :: u)) _ (l :: u) eq_refl Hu). simpl. lia.
Qed.
Lemma encode_bytes u bs : Forall unit_ u → Handshake.encode u = Some bs → Forall byte bs.
Proof.
  intros Hu. apply points_range in Hu. unfold Handshake.encode. revert bs. induction Hu as [|c t Hc Ht IH]; intros bs Hb; [by injection Hb as <-|].
  simpl in Hb. destruct (Utf8.encode_char c) as [b|] eqn:Ec; [|done]. simpl in Hb. destruct (Utf8.encodeUTF8 t) as [r|]; [|done]. injection Hb as <-.
  apply Forall_app. split; [|by apply IH].
  destruct (decide (55296 <= c < 57344)) as [Hs|Hs].
  - unfold Utf8.encode_char in Ec. destruct (Z.ltb_spec c 128); [lia|]. destruct (Z.ltb_spec c 2048); [lia|].
    destruct ((55296 <=? c) && (c <? 57344)) eqn:E; [done|lia].
  - destruct (Utf8.encode_scalar c) as (b' & E & Hb' & _); [by split|]. rewrite E in Ec. by injection Ec as <-.
Qed.
Lemma credentials_good subtype c b : Forall unit_ (default [] (Handshake.username c)) → Forall unit_ (default [] (Handshake.password c)) →
  credentials_of subtype c = Some b → Forall byte b ∧ Websock.len b < 65536.
Proof.
  intros Hu Hp. unfold credentials_of.
  assert (∀ x, (if subtype =? 1 then Handshake.encode (default [] (Handshake.username c)) else Some []) = Some x → Forall byte x) as Hx.
  { intros x. destruct (_ =? 1); [by apply encode_bytes|]. by intros [= <-]. }
  destruct (if subtype =? 1 then _ else _) as [x|]; [|done]. specialize (Hx x eq_refl). cbn [mbind option_bind].
  destruct (Handshake.encode _) as [y|] eqn:Ey; [|done]. apply encode_bytes in Ey; [|done]. cbn [mbind option_bind]. intros [= <-].
  assert (∀ z : bytes, 0 <= Websock.len (take 255 z) < 256) as Hl by (intros z; unfold Websock.len; rewrite length_take; lia).
  pose proof (Hl x) as Hlx. pose proof (Hl y) as Hly. split.
  - constructor; [done|]. apply Forall_app; split; [by apply Forall_take|]. constructor; [done|by apply Forall_take].
  - unfold Websock.len in *. simpl. rewrite length_app. simpl. lia.
Qed.
(** a user name and a password as the credentials hold them: cut to 255 bytes,
    each after its length *)
Lemma credentials_fields subtype c us pw :
  (if subtype =? 1 then Handshake.encode (default [] (Handshake.username c)) = Some us else us = []) →
  Handshake.encode (default [] (Handshake.password c)) = Some pw →
  credentials_of subtype c = Some ((Z.min (Websock.len us) 255 :: take 255 us) ++ Z.min (Websock.len pw) 255 :: take 255 pw).
Proof.
  intros Hus Hpw. unfold credentials_of.
  assert ((if subtype =? 1 then Handshake.encode (default [] (Handshake.username c)) else Some []) = Some us) as ->
    by (destruct (subtype =? 1); [done|by rewrite Hus]).
  cbn [mbind option_bind]. rewrite Hpw. cbn [mbind option_bind].
  assert (∀ x : bytes, Websock.len (take 255 x) = Z.min (Websock.len x) 255) as Hl
    by (intros x; unfold Websock.len; rewrite length_take; lia).
  by rewrite !Hl.
Qed.
(** what the browser and the server draw *)
Record draws (k : nat) (crs srs cn ce cd sn se sd serverRandom serverPadding : bytes) : Prop := {
  d_own : Rsa.drawn 256 crs cn ce cd; d_server : Rsa.drawn k srs sn se sd; d_size : 1024 <= 8 * Z.of_nat k <= 8192;
  d_key : privateKey = Rsa.Jwk (Rsa.base64url cn) (Rsa.base64url ce) (Rsa.base64url cd);
  d_random : length clientRandom = 16%nat ∧ Forall byte clientRandom; d_padding : length padding = (k - 19)%nat ∧ Forall byte padding;
  d_srandom : length serverRandom = 16%nat ∧ Forall byte serverRandom; d_spadding : length serverPadding = 237%nat ∧ Forall byte serverPadding;
  d_sha1 : ∀ x, length (sha1 x) = 20%nat ∧ Forall byte (sha1 x) }.
Definition public_key (k : nat) (bn be_ : bytes) : bytes := Websock.be_bytes 4 (8 * Z.of_nat k) ++ Rsa.pad k bn ++ Rsa.pad k be_.
Lemma rsa_halves k rs bn be_ bd : Rsa.drawn k rs bn be_ bd →
  Rsa.generateKey (8 * Z.of_nat k) (Rsa.Jwk (Rsa.base64url bn) (Rsa.base64url be_) (Rsa.base64url bd)) true = Some (Rsa.private_half k bn be_ bd true)
  ∧ Rsa.importKey (Rsa.pad k bn) (Rsa.pad k be_) false ["encrypt"%string] = Some (Rsa.public_half k bn be_ false)
  ∧ length (Rsa.pad k bn) = k ∧ length (Rsa.pad k be_) = k.
Proof.
  intros Hd. destruct (Rsa.key_generated k rs bn be_ bd true Hd) as [Hg Hi]. split; [exact Hg|]. split; [apply Hi|].
  destruct Hd as (_ & _ & _ & ((_ & H1) & ((_ & H2) & _)%Forall_cons)%Forall_cons). unfold Rsa.pad. rewrite !length_app, !length_replicate. lia.
Qed.
Section exchange.
Variables (k : nat) (crs srs cn ce cd sn se sd serverRandom serverPadding : bytes).
Hypothesis Hdraws : draws k crs srs cn ce cd sn se sd serverRandom serverPadding.
#[local] Abbreviation spub := (public_key k sn se).
#[local] Abbreviation cpub := (public_key 256 cn ce).
#[local] Abbreviation theirs := (Keys spub (Z.of_nat k) (Rsa.public_half k sn se false)).
#[local] Abbreviation mine := (Own cpub (Rsa.private_half 256 cn ce cd true)).
(** up to the client's random *)
Lemma first_half c :
  ∃ r, (∀ c1, concat c1 = spub → run (start [] c) ((Data <$> c1) ++ [Tick; Approve; Tick; Tick])
       = (State (ServerRandom theirs mine) [] c, [Verify spub; Send cpub; Send (word16 (Z.of_nat k) ++ r)]))
    ∧ Rsa.decrypt (Rsa.private_half k sn se sd true) r = Some (Some clientRandom).
Proof using Hdraws.
  destruct Hdraws as [Hown Hserver Hsize Hkey [Hcl Hcb] [Hpl Hpb] _ _ _].
  destruct (rsa_halves _ _ _ _ _ Hown) as (Hg & _ & _). destruct (rsa_halves _ _ _ _ _ Hserver) as (_ & Hi & Hln & Hle).
  destruct (Rsa.encrypted_decrypts k srs sn se sd false true padding clientRandom Hserver Hcb Hpb) as (r & He & _ & Hdec); [lia|lia|].
  exists r. split; [|done]. intros c1 H1. rewrite exchange_app, (key_comes k (Rsa.pad k sn) (Rsa.pad k se)) by done.
  assert (∀ st q, into (Approval theirs) (State st q c) = State (Approval theirs) q c) as Ha by done.
  assert (step (State (Importing (Websock.be_bytes 4 (8 * Z.of_nat k)) (Rsa.pad k sn) (Rsa.pad k se)) [] c) Tick = (State (Approval theirs) [] c, [Verify spub])) as T1.
  { cbn [step]. unfold tick. cbn [at_]. rewrite Hi. unfold Websock.len. rewrite Hln. done. }
  assert (step (State (Generating theirs) [] c) Tick = (State (EncryptingRandom theirs mine) [] c, [Send cpub])) as T2.
  { cbn [step]. unfold tick. cbn [at_]. change clientKeyLength with (8 * Z.of_nat 256) at 1. rewrite Hkey, Hg. done. }
  assert (step (State (EncryptingRandom theirs mine) [] c) Tick = (State (ServerRandom theirs mine) [] c, [Send (word16 (Z.of_nat k) ++ r)])) as T3.
  { cbn [step]. unfold tick. cbn [at_ serverRSACipher]. rewrite He. done. }
  cbn [run]. rewrite T1. change (step (State (Approval theirs) [] c) Approve) with (State (Generating theirs) [] c, @nil act). cbn [run]. rewrite T2, T3. done.
Qed.
(** what the server sends: its random, the digest of the keys, the subtype *)
Definition server_hash : bytes * RA2Cipher := makeMessage (session clientRandom serverRandom) (sha1 (spub ++ cpub)).
Definition server_subtype (subtype : Z) : bytes := (makeMessage server_hash.2 [subtype]).1.
Lemma random_comes c sr : length sr = 256%nat →
  step (State (ServerRandom theirs mine) [] c) (Data ([1; 0] ++ sr)) = (State (DecryptingRandom theirs mine sr) [] c, []).
Proof.
  intros Hl. assert (read (ServerRandom theirs mine) ([1; 0] ++ sr) = Some (DecryptingRandom theirs mine sr, [])) as Hr.
  { cbn [read]. assert (rQwait 2 ([1; 0] ++ sr) = false) as -> by (apply bool_decide_eq_false; unfold Decoders.len, Websock.len; simpl length; lia).
    change (rQshift 2 ([1; 0] ++ sr)) with (256, sr). change (negb (256 =? clientKeyBytes)) with false. cbv beta iota.
    assert (rQwait clientKeyBytes sr = false) as -> by (apply bool_decide_eq_false; unfold Decoders.len, Websock.len, clientKeyBytes; lia).
    cbn [Decoders.rQshiftBytes Decoders.list_buffer]. rewrite firstn_all2, drop_ge by (unfold clientKeyBytes; lia). done. }
  cbn [step at_ queue creds]. unfold into. cbn [queue creds]. change ([] ++ [1; 0] ++ sr) with ([1; 0] ++ sr). cbn [settle]. by rewrite Hr.
Qed.
(** a message whose length is right, at the two stages that wait for one *)
Lemma framed_whole n enc (f : bytes → stage) st e0 : 0 <= n < 65536 → length enc = (Z.to_nat n + 16)%nat →
  (∀ q, read st q = if rQwait (2 + n + 16) q then None else let '(x, q) := rQshift 2 q in
     if negb (x =? n) then Some (Failed e0, q) else let '(e, q) := rQshiftBytes (n + 16) q in Some (f e, q)) →
  read st (word16 n ++ enc) = Some (f enc, []).
Proof.
  intros Hn Hl ->. assert (rQwait (2 + n + 16) (word16 n ++ enc) = false) as ->.
  { apply bool_decide_eq_false. unfold Decoders.len, Websock.len. rewrite length_app. simpl length. lia. }
  change (rQshift 2 (word16 n ++ enc)) with (Websock.be (word16 n), enc). rewrite (proj2 (word16_good n Hn)), Z.eqb_refl. cbn [negb].
  cbn [Decoders.rQshiftBytes Decoders.list_buffer]. by rewrite firstn_all2, drop_ge by lia.
Qed.
(** from there on: the server reads the digest of the keys, and the credentials *)
Lemma second_half c subtype cr : hasCredentials subtype c = true → credentials_of subtype c = Some cr →
  Forall unit_ (default [] (Handshake.username c)) → Forall unit_ (default [] (Handshake.password c)) →
  ∃ sr h w, Rsa.encrypt (Rsa.public_half 256 cn ce false) serverPadding serverRandom = Some (Some sr)
    ∧ (∀ c2 c3, concat c2 = server_hash.1 → concat c3 = server_subtype subtype →
       run (State (ServerRandom theirs mine) [] c) ([Data ([1; 0] ++ sr); Tick] ++ (Data <$> c2) ++ [Tick] ++ (Data <$> c3) ++ [Tick; Tick])
       = (State Completed [] c, [Send (word16 20 ++ h); Send (word16 (Websock.len cr) ++ w)]))
    ∧ let '(got, cc) := receiveMessage (session serverRandom clientRandom) 20 h in
      got = Some (sha1 (cpub ++ spub)) ∧ (receiveMessage cc (Websock.len cr) w).1 = Some cr.
Proof.
  intros Hhas Hcred Hu Hp. destruct (credentials_good _ _ _ Hu Hp Hcred) as [Hcrb Hcrl].
  destruct Hdraws as [Hown Hserver Hsize Hkey _ _ [Hsl Hsb] [Hql Hqb] Hsha].
  destruct (Rsa.encrypted_decrypts 256 crs cn ce cd false true serverPadding serverRandom Hown Hsb Hqb) as (sr & He & Hlr & Hdec); [rewrite Hsl; lia|rewrite Hsl, Hql; lia|].
  assert (∀ a b, Forall byte (counter (session a b))) as Hcount by (intros a b; by apply (Forall_replicate (λ x, byte x) 16 0)).
  assert (∀ x, Websock.len (sha1 x) = 20) as Hlen by (intros x; unfold Websock.len; by rewrite (proj1 (Hsha x))).
  assert (Websock.len [subtype] = 1 ∧ byte subtype) as [Hl1 Hbs].
  { split; [done|]. unfold hasCredentials in Hhas. destruct (Z.eqb_spec subtype 1) as [-> |]; [by unfold byte|]. destruct (Z.eqb_spec subtype 2) as [-> |]; [by unfold byte|done]. }
  destruct (made_received (session serverRandom clientRandom) (sha1 (cpub ++ spub)) (Hcount _ _) (proj2 (Hsha _))) as (h & cc & Mh & _ & Rh & Bh); [by rewrite Hlen|].
  destruct (made_received cc cr Bh Hcrb Hcrl) as (w & cc2 & Mw & _ & Rw & _).
  destruct (made_received (session clientRandom serverRandom) (sha1 (spub ++ cpub)) (Hcount _ _) (proj2 (Hsha _))) as (hs & ss & Ms & Ls & Rs & Bs); [by rewrite Hlen|].
  destruct (made_received ss [subtype] Bs) as (ts & ss2 & Mt & Lt & Rt & _); [by apply Forall_singleton|done|].
  rewrite Hlen in Mh, Rh, Ms, Rs. rewrite Hl1 in Mt, Rt. rewrite (proj1 (Hsha _)) in Ls.
  exists sr, h, w. split; [done|]. split; [|rewrite Rh; by rewrite Rw].
  intros c2 c3. unfold server_subtype, server_hash. rewrite Ms. cbn [fst snd]. rewrite Mt. cbn [fst]. intros Hc2 Hc3.
  set (s1 := session clientRandom serverRandom) in *. set (sh := sha1 (spub ++ cpub)) in *.
  assert (step (State (DecryptingRandom theirs mine sr) [] c) Tick = (State (ServerHash cc s1 sh) [] c, [Send (word16 20 ++ h)])) as T1.
  { cbn [step]. unfold tick. cbn [at_ clientRSACipher clientPublicKey serverPublickey]. rewrite Hdec, Hsl. cbn [Nat.eqb negb]. unfold session in Mh. by rewrite Mh. }
  assert (step (State (CheckingHash cc s1 sh hs) [] c) Tick = (State (Subtype cc ss) [] c, [])) as T2.
  { cbn [step]. unfold tick. cbn [at_]. rewrite Rs. by rewrite bool_decide_eq_true_2. }
  assert (step (State (DecryptingSubtype cc ss ts) [] c) Tick = (State (Sending cc cr) [] c, [])) as T3.
  { cbn [step]. unfold tick. cbn [at_ creds]. rewrite Rt. cbn [fst].
    assert (provide cc subtype (State (DecryptingSubtype cc ss ts) [] c) = State (Sending cc cr) [] c) as Hpr by (unfold provide; cbn [creds]; by rewrite Hhas, Hcred).
    assert (subtype = 1 ∨ subtype = 2) as [-> | ->].
    { clear -Hhas. unfold hasCredentials in Hhas. destruct (Z.eqb_spec subtype 1); [by left|]. destruct (Z.eqb_spec subtype 2); [by right|done]. }
    - change (default 0 (head [1])) with 1. cbn [Z.eqb Pos.eqb]. by rewrite Hpr, Hhas.
    - change (default 0 (head [2])) with 2. cbn [Z.eqb Pos.eqb]. by rewrite Hpr, Hhas. }
  assert (step (State (Sending cc cr) [] c) Tick = (State Completed [] c, [Send (word16 (Websock.len cr) ++ w)])) as T4.
  { cbn [step]. unfold tick. cbn [at_]. by rewrite Mw. }
  assert (run (State (ServerHash cc s1 sh) [] c) (Data <$> c2) = (State (CheckingHash cc s1 sh hs) [] c, [])) as R2.
  { apply (message_comes _ _ 20 hs); try done. apply (framed_whole 20 hs (λ e, CheckingHash cc s1 sh e) _ WrongHash); [lia|by rewrite Ls|done]. }
  assert (run (State (Subtype cc ss) [] c) (Data <$> c3) = (State (DecryptingSubtype cc ss ts) [] c, [])) as R3.
  { apply (message_comes _ _ 1 ts); try done. apply (framed_whole 1 ts (λ e, DecryptingSubtype cc ss e) _ WrongSubtype); [lia|by rewrite Lt|done]. }
  rewrite (exchange_app _ [_; _]). cbn [run]. rewrite random_comes, T1 by done. rewrite exchange_app, R2, exchange_app. cbn [run]. rewrite T2, exchange_app, R3. cbn [run]. by rewrite T3, T4.
Qed.
(** C16: a login with a server that plays its part and whose random comes in one
    piece with its length (in two, the exchange misreads it:
    [random_in_two_pieces]): its public key comes in any chunks, the user
    approves it, its random comes, its digest and the subtype come in any chunks.
    The console shows exactly the server's key, sends its own key, its random, its
    digest and the credentials, and is done; the server decrypts from them the
    random, the digest of both keys, and the credentials: the UTF-8 of the user
    name (nothing, when the subtype asks for a password only) and of the password,
    each after its length and cut to its first 255 bytes, so whole when it is no
    longer. *)
Theorem login_delivers_the_credentials c subtype us pw : hasCredentials subtype c = true →
  (if subtype =? 1 then Handshake.encode (default [] (Handshake.username c)) = Some us else us = []) →
  Handshake.encode (default [] (Handshake.password c)) = Some pw →
  Forall unit_ (default [] (Handshake.username c)) → Forall unit_ (default [] (Handshake.password c)) →
  let field (x : bytes) := Z.min (Websock.len x) 255 :: take 255 x in
  let cr := field us ++ field pw in
  ∃ skey ckey sr r h w,
    Rsa.generateKey (8 * Z.of_nat k) (Rsa.Jwk (Rsa.base64url sn) (Rsa.base64url se) (Rsa.base64url sd)) true = Some skey
    ∧ Rsa.importKey (Rsa.pad 256 cn) (Rsa.pad 256 ce) false ["encrypt"%string] = Some ckey
    ∧ Rsa.encrypt ckey serverPadding serverRandom = Some (Some sr)
    ∧ (∀ c1 c2 c3, concat c1 = spub → concat c2 = server_hash.1 → concat c3 = server_subtype subtype →
       run (start [] c) ((Data <$> c1) ++ [Tick; Approve; Tick; Tick] ++ [Data ([1; 0] ++ sr); Tick] ++ (Data <$> c2) ++ [Tick] ++ (Data <$> c3) ++ [Tick; Tick])
       = (State Completed [] c, [Verify spub; Send cpub; Send (word16 (Z.of_nat k) ++ r); Send (word16 20 ++ h); Send (word16 (Websock.len cr) ++ w)]))
    ∧ Rsa.decrypt skey r = Some (Some clientRandom)
    ∧ let '(got, cc) := receiveMessage (session serverRandom clientRandom) 20 h in
      got = Some (sha1 (cpub ++ spub)) ∧ (receiveMessage cc (Websock.len cr) w).1 = Some cr.
Proof.
  intros Hhas Hus Hpw Hu Hp field cr. assert (credentials_of subtype c = Some cr) as Hcred by (by apply credentials_fields).
  destruct (first_half c) as (r & H1 & Hdec). destruct (second_half c subtype cr Hhas Hcred Hu Hp) as (sr & h & w & He & H2 & H3).
  destruct Hdraws as [Hown Hserver _ _ _ _ _ _ _]. destruct (rsa_halves _ _ _ _ _ Hserver) as (Hg & _). destruct (rsa_halves _ _ _ _ _ Hown) as (_ & Hi & _).
  exists (Rsa.private_half k sn se sd true), (Rsa.public_half 256 cn ce false), sr, r, h, w.
  refine (conj Hg (conj Hi (conj He (conj _ (conj Hdec H3))))). intros c1 c2 c3 E1 E2 E3. rewrite app_assoc.
  apply (leads_app _ _ _ _ _ [_; _; _] [_; _] (H1 c1 E1) (H2 c2 c3 E2 E3)).
Qed.
End exchange.
(** the length of the server's random, and then its bytes: they are read before
    they have come *)
Lemma random_in_two_pieces k o c : (step (State (ServerRandom k o) [] c) (Data [1; 0])).1 = State Misread [] c.
Proof. reflexivity. Qed.
End ra2.

(** ** Keys to try it with: of many small primes *)
Definition trial (p : Z) : bool :=
  (2 <=? p) && (p <? 1681) && forallb (λ i, negb (p mod Z.of_nat i =? 0) || (p <=? Z.of_nat i)) (List.seq 2 39).
Lemma trial_prime p : trial p = true → Znumtheory.prime p.
Proof.
  unfold trial. intros [[H2%Z.leb_le Hlt%Z.ltb_lt]%andb_true_iff Ht]%andb_true_iff. rewrite forallb_forall in Ht.
  assert (∀ i, 2 <= i <= 40 → i < p → ¬ (i | p)) as Hn.
  { intros i Hi Hip Hd. specialize (Ht (Z.to_nat i)). rewrite Z2Nat.id, (proj2 (Z.leb_gt p i)), orb_false_r in Ht by lia.
    apply Z.mod_divide in Hd; [|lia]. rewrite Hd in Ht. by discriminate Ht; [apply in_seq; lia]. }
  destruct (Znumtheory.prime_dec p) as [|Hp]; [done|]. destruct (Znumtheory.not_prime_divide p ltac:(lia) Hp) as (n & Hn1 & [m Hm]). exfalso.
  destruct (decide (n <= 40)); [apply (Hn n); [lia|lia|by exists m]|]. apply (Hn m); [nia|nia|]. exists n. lia.
Qed.
(** up to [n], without [x] *)
Definition odd_primes (n : nat) (x : Z) : list Z := List.filter (λ p, trial p && negb (p =? x)) (Z.of_nat <$> List.seq 3 (n - 2)).
Fixpoint increasing (l : list Z) : bool :=
  match l with a :: ((b :: _) as t) => (a <? b) && increasing t | _ => true end.
Lemma increasing_different l : increasing l = true → NoDup l.
Proof.
  intros Hl. assert (StronglySorted Z.lt l) as Hs.
  { apply Sorted_StronglySorted; [intros ???; lia|]. induction l as [|a [|b l] IH]; [constructor|by repeat constructor|].
    apply andb_true_iff in Hl as [Hab%Z.ltb_lt Hl]. constructor; [by apply IH|by constructor]. }
  clear Hl. induction Hs as [|a l Hs IH Ha]; constructor; [|done]. intros Hin. rewrite Forall_forall in Ha. specialize (Ha a Hin). lia.
Qed.
Definition own_primes : list Z := Eval vm_compute in odd_primes 1481 211.
Definition server_primes : list Z := Eval vm_compute in odd_primes 743 11.
Definition own_modulus : bytes := Eval vm_compute in Websock.be_bytes 256 (Numbers.product own_primes).
Definition server_modulus : bytes := Eval vm_compute in Websock.be_bytes 128 (Numbers.product server_primes).
Definition own_d : bytes :=
  [117; 110; 118; 7; 10; 19; 16; 55; 60; 63; 38; 27; 255; 78; 255; 180; 166; 21; 120; 77; 42; 199;
    157; 45; 225; 144; 252; 78; 78; 207; 242; 230; 237; 220; 225; 213; 252; 78; 187; 227; 4; 187;
    210; 129; 50; 194; 215; 132; 28; 204; 74; 196; 219; 38; 105; 207; 1].
Definition server_d : bytes :=
  [3; 185; 62; 210; 178; 94; 138; 134; 188; 153; 37; 165; 161; 175; 247; 7; 90; 134; 203; 166; 58;
    123; 136; 35; 33; 94; 244; 215; 141; 83; 126; 14; 79; 96; 1].
Definition good_key (k : nat) (rs : list Z) (m d : bytes) : bool :=
  let n := Websock.be m in
  let dn := Websock.be d in
  forallb trial rs && increasing rs && (n =? Numbers.product rs) && (2 ^ (8 * Z.of_nat k - 1) <=? n) && (0 <? dn)
  && forallb (λ r, (65537 * dn) mod (r - 1) =? 1 mod (r - 1)) rs
  && forallb (λ b, (0 <=? b) && (b <? 256)) (m ++ d) && (length m <=? k)%nat && (length d <=? k)%nat && (3 <=? k)%nat.
Lemma good_key_drawn k rs m d : good_key k rs m d = true → Rsa.drawn k rs m [1; 0; 1] d.
Proof.
  unfold good_key. rewrite !andb_true_iff, !forallb_forall, Z.eqb_eq, Z.leb_le, Z.ltb_lt, !Nat.leb_le.
  intros [[[[[[[[[Hp Hi%increasing_different] Hn] Hs] Hd] He] Hb] Hm] Hl] Hk].
  assert (Forall byte m ∧ Forall byte d) as [Hbm Hbd].
  { apply Forall_app, List.Forall_forall. intros b Hin. specialize (Hb b Hin). unfold byte. lia. }
  assert (Forall byte [1; 0; 1]) as H1 by by repeat constructor.
  split; [lia|]. split; [|split; [done|by repeat (apply Forall_cons; split)]].
  split; [|done|done|done|done|]; apply List.Forall_forall; intros r Hr; [by apply trial_prime, Hp|]. specialize (He r Hr). by apply Z.eqb_eq in He.
Qed.
Lemma own_drawn : Rsa.drawn 256 own_primes own_modulus [1; 0; 1] own_d.
Proof. apply good_key_drawn. by vm_compute. Qed.
Lemma server_drawn : Rsa.drawn 128 server_primes server_modulus [1; 0; 1] server_d.
Proof. apply good_key_drawn. by vm_compute. Qed.
Definition toy_sha1 (x : bytes) : bytes := Websock.be_bytes 20 (Websock.be x).
Definition own_jwk : Rsa.jwk := Rsa.Jwk (Rsa.base64url own_modulus) (Rsa.base64url [1; 0; 1]) (Rsa.base64url own_d).
Lemma toy_draws : draws toy_sha1 own_jwk (replicate 16 1) (replicate 109 3) 128 own_primes server_primes own_modulus [1; 0; 1] own_d
  server_modulus [1; 0; 1] server_d (replicate 16 2) (replicate 237 0).
Proof.
  assert (∀ n b, 0 <= b < 256 → length (replicate n b) = n ∧ Forall byte (replicate n b)) as Hr.
  { intros n b Hb. split; [apply length_replicate|]. by apply Forall_replicate. }
  split; [exact own_drawn|exact server_drawn|lia|reflexivity|apply Hr; lia..|]. intros x. apply Aes.be_bytes_good.
Qed.
Definition alice : Handshake.credentials := Handshake.Credentials (Some [97; 108]) (Some [112]) None None None.
Lemma login_delivers_the_credentials_witness :
  ∃ es, let '(s, a) := run (web := Aes.toy) toy_sha1 own_jwk (replicate 16 1) (replicate 109 3) (start [] alice) es in
    at_ s = Completed ∧ length (sent a) = 4%nat.
Proof.
  destruct (login_delivers_the_credentials (web := Aes.toy) toy_sha1 own_jwk (replicate 16 1) (replicate 109 3) 128 own_primes server_primes own_modulus [1; 0; 1] own_d
    server_modulus [1; 0; 1] server_d (replicate 16 2) (replicate 237 0) toy_draws alice 1 [97; 108] [112]) as (skey & ckey & sr & r & h & w & _ & _ & _ & H & _);
    [reflexivity|reflexivity|reflexivity|by repeat constructor..|].
  pose proof (H [_] [_] [_] (app_nil_r _) (app_nil_r _) (app_nil_r _)) as E. eexists. rewrite E. by split.
Defined.
End Ra2.
